(* ===== verification/_CoqProject ===== *)
-Q . S2P
Prelude.v
Types.v
Toy.v
DewTx.v
Mempool.v
ValidatorSet.v
Votes.v
Quorum.v
Engine.v
Node.v
Agreement.v
Fork.v
Liveness.v
Rlp.v
EvmTx.v
Smt.v
StateDB.v
StateRevert.v
StateCommit.v
NativeState.v
Staking.v
StakingProps.v
StakingRevert.v
NativeExec.v
Vm.v
VmIsolated.v
Precompiles.v
ChainStore.v
Select.v
Chain.v
ChainRead.v
ChainImport.v
ChainOpen.v
ChainDurable.v
Orderbook.v
OrderbookProps.v
OrderbookSafe.v
OrderbookCall.v
OrderbookSolvent.v
P2PWire.v
P2PHost.v
P2PProps.v
P2PSync.v
Rpc.v
RpcProps.v
NodeP2P.v
Indexer.v
IndexerProps.v
Faucet.v
