(* ===== verification/Prelude.v ===== *)
(** * Dew: a verification library for the Dew layer-1 node

    Dew is a blockchain node written in Go.  Validators agree on blocks with
    Dew-BFT ([consensus/]); the chain node ([node/]) keeps transactions in a
    pool ([mempool/]), builds and imports blocks, executes EVM messages
    ([core/vm/]) and native transactions ([core/native/]) on a flat state
    database ([core/state/]) whose sparse Merkle root goes into the header, and
    writes everything to a key-value store ([db/]); hosts exchange blocks,
    transactions and votes ([p2p/]).  Around the chain are the JSON-RPC
    interface ([rpc/]), the history indexer ([indexer/]) and the faucet
    ([faucet/]).  This library models those parts as Rocq functions on explicit
    states and proves what makes them correct.

    ** Conventions

    A Go [uint64] or [uint256.Int] is an integer kept in range with its
    wrap-around written out (the operators with the index 64 or 256 of this
    file); addresses and hashes are integers, byte strings and text are lists
    of integers.  A result with an error is [res]; an operation that can panic
    returns an option, [None] being the panic.  A method is a function from
    state to state; a mutex makes a call atomic, and where the code releases it
    in between the call is split there (the engine's validator callback, the two
    critical sections of a filter poll).  The iteration order of a Go map is a
    parameter with the law that it lists the map.  Code outside the repository
    is a parameter with its documented behaviour as laws of a type class:
    Keccak-256, ECDSA and the RLP encoder ([Types.Crypto]), the RLP decoder
    ([Rlp.RlpCodec]), go-ethereum's transactions ([ChainStore.EthCodec]) and
    interpreter ([Vm.EVM]), AES-GCM and X25519 ([P2PWire]), SQLite (the tables
    of [Indexer]).  [Toy] and the ends of the files hold instances at which the
    theorems are evaluated.

    ** Files

    - [Prelude]: arithmetic, results, lists, tactics and hints used throughout.
    - [Types], [DewTx], [Rlp], [EvmTx]: headers, blocks, hashes and both kinds
      of transactions with their codecs and signatures ([core/types/],
      [crypto/]).
    - [ValidatorSet], [Votes], [Quorum], [Engine], [Node]: the validator set
      and proposer rotation, proposals, votes and evidence, the vote sets, the
      round state machine of one validator and its calls as a step relation
      ([consensus/]).  [Agreement], [Fork], [Liveness]: networks of validators.
    - [Mempool]: the pool.  [Select]: the fee auction of [node/build.go].
    - [Smt], [StateDB], [StateRevert], [StateCommit]: the Merkle root, the
      state with its journal, snapshots and flush ([core/state/]).
    - [NativeState]: what the native modules need of the state, as a class with
      laws that the state database satisfies.  [Staking], [StakingProps],
      [StakingRevert], [NativeExec], [Orderbook], [OrderbookProps],
      [OrderbookSafe]: staking, native transactions and the order book over
      that interface ([core/native/]).
    - [Vm], [VmIsolated], [Precompiles], [OrderbookCall], [OrderbookSolvent]:
      message execution and the system contracts ([core/vm/]).
    - [ChainStore], [Chain], [ChainRead], [ChainImport], [ChainOpen],
      [ChainDurable]: the node, its disk format and restart ([node/],
      [config/genesis.go]).
    - [P2PWire], [P2PHost], [P2PProps], [P2PSync]: messages, frames and
      encryption, and the host with its handlers, peer store and sync ([p2p/]).
      [NodeP2P]: the node behind the host ([node/p2p.go], [node/stack.go]).
    - [Rpc], [RpcProps]: text formats and polling filters ([rpc/hexutil.go],
      [rpc/filter.go]).
    - [Indexer], [IndexerProps]: tables, ingest and catch-up ([indexer/]).
    - [Faucet]: rate limits, configuration and the drip handler ([faucet/]).

    ** What is shown

    - Consensus, for one fixed validator set whose tripled total power is below
      2^64 (the quorum test multiplies modulo 2^64): with more than two thirds
      honest power no round commits two blocks; a violation proves more than a
      third guilty; honest validators never equivocate; committed blocks were
      validated; a round with an honest proposer whose messages arrive commits,
      in any order of arrival; proposer rotation is exactly proportional to
      power.  Different rounds of a height are not protected, and a fork
      without faults is exhibited.
    - State: reverting restores balances, nonces, code, storage, refund, logs,
      access list, transient storage and self-destruct marks, and adds to the
      accounts at most empty ones; the level-by-level root is the root of the
      full tree of depth 256 and binds its leaves; a persisted block survives a
      restart.
    - Execution: native transactions conserve wei and respect their access list
      as long as sums fit 256 bits; delegation shares add up; unbonded stake is
      paid once; staking calls act only for the caller; orders whose lock fits
      256 bits can always be cancelled and filled, and the contract can pay.
    - Node: the pool refines an abstract pool and keeps its limits; selection
      ends and is the fee auction; gas estimation ends; an import extends the
      chain or leaves it as it was or takes the process down; a full node that
      is behind imports the whole chain of a peer whose answers fit a message.
    - Network: every message and frame reads back; sessions agree on keys;
      handshakes between honest hosts succeed; the host's tables stay bounded;
      block requests are answered with bounded batches, but for one range.
    - Services: RPC text reads back, polls report each block once, filters are
      limited; the indexer's tip never runs ahead of its tables and reaches the
      chain's; the faucet pays less than twice its limits and only what it
      should.
    - Places where the code does not do what it means to are theorems too:
      wrapping debits, storage that survives a revert, a stale call value, an
      [eth_call] that changes the state root, and the lemmas
      [ValidatorSet.quorum_wraps], [StateRevert.selfdestruct_revert_loses_code],
      [OrderbookSafe.order_lock_wraps] and [Select.selection_gas_wraps].

    ** Hashes

    Where a theorem needs that Keccak-256 does not collide, it says on which
    strings: [Types.collision_free] of a set of strings is injectivity of the
    hash on it, and the set is always the finite one of the strings the code
    hashes in the case at hand (the nodes of two trees, the preimages of two
    fingerprints or keys).  For the storage of the native modules
    [slots_distinct] and [obslots_distinct] say the same of the slots of a
    finite list of accounts; [StakingProps.staking_slots_separated] derives the
    first from collision freedom.  The witnesses prove these hypotheses for a
    concrete hash.

    ** Fuel

    Loops that are not structural carry fuel.  Selection uses [select_fuel],
    the number of pooled transactions and more, shown to suffice; gas
    estimation 64 probes, since each halves an interval of 64-bit numbers; sync
    as many requests as blocks are missing; catch-up of the indexer the 10000
    rounds of the source; the Merkle climb the 256 levels of the tree; decimal
    and hexadecimal printing the digits of a 64-bit number.

    ** Not modelled

    - Sockets, HTTP and WebSocket servers, JSON rendering and parsing, files
      and processes ([rpc/api.go], [rpc/ws.go], [rpc/server.go],
      [indexer/server.go], [faucet/rpc.go], [faucet/captcha.go], [cmd/],
      [devnet/], [crypto/wallet/], the Pebble directory): their content is
      input and output, and the operations they call are modelled.
    - Goroutines and timers ([consensus/runner.go], [consensus/local.go],
      [node/stack.go], the read, write and dial loops of [p2p/]): the step
      relations quantify over the calls they can make in any order.
    - The EVM interpreter, which is go-ethereum's, and the token bytecode.
    - [core/vm/parallel.go], speculative execution that the node does not
      reach; [Copy] and [ApplyOverlay] under it are modelled. *)
From stdpp Require Export base gmap list strings sorting.
From Stdlib Require Export ZArith Lia.

#[export] Set Default Goal Selector "!".

Declare Scope dew_scope.
Delimit Scope dew_scope with dew.
Global Open Scope Z_scope.
Global Open Scope dew_scope.

(** ** Machine integers

    Go's [uint64] and [holiman/uint256.Int] values are integers kept in
    range; the arithmetic writes its wrap-around out. *)
Definition u8 (x : Z) : Z := x mod 2 ^ 8.
Definition u64 (x : Z) : Z := x mod 2 ^ 64.
Definition u256 (x : Z) : Z := x mod 2 ^ 256.

Definition is_u64 (x : Z) : Prop := 0 <= x < 2 ^ 64.
Definition is_u256 (x : Z) : Prop := 0 <= x < 2 ^ 256.

(** [uint256.Int.Div]: division by zero yields zero. *)
Definition div256 (x y : Z) : Z := if y =? 0 then 0 else x / y.

Notation "x +₆₄ y" := (u64 (x + y)) (at level 50, left associativity) : dew_scope.
Notation "x *₆₄ y" := (u64 (x * y)) (at level 40, left associativity) : dew_scope.
Notation "x -₆₄ y" := (u64 (x - y)) (at level 50, left associativity) : dew_scope.
Notation "x +₂₅₆ y" := (u256 (x + y)) (at level 50, left associativity) : dew_scope.
Notation "x *₂₅₆ y" := (u256 (x * y)) (at level 40, left associativity) : dew_scope.
Notation "x -₂₅₆ y" := (u256 (x - y)) (at level 50, left associativity) : dew_scope.

(** ** Fallible code: Go's [(value, error)] results *)
Inductive res (A : Type) : Type :=
| Ok (a : A)
| Err (e : string).
Arguments Ok {A} a.
Arguments Err {A} e.

Definition is_ok {A} (r : res A) : bool :=
  match r with Ok _ => true | Err _ => false end.

Definition rbind {A B} (r : res A) (f : A → res B) : res B :=
  match r with Ok a => f a | Err e => Err e end.

Notation "'let?' x ':=' r 'in' k" := (rbind r (fun x => k))
  (at level 10, x pattern, r at level 100, k at level 200) : dew_scope.

(** The guard [if cond { return err }]. *)
Definition throw_if (b : bool) (e : string) : res unit := if b then Err e else Ok tt.

(** ** Bytes: big-endian encodings as in [encoding/binary] *)
Fixpoint be_bytes (n : nat) (z : Z) : list Z :=
  match n with
  | O => []
  | S m => be_bytes m (z / 256) ++ [z mod 256]
  end.

Definition of_be (l : list Z) : Z := foldl (λ acc b, acc * 256 + b) 0 l.

Definition is_byte (b : Z) : Prop := 0 <= b < 256.
Definition bytes_ok (l : list Z) : Prop := Forall is_byte l.

(** The bytes of a Go string literal. *)
Fixpoint str_bytes (s : string) : list Z :=
  match s with
  | EmptyString => []
  | String c s' => Z.of_nat (Ascii.nat_of_ascii c) :: str_bytes s'
  end.

(** Slicing [b[i:j]]. *)
Definition slice (i j : nat) (l : list Z) : list Z := take (j - i) (drop i l).

(** ** Sums over lists and maps *)
Definition sumZ (l : list Z) : Z := foldr Z.add 0 l.

Definition map_sum `{Countable K} {A} (f : K → A → Z) (m : gmap K A) : Z :=
  map_fold (λ k a acc, f k a + acc) 0 m.

(** Go's [range] over a map visits the entries in an unspecified order: code
    that ranges over a map is modelled over an order [rng], of which only
    this law is used. *)
Definition range_ok `{Countable K} {A} (rng : gmap K A → list (K * A)) : Prop :=
  ∀ m, rng m ≡ₚ map_to_list m.

(** ** Automation *)
Create HintDb dew discriminated.
Create Rewrite HintDb dewrw.

(** [lia] with division and modulo turned into equations. *)
Ltac zlia := Z.div_mod_to_equations; lia.

(** Decides every boolean comparison on [Z] in sight. *)
Ltac zbool :=
  repeat match goal with
  | H : (_ =? _) = true |- _ => apply Z.eqb_eq in H
  | H : (_ =? _) = false |- _ => apply Z.eqb_neq in H
  | H : (_ <? _) = true |- _ => apply Z.ltb_lt in H
  | H : (_ <? _) = false |- _ => apply Z.ltb_ge in H
  | H : (_ <=? _) = true |- _ => apply Z.leb_le in H
  | H : (_ <=? _) = false |- _ => apply Z.leb_gt in H
  | H : (_ >? _) = true |- _ => apply Z.gtb_lt in H
  | H : (_ >? _) = false |- _ => rewrite Z.gtb_ltb in H; apply Z.ltb_ge in H
  | H : (_ >=? _) = true |- _ => apply Z.geb_le in H
  | H : (_ >=? _) = false |- _ => rewrite Z.geb_leb in H; apply Z.leb_gt in H
  | H : andb _ _ = true |- _ => apply andb_true_iff in H; destruct H
  | H : orb _ _ = false |- _ => apply orb_false_iff in H; destruct H
  | H : negb _ = true |- _ => apply negb_true_iff in H
  | H : negb _ = false |- _ => apply negb_false_iff in H
  | H : bool_decide _ = true |- _ => apply bool_decide_eq_true in H
  | H : bool_decide _ = false |- _ => apply bool_decide_eq_false in H
  end.

(** Splits the first [if]/[match] scrutinee found in a hypothesis or goal. *)
Ltac split_if :=
  match goal with
  | |- context [if ?b then _ else _] => destruct b eqn:?; zbool
  | H : context [if ?b then _ else _] |- _ => destruct b eqn:?; zbool
  end.

Ltac split_match :=
  match goal with
  | H : context [match ?x with _ => _ end] |- _ => destruct x eqn:?; zbool
  | |- context [match ?x with _ => _ end] => destruct x eqn:?; zbool
  end.

(** A decidable closed goal, by evaluation. *)
Ltac vm_decide := refine (bool_decide_unpack _ _); vm_compute; exact I.

(** ** Machine integers: lemmas *)
Lemma u64_range x : is_u64 (u64 x).
Proof. unfold is_u64, u64. apply Z.mod_pos_bound. lia. Qed.

Lemma u256_range x : is_u256 (u256 x).
Proof. unfold is_u256, u256. apply Z.mod_pos_bound. lia. Qed.

Lemma u64_id x : is_u64 x → u64 x = x.
Proof. intros H. apply Z.mod_small, H. Qed.

Lemma u256_id x : is_u256 x → u256 x = x.
Proof. intros H. apply Z.mod_small, H. Qed.

Lemma u256_sub x y : is_u256 x → 0 <= y <= x → x -₂₅₆ y = x - y.
Proof. intros Hx Hy. apply u256_id. unfold is_u256 in *. lia. Qed.

Lemma u256_add x y : 0 <= x → 0 <= y → x + y < 2 ^ 256 → x +₂₅₆ y = x + y.
Proof. intros. apply u256_id. unfold is_u256. lia. Qed.

Lemma u64_u64 x : u64 (u64 x) = u64 x.
Proof. apply u64_id, u64_range. Qed.

Lemma div256_range x y : is_u256 x → 0 <= y → is_u256 (div256 x y).
Proof.
  unfold is_u256, div256. intros [? ?] ?. destruct (y =? 0) eqn:E; zbool; [lia|].
  split; [apply Z.div_pos; lia|]. apply Z.div_lt_upper_bound; nia.
Qed.

#[export] Hint Resolve u64_range u256_range : dew.
#[export] Hint Rewrite u64_u64 : dewrw.

(** ** Bytes: lemmas *)
Lemma be_bytes_length n z : length (be_bytes n z) = n.
Proof. revert z; induction n; intros z; cbn; [done|]. rewrite length_app, IHn. cbn. lia. Qed.

Lemma of_be_app l1 l2 : of_be (l1 ++ l2) = foldl (λ acc b, acc * 256 + b) (of_be l1) l2.
Proof. unfold of_be. by rewrite foldl_app. Qed.

Lemma of_be_snoc l b : of_be (l ++ [b]) = of_be l * 256 + b.
Proof. by rewrite of_be_app. Qed.

Lemma be_bytes_ok n z : bytes_ok (be_bytes n z).
Proof.
  revert z; induction n; intros z; cbn; [constructor|].
  apply Forall_app; split; [apply IHn|]. constructor; [|constructor].
  unfold is_byte. apply Z.mod_pos_bound. lia.
Qed.

Lemma of_be_be_bytes n z : 0 <= z → of_be (be_bytes n z) = z mod 256 ^ Z.of_nat n.
Proof.
  revert z; induction n; intros z Hz; cbn [be_bytes].
  - by rewrite Z.pow_0_r, Z.mod_1_r.
  - rewrite of_be_snoc, IHn by (apply Z.div_pos; lia).
    rewrite Nat2Z.inj_succ, Z.pow_succ_r by lia.
    rewrite Z.rem_mul_r by lia. lia.
Qed.

Lemma of_be_be_bytes_id n z : 0 <= z < 256 ^ Z.of_nat n → of_be (be_bytes n z) = z.
Proof. intros. rewrite of_be_be_bytes by lia. apply Z.mod_small. lia. Qed.

Lemma of_be_range l : bytes_ok l → 0 <= of_be l < 256 ^ Z.of_nat (length l).
Proof.
  induction l as [|b l IH] using rev_ind; intros Hl; [by cbn|].
  apply Forall_app in Hl as [Hl Hb]. apply Forall_cons in Hb as [Hb _].
  rewrite of_be_snoc, length_app. cbn [length].
  rewrite Nat.add_1_r, Nat2Z.inj_succ, Z.pow_succ_r by lia.
  unfold is_byte in Hb. specialize (IH Hl). lia.
Qed.

Lemma be_bytes_of_be l : bytes_ok l → be_bytes (length l) (of_be l) = l.
Proof.
  induction l as [|b l IH] using rev_ind; intros Hl; [done|].
  apply Forall_app in Hl as [Hl Hb]. apply Forall_cons in Hb as [Hb _].
  unfold is_byte in Hb.
  rewrite of_be_snoc, length_app. cbn [length]. rewrite Nat.add_1_r. cbn [be_bytes].
  f_equal; [|f_equal]; [|zlia].
  rewrite Z.div_add_l, Z.div_small, Z.add_0_r by lia. by apply IH.
Qed.

Lemma be_bytes_inj n x y :
  0 <= x < 256 ^ Z.of_nat n → 0 <= y < 256 ^ Z.of_nat n →
  be_bytes n x = be_bytes n y → x = y.
Proof.
  intros Hx Hy E. rewrite <- (of_be_be_bytes_id n x), <- (of_be_be_bytes_id n y) by done.
  by rewrite E.
Qed.

(** The low bytes of an encoding. *)
Lemma be_bytes_drop (k m : nat) z : drop k (be_bytes (k + m) z) = be_bytes m z.
Proof.
  revert z. induction m as [|m IH]; intros z.
  - rewrite Nat.add_0_r, drop_ge; [done|]. by rewrite be_bytes_length.
  - rewrite Nat.add_succ_r. cbn [be_bytes]. rewrite drop_app_le, IH; [done|].
    rewrite be_bytes_length. lia.
Qed.

Lemma slice_app_l (i j : nat) (l1 l2 : list Z) :
  (j <= length l1)%nat → slice i j (l1 ++ l2) = slice i j l1.
Proof.
  intros H. unfold slice. destruct (decide (i <= length l1)%nat).
  - rewrite drop_app_le, take_app_le by (rewrite ?length_drop; lia). done.
  - replace (j - i)%nat with 0%nat by lia. done.
Qed.

Lemma slice_app_r (i j : nat) (l1 l2 : list Z) :
  (length l1 <= i)%nat → slice i j (l1 ++ l2) = slice (i - length l1) (j - length l1) l2.
Proof.
  intros H. unfold slice. rewrite drop_app_ge by lia. f_equal. lia.
Qed.

Lemma slice_full (j : nat) (l : list Z) : j = length l → slice 0 j l = l.
Proof. intros ->. unfold slice. rewrite Nat.sub_0_r. cbn. by rewrite firstn_all. Qed.

(** ** Sums: lemmas *)
Lemma sumZ_cons x l : sumZ (x :: l) = x + sumZ l.
Proof. reflexivity. Qed.

Lemma sumZ_app l1 l2 : sumZ (l1 ++ l2) = sumZ l1 + sumZ l2.
Proof. unfold sumZ. induction l1 as [|x l1 IH]; cbn in *; lia. Qed.

Lemma sumZ_nonneg l : Forall (λ x, 0 <= x) l → 0 <= sumZ l.
Proof. unfold sumZ. induction 1; cbn in *; lia. Qed.

Lemma sumZ_perm l1 l2 : l1 ≡ₚ l2 → sumZ l1 = sumZ l2.
Proof. unfold sumZ. induction 1; cbn in *; lia. Qed.

Section MapSum.
Context `{Countable K} {A : Type}.
Implicit Types (m : gmap K A) (f g : K → A → Z).

Lemma map_sum_empty f : map_sum f ∅ = 0.
Proof. unfold map_sum. by rewrite map_fold_empty. Qed.

Lemma map_sum_insert f m k a : m !! k = None → map_sum f (<[k:=a]> m) = f k a + map_sum f m.
Proof. intros Hk. unfold map_sum. rewrite map_fold_insert_L; [done|intros; lia|done]. Qed.

Lemma map_sum_delete f m k a : m !! k = Some a → map_sum f m = f k a + map_sum f (delete k m).
Proof.
  intros Hk. rewrite <- (map_sum_insert f (delete k m) k a) by apply lookup_delete_eq.
  by rewrite insert_delete_id.
Qed.

Lemma map_sum_update f m k a b :
  m !! k = Some a → map_sum f (<[k:=b]> m) = map_sum f m - f k a + f k b.
Proof.
  intros Hk. rewrite (map_sum_delete f m k a Hk), <- insert_delete_eq.
  rewrite map_sum_insert by apply lookup_delete_eq. lia.
Qed.

Lemma map_sum_ext f g m : (∀ k a, m !! k = Some a → f k a = g k a) → map_sum f m = map_sum g m.
Proof.
  induction m as [|k a m Hk IH] using map_ind; intros E; [by rewrite !map_sum_empty|].
  rewrite !map_sum_insert by done. rewrite (E k a) by apply lookup_insert_eq. f_equal. apply IH.
  intros k' a' Hk'. apply E. rewrite lookup_insert_ne; [done|congruence].
Qed.

Lemma map_sum_le f g m : (∀ k a, m !! k = Some a → f k a <= g k a) → map_sum f m <= map_sum g m.
Proof.
  induction m as [|k a m Hk IH] using map_ind; intros E; [by rewrite !map_sum_empty|].
  rewrite !map_sum_insert by done. specialize (E k a) as Ek. rewrite lookup_insert_eq in Ek.
  specialize (Ek eq_refl).
  enough (map_sum f m <= map_sum g m) by lia. apply IH.
  intros k' a' Hk'. apply E. rewrite lookup_insert_ne; [done|congruence].
Qed.

Lemma map_sum_zero m : map_sum (λ _ _, 0) m = 0.
Proof.
  induction m as [|k a m Hk IH] using map_ind; [by rewrite map_sum_empty|by rewrite map_sum_insert, IH].
Qed.

Lemma map_sum_nonneg f m : (∀ k a, m !! k = Some a → 0 <= f k a) → 0 <= map_sum f m.
Proof.
  intros E. rewrite <- (map_sum_zero m). by apply map_sum_le.
Qed.

Lemma map_sum_plus f g m : map_sum (λ k a, f k a + g k a) m = map_sum f m + map_sum g m.
Proof.
  induction m as [|k a m Hk IH] using map_ind; [by rewrite !map_sum_empty|].
  rewrite !map_sum_insert by done. lia.
Qed.
End MapSum.
