(* ===== verification/Types.v ===== *)
(** * Shared protocol data: hashes, addresses, headers, blocks

    Models [crypto/crypto.go], [core/types/hash.go], [core/types/header.go],
    [core/types/block.go] and the transaction root of
    [core/types/transaction.go].

    A Go [Address] ([[20]byte]) and [Hash] ([[32]byte]) are kept as the
    integers their bytes spell big-endian; [addr_bytes] and [hash_bytes] give
    the arrays back.  Byte-string comparison of two arrays of one length is
    then integer comparison.  Keccak-256, RLP and ECDSA come from go-ethereum
    and are the parameters of the class [Crypto]. *)
From S2P Require Import Prelude.

Abbreviation Address := Z (only parsing).
Abbreviation Hash := Z (only parsing).

Definition is_addr (a : Address) : Prop := 0 <= a < 2 ^ 160.
Definition is_hash (h : Hash) : Prop := 0 <= h < 2 ^ 256.

(** The values handed to [rlp.Encode]: byte strings, unsigned integers
    ([uint64], [*big.Int]) and lists of such values. *)
#[warnings="-register-all"]
Inductive rlp_item : Type :=
| RStr (b : list Z)
| RNum (n : Z)
| RList (l : list rlp_item).

(** The go-ethereum functions the source calls. *)
Class Crypto : Type := {
  (** [ethcrypto.Keccak256] of the concatenated arguments *)
  Keccak256 : list Z → list Z;
  (** [rlp.EncodeToBytes] *)
  rlp_encode : rlp_item → list Z;
  (** [*ecdsa.PrivateKey] and [ethcrypto.FromECDSAPub] of its public half *)
  PrivateKey : Type;
  pubkey_bytes : PrivateKey → list Z;
  (** [ethcrypto.Sign] and [ethcrypto.Ecrecover] on a 32-byte digest *)
  eth_sign : list Z → PrivateKey → res (list Z);
  eth_ecrecover : list Z → list Z → res (list Z);
}.

(** What the source relies on of these functions. *)
Class CryptoLaws `(C : Crypto) : Prop := {
  keccak_length : ∀ b, length (Keccak256 b) = 32%nat;
  keccak_bytes : ∀ b, bytes_ok (Keccak256 b);
  pubkey_length : ∀ k, length (pubkey_bytes k) = 65%nat;
  sign_recovers : ∀ d k, length d = 32%nat → bytes_ok d →
    ∃ sig, eth_sign d k = Ok sig ∧ length sig = 65%nat ∧ bytes_ok sig
           ∧ (∃ v, last sig = Some v ∧ (v = 0 ∨ v = 1))
           ∧ eth_ecrecover d sig = Ok (pubkey_bytes k);
}.

(** The hash function separates the byte strings of a set.  The theorems that
    need it name the set: strings that the code hashes, never all strings. *)
Definition collision_free `{C : Crypto} (P : list Z → Prop) : Prop :=
  ∀ x y, P x → P y → Keccak256 x = Keccak256 y → x = y.

Definition addr_bytes (a : Address) : list Z := be_bytes 20 a.
Definition hash_bytes (h : Hash) : list Z := be_bytes 32 h.

(** [BytesToHash]: right-aligned if shorter, the last 32 bytes if longer. *)
Definition BytesToHash (b : list Z) : Hash :=
  of_be (if (32 <? length b)%nat then drop (length b - 32) b else b).

Definition Hash_IsZero (h : Hash) : bool := h =? 0.

Section WithCrypto.
Context `{C : Crypto}.

(** [types.Keccak256Hash] *)
Definition Keccak256Hash (b : list Z) : Hash := BytesToHash (Keccak256 b).

Definition EmptyCodeHash : Hash := Keccak256Hash [].

(** [crypto.Sign] and [crypto.Ecrecover]: the digest length is checked. *)
Definition Sign (digest : list Z) (key : PrivateKey) : res (list Z) :=
  if negb (length digest =? 32)%nat then Err "crypto: digest must be 32 bytes"
  else eth_sign digest key.

Definition Ecrecover (digest sig : list Z) : res (list Z) :=
  if negb (length digest =? 32)%nat then Err "crypto: digest must be 32 bytes"
  else eth_ecrecover digest sig.

(** [crypto.PubkeyToAddress]: Keccak-256(uncompressed key without its tag)[12:32] *)
Definition PubkeyToAddress (key : PrivateKey) : Address :=
  of_be (drop 12 (Keccak256 (drop 1 (pubkey_bytes key)))).

Record Header : Type := mkHeader {
  ParentHash : Hash;
  StateRoot : Hash;
  TxRoot : Hash;
  ReceiptRoot : Hash;
  Number : Z;
  Timestamp : Z;
  GasLimit : Z;
  GasUsed : Z;
  BaseFee : option Z;
  ExtraData : list Z;
  Proposer : Address;
}.

(** [Header.EncodeRLP]: the canonical field order; a nil [BaseFee] encodes
    as the integer 0. *)
Definition Header_EncodeRLP (h : Header) : list Z :=
  rlp_encode (RList [
    RStr (hash_bytes (ParentHash h));
    RStr (hash_bytes (StateRoot h));
    RStr (hash_bytes (TxRoot h));
    RStr (hash_bytes (ReceiptRoot h));
    RNum (Number h);
    RNum (Timestamp h);
    RNum (GasLimit h);
    RNum (GasUsed h);
    RNum (default 0 (BaseFee h));
    RStr (ExtraData h);
    RStr (addr_bytes (Proposer h))]).

Definition Header_Hash (h : Header) : Hash := Keccak256Hash (Header_EncodeRLP h).

(** A transaction is its signed wire encoding ([MarshalBinary]); its hash is
    the Keccak-256 of that. *)
Abbreviation Transaction := (list Z) (only parsing).
Definition Transaction_Hash (tx : Transaction) : Hash := Keccak256Hash tx.

Definition EmptyTxRoot : Hash := Keccak256Hash (rlp_encode (RList [])).
Definition EmptyReceiptRoot : Hash := EmptyTxRoot.

Definition TxRootOf (txs : list Transaction) : Hash :=
  match txs with
  | [] => EmptyTxRoot
  | _ => Keccak256Hash (rlp_encode (RList (map (λ tx, RStr (hash_bytes (Transaction_Hash tx))) txs)))
  end.

Record Block : Type := mkBlock { header : Header; transactions : list Transaction }.

Definition set_roots (h : Header) (tr rr : Hash) : Header :=
  mkHeader (ParentHash h) (StateRoot h) tr rr (Number h) (Timestamp h)
    (GasLimit h) (GasUsed h) (BaseFee h) (ExtraData h) (Proposer h).

(** [NewBlock]: zero roots are filled in. *)
Definition NewBlock (h : Header) (txs : list Transaction) : Block :=
  let tr := if Hash_IsZero (TxRoot h) then TxRootOf txs else TxRoot h in
  let rr := if Hash_IsZero (ReceiptRoot h) then EmptyReceiptRoot else ReceiptRoot h in
  mkBlock (set_roots h tr rr) txs.

Definition Block_Hash (b : Block) : Hash := Header_Hash (header b).

(** ** Lemmas *)
Context {L : CryptoLaws C}.

Lemma BytesToHash_32 b : length b = 32%nat → BytesToHash b = of_be b.
Proof. intros H. unfold BytesToHash. by rewrite H. Qed.

Lemma BytesToHash_hash_bytes h : is_hash h → BytesToHash (hash_bytes h) = h.
Proof.
  intros H. unfold hash_bytes. rewrite BytesToHash_32 by apply be_bytes_length.
  apply of_be_be_bytes_id. exact H.
Qed.

Lemma Keccak256Hash_is_hash b : is_hash (Keccak256Hash b).
Proof using L.
  unfold Keccak256Hash, is_hash. rewrite BytesToHash_32 by apply keccak_length.
  pose proof (of_be_range (Keccak256 b) (keccak_bytes b)) as H.
  rewrite keccak_length in H. exact H.
Qed.

Lemma addr_bytes_roundtrip a : is_addr a → of_be (addr_bytes a) = a.
Proof. intros H. apply of_be_be_bytes_id. exact H. Qed.

Lemma addr_bytes_length a : length (addr_bytes a) = 20%nat.
Proof. apply be_bytes_length. Qed.

Lemma hash_bytes_length h : length (hash_bytes h) = 32%nat.
Proof. apply be_bytes_length. Qed.

Lemma addr_bytes_inj a b : is_addr a → is_addr b → addr_bytes a = addr_bytes b → a = b.
Proof. intros Ha Hb. by apply (be_bytes_inj 20). Qed.

Lemma PubkeyToAddress_is_addr k : is_addr (PubkeyToAddress k).
Proof using L.
  unfold PubkeyToAddress, is_addr.
  set (b := Keccak256 _).
  assert (Hl : length (drop 12 b) = 20%nat) by (rewrite length_drop; unfold b; by rewrite keccak_length).
  assert (Hb : bytes_ok (drop 12 b)) by (apply Forall_drop, keccak_bytes).
  pose proof (of_be_range _ Hb) as H. rewrite Hl in H. exact H.
Qed.
End WithCrypto.

#[export] Hint Resolve Keccak256Hash_is_hash PubkeyToAddress_is_addr : dew.
