(* ===== verification/Toy.v ===== *)
(** * A concrete instance of the go-ethereum parameters

    The theorems of the development hold for every [Crypto] with its laws.
    This file exhibits one, so that the statements can be evaluated on concrete
    inputs: a polynomial hash modulo a 31-bit prime, a tagged serialisation
    and a signature scheme that carries the key.  It stands for no code. *)
From S2P Require Import Prelude Types.

Definition toy_hash (b : list Z) : list Z := 
  be_bytes 32 (foldl (λ acc x, (acc * 65599 + x + 1) mod 2147483647) 7 b).

Fixpoint toy_rlp (i : rlp_item) : list Z :=
  match i with
  | RStr b => 1 :: Z.of_nat (length b) :: b
  | RNum n => [2; n]
  | RList l => 3 :: Z.of_nat (length l) :: concat (map toy_rlp l)
  end.

Definition toy_key_bytes (k : Z) : list Z := be_bytes 32 (k mod 256 ^ 32).

Definition toy_crypto : Crypto := {|
  Keccak256 := toy_hash;
  rlp_encode := toy_rlp;
  PrivateKey := Z;
  pubkey_bytes k := be_bytes 33 0 ++ toy_key_bytes k;
  eth_sign d k := Ok (toy_key_bytes k ++ d ++ [0]);
  eth_ecrecover d sig :=
    if bool_decide (drop 32 sig = d ++ [0]) then Ok (be_bytes 33 0 ++ take 32 sig)
    else Err "invalid signature"
|}.

Lemma toy_crypto_laws : CryptoLaws toy_crypto.
Proof.
  split.
  - intros b. apply be_bytes_length.
  - intros b. apply be_bytes_ok.
  - intros k. cbn -[be_bytes toy_key_bytes]. rewrite length_app. unfold toy_key_bytes.
    by rewrite !be_bytes_length.
  - intros d k Hd Hb. exists (toy_key_bytes k ++ d ++ [0]). cbn -[be_bytes toy_key_bytes].
    assert (length (toy_key_bytes k) = 32%nat) as Hk by apply be_bytes_length.
    split_and!; [done| | | |].
    + rewrite !length_app, Hk, Hd. done.
    + apply Forall_app_2; [apply be_bytes_ok|]. apply Forall_app_2; [done|]. repeat constructor; lia.
    + rewrite app_assoc, last_snoc. eauto.
    + rewrite drop_app_length' by done. rewrite take_app_length' by done.
      by rewrite bool_decide_true.
Qed.
