(* ===== verification/DewTx.v ===== *)
(** * Native transactions

    Models [core/types/dewtx.go]: the [DewTx] structure, its signed and
    unsigned RLP images, the wire envelope, the signing digest, signing and
    sender recovery.

    A [*big.Int] or [*uint256.Int] field is an [option Z], [None] being a nil
    pointer.  A Go panic is [None] at the outer [option] of a result.
    [rlp.DecodeBytes] into the signed structure is the parameter
    [rlp_decode_dewtx]; its laws say that it inverts [rlp.EncodeToBytes] and
    that it accepts only canonical encodings. *)
From S2P Require Import Prelude Types Toy.

Definition DewTxType : Z := 0xdf.
Definition DewTxVersion : Z := 1.
Definition DewTxDomainTag : string := "DewTx:v1".
Definition DefaultDewTxFeeWei : Z := 2100000000000.

Record DewTx : Type := mkDewTx {
  dtx_Version : Z;
  dtx_ChainID : option Z;
  dtx_Nonce : Z;
  dtx_Sender : Address;
  dtx_Receiver : Address;
  dtx_Amount : option Z;
  dtx_Fee : Z;
  dtx_Payload : list Z;
  dtx_AccessList : list Address;
  dtx_V : option Z;
  dtx_R : option Z;
  dtx_S : option Z;
  dtx_hash : Hash;
}.

Record dewTxUnsignedRLP : Type := mkUnsigned {
  u_Version : Z;
  u_ChainID : Z;
  u_Nonce : Z;
  u_Sender : list Z;
  u_Receiver : list Z;
  u_Amount : Z;
  u_Fee : Z;
  u_Payload : list Z;
  u_AccessList : list (list Z);
}.

Record dewTxSignedRLP : Type := mkSigned {
  s_unsigned : dewTxUnsignedRLP;
  s_YParity : Z;
  s_R : Z;
  s_S : Z;
}.

(** The field order [rlp] gives the two structures. *)
Definition unsigned_fields (u : dewTxUnsignedRLP) : list rlp_item :=
  [RNum (u_Version u); RNum (u_ChainID u); RNum (u_Nonce u); RStr (u_Sender u);
   RStr (u_Receiver u); RNum (u_Amount u); RNum (u_Fee u); RStr (u_Payload u);
   RList (map RStr (u_AccessList u))].

Definition signed_item (r : dewTxSignedRLP) : rlp_item :=
  RList (unsigned_fields (s_unsigned r) ++ [RNum (s_YParity r); RNum (s_R r); RNum (s_S r)]).

(** [copyBig]: a nil integer copies to zero. *)
Definition copyBig (v : option Z) : Z := default 0 v.

Definition NewDewTx (chainID nonce : Z) (sender receiver : Address) (amount : option Z)
    (fee : Z) (payload : list Z) (accessList : list Address) : DewTx :=
  let amount := default 0 amount in
  let fee := if fee =? 0 then DefaultDewTxFeeWei else fee in
  mkDewTx DewTxVersion (Some chainID) nonce sender receiver (Some amount) fee payload
    accessList (Some 0) (Some 0) (Some 0) 0.

Definition unsignedRLP (tx : DewTx) : dewTxUnsignedRLP :=
  mkUnsigned (dtx_Version tx) (copyBig (dtx_ChainID tx)) (dtx_Nonce tx)
    (addr_bytes (dtx_Sender tx)) (addr_bytes (dtx_Receiver tx))
    (default 0 (dtx_Amount tx)) (dtx_Fee tx) (dtx_Payload tx)
    (map addr_bytes (dtx_AccessList tx)).

Definition signedRLP (tx : DewTx) : dewTxSignedRLP :=
  mkSigned (unsignedRLP tx) (copyBig (dtx_V tx)) (copyBig (dtx_R tx)) (copyBig (dtx_S tx)).

(** [rlp] refuses a negative [*big.Int]. *)
Definition unsigned_encodable (u : dewTxUnsignedRLP) : bool := 0 <=? u_ChainID u.
Definition signed_encodable (r : dewTxSignedRLP) : bool :=
  unsigned_encodable (s_unsigned r) && (0 <=? s_YParity r) && (0 <=? s_R r) && (0 <=? s_S r).

(** [big.Int.Bytes]: the absolute value, big-endian, no leading zero. *)
Definition byte_len (z : Z) : nat :=
  if z =? 0 then 0%nat else Z.to_nat (Z.log2 z / 8 + 1).
Definition big_bytes (z : Z) : list Z := be_bytes (byte_len (Z.abs z)) (Z.abs z).

(** [copy(sig[end-len(b):end], b)]: a negative lower bound panics. *)
Definition copy_right (stop : nat) (b sig : list Z) : option (list Z) :=
  if (stop <? length b)%nat then None
  else Some (take (stop - length b) sig ++ b ++ drop stop sig).

Section Ops.
Context `{C : Crypto}.

(** [DewTx.SigningHash]: the digest is domain separated; an encoding error
    panics. *)
Definition SigningHash (tx : DewTx) : option Hash :=
  if negb (unsigned_encodable (unsignedRLP tx)) then None
  else
    let enc := rlp_encode (RList (unsigned_fields (unsignedRLP tx))) in
    let domain := Keccak256 (str_bytes DewTxDomainTag) in
    Some (Keccak256Hash (domain ++ enc)).

Definition DewTx_MarshalBinary (tx : DewTx) : res (list Z) :=
  if negb (signed_encodable (signedRLP tx)) then Err "rlp: cannot encode negative *big.Int"
  else Ok (DewTxType :: rlp_encode (signed_item (signedRLP tx))).

(** [DewTx.Hash], with the cached field it returns and fills. *)
Definition DewTx_Hash (tx : DewTx) : option Hash :=
  if negb (dtx_hash tx =? 0) then Some (dtx_hash tx)
  else match DewTx_MarshalBinary tx with
       | Err _ => None
       | Ok enc => Some (Keccak256Hash enc)
       end.

Definition cache_hash (tx : DewTx) (h : Hash) : DewTx :=
  mkDewTx (dtx_Version tx) (dtx_ChainID tx) (dtx_Nonce tx) (dtx_Sender tx) (dtx_Receiver tx)
    (dtx_Amount tx) (dtx_Fee tx) (dtx_Payload tx) (dtx_AccessList tx)
    (dtx_V tx) (dtx_R tx) (dtx_S tx) h.

(** The address loop of [UnmarshalBinary]. *)
Fixpoint decode_access (l : list (list Z)) : res (list Address) :=
  match l with
  | [] => Ok []
  | a :: l' =>
      if negb (length a =? 20)%nat then Err "types: dewtx access list address length"
      else let? al := decode_access l' in Ok (of_be a :: al)
  end.
End Ops.

(** [rlp.DecodeBytes] into [dewTxSignedRLP]. *)
Class DewTxCodec : Type := { rlp_decode_dewtx : list Z → res dewTxSignedRLP }.

(** The values the decoder yields: unsigned integers of their width and
    non-negative big integers. *)
Record raw_ok (r : dewTxSignedRLP) : Prop := {
  raw_version : 0 <= u_Version (s_unsigned r) < 2 ^ 32;
  raw_nonce : is_u64 (u_Nonce (s_unsigned r));
  raw_fee : is_u64 (u_Fee (s_unsigned r));
  raw_chain : 0 <= u_ChainID (s_unsigned r);
  raw_amount : 0 <= u_Amount (s_unsigned r);
  raw_sig : 0 <= s_YParity r ∧ 0 <= s_R r ∧ 0 <= s_S r;
  raw_sender : bytes_ok (u_Sender (s_unsigned r));
  raw_receiver : bytes_ok (u_Receiver (s_unsigned r));
  raw_payload : bytes_ok (u_Payload (s_unsigned r));
  raw_access : Forall bytes_ok (u_AccessList (s_unsigned r));
}.

Class DewTxCodecLaws (C : Crypto) (K : DewTxCodec) : Prop := {
  dewtx_decode_encode : ∀ r, raw_ok r → rlp_decode_dewtx (rlp_encode (signed_item r)) = Ok r;
  dewtx_decode_canonical : ∀ b r, rlp_decode_dewtx b = Ok r →
    raw_ok r ∧ rlp_encode (signed_item r) = b;
  dewtx_encode_nonempty : ∀ r, rlp_encode (signed_item r) ≠ [];
}.

Section Wire.
Context `{C : Crypto} `{K : DewTxCodec}.

Definition DewTx_UnmarshalBinary (b : list Z) : res DewTx :=
  if (length b <? 2)%nat || negb (bool_decide (head b = Some DewTxType)) then
    Err "types: not a DewTx (missing 0xdf prefix)"
  else
  let? raw := rlp_decode_dewtx (drop 1 b) in
  let u := s_unsigned raw in
  if negb (u_Version u =? DewTxVersion) then Err "types: unsupported DewTx version" else
  if negb (length (u_Sender u) =? 20)%nat || negb (length (u_Receiver u) =? 20)%nat then
    Err "types: dewtx address length"
  else
  let? al := decode_access (u_AccessList u) in
  if 2 ^ 256 <=? u_Amount u then Err "types: dewtx amount overflow" else
  Ok (mkDewTx (u_Version u) (Some (u_ChainID u)) (u_Nonce u) (of_be (u_Sender u))
        (of_be (u_Receiver u)) (Some (u_Amount u)) (u_Fee u) (u_Payload u) al
        (Some (s_YParity raw)) (Some (s_R raw)) (Some (s_S raw)) 0).

(** [SignDewTx] stores the signature before it checks that the key is the
    sender's; the transaction it leaves behind is the first component. *)
Definition SignDewTx (tx : DewTx) (key : PrivateKey) : option (DewTx * res unit) :=
  digest ← SigningHash tx;
  match Sign (hash_bytes digest) key with
  | Err e => Some (tx, Err e)
  | Ok sig =>
      let tx' := mkDewTx (dtx_Version tx) (dtx_ChainID tx) (dtx_Nonce tx) (dtx_Sender tx)
        (dtx_Receiver tx) (dtx_Amount tx) (dtx_Fee tx) (dtx_Payload tx) (dtx_AccessList tx)
        (Some (default 0 (sig !! 64%nat))) (Some (of_be (slice 0 32 sig)))
        (Some (of_be (slice 32 64 sig))) 0 in
      if negb (PubkeyToAddress key =? dtx_Sender tx) then
        Some (tx', Err "types: dewtx sender mismatch")
      else Some (tx', Ok tt)
  end.

(** The 65 bytes handed to [Ecrecover]. *)
Definition signature_bytes (r s v : Z) : option (res (list Z)) :=
  sig ← copy_right 32 (big_bytes r) (replicate 65 0);
  sig ← copy_right 64 (big_bytes s) sig;
  let v := u64 (Z.abs v) in
  if 1 <? v then Some (Err "types: dewtx invalid yParity")
  else Some (Ok (<[64%nat := v]> sig)).

Definition check_recovered (tx : DewTx) (pub : list Z) : res Address :=
  if negb (length pub =? 65)%nat then Err "types: dewtx bad pubkey len" else
  let addr := of_be (drop 12 (Keccak256 (drop 1 pub))) in
  if negb (addr =? dtx_Sender tx) then Err "types: dewtx signature does not match sender"
  else Ok addr.

Definition RecoverSender (tx : DewTx) : option (res Address) :=
  match dtx_R tx, dtx_S tx, dtx_V tx with
  | Some r, Some s, Some v =>
      match signature_bytes r s v with
      | None => None
      | Some (Err e) => Some (Err e)
      | Some (Ok sig) =>
          digest ← SigningHash tx;
          Some (let? pub := Ecrecover (hash_bytes digest) sig in check_recovered tx pub)
      end
  | _, _, _ => Some (Err "types: dewtx missing signature")
  end.

Definition ContainsAccess (tx : DewTx) (addr : Address) : bool :=
  if (addr =? dtx_Sender tx) || (addr =? dtx_Receiver tx) then true
  else existsb (λ a, a =? addr) (dtx_AccessList tx).
End Wire.

(** ** The byte image of big integers *)
Lemma byte_len_le z (n : nat) : 0 <= z → (byte_len z <= n)%nat ↔ z < 256 ^ Z.of_nat n.
Proof.
  intros Hz. unfold byte_len. destruct (z =? 0) eqn:E; zbool.
  - subst. split; [intros _; apply Z.pow_pos_nonneg; lia|lia].
  - replace (256 ^ Z.of_nat n) with (2 ^ (8 * Z.of_nat n)) by (rewrite Z.pow_mul_r by lia; done).
    rewrite Z.log2_lt_pow2 by lia. pose proof (Z.log2_nonneg z). zlia.
Qed.

Lemma of_be_zeros (m : nat) l : of_be (replicate m 0 ++ l) = of_be l.
Proof. unfold of_be. rewrite foldl_app. f_equal. induction m; [done|]. cbn. exact IHm. Qed.

Lemma big_bytes_length z : length (big_bytes z) = byte_len (Z.abs z).
Proof. apply be_bytes_length. Qed.

Lemma big_bytes_padded (n : nat) z : 0 <= z < 256 ^ Z.of_nat n →
  replicate (n - length (big_bytes z)) 0 ++ big_bytes z = be_bytes n z.
Proof.
  intros Hz. assert (byte_len z <= n)%nat as Hn by (apply byte_len_le; lia).
  set (l := replicate _ 0 ++ _).
  assert (length l = n) as Hl.
  { unfold l. rewrite length_app, length_replicate, big_bytes_length, Z.abs_eq by lia. lia. }
  assert (bytes_ok l) as Hb.
  { apply Forall_app_2; [|apply be_bytes_ok]. apply Forall_replicate. unfold is_byte. lia. }
  rewrite <- (be_bytes_of_be l Hb), Hl. f_equal.
  unfold l. rewrite of_be_zeros. unfold big_bytes. rewrite Z.abs_eq by lia.
  apply of_be_be_bytes_id. split; [lia|]. apply byte_len_le; lia.
Qed.

Lemma copy_right_spec stop b sig :
  copy_right stop b sig = if decide (length b <= stop)%nat
    then Some (take (stop - length b) sig ++ b ++ drop stop sig) else None.
Proof.
  unfold copy_right. destruct (_ <? _)%nat eqn:E.
  - apply Nat.ltb_lt in E. by rewrite decide_False by lia.
  - apply Nat.ltb_ge in E. by rewrite decide_True by lia.
Qed.

(** The signature bytes of a signature in range: R, S and the parity. *)
Lemma signature_bytes_in_range r s v :
  0 <= r < 2 ^ 256 → 0 <= s < 2 ^ 256 → v = 0 ∨ v = 1 →
  signature_bytes r s v = Some (Ok (be_bytes 32 r ++ be_bytes 32 s ++ [v])).
Proof.
  intros Hr Hs Hv. change (2 ^ 256) with (256 ^ Z.of_nat 32) in *.
  pose proof (big_bytes_padded 32 r Hr) as Pr. pose proof (big_bytes_padded 32 s Hs) as Ps.
  assert (length (big_bytes r) <= 32)%nat as Lr
    by (rewrite big_bytes_length, Z.abs_eq by lia; apply byte_len_le; lia).
  assert (length (big_bytes s) <= 32)%nat as Ls
    by (rewrite big_bytes_length, Z.abs_eq by lia; apply byte_len_le; lia).
  unfold signature_bytes. rewrite copy_right_spec, decide_True by lia. cbn [mbind option_bind].
  rewrite copy_right_spec, decide_True by lia. cbn [mbind option_bind].
  rewrite take_replicate, drop_replicate.
  rewrite Nat.min_l by lia. rewrite (app_assoc _ (big_bytes r)), Pr. set (R := be_bytes 32 r) in *.
  assert (length R = 32)%nat as LR by apply be_bytes_length.
  rewrite take_app_ge, drop_app_ge, LR, take_replicate, drop_replicate, Nat.min_l by lia.
  replace (64 - length (big_bytes s) - 32)%nat with (32 - length (big_bytes s))%nat by lia.
  rewrite <- !app_assoc. rewrite (app_assoc _ (big_bytes s)), Ps.
  set (S := be_bytes 32 s) in *. assert (length S = 32)%nat as LS by apply be_bytes_length.
  change (replicate (65 - 32 - (64 - 32)) 0) with [0].
  rewrite u64_id by (unfold is_u64; lia). destruct (1 <? _) eqn:E; zbool; [lia|].
  rewrite insert_app_r_alt, insert_app_r_alt, LR, LS by lia.
  by destruct Hv as [-> | ->].
Qed.

(** ** Well-formed transactions *)

(** What [UnmarshalBinary] yields and [NewDewTx]/[SignDewTx] build. *)
Record dewtx_ok (tx : DewTx) : Prop := {
  dok_version : dtx_Version tx = DewTxVersion;
  dok_chain : ∃ c, dtx_ChainID tx = Some c ∧ 0 <= c;
  dok_nonce : is_u64 (dtx_Nonce tx);
  dok_sender : is_addr (dtx_Sender tx);
  dok_receiver : is_addr (dtx_Receiver tx);
  dok_amount : ∃ a, dtx_Amount tx = Some a ∧ is_u256 a;
  dok_fee : is_u64 (dtx_Fee tx);
  dok_payload : bytes_ok (dtx_Payload tx);
  dok_access : Forall is_addr (dtx_AccessList tx);
  dok_sig : ∃ v r s, dtx_V tx = Some v ∧ dtx_R tx = Some r ∧ dtx_S tx = Some s
                     ∧ 0 <= v ∧ 0 <= r ∧ 0 <= s;
  dok_hash : dtx_hash tx = 0;
}.

Lemma addr_bytes_ok a : bytes_ok (addr_bytes a).
Proof. apply be_bytes_ok. Qed.

Lemma of_be_is_addr b : length b = 20%nat → bytes_ok b → is_addr (of_be b).
Proof. intros Hl Hb. pose proof (of_be_range b Hb) as H. by rewrite Hl in H. Qed.

Lemma addr_bytes_of_be b : length b = 20%nat → bytes_ok b → addr_bytes (of_be b) = b.
Proof. intros Hl Hb. unfold addr_bytes. rewrite <- Hl. by apply be_bytes_of_be. Qed.

Lemma decode_access_map al :
  Forall is_addr al → decode_access (map addr_bytes al) = Ok al.
Proof.
  induction 1 as [|a al Ha _ IH]; [done|]. cbn [map decode_access].
  rewrite addr_bytes_length. cbn [Nat.eqb negb]. by rewrite IH, addr_bytes_roundtrip.
Qed.

Lemma decode_access_sound l al :
  Forall bytes_ok l → decode_access l = Ok al → Forall is_addr al ∧ map addr_bytes al = l.
Proof.
  intros Hl. revert al. induction Hl as [|a l Ha _ IH]; intros al H; cbn [decode_access] in H.
  - injection H as <-. by split.
  - destruct (length a =? 20)%nat eqn:E; [|done]. apply Nat.eqb_eq in E. cbn [negb] in H.
    destruct (decode_access l) as [al'|] eqn:D; [|done]. injection H as <-.
    destruct (IH al' eq_refl) as [Hok Hmap]. split; [constructor; [by apply of_be_is_addr|done]|].
    cbn [map]. by rewrite addr_bytes_of_be, Hmap.
Qed.

Lemma signedRLP_ok tx : dewtx_ok tx → raw_ok (signedRLP tx).
Proof.
  intros [Hv (c & Hc & ?) Hn Hs Hr (a & Ha & ?) Hf Hp Hal (v & r & s & HV & HR & HS & ?) Hh].
  split; cbn; rewrite ?Hv, ?Hc, ?Ha, ?HV, ?HR, ?HS; cbn; try done; try apply addr_bytes_ok.
  - unfold is_u256 in *. lia.
  - apply Forall_fmap, Forall_forall. intros x _. apply addr_bytes_ok.
Qed.

Lemma signedRLP_encodable tx : dewtx_ok tx → signed_encodable (signedRLP tx) = true.
Proof.
  intros H. destruct (signedRLP_ok tx H) as [_ _ _ Hc _ (Hv & Hr & Hs) _ _ _ _].
  unfold signed_encodable, unsigned_encodable.
  apply Z.leb_le in Hc, Hv, Hr, Hs. by rewrite Hc, Hv, Hr, Hs.
Qed.

Section WireTheorems.
Context `{C : Crypto} `{K : DewTxCodec} {KL : DewTxCodecLaws C K}.

Lemma marshal_unmarshal tx : dewtx_ok tx →
  ∃ b, DewTx_MarshalBinary tx = Ok b ∧ DewTx_UnmarshalBinary b = Ok tx.
Proof using KL.
  intros H. unfold DewTx_MarshalBinary. rewrite signedRLP_encodable by done. cbn [negb].
  eexists. split; [done|]. unfold DewTx_UnmarshalBinary.
  assert ((length (DewTxType :: rlp_encode (signed_item (signedRLP tx))) <? 2)%nat = false) as ->.
  { apply Nat.ltb_ge. pose proof (dewtx_encode_nonempty (signedRLP tx)) as Hne.
    destruct (rlp_encode _); [done|cbn; lia]. }
  rewrite bool_decide_true by done. cbn [negb orb]. rewrite skipn_cons, drop_0.
  rewrite dewtx_decode_encode by by apply signedRLP_ok. cbn [rbind].
  destruct H as [Hv (c & Hc & ?) Hn Hs Hr (a & Ha & ?) Hf Hp Hal (v & r & s & HV & HR & HS & ?) Hh].
  cbn [signedRLP s_unsigned unsignedRLP u_Version u_Sender u_Receiver u_AccessList u_Amount].
  rewrite Hv, !addr_bytes_length, decode_access_map by done. cbn [Z.eqb DewTxVersion Pos.eqb negb Nat.eqb orb rbind].
  rewrite Ha. cbn [default from_option id]. destruct (2 ^ 256 <=? a) eqn:E; zbool.
  { unfold is_u256 in *. lia. }
  cbn -[addr_bytes of_be]. rewrite !addr_bytes_roundtrip by done.
  destruct tx; cbn in *. rewrite Hv, Hc, HV, HR, HS, Ha, Hh. done.
Qed.

Lemma unmarshal_marshal b tx : DewTx_UnmarshalBinary b = Ok tx →
  dewtx_ok tx ∧ DewTx_MarshalBinary tx = Ok b.
Proof using KL.
  unfold DewTx_UnmarshalBinary.
  destruct (_ || _) eqn:E; [done|]. apply orb_false_iff in E as [_ E]. zbool.
  destruct b as [|ty b]; [done|]. injection E as ->. rewrite skipn_cons, drop_0.
  destruct (rlp_decode_dewtx b) as [r|] eqn:D; [|done]. cbn [rbind].
  destruct (dewtx_decode_canonical b r D) as [Hraw Henc].
  destruct (_ =? DewTxVersion) eqn:Ev; [|done]. zbool. cbn [negb].
  destruct (length (u_Sender _) =? 20)%nat eqn:Es; [|done].
  destruct (length (u_Receiver _) =? 20)%nat eqn:Er; [|done]. cbn [negb orb].
  apply Nat.eqb_eq in Es, Er.
  destruct (decode_access _) as [al|] eqn:Da; [|done]. cbn [rbind].
  destruct (2 ^ 256 <=? _) eqn:Ea; [done|]. zbool. intros [= <-].
  destruct Hraw as [? ? ? ? ? (? & ? & ?) ? ? ? Hacc].
  destruct (decode_access_sound _ _ Hacc Da) as [Hal Hmap].
  match goal with |- dewtx_ok ?t ∧ _ => assert (dewtx_ok t) as Hok end.
  { split; cbn; eauto 10 using of_be_is_addr. eexists. split; [done|]. unfold is_u256. lia. }
  split; [done|]. unfold DewTx_MarshalBinary. rewrite signedRLP_encodable by done. cbn [negb].
  f_equal. f_equal. rewrite <- Henc. do 2 f_equal. unfold signedRLP, unsignedRLP. cbn -[addr_bytes of_be map].
  rewrite Hmap, !addr_bytes_of_be by done. by destruct r as [[] ? ? ?].
Qed.
End WireTheorems.

(** ** Signatures *)
Lemma SigningHash_ok `{C : Crypto} {L : CryptoLaws C} tx :
  dewtx_ok tx → ∃ h, SigningHash tx = Some h ∧ is_hash h.
Proof.
  intros H. unfold SigningHash. destruct (dok_chain _ H) as (c & Hc & Hpos).
  unfold unsigned_encodable. cbn [u_ChainID unsignedRLP]. rewrite Hc. cbn [copyBig default from_option id].
  apply Z.leb_le in Hpos. rewrite Hpos. cbn [negb]. eauto with dew.
Qed.

(** Signing changes only the signature, which the digest leaves out. *)
Lemma SigningHash_unsigned `{C : Crypto} tx tx' :
  unsignedRLP tx = unsignedRLP tx' → SigningHash tx = SigningHash tx'.
Proof. unfold SigningHash. by intros ->. Qed.

Lemma signature_bytes_panic r s v : 0 <= r → 0 <= s →
  signature_bytes r s v = None ↔ 2 ^ 256 <= r ∨ 2 ^ 512 <= s.
Proof.
  intros Hr Hs. unfold signature_bytes. rewrite copy_right_spec, big_bytes_length, (Z.abs_eq r) by lia.
  pose proof (byte_len_le r 32 Hr) as Br. pose proof (byte_len_le s 64 Hs) as Bs.
  change (256 ^ Z.of_nat 32) with (2 ^ 256) in Br. change (256 ^ Z.of_nat 64) with (2 ^ 512) in Bs.
  set (x := 2 ^ 256) in *. set (y := 2 ^ 512) in *. clearbody x y.
  destruct (decide (byte_len r <= 32)%nat) as [Lr|Lr]; cbn [mbind option_bind].
  - rewrite copy_right_spec, big_bytes_length, (Z.abs_eq s) by lia.
    destruct (decide (byte_len s <= 64)%nat) as [Ls|Ls]; cbn [mbind option_bind].
    + split; [by destruct (1 <? _)|]. lia.
    + split; [lia|done].
  - split; [lia|done].
Qed.

Section SigTheorems.
Context `{C : Crypto} {L : CryptoLaws C} `{K : DewTxCodec} {KL : DewTxCodecLaws C K}.

Lemma slice_be32 i (sig : list Z) : (i + 32 <= length sig)%nat → bytes_ok sig →
  0 <= of_be (slice i (i + 32) sig) < 2 ^ 256 ∧
  be_bytes 32 (of_be (slice i (i + 32) sig)) = slice i (i + 32) sig.
Proof using.
  clear. intros Hl Hb. unfold slice. replace (i + 32 - i)%nat with 32%nat by lia.
  set (l := take 32 (drop i sig)).
  assert (length l = 32%nat) as Hll by (unfold l; rewrite length_take, length_drop; lia).
  assert (bytes_ok l) as Hlb by (unfold l; by apply Forall_take, Forall_drop).
  split.
  - pose proof (of_be_range l Hlb) as H. rewrite Hll in H. exact H.
  - rewrite <- Hll at 1. by apply be_bytes_of_be.
Qed.

Lemma slice_65 (sig : list Z) v : length sig = 65%nat → last sig = Some v →
  sig !! 64%nat = Some v ∧ slice 0 32 sig ++ slice 32 64 sig ++ [v] = sig.
Proof using.
  clear. intros Hl Hv. rewrite last_lookup, Hl in Hv. cbn [Nat.pred] in Hv. split; [done|].
  unfold slice. change (32 - 0)%nat with 32%nat. change (64 - 32)%nat with 32%nat.
  assert (drop 64 sig = [v]) as H64 by (rewrite (drop_S _ _ _ Hv), drop_ge by lia; done).
  rewrite <- H64. change 64%nat with (32 + 32)%nat. rewrite <- drop_drop, !take_drop. done.
Qed.

(** C33. A well-formed transaction signed with the sender's key recovers to
    the sender, also after it has travelled over the wire; signing with any
    other address's key is reported. *)
Theorem dewtx_sign_recover tx key :
  dewtx_ok tx →
  ∃ tx' r, SignDewTx tx key = Some (tx', r) ∧ dewtx_ok tx'
    ∧ (r = Ok tt ↔ PubkeyToAddress key = dtx_Sender tx)
    ∧ (r = Ok tt → RecoverSender tx' = Some (Ok (dtx_Sender tx))
         ∧ ∃ b, DewTx_MarshalBinary tx' = Ok b ∧ DewTx_UnmarshalBinary b = Ok tx').
Proof using L KL.
  intros Hok. destruct (SigningHash_ok tx Hok) as (h & Hh & _).
  destruct (sign_recovers (hash_bytes h) key (hash_bytes_length h) (be_bytes_ok 32 h))
    as (sig & Hs & Hl & Hb & (v & Hlast & Hv) & Hrec).
  destruct (slice_65 sig v Hl Hlast) as [H64 Hsplit].
  destruct (slice_be32 0 sig) as [Rr Rb]; [lia|done|].
  destruct (slice_be32 32 sig) as [Sr Sb]; [lia|done|].
  change (0 + 32)%nat with 32%nat in *. change (32 + 32)%nat with 64%nat in *.
  unfold SignDewTx. rewrite Hh. cbn [mbind option_bind]. unfold Sign.
  rewrite hash_bytes_length. cbn [Nat.eqb negb]. rewrite Hs, H64. cbn [default from_option id].
  set (tx' := mkDewTx _ _ _ _ _ _ _ _ _ _ _ _ _).
  assert (dewtx_ok tx') as Hok'.
  { destruct Hok; split; try done. exists v, (of_be (slice 0 32 sig)), (of_be (slice 32 64 sig)).
    split_and!; try done; lia. }
  assert (PubkeyToAddress key = dtx_Sender tx → RecoverSender tx' = Some (Ok (dtx_Sender tx))) as Hrs.
  { intros Hkey. unfold RecoverSender. cbn [tx' dtx_R dtx_S dtx_V].
    rewrite signature_bytes_in_range, Rb, Sb, Hsplit by done.
    rewrite (SigningHash_unsigned tx' tx eq_refl), Hh. cbn [mbind option_bind].
    unfold Ecrecover. rewrite hash_bytes_length. cbn [Nat.eqb negb]. rewrite Hrec. cbn [rbind].
    unfold check_recovered. rewrite pubkey_length. cbn [Nat.eqb negb]. cbn zeta.
    change (of_be (drop 12 (Keccak256 (drop 1 (pubkey_bytes key))))) with (PubkeyToAddress key).
    rewrite Hkey. cbn [tx' dtx_Sender]. by rewrite Z.eqb_refl. }
  destruct (_ =? _) eqn:E; zbool; cbn [negb]; eexists _, _; split_and!; try done.
  split; [by apply Hrs|]. by apply marshal_unmarshal.
Qed.

(** The wire form and the well-formed transactions are in bijection:
    every well-formed transaction encodes to bytes that decode to it, and the
    only bytes that decode to a transaction are its encoding. *)
Theorem dewtx_wire_bijection :
  (∀ tx, dewtx_ok tx → ∃ b, DewTx_MarshalBinary tx = Ok b ∧ DewTx_UnmarshalBinary b = Ok tx)
  ∧ (∀ b tx, DewTx_UnmarshalBinary b = Ok tx → dewtx_ok tx ∧ DewTx_MarshalBinary tx = Ok b).
Proof using KL. split; [apply marshal_unmarshal|apply unmarshal_marshal]. Qed.

(** Recovering the sender of a decoded transaction panics exactly when
    its R is longer than 32 bytes or its S longer than 64: the wire form does
    not bound them, so any peer or RPC client can send such bytes. *)
Theorem oversized_signature_panics tx r s :
  dewtx_ok tx → dtx_R tx = Some r → dtx_S tx = Some s →
  (RecoverSender tx = None ↔ 2 ^ 256 <= r ∨ 2 ^ 512 <= s)
  ∧ ∃ b, DewTx_MarshalBinary tx = Ok b ∧ DewTx_UnmarshalBinary b = Ok tx.
Proof using L KL.
  intros Hok HR HS. split; [|by apply marshal_unmarshal].
  destruct (dok_sig _ Hok) as (v & r' & s' & HV & HR' & HS' & _ & Hr & Hs).
  assert (r' = r) as -> by congruence. assert (s' = s) as -> by congruence.
  rewrite <- (signature_bytes_panic r s v Hr Hs). unfold RecoverSender. rewrite HR, HS, HV.
  destruct (SigningHash_ok tx Hok) as (h & Hh & _). rewrite Hh.
  by destruct (signature_bytes r s v) as [[sig|e]|].
Qed.

Definition with_V (tx : DewTx) (v : Z) : DewTx :=
  mkDewTx (dtx_Version tx) (dtx_ChainID tx) (dtx_Nonce tx) (dtx_Sender tx) (dtx_Receiver tx)
    (dtx_Amount tx) (dtx_Fee tx) (dtx_Payload tx) (dtx_AccessList tx)
    (Some v) (dtx_R tx) (dtx_S tx) 0.

(** The parity is read modulo 2^64: adding 2^64 to V gives a different
    wire form, hence a different transaction hash, with the same signer, so
    anyone can re-encode somebody's signed transaction under another hash. *)
Theorem dewtx_hash_malleable tx v :
  dewtx_ok tx → dtx_V tx = Some v →
  dewtx_ok (with_V tx (v + 2 ^ 64))
  ∧ RecoverSender (with_V tx (v + 2 ^ 64)) = RecoverSender tx
  ∧ DewTx_MarshalBinary (with_V tx (v + 2 ^ 64)) ≠ DewTx_MarshalBinary tx.
Proof using KL.
  intros Hok HV.
  destruct (dok_sig _ Hok) as (v' & r & s & HV' & HR & HS & Hv & Hr & Hs).
  assert (v' = v) as -> by congruence.
  assert (dewtx_ok (with_V tx (v + 2 ^ 64))) as Hok'.
  { destruct Hok; split; try done. exists (v + 2 ^ 64), r, s. split_and!; try done. lia. }
  split_and!; [done| |].
  - unfold RecoverSender. cbn [with_V dtx_R dtx_S dtx_V]. rewrite HV, HR, HS.
    rewrite (SigningHash_unsigned (with_V tx (v + 2 ^ 64)) tx eq_refl).
    assert (signature_bytes r s (v + 2 ^ 64) = signature_bytes r s v) as ->; [|done].
    assert (u64 (Z.abs (v + 2 ^ 64)) = u64 (Z.abs v)) as Hu.
    { rewrite !Z.abs_eq by lia. unfold u64. zlia. }
    unfold signature_bytes. by rewrite Hu.
  - intros E. destruct (marshal_unmarshal _ Hok) as (b & Hb & Hu).
    destruct (marshal_unmarshal _ Hok') as (b' & Hb' & Hu').
    assert (b' = b) as -> by congruence. rewrite Hu in Hu'. injection Hu' as E'.
    apply (f_equal dtx_V) in E'. rewrite HV in E'. cbn in E'. injection E'. lia.
Qed.
End SigTheorems.

(** ** A concrete decoder, for evaluating the statements *)
Definition toy_num (l : list Z) : option (Z * list Z) :=
  match l with 2 :: n :: l' => Some (n, l') | _ => None end.
Definition toy_str (l : list Z) : option (list Z * list Z) :=
  match l with
  | 1 :: n :: l' => Some (take (Z.to_nat n) l', drop (Z.to_nat n) l')
  | _ => None
  end.
Fixpoint toy_strs (k : nat) (l : list Z) : option (list (list Z) * list Z) :=
  match k with
  | O => Some ([], l)
  | S k => '(s, l) ← toy_str l; '(ss, l) ← toy_strs k l; Some (s :: ss, l)
  end.
Definition toy_list (l : list Z) : option (nat * list Z) :=
  match l with 3 :: n :: l' => Some (Z.to_nat n, l') | _ => None end.

Definition toy_parse_dewtx (l : list Z) : option dewTxSignedRLP :=
  '(_, l) ← toy_list l;
  '(ver, l) ← toy_num l; '(chain, l) ← toy_num l; '(nonce, l) ← toy_num l;
  '(sender, l) ← toy_str l; '(receiver, l) ← toy_str l;
  '(amount, l) ← toy_num l; '(fee, l) ← toy_num l; '(payload, l) ← toy_str l;
  '(k, l) ← toy_list l; '(access, l) ← toy_strs k l;
  '(v, l) ← toy_num l; '(r, l) ← toy_num l; '(s, l) ← toy_num l;
  Some (mkSigned (mkUnsigned ver chain nonce sender receiver amount fee payload access) v r s).

#[global] Instance is_byte_dec b : Decision (is_byte b).
Proof. unfold is_byte. apply _. Defined.

#[global] Instance raw_ok_dec r : Decision (raw_ok r).
Proof.
  refine (cast_if (decide (
    (0 <= u_Version (s_unsigned r) < 2 ^ 32 ∧ 0 <= u_Nonce (s_unsigned r) < 2 ^ 64
     ∧ 0 <= u_Fee (s_unsigned r) < 2 ^ 64 ∧ 0 <= u_ChainID (s_unsigned r)
     ∧ 0 <= u_Amount (s_unsigned r))
    ∧ (0 <= s_YParity r ∧ 0 <= s_R r ∧ 0 <= s_S r)
    ∧ Forall is_byte (u_Sender (s_unsigned r)) ∧ Forall is_byte (u_Receiver (s_unsigned r))
    ∧ Forall is_byte (u_Payload (s_unsigned r)) ∧ Forall (Forall is_byte) (u_AccessList (s_unsigned r)))));
    [abstract (split; unfold is_u64, bytes_ok; tauto)
    |abstract (intros [? ? ? ? ? ? ? ? ? ?]; unfold is_u64, bytes_ok in *; tauto)].
Defined.

Definition toy_decode_dewtx (b : list Z) : res dewTxSignedRLP :=
  match toy_parse_dewtx b with
  | Some r => if decide (raw_ok r ∧ toy_rlp (signed_item r) = b) then Ok r else Err "rlp"
  | None => Err "rlp"
  end.

Definition toy_dewtx_codec : DewTxCodec := {| rlp_decode_dewtx := toy_decode_dewtx |}.

Lemma toy_str_app s l : toy_str ((1 :: Z.of_nat (length s) :: s) ++ l) = Some (s, l).
Proof. cbn. rewrite Nat2Z.id, take_app_length, drop_app_length. done. Qed.

Lemma toy_strs_app ss l :
  toy_strs (length ss) (concat (map toy_rlp (map RStr ss)) ++ l) = Some (ss, l).
Proof.
  induction ss as [|s ss IH]; [done|]. cbn [length toy_strs map concat toy_rlp].
  rewrite <- app_assoc, toy_str_app. cbn [mbind option_bind]. by rewrite IH.
Qed.

Lemma toy_parse_encode r : toy_parse_dewtx (toy_rlp (signed_item r)) = Some r.
Proof.
  destruct r as [[ver chain nonce sender receiver amount fee payload access] v r s].
  unfold toy_parse_dewtx, signed_item, unsigned_fields.
  cbn [s_unsigned u_Version u_ChainID u_Nonce u_Sender u_Receiver u_Amount u_Fee u_Payload
       u_AccessList s_YParity s_R s_S app].
  cbn [toy_rlp map concat]. rewrite length_map.
  set (A := concat (map toy_rlp (map RStr access))).
  cbn [toy_list mbind option_bind].
  do 3 (cbn [app toy_num mbind option_bind]).
  rewrite app_comm_cons, app_comm_cons, toy_str_app. cbn [mbind option_bind].
  rewrite app_comm_cons, app_comm_cons, toy_str_app. cbn [mbind option_bind app toy_num].
  rewrite app_comm_cons, app_comm_cons, toy_str_app. cbn [mbind option_bind app toy_list].
  rewrite Nat2Z.id. unfold A. rewrite toy_strs_app.
  cbn [mbind option_bind app toy_num]. done.
Qed.

Lemma toy_dewtx_codec_laws : DewTxCodecLaws toy_crypto toy_dewtx_codec.
Proof.
  split.
  - intros r Hr. cbn [rlp_decode_dewtx toy_dewtx_codec rlp_encode toy_crypto].
    unfold toy_decode_dewtx. rewrite toy_parse_encode, decide_True by done. done.
  - intros b r. cbn [rlp_decode_dewtx toy_dewtx_codec rlp_encode toy_crypto].
    unfold toy_decode_dewtx. destruct (toy_parse_dewtx b) as [r'|]; [|done].
    destruct (decide _) as [H|]; [|done]. by intros [= ->].
  - done.
Qed.

Section Witnesses.
Local Existing Instances toy_crypto toy_crypto_laws toy_dewtx_codec toy_dewtx_codec_laws.

Definition toy_key : @PrivateKey toy_crypto := 5.

(** A transfer of 5 wei with one declared account, signature fields [v], [r]. *)
Definition sample_dewtx (sender : Address) (v r : Z) : DewTx :=
  mkDewTx DewTxVersion (Some 1337) 4 sender 77 (Some 5) DefaultDewTxFeeWei [1; 2] [9]
    (Some v) (Some r) (Some 3) 0.

Lemma sample_dewtx_ok sender v r :
  is_addr sender → 0 <= v → 0 <= r → dewtx_ok (sample_dewtx sender v r).
Proof.
  intros Hs Hv Hr. split; unfold is_addr, is_u64, is_u256 in *; cbn [sample_dewtx dtx_Version
    dtx_ChainID dtx_Nonce dtx_Sender dtx_Receiver dtx_Amount dtx_Fee dtx_Payload dtx_AccessList
    dtx_V dtx_R dtx_S dtx_hash]; unfold DefaultDewTxFeeWei; try lia; try reflexivity.
  - exists 1337. split; [reflexivity|lia].
  - exists 5. split; [reflexivity|lia].
  - repeat constructor; unfold is_byte; lia.
  - repeat constructor; unfold is_addr; lia.
  - exists v, r, 3. split_and!; reflexivity || lia.
Qed.

Lemma dewtx_sign_recover_witness :
  ∃ tx' r, SignDewTx (sample_dewtx (PubkeyToAddress toy_key) 0 0) toy_key = Some (tx', r)
    ∧ RecoverSender tx' = Some (Ok (PubkeyToAddress toy_key)).
Proof.
  set (a := PubkeyToAddress toy_key).
  destruct (dewtx_sign_recover (sample_dewtx a 0 0) toy_key) as (tx' & r & H & _ & Hr & Hrec).
  - apply sample_dewtx_ok; [apply PubkeyToAddress_is_addr|lia|lia].
  - exists tx', r. split; [exact H|]. apply Hrec, Hr. reflexivity.
Defined.

Lemma dewtx_wire_bijection_witness :
  ∃ b, DewTx_MarshalBinary (sample_dewtx 42 0 7) = Ok b
       ∧ DewTx_UnmarshalBinary b = Ok (sample_dewtx 42 0 7).
Proof. apply (proj1 dewtx_wire_bijection), sample_dewtx_ok; unfold is_addr; lia. Defined.

Lemma oversized_signature_panics_witness :
  RecoverSender (sample_dewtx 42 0 (2 ^ 256)) = None
  ∧ ∃ b, DewTx_MarshalBinary (sample_dewtx 42 0 (2 ^ 256)) = Ok b
         ∧ DewTx_UnmarshalBinary b = Ok (sample_dewtx 42 0 (2 ^ 256)).
Proof.
  destruct (oversized_signature_panics (sample_dewtx 42 0 (2 ^ 256)) (2 ^ 256) 3) as [H1 H2].
  - apply sample_dewtx_ok; unfold is_addr; lia.
  - reflexivity.
  - reflexivity.
  - split; [|exact H2]. apply H1. left. reflexivity.
Defined.

Lemma dewtx_hash_malleable_witness :
  RecoverSender (with_V (sample_dewtx 42 1 7) (1 + 2 ^ 64)) = RecoverSender (sample_dewtx 42 1 7)
  ∧ DewTx_MarshalBinary (with_V (sample_dewtx 42 1 7) (1 + 2 ^ 64))
    ≠ DewTx_MarshalBinary (sample_dewtx 42 1 7).
Proof.
  destruct (dewtx_hash_malleable (sample_dewtx 42 1 7) 1) as (_ & H1 & H2).
  - apply sample_dewtx_ok; unfold is_addr; lia.
  - reflexivity.
  - split; [exact H1|exact H2].
Defined.
End Witnesses.
