(* ===== verification/Mempool.v ===== *)
(** * The transaction pool

    Models [mempool/config.go] and [mempool/pool.go]: admission of EVM and
    native transactions, replace-by-fee, the per-sender and global limits,
    eviction of the cheapest entry and the telemetry snapshot.

    The pool's mutex makes every exported call atomic, so a call is a function
    from a pool to a pool.  [byHash] and [bySender] are finite maps.  Go's
    iteration order over [byHash] and [bySender] is a parameter.  A
    go-ethereum transaction is the record of what its accessors return.
    [None] at the outer level of a result is a Go panic. *)
From S2P Require Import Prelude Types Toy DewTx.

Inductive Kind : Type := KindEVM | KindDew.
#[global] Instance Kind_eq_dec : EqDecision Kind.
Proof. solve_decision. Defined.

(** The admission errors; [ErrNilConfig] is declared but never returned. *)
Inductive PoolError : Type :=
| ErrPoolFull | ErrSenderLimit | ErrTxTooLarge | ErrUnderpriced | ErrReplaceUnder
| ErrAlreadyKnown | ErrRBFDisabled | ErrInvalidTx | ErrWrongChain | ErrNilConfig.

Record Entry : Type := mkEntry {
  e_Hash : Hash;
  e_From : Address;
  e_Nonce : Z;
  e_Kind : Kind;
  e_Raw : list Z;
  e_Price : Z;
  e_Tip : option Z;
  e_Size : Z;
  e_AddedAt : Z;
}.

Record RejectCounters : Type := mkRejects {
  rj_PoolFull : Z;
  rj_SenderLimit : Z;
  rj_Underpriced : Z;
  rj_ReplaceUnder : Z;
  rj_AlreadyKnown : Z;
  rj_TxTooLarge : Z;
  rj_Invalid : Z;
  rj_WrongChain : Z;
  rj_RBFDisabled : Z;
  rj_Total : Z;
}.

Record Config : Type := mkConfig {
  MaxGlobal : Z;
  MaxPerSender : Z;
  MaxTxBytes : Z;
  MinGasPriceWei : option Z;
  MinTipWei : option Z;
  MinDewFeeWei : Z;
  PriceBumpPercent : Z;
}.

Definition MinDewTxFeeWei : Z := DefaultDewTxFeeWei.

Definition DefaultConfig : Config :=
  mkConfig 4096 16 (Z.shiftl 128 10) (Some 1000000000) (Some 1) MinDewTxFeeWei 10.

Record Pool : Type := mkPool {
  cfg : Config;
  byHash : gmap Hash Entry;
  bySender : gmap Address (gmap Z Hash);
  admits : Z;
  replaces : Z;
  evictions : Z;
  rejects : RejectCounters;
}.

(** [New]: zero fields take the defaults; a zero price bump stays zero. *)
Definition New_config (c : Config) : Config :=
  let d := DefaultConfig in
  mkConfig
    (if MaxGlobal c <=? 0 then MaxGlobal d else MaxGlobal c)
    (if MaxPerSender c <=? 0 then MaxPerSender d else MaxPerSender c)
    (if MaxTxBytes c <=? 0 then MaxTxBytes d else MaxTxBytes c)
    (match MinGasPriceWei c with None => MinGasPriceWei d | v => v end)
    (match MinTipWei c with None => MinTipWei d | v => v end)
    (if MinDewFeeWei c =? 0 then MinDewFeeWei d else MinDewFeeWei c)
    (PriceBumpPercent c).

Definition NewPool (c : Config) : Pool :=
  mkPool (New_config c) ∅ ∅ 0 0 0 (mkRejects 0 0 0 0 0 0 0 0 0 0).

Definition set_entries (p : Pool) (h : gmap Hash Entry) (s : gmap Address (gmap Z Hash)) : Pool :=
  mkPool (cfg p) h s (admits p) (replaces p) (evictions p) (rejects p).

Definition Len (p : Pool) : Z := Z.of_nat (size (byHash p)).
Definition PoolGet (p : Pool) (h : Hash) : option Entry := byHash p !! h.
Definition Stats (p : Pool) : Z * Z := (Len p, Z.of_nat (size (bySender p))).

Definition removeLocked (h : Hash) (p : Pool) : Pool :=
  match byHash p !! h with
  | None => p
  | Some e =>
      set_entries p (delete h (byHash p))
        (match bySender p !! e_From e with
         | None => bySender p
         | Some m =>
             let m' := delete (e_Nonce e) m in
             if (size m' =? 0)%nat then delete (e_From e) (bySender p)
             else <[e_From e := m']> (bySender p)
         end)
  end.

Definition Remove (h : Hash) (p : Pool) : Pool := removeLocked h p.

(** [noteRejectLocked]; the counters are [uint64]. *)
Definition count_reject (err : PoolError) (r : RejectCounters) : RejectCounters :=
  let 'mkRejects pf sl un ru ak tl iv wc rd tot := r in
  let tot := tot +₆₄ 1 in
  match err with
  | ErrPoolFull => mkRejects (pf +₆₄ 1) sl un ru ak tl iv wc rd tot
  | ErrSenderLimit => mkRejects pf (sl +₆₄ 1) un ru ak tl iv wc rd tot
  | ErrUnderpriced => mkRejects pf sl (un +₆₄ 1) ru ak tl iv wc rd tot
  | ErrReplaceUnder => mkRejects pf sl un (ru +₆₄ 1) ak tl iv wc rd tot
  | ErrAlreadyKnown => mkRejects pf sl un ru (ak +₆₄ 1) tl iv wc rd tot
  | ErrTxTooLarge => mkRejects pf sl un ru ak (tl +₆₄ 1) iv wc rd tot
  | ErrWrongChain => mkRejects pf sl un ru ak tl iv (wc +₆₄ 1) rd tot
  | ErrRBFDisabled => mkRejects pf sl un ru ak tl iv wc (rd +₆₄ 1) tot
  | ErrInvalidTx | ErrNilConfig => mkRejects pf sl un ru ak tl (iv +₆₄ 1) wc rd tot
  end.

Definition noteReject (err : PoolError) (p : Pool) : Pool :=
  mkPool (cfg p) (byHash p) (bySender p) (admits p) (replaces p) (evictions p)
    (count_reject err (rejects p)).

Definition reject (h : Hash) (err : PoolError) (p : Pool) : Pool * (Hash * option PoolError) :=
  (noteReject err p, (h, Some err)).

(** The order in which Go ranges over [byHash]. *)
Class PoolOrder : Type := { range_entries : gmap Hash Entry → list (Hash * Entry) }.
Class PoolOrderLaws (O : PoolOrder) : Prop := { range_entries_ok : range_ok range_entries }.

(** [int64(x)] of a [uint64]. *)
Definition as_int64 (x : Z) : Z := if x <? 2 ^ 63 then x else x - 2 ^ 64.

(** The price a replacement has to reach: [big.Int.Div] by 100. *)
Definition bump_floor (c : Config) (old : Entry) : Z :=
  e_Price old * as_int64 (100 +₆₄ PriceBumpPercent c) / 100.

(** The same-sender, same-nonce step of [add]: an error, or the pool with
    the old entry taken out and whether it was replaced. *)
Definition replace_step (e : Entry) (p : Pool) : PoolError + Pool * bool :=
  match bySender p !! e_From e ≫= (!!) (e_Nonce e) with
  | None => inr (p, false)
  | Some oldHash =>
      match byHash p !! oldHash with
      | None =>
          inr (set_entries p (byHash p)
                 (alter (delete (e_Nonce e)) (e_From e) (bySender p)), false)
      | Some old =>
          if PriceBumpPercent (cfg p) =? 0 then inl ErrRBFDisabled
          else if e_Price e <? bump_floor (cfg p) old then inl ErrReplaceUnder
          else inr (removeLocked oldHash p, true)
      end
  end.

Definition sender_count (a : Address) (p : Pool) : Z :=
  match bySender p !! a with None => 0 | Some m => Z.of_nat (size m) end.

Section Add.
Context `{O : PoolOrder}.

(** The scan of [evictCheaperThan]: the first entry of the lowest price
    below [price]. *)
Definition worse_entry (price : Z) (worst : option Entry) (e : Entry) : option Entry :=
  if price <=? e_Price e then worst
  else match worst with
       | None => Some e
       | Some w => if e_Price e <? e_Price w then Some e else Some w
       end.

Definition worst_below (price : Z) (p : Pool) : option Entry :=
  foldl (worse_entry price) None (range_entries (byHash p)).*2.

Definition count_eviction (p : Pool) : Pool :=
  mkPool (cfg p) (byHash p) (bySender p) (admits p) (replaces p) (evictions p +₆₄ 1) (rejects p).

Definition evictCheaperThan (price : Z) (p : Pool) : option Pool :=
  match worst_below price p with
  | None => None
  | Some w => Some (count_eviction (removeLocked (e_Hash w) p))
  end.

(** The insertion at the end of [add]. *)
Definition insert_entry (e : Entry) (replaced : bool) (p : Pool) : Pool :=
  mkPool (cfg p) (<[e_Hash e := e]> (byHash p))
    (<[e_From e := <[e_Nonce e := e_Hash e]> (default ∅ (bySender p !! e_From e))]> (bySender p))
    (admits p +₆₄ 1) (if replaced then replaces p +₆₄ 1 else replaces p)
    (evictions p) (rejects p).

Definition add (e : Entry) (p : Pool) : Pool * (Hash * option PoolError) :=
  match byHash p !! e_Hash e with
  | Some _ => reject (e_Hash e) ErrAlreadyKnown p
  | None =>
      match replace_step e p with
      | inl err => reject 0 err p
      | inr (p1, replaced) =>
          if MaxPerSender (cfg p1) <=? sender_count (e_From e) p1 then reject 0 ErrSenderLimit p1
          else if MaxGlobal (cfg p1) <=? Len p1 then
            match evictCheaperThan (e_Price e) p1 with
            | None => reject 0 ErrPoolFull p1
            | Some p2 => (insert_entry e replaced p2, (e_Hash e, None))
            end
          else (insert_entry e replaced p1, (e_Hash e, None))
      end
  end.

(** The accessors of a go-ethereum transaction that admission reads. *)
Record EthTx : Type := mkEthTx {
  eth_Type : Z;
  eth_GasFeeCap : option Z;
  eth_GasTipCap : option Z;
  eth_GasPrice : option Z;
  eth_ChainId : option Z;
  eth_Nonce : Z;
  eth_Hash : Hash;
  eth_MarshalBinary : res (list Z);
}.

Definition DynamicFeeTxType : Z := 2.

(** [a.Cmp(b) < 0] against a configured floor: a nil floor panics. *)
Definition below (a : Z) (floor : option Z) : option bool := f ← floor; Some (a <? f).

Definition evmPrice (c : Config) (tx : EthTx) : option (PoolError + Z * option Z) :=
  if eth_Type tx =? DynamicFeeTxType then
    match eth_GasFeeCap tx, eth_GasTipCap tx with
    | Some feeCap, Some tipCap =>
        low ← below feeCap (MinGasPriceWei c);
        if (low : bool) then Some (inl ErrUnderpriced) else
        low ← below tipCap (MinTipWei c);
        if (low : bool) then Some (inl ErrUnderpriced) else
        Some (inr (feeCap, Some tipCap))
    | _, _ => Some (inl ErrInvalidTx)
    end
  else
    match eth_GasPrice tx with
    | None => Some (inl ErrUnderpriced)
    | Some gp =>
        low ← below gp (MinGasPriceWei c);
        if (low : bool) then Some (inl ErrUnderpriced) else Some (inr (gp, None))
    end.

(** [if len(raw) == 0 { raw, err = tx.MarshalBinary() }] *)
Definition wire_of (raw : list Z) (marshal : res (list Z)) : res (list Z) :=
  match raw with [] => marshal | _ => Ok raw end.

(** The chain test of [AddEVM]: an unset or zero chain id passes. *)
Definition evm_wrong_chain (id chainID : option Z) : bool :=
  match id, chainID with
  | Some i, Some c => negb (i =? 0) && negb (i =? c)
  | _, _ => false
  end.

Definition AddEVM (tx : option EthTx) (from : Address) (raw : list Z) (chainID : option Z)
    (now : Z) (p : Pool) : option (Pool * (Hash * option PoolError)) :=
  match tx with
  | None => Some (reject 0 ErrInvalidTx p)
  | Some tx =>
      match wire_of raw (eth_MarshalBinary tx) with
      | Err _ => Some (reject 0 ErrInvalidTx p)
      | Ok raw =>
          if MaxTxBytes (cfg p) <? Z.of_nat (length raw) then Some (reject 0 ErrTxTooLarge p) else
          if evm_wrong_chain (eth_ChainId tx) chainID then Some (reject 0 ErrWrongChain p) else
          price ← evmPrice (cfg p) tx;
          match price with
          | inl err => Some (reject 0 err p)
          | inr (price, tip) =>
              Some (add (mkEntry (eth_Hash tx) from (eth_Nonce tx) KindEVM raw price tip
                           (Z.of_nat (length raw)) now) p)
          end
      end
  end.

(** The chain test of [AddDew]: the transaction must carry a chain id. *)
Definition dew_wrong_chain (id chainID : option Z) : bool :=
  match id, chainID with
  | None, _ => true
  | Some i, Some c => negb (i =? c)
  | Some _, None => false
  end.

Definition dew_fee (c : Config) (fee : Z) : Z := if fee =? 0 then MinDewFeeWei c else fee.

Definition AddDew `{C : Crypto} (tx : option DewTx) (raw : list Z) (chainID : option Z)
    (now : Z) (p : Pool) : option (Pool * (Hash * option PoolError)) :=
  match tx with
  | None => Some (reject 0 ErrInvalidTx p)
  | Some tx =>
      match wire_of raw (DewTx_MarshalBinary tx) with
      | Err _ => Some (reject 0 ErrInvalidTx p)
      | Ok raw =>
          if MaxTxBytes (cfg p) <? Z.of_nat (length raw) then Some (reject 0 ErrTxTooLarge p) else
          if dew_wrong_chain (dtx_ChainID tx) chainID then Some (reject 0 ErrWrongChain p) else
          let fee := dew_fee (cfg p) (dtx_Fee tx) in
          if fee <? MinDewFeeWei (cfg p) then Some (reject 0 ErrUnderpriced p) else
          hash ← DewTx_Hash tx;
          Some (add (mkEntry hash (dtx_Sender tx) (dtx_Nonce tx) KindDew raw fee None
                       (Z.of_nat (length raw)) now) p)
      end
  end.

Definition Pending (p : Pool) : list Entry := (range_entries (byHash p)).*2.
End Add.

(** ** Telemetry *)
Record SenderPending : Type := mkSenderPending { sp_Address : Address; sp_Pending : Z }.

Record Telemetry : Type := mkTelemetry {
  t_Pending : Z;
  t_Senders : Z;
  t_PendingEVM : Z;
  t_PendingDew : Z;
  t_Config : Config;
  t_Admits : Z;
  t_Replaces : Z;
  t_Evictions : Z;
  t_Rejects : RejectCounters;
  t_TopSenders : list SenderPending;
}.

(** One round of the insertion sort: the new element moves left past the
    elements with a strictly smaller count.  The sorted prefix is kept
    last-first. *)
Fixpoint sift (x : SenderPending) (prefix : list SenderPending) : list SenderPending :=
  match prefix with
  | [] => [x]
  | y :: prefix' =>
      if sp_Pending y <? sp_Pending x then y :: sift x prefix' else x :: prefix
  end.

Definition insertion_sort (l : list SenderPending) : list SenderPending :=
  rev (foldl (λ prefix x, sift x prefix) [] l).

Definition count_kind (k : Kind) (es : list Entry) : Z :=
  Z.of_nat (length (filter (λ e, e_Kind e = k) es)).

Definition topN : nat := 16.

(** [senders] is the order in which Go ranges over [bySender]; the decimal
    rendering of the fee floors is left to the reader of [t_Config]. *)
Definition PoolTelemetry `{O : PoolOrder} (senders : list (Address * gmap Z Hash)) (p : Pool) : Telemetry :=
  let list := insertion_sort (map (λ '(a, m), mkSenderPending a (Z.of_nat (size m))) senders) in
  mkTelemetry (Len p) (Z.of_nat (size (bySender p)))
    (count_kind KindEVM (Pending p)) (count_kind KindDew (Pending p))
    (cfg p) (admits p) (replaces p) (evictions p) (rejects p) (take topN list).

(** ** The pool invariant *)

(** The hash filed for a sender and nonce. *)
Definition slot (p : Pool) (a : Address) (n : Z) : option Hash := bySender p !! a ≫= (!!) n.

(** The admission policy an entry of the pool meets. *)
Definition entry_ok (c : Config) (e : Entry) : Prop :=
  e_Size e = Z.of_nat (length (e_Raw e)) ∧ e_Size e <= MaxTxBytes c ∧
  match e_Kind e with
  | KindEVM => (∃ f, MinGasPriceWei c = Some f ∧ f <= e_Price e)
               ∧ (∀ t, e_Tip e = Some t → ∃ f, MinTipWei c = Some f ∧ f <= t)
  | KindDew => MinDewFeeWei c <= e_Price e
  end.

(** The two indexes describe the same set of entries. *)
Record pool_core (p : Pool) : Prop := {
  core_hash : ∀ h e, byHash p !! h = Some e →
    e_Hash e = h ∧ slot p (e_From e) (e_Nonce e) = Some h;
  core_slot : ∀ a n h, slot p a n = Some h →
    ∃ e, byHash p !! h = Some e ∧ e_From e = a ∧ e_Nonce e = n;
  core_nonempty : ∀ a m, bySender p !! a = Some m → m ≠ ∅;
  core_policy : ∀ h e, byHash p !! h = Some e → entry_ok (cfg p) e;
}.

Record pool_wf (p : Pool) : Prop := {
  wf_core : pool_core p;
  wf_global : Len p <= MaxGlobal (cfg p);
  wf_sender : ∀ a, sender_count a p <= MaxPerSender (cfg p);
  wf_limits : 0 < MaxGlobal (cfg p) ∧ 0 < MaxPerSender (cfg p);
}.

Lemma removeLocked_byHash h p : byHash (removeLocked h p) = delete h (byHash p).
Proof.
  unfold removeLocked. destruct (byHash p !! h) as [e|] eqn:E; [done|].
  by rewrite delete_id.
Qed.

Lemma removeLocked_cfg h p : cfg (removeLocked h p) = cfg p.
Proof. unfold removeLocked. by destruct (byHash p !! h). Qed.

Lemma removeLocked_sender h p a : bySender (removeLocked h p) !! a =
  match byHash p !! h with
  | Some e => if decide (a = e_From e) then
      m ← bySender p !! a;
      if decide (delete (e_Nonce e) m = ∅) then None else Some (delete (e_Nonce e) m)
      else bySender p !! a
  | None => bySender p !! a
  end.
Proof.
  unfold removeLocked. destruct (byHash p !! h) as [e|]; [|done]. cbn [bySender set_entries].
  destruct (bySender p !! e_From e) as [m|] eqn:E.
  - destruct (size (delete (e_Nonce e) m) =? 0)%nat eqn:Es.
    + apply Nat.eqb_eq, map_size_empty_iff in Es. destruct (decide (a = e_From e)) as [->|Hne].
      * rewrite lookup_delete_eq, E. cbn. by rewrite decide_True.
      * by rewrite lookup_delete_ne.
    + apply Nat.eqb_neq in Es. destruct (decide (a = e_From e)) as [->|Hne].
      * rewrite lookup_insert_eq, E. cbn. rewrite decide_False; [done|].
        intros H. apply Es. by rewrite H.
      * by rewrite lookup_insert_ne.
  - destruct (decide (a = e_From e)) as [->|Hne]; [|done]. by rewrite E.
Qed.

Lemma removeLocked_slot h p a n : slot (removeLocked h p) a n =
  match byHash p !! h with
  | Some e => if decide (a = e_From e ∧ n = e_Nonce e) then None else slot p a n
  | None => slot p a n
  end.
Proof.
  unfold slot. rewrite removeLocked_sender. destruct (byHash p !! h) as [e|]; [|done].
  destruct (decide (a = e_From e)) as [->|Hne].
  - destruct (bySender p !! e_From e) as [m|]; cbn; [|by destruct (decide _)].
    destruct (decide (n = e_Nonce e)) as [->|Hn].
    + rewrite (decide_True (P := _ ∧ _)) by done.
      destruct (decide _); cbn; [done|]. by rewrite lookup_delete_eq.
    + rewrite (decide_False (P := _ ∧ _)) by naive_solver.
      rewrite <- (lookup_delete_ne m (e_Nonce e) n) by done.
      destruct (decide _) as [E|]; cbn; [by rewrite E, lookup_empty|done].
  - by rewrite (decide_False (P := _ ∧ _)) by naive_solver.
Qed.

Lemma removeLocked_core h p : pool_core p → pool_core (removeLocked h p).
Proof.
  intros [Hh Hs Hne Hp]. split.
  - intros h' e. rewrite removeLocked_byHash, lookup_delete_Some. intros [Hneq He].
    destruct (Hh h' e He) as [E1 E2]. split; [done|]. rewrite removeLocked_slot.
    destruct (byHash p !! h) as [e0|] eqn:E0; [|done].
    rewrite decide_False; [done|]. intros [Ea En]. destruct (Hh h e0 E0) as [_ E3]. congruence.
  - intros a n h'. rewrite removeLocked_slot, removeLocked_byHash.
    destruct (byHash p !! h) as [e0|] eqn:E0.
    + destruct (decide _) as [|Hd]; [done|]. intros H. destruct (Hs a n h' H) as (e & He & Ea & En).
      exists e. split; [|done]. apply lookup_delete_Some. split; [|done]. intros <-. naive_solver.
    + intros H. destruct (Hs a n h' H) as (e & He & Ea & En). exists e. split; [|done].
      apply lookup_delete_Some. split; [|done]. intros <-. congruence.
  - intros a m. rewrite removeLocked_sender. destruct (byHash p !! h) as [e0|]; [|apply Hne].
    destruct (decide (a = e_From e0)); [|apply Hne].
    destruct (bySender p !! a) as [m0|]; cbn; [|done]. destruct (decide _); [done|]. by intros [= <-].
  - intros h' e. rewrite removeLocked_byHash, removeLocked_cfg, lookup_delete_Some.
    intros [_ He]. by apply (Hp h').
Qed.

Lemma insert_entry_slot e b p a n : slot (insert_entry e b p) a n =
  if decide (a = e_From e ∧ n = e_Nonce e) then Some (e_Hash e) else slot p a n.
Proof.
  unfold slot, insert_entry. cbn [bySender]. destruct (decide (a = e_From e)) as [->|Hne].
  - rewrite lookup_insert_eq. cbn. destruct (decide (n = e_Nonce e)) as [->|Hn].
    + rewrite lookup_insert_eq. by rewrite decide_True.
    + rewrite lookup_insert_ne, decide_False by naive_solver.
      destruct (bySender p !! e_From e); cbn; [done|]. by rewrite lookup_empty.
  - rewrite lookup_insert_ne, decide_False by naive_solver. done.
Qed.

Lemma insert_entry_core e b p :
  pool_core p → byHash p !! e_Hash e = None → slot p (e_From e) (e_Nonce e) = None →
  entry_ok (cfg p) e → pool_core (insert_entry e b p).
Proof.
  intros [Hh Hs Hne Hp] Hfresh Hfree Hok. split.
  - intros h e'. cbn [byHash insert_entry]. rewrite lookup_insert_Some.
    intros [[<- <-]|[Hn He]]; rewrite insert_entry_slot; [by rewrite decide_True|].
    destruct (Hh h e' He) as [E1 E2]. split; [done|]. rewrite decide_False; [done|].
    intros [Ea En]. congruence.
  - intros a n h. rewrite insert_entry_slot. cbn [byHash insert_entry].
    destruct (decide _) as [[-> ->]|Hd].
    + intros [= <-]. exists e. by rewrite lookup_insert_eq.
    + intros H. destruct (Hs a n h H) as (e' & He & Ea & En). exists e'.
      rewrite lookup_insert_ne; [done|]. congruence.
  - intros a m. cbn [bySender insert_entry]. rewrite lookup_insert_Some.
    intros [[<- <-]|[_ H]]; [apply insert_non_empty|by apply (Hne a)].
  - intros h e'. cbn [byHash insert_entry cfg]. rewrite lookup_insert_Some.
    intros [[_ <-]|[_ He]]; [done|by apply (Hp h)].
Qed.

(** ** Counting *)

(** The number of entries of one sender. *)
Definition count_from (P : gmap Hash Entry) (a : Address) : Z :=
  map_sum (λ _ e, if decide (e_From e = a) then 1 else 0) P.

Lemma size_map_sum `{Countable K} {A} (m : gmap K A) : Z.of_nat (size m) = map_sum (λ _ _, 1) m.
Proof.
  induction m as [|k x m Hk IH] using map_ind; [done|].
  rewrite map_size_insert_None, map_sum_insert by done. lia.
Qed.

Lemma count_from_size P a :
  count_from P a = Z.of_nat (length (filter (λ x, e_From x.2 = a) (map_to_list P))).
Proof.
  unfold count_from. induction P as [|h e P Hh IH] using map_ind; [done|].
  rewrite map_sum_insert by done. rewrite map_to_list_insert by done.
  rewrite filter_cons, IH. cbn [snd]. destruct (decide _); cbn [length]; lia.
Qed.

Lemma count_from_delete P h e a : P !! h = Some e →
  count_from (delete h P) a = count_from P a - (if decide (e_From e = a) then 1 else 0).
Proof. intros H. unfold count_from. rewrite (map_sum_delete _ P h e H). lia. Qed.

Lemma count_from_insert P h e a : P !! h = None →
  count_from (<[h := e]> P) a = count_from P a + (if decide (e_From e = a) then 1 else 0).
Proof. intros H. unfold count_from. rewrite map_sum_insert by done. lia. Qed.

(** The per-sender index counts the entries of its sender. *)
Lemma sender_count_from p a : pool_core p → sender_count a p = count_from (byHash p) a.
Proof.
  intros [Hh Hs _ _]. rewrite count_from_size. unfold sender_count.
  set (l := filter _ _).
  assert (∀ m, default ∅ (bySender p !! a) = m → (map_to_list m).*2 ≡ₚ l.*1) as Hperm.
  { intros m Hm.
    assert (∀ n h, m !! n = Some h ↔ slot p a n = Some h) as Hslot.
    { intros n h. unfold slot. destruct (bySender p !! a) as [m'|]; cbn in Hm; subst m; [done|].
      cbn. by rewrite lookup_empty. }
    apply NoDup_Permutation.
    - apply NoDup_fmap_2_strong; [|apply NoDup_map_to_list]. intros [n1 h1] [n2 h2] H1 H2 E.
      cbn in E. subst h2. apply elem_of_map_to_list, Hslot in H1, H2.
      destruct (Hs _ _ _ H1) as (e1 & ? & ? & ?), (Hs _ _ _ H2) as (e2 & ? & ? & ?). congruence.
    - unfold l. apply NoDup_fmap_2_strong; [|apply NoDup_filter, NoDup_map_to_list].
      intros [h1 e1] [h2 e2] H1 H2 E. cbn in E. subst h2.
      apply list_elem_of_filter in H1 as [_ H1], H2 as [_ H2].
      apply elem_of_map_to_list in H1, H2. congruence.
    - intros h. rewrite !list_elem_of_fmap. split.
      + intros ([n h'] & -> & H). apply elem_of_map_to_list, Hslot in H.
        destruct (Hs _ _ _ H) as (e & He & Ea & En). exists (h', e). split; [done|].
        apply list_elem_of_filter. split; [done|]. by apply elem_of_map_to_list.
      + intros ([h' e] & -> & H). apply list_elem_of_filter in H as [Ea H].
        apply elem_of_map_to_list in H. destruct (Hh _ _ H) as [_ Hsl]. cbn in Ea.
        exists (e_Nonce e, h'). split; [done|]. apply elem_of_map_to_list, Hslot. by rewrite <- Ea. }
  assert (∀ m : gmap Z Hash, Z.of_nat (length (map_to_list m).*2) = Z.of_nat (size m)) as Hlen.
  { intros m. by rewrite length_fmap, length_map_to_list. }
  rewrite <- (length_fmap fst l).
  destruct (bySender p !! a) as [m|] eqn:E; rewrite <- (Hperm _ eq_refl); cbn [default from_option id].
  - by rewrite Hlen.
  - by rewrite map_to_list_empty.
Qed.

Lemma count_from_nonneg P a : 0 <= count_from P a.
Proof. apply map_sum_nonneg. intros. by destruct (decide _). Qed.

Lemma count_from_pos P h e : P !! h = Some e → 1 <= count_from P (e_From e).
Proof.
  intros H. unfold count_from. rewrite (map_sum_delete _ P h e H), decide_True by done.
  enough (0 <= count_from (delete h P) (e_From e)) by (unfold count_from in *; lia).
  apply count_from_nonneg.
Qed.

(** Summing the senders' counts gives the size of the pool. *)
Lemma sum_count_from {A} (P : gmap Hash Entry) (S : gmap Address A) :
  (∀ h e, P !! h = Some e → is_Some (S !! e_From e)) →
  map_sum (λ a _, count_from P a) S = Z.of_nat (size P).
Proof.
  induction P as [|h e P Hh IH] using map_ind; intros Hcov.
  - rewrite map_size_empty. unfold count_from.
    rewrite (map_sum_ext _ (λ _ _, 0)) by (intros; by rewrite map_sum_empty). apply map_sum_zero.
  - rewrite map_size_insert_None by done.
    rewrite (map_sum_ext _ (λ a _, count_from P a + (if decide (e_From e = a) then 1 else 0)))
      by (intros; by rewrite count_from_insert).
    rewrite map_sum_plus, IH.
    + destruct (Hcov h e) as [x Hx]; [by rewrite lookup_insert_eq|].
      rewrite (map_sum_delete _ S (e_From e) x Hx), decide_True by done.
      rewrite (map_sum_ext _ (λ _ _, 0)).
      * rewrite map_sum_zero. lia.
      * intros k y Hk. apply lookup_delete_Some in Hk as [Hk _]. by rewrite decide_False.
    + intros h' e' H. apply (Hcov h'). rewrite lookup_insert_ne; [done|]. congruence.
Qed.

(** ** Eviction *)
Lemma elem_of_snoc {A} (x y : A) l : x ∈ l ++ [y] ↔ x ∈ l ∨ x = y.
Proof. by rewrite elem_of_app, list_elem_of_singleton. Qed.

Lemma worse_entry_spec price es :
  match foldl (worse_entry price) None es with
  | None => ∀ e, e ∈ es → price <= e_Price e
  | Some w => w ∈ es ∧ e_Price w < price ∧ ∀ e, e ∈ es → e_Price w <= e_Price e
  end.
Proof.
  induction es as [|e es IH] using rev_ind; [intros e He; by apply not_elem_of_nil in He|].
  rewrite foldl_app. cbn [foldl]. unfold worse_entry at 1.
  destruct (price <=? e_Price e) eqn:E; zbool; destruct (foldl _ None es) as [w|].
  - destruct IH as (I1 & I2 & I3). split_and!; [apply elem_of_snoc; by left|done|].
    intros e' [He| ->]%elem_of_snoc; [by apply I3|lia].
  - intros e' [He| ->]%elem_of_snoc; [by apply IH|done].
  - destruct IH as (I1 & I2 & I3). destruct (e_Price e <? e_Price w) eqn:E2; zbool.
    + split_and!; [apply elem_of_snoc; by right|done|].
      intros e' [He| ->]%elem_of_snoc; [apply I3 in He; lia|done].
    + split_and!; [apply elem_of_snoc; by left|done|].
      intros e' [He| ->]%elem_of_snoc; [by apply I3|done].
  - split_and!; [apply elem_of_snoc; by right|done|].
    intros e' [He| ->]%elem_of_snoc; [apply IH in He; lia|done].
Qed.

Section Invariant.
Context `{O : PoolOrder} {OL : PoolOrderLaws O}.

Lemma pending_elem p e : e ∈ (range_entries (byHash p)).*2 ↔ ∃ h, byHash p !! h = Some e.
Proof using OL.
  rewrite (Permutation_map snd (range_entries_ok (byHash p))).
  rewrite list_elem_of_fmap. split.
  - intros ([h e'] & -> & H). exists h. by apply elem_of_map_to_list in H.
  - intros [h H]. exists (h, e). split; [done|]. by apply elem_of_map_to_list.
Qed.

Lemma worst_below_spec price p : pool_core p →
  match worst_below price p with
  | None => ∀ h e, byHash p !! h = Some e → price <= e_Price e
  | Some w => byHash p !! e_Hash w = Some w ∧ e_Price w < price
              ∧ ∀ h e, byHash p !! h = Some e → e_Price w <= e_Price e
  end.
Proof using OL.
  intros Hc. unfold worst_below.
  pose proof (worse_entry_spec price (range_entries (byHash p)).*2) as H.
  destruct (foldl _ _ _) as [w|].
  - destruct H as (Hin & Hlt & Hmin). apply pending_elem in Hin as [h Hh].
    destruct (core_hash _ Hc h w Hh) as [-> _]. split_and!; [done|done|].
    intros h' e He. apply Hmin, pending_elem. eauto.
  - intros h e He. apply H, pending_elem. eauto.
Qed.
End Invariant.

(** ** The abstract pool

    What admission promises, on the set of pending entries alone: which
    entries are in afterwards and with which answer. *)
Definition occupies (P : gmap Hash Entry) (e old : Entry) : Prop :=
  P !! e_Hash old = Some old ∧ e_From old = e_From e ∧ e_Nonce old = e_Nonce e.

Inductive admission (c : Config) (e : Entry) (P : gmap Hash Entry) :
    gmap Hash Entry → option PoolError → Prop :=
| adm_known : is_Some (P !! e_Hash e) → admission c e P P (Some ErrAlreadyKnown)
| adm_rbf_disabled old :
    P !! e_Hash e = None → occupies P e old → PriceBumpPercent c = 0 →
    admission c e P P (Some ErrRBFDisabled)
| adm_replace_under old :
    P !! e_Hash e = None → occupies P e old → PriceBumpPercent c ≠ 0 →
    e_Price e < bump_floor c old → admission c e P P (Some ErrReplaceUnder)
| adm_replaced old :
    P !! e_Hash e = None → occupies P e old → PriceBumpPercent c ≠ 0 →
    bump_floor c old <= e_Price e →
    admission c e P (<[e_Hash e := e]> (delete (e_Hash old) P)) None
| adm_sender_limit :
    P !! e_Hash e = None → (∀ old, ¬ occupies P e old) →
    MaxPerSender c <= count_from P (e_From e) → admission c e P P (Some ErrSenderLimit)
| adm_full :
    P !! e_Hash e = None → (∀ old, ¬ occupies P e old) →
    count_from P (e_From e) < MaxPerSender c → MaxGlobal c <= Z.of_nat (size P) →
    (∀ h w, P !! h = Some w → e_Price e <= e_Price w) → admission c e P P (Some ErrPoolFull)
| adm_evicted w :
    P !! e_Hash e = None → (∀ old, ¬ occupies P e old) →
    count_from P (e_From e) < MaxPerSender c → MaxGlobal c <= Z.of_nat (size P) →
    P !! e_Hash w = Some w → e_Price w < e_Price e →
    (∀ h v, P !! h = Some v → e_Price w <= e_Price v) →
    admission c e P (<[e_Hash e := e]> (delete (e_Hash w) P)) None
| adm_inserted :
    P !! e_Hash e = None → (∀ old, ¬ occupies P e old) →
    count_from P (e_From e) < MaxPerSender c → Z.of_nat (size P) < MaxGlobal c →
    admission c e P (<[e_Hash e := e]> P) None.

Lemma slot_free p e : pool_core p →
  slot p (e_From e) (e_Nonce e) = None ↔ ∀ old, ¬ occupies (byHash p) e old.
Proof.
  intros Hc. split.
  - intros Hs old (Ho & Ea & En). destruct (core_hash _ Hc _ _ Ho) as [_ H]. congruence.
  - intros Hno. destruct (slot p _ _) as [h|] eqn:E; [|done].
    destruct (core_slot _ Hc _ _ _ E) as (old & Ho & Ea & En).
    destruct (Hno old). destruct (core_hash _ Hc _ _ Ho) as [E2 _]. unfold occupies. by rewrite E2.
Qed.

Lemma replace_step_spec e p : pool_core p →
  match replace_step e p with
  | inl err => ∃ old, occupies (byHash p) e old ∧
      ((err = ErrRBFDisabled ∧ PriceBumpPercent (cfg p) = 0) ∨
       (err = ErrReplaceUnder ∧ PriceBumpPercent (cfg p) ≠ 0 ∧ e_Price e < bump_floor (cfg p) old))
  | inr (p1, true) => ∃ old, occupies (byHash p) e old ∧ PriceBumpPercent (cfg p) ≠ 0
      ∧ bump_floor (cfg p) old <= e_Price e ∧ p1 = removeLocked (e_Hash old) p
  | inr (p1, false) => p1 = p ∧ slot p (e_From e) (e_Nonce e) = None
  end.
Proof.
  intros Hc. unfold replace_step. fold (slot p (e_From e) (e_Nonce e)).
  destruct (slot p _ _) as [h|] eqn:E; [|done].
  destruct (core_slot _ Hc _ _ _ E) as (old & Ho & Ea & En). rewrite Ho.
  destruct (core_hash _ Hc _ _ Ho) as [Eh _].
  assert (occupies (byHash p) e old) as Hocc by (unfold occupies; by rewrite Eh).
  destruct (_ =? 0) eqn:Eb; zbool; [by exists old; auto|].
  destruct (_ <? _) eqn:Ep; zbool; exists old; [by auto|]. by rewrite Eh.
Qed.

Lemma bounds_insert e b p :
  pool_core p → pool_core (insert_entry e b p) → byHash p !! e_Hash e = None →
  (∀ a, sender_count a p <= MaxPerSender (cfg p)) →
  sender_count (e_From e) p < MaxPerSender (cfg p) → Len p < MaxGlobal (cfg p) →
  0 < MaxGlobal (cfg p) ∧ 0 < MaxPerSender (cfg p) → pool_wf (insert_entry e b p).
Proof.
  intros Hc Hc' Hnew Hall Hs Hl Hpos. split; [done| | |done]; cbn [cfg insert_entry].
  - unfold Len in *. cbn [byHash insert_entry]. rewrite map_size_insert_None by done. lia.
  - intros a. rewrite sender_count_from by done. cbn [byHash insert_entry].
    rewrite count_from_insert by done. rewrite <- sender_count_from by done.
    destruct (decide _) as [<-|]; [lia|]. specialize (Hall a). lia.
Qed.

(** Taking an entry out makes room for one, for everybody. *)
Lemma remove_room h e p : pool_wf p → byHash p !! h = Some e →
  let p' := removeLocked h p in
  pool_core p' ∧ (∀ a, sender_count a p' <= MaxPerSender (cfg p'))
  ∧ (∀ a, sender_count a p' <= sender_count a p)
  ∧ sender_count (e_From e) p' < MaxPerSender (cfg p') ∧ Len p' < MaxGlobal (cfg p').
Proof.
  intros [Hc Hg Hs Hpos] He p'. assert (pool_core p') as Hc' by by apply removeLocked_core.
  assert (∀ a, sender_count a p' = sender_count a p - (if decide (e_From e = a) then 1 else 0)) as Hcnt.
  { intros a. rewrite !sender_count_from by done. unfold p'. rewrite removeLocked_byHash.
    by apply count_from_delete. }
  assert (cfg p' = cfg p) as Ecfg by apply removeLocked_cfg. rewrite Ecfg.
  split_and!; [done|..].
  - intros a. rewrite Hcnt. specialize (Hs a). destruct (decide _); lia.
  - intros a. rewrite Hcnt. destruct (decide _); lia.
  - rewrite Hcnt, decide_True by done. specialize (Hs (e_From e)). lia.
  - unfold Len, p' in *. rewrite removeLocked_byHash, map_size_delete, He.
    assert (size (byHash p) ≠ 0)%nat as Hn by (apply map_size_non_empty_iff; intros E; by rewrite E, lookup_empty in He).
    lia.
Qed.

Lemma pool_core_same p p' : pool_core p → cfg p' = cfg p → byHash p' = byHash p →
  bySender p' = bySender p → pool_core p'.
Proof.
  intros [Hh Hs Hne Hp] Ec Eh Es. split; unfold slot in *; rewrite ?Eh, ?Es, ?Ec; done.
Qed.

Lemma pool_wf_noteReject err p : pool_wf p → pool_wf (noteReject err p).
Proof. intros [Hc Hg Hs Hpos]. split; [by apply (pool_core_same p)|done..]. Qed.

Section Refinement.
Context `{O : PoolOrder} {OL : PoolOrderLaws O}.

(** The entry goes in after the free slot and the room for it are known. *)
Lemma insert_refines e b p : pool_core p → byHash p !! e_Hash e = None →
  slot p (e_From e) (e_Nonce e) = None → entry_ok (cfg p) e →
  (∀ a, sender_count a p <= MaxPerSender (cfg p)) →
  sender_count (e_From e) p < MaxPerSender (cfg p) → Len p < MaxGlobal (cfg p) →
  0 < MaxGlobal (cfg p) ∧ 0 < MaxPerSender (cfg p) → pool_wf (insert_entry e b p).
Proof using.
  intros Hc Hnew Hfree Hok Hall Hs Hl Hpos.
  apply bounds_insert; try done. by apply insert_entry_core.
Qed.

Lemma replaced_admitted e old p :
  pool_wf p → entry_ok (cfg p) e → byHash p !! e_Hash e = None → occupies (byHash p) e old →
  let p1 := removeLocked (e_Hash old) p in
  sender_count (e_From e) p1 < MaxPerSender (cfg p1) ∧ Len p1 < MaxGlobal (cfg p1)
  ∧ pool_wf (insert_entry e true p1).
Proof using.
  intros Hwf Hok Hnew (Ho & Ea & En) p1.
  destruct (remove_room (e_Hash old) old p Hwf Ho) as (Hc1 & Hall & _ & Hs1 & Hl1).
  fold p1 in Hc1, Hall, Hs1, Hl1. rewrite Ea in Hs1. split_and!; [done|done|].
  assert (cfg p1 = cfg p) as Ec by apply removeLocked_cfg.
  apply insert_refines; try done.
  - unfold p1. rewrite removeLocked_byHash. by apply lookup_delete_None; right.
  - unfold p1. rewrite removeLocked_slot, Ho, decide_True; [done|by rewrite Ea, En].
  - by rewrite Ec.
  - rewrite Ec. apply (wf_limits _ Hwf).
Qed.

Lemma evicted_admitted e w p :
  pool_wf p → entry_ok (cfg p) e → byHash p !! e_Hash e = None →
  slot p (e_From e) (e_Nonce e) = None → sender_count (e_From e) p < MaxPerSender (cfg p) →
  byHash p !! e_Hash w = Some w →
  pool_wf (insert_entry e false (count_eviction (removeLocked (e_Hash w) p))).
Proof using.
  intros Hwf Hok Hnew Hfree Hs Hw.
  destruct (remove_room (e_Hash w) w p Hwf Hw) as (Hc1 & Hall & Hle & _ & Hl1).
  set (p1 := removeLocked (e_Hash w) p) in *.
  assert (cfg p1 = cfg p) as Ec by apply removeLocked_cfg.
  apply insert_refines; try done.
  - by apply (pool_core_same p1).
  - cbn [byHash count_eviction]. unfold p1. rewrite removeLocked_byHash.
    by apply lookup_delete_None; right.
  - change (slot p1 (e_From e) (e_Nonce e) = None). unfold p1. rewrite removeLocked_slot, Hw.
    by destruct (decide _).
  - cbn [cfg count_eviction]. by rewrite Ec.
  - change (sender_count (e_From e) p1 < MaxPerSender (cfg p1)). rewrite Ec.
    specialize (Hle (e_From e)). lia.
  - cbn [cfg count_eviction]. rewrite Ec. apply (wf_limits _ Hwf).
Qed.

Definition add_result_ok (e : Entry) (p : Pool) (r : Pool * (Hash * option PoolError)) : Prop :=
  pool_wf r.1 ∧ cfg r.1 = cfg p ∧ admission (cfg p) e (byHash p) (byHash r.1) r.2.2
  ∧ (r.2.2 = None → r.2.1 = e_Hash e).

Lemma reject_ok e p h err : pool_wf p →
  admission (cfg p) e (byHash p) (byHash p) (Some err) → add_result_ok e p (reject h err p).
Proof using. intros Hwf Ha. split_and!; [by apply pool_wf_noteReject|done..]. Qed.

Lemma add_refines_admission e p :
  pool_wf p → entry_ok (cfg p) e → add_result_ok e p (add e p).
Proof using OL.
  intros Hwf Hok. pose proof (wf_core _ Hwf) as Hc. unfold add.
  destruct (byHash p !! e_Hash e) as [e0|] eqn:Hnew.
  { apply reject_ok; [done|]. apply adm_known. by rewrite Hnew. }
  pose proof (replace_step_spec e p Hc) as Hr.
  destruct (replace_step e p) as [err|[p1 [|]]].
  - destruct Hr as (old & Hocc & [[-> Hb]|(-> & Hb & Hp)]); apply reject_ok; eauto using admission.
  - destruct Hr as (old & Hocc & Hb & Hp & ->).
    destruct (replaced_admitted e old p Hwf Hok Hnew Hocc) as (Hs & Hl & Hwf').
    apply Z.lt_nge, Z.leb_nle in Hs, Hl. rewrite Hs, Hl. split_and!; [done|by apply removeLocked_cfg| |done].
    cbn [fst snd byHash insert_entry]. rewrite removeLocked_byHash. by eapply adm_replaced.
  - destruct Hr as [-> Hfree]. assert (∀ old, ¬ occupies (byHash p) e old) as Hno by by apply slot_free.
    destruct (MaxPerSender _ <=? _) eqn:Es; zbool.
    { apply reject_ok; [done|]. apply adm_sender_limit; [done|done|]. by rewrite <- sender_count_from. }
    assert (count_from (byHash p) (e_From e) < MaxPerSender (cfg p)) as Hcnt by by rewrite <- sender_count_from.
    destruct (MaxGlobal _ <=? _) eqn:El; zbool.
    + unfold evictCheaperThan. pose proof (worst_below_spec (e_Price e) p Hc) as Hw.
      destruct (worst_below _ _) as [w|]; [|apply reject_ok; [done|by apply adm_full]].
      destruct Hw as (Hw & Hlt & Hmin).
      split_and!; [by apply evicted_admitted|by apply removeLocked_cfg| |done].
      cbn [fst snd byHash insert_entry count_eviction]. rewrite removeLocked_byHash. by apply adm_evicted.
    + split_and!; [|done| |done]; [|by apply adm_inserted].
      apply insert_refines; try done; apply Hwf.
Qed.
End Refinement.

(** ** Reachable pools *)
Section Reach.
Context `{C : Crypto} `{O : PoolOrder} {OL : PoolOrderLaws O}.

(** One call on the pool. *)
Inductive pool_call (p : Pool) : Pool → Prop :=
| call_AddEVM tx from raw chainID now p' r :
    AddEVM tx from raw chainID now p = Some (p', r) → pool_call p p'
| call_AddDew tx raw chainID now p' r :
    AddDew tx raw chainID now p = Some (p', r) → pool_call p p'
| call_Remove h : pool_call p (Remove h p).

Definition reachable (c : Config) (p : Pool) : Prop := rtc pool_call (NewPool c) p.

(** What [New] puts in place of missing settings. *)
Definition config_ok (c : Config) : Prop :=
  0 < MaxGlobal c ∧ 0 < MaxPerSender c ∧ is_Some (MinGasPriceWei c) ∧ is_Some (MinTipWei c).

Lemma New_config_ok c : config_ok (New_config c).
Proof using.
  unfold config_ok, New_config. cbn -[Z.leb].
  split_and!; [destruct (_ <=? _) eqn:E; zbool; lia|destruct (_ <=? _) eqn:E; zbool; lia|..].
  - destruct (MinGasPriceWei c); eauto.
  - destruct (MinTipWei c); eauto.
Qed.

Lemma NewPool_wf c : pool_wf (NewPool c).
Proof using.
  destruct (New_config_ok c) as (? & ? & _). split; [split|..]; cbn -[New_config]; try done.
  - unfold Len. cbn -[New_config]. rewrite map_size_empty. lia.
  - intros a. unfold sender_count. cbn -[New_config]. rewrite lookup_empty. lia.
Qed.

Lemma evmPrice_spec c tx : config_ok c →
  match evmPrice c tx with
  | None => False
  | Some (inl _) => True
  | Some (inr (price, tip)) => ∃ f, MinGasPriceWei c = Some f ∧ f <= price
      ∧ (∀ t, tip = Some t → ∃ g, MinTipWei c = Some g ∧ g <= t)
  end.
Proof using.
  intros (_ & _ & [f Hf] & [g Hg]). unfold evmPrice, below. rewrite Hf, Hg. cbn [mbind option_bind].
  destruct (eth_Type tx =? _).
  - destruct (eth_GasFeeCap tx) as [fc|], (eth_GasTipCap tx) as [tc|]; try done.
    destruct (fc <? f) eqn:E1; [done|]. destruct (tc <? g) eqn:E2; [done|]. zbool.
    exists f. split_and!; [done|done|]. intros t [= <-]. eauto.
  - destruct (eth_GasPrice tx) as [gp|]; [|done]. destruct (gp <? f) eqn:E1; [done|]. zbool.
    exists f. split_and!; [done|done|]. by intros t [= ].
Qed.

(** An [AddEVM] call is either refused before the pool is touched or adds an
    entry that meets the policy. *)
Lemma AddEVM_cases tx from raw chainID now p : config_ok (cfg p) →
  (∃ err, AddEVM tx from raw chainID now p = Some (reject 0 err p)) ∨
  (∃ e, AddEVM tx from raw chainID now p = Some (add e p) ∧ entry_ok (cfg p) e
        ∧ e_From e = from ∧ e_Kind e = KindEVM
        ∧ ∃ t, tx = Some t ∧ e_Hash e = eth_Hash t ∧ e_Nonce e = eth_Nonce t).
Proof using.
  intros Hcfg. unfold AddEVM. destruct tx as [tx|]; [|by left; eauto].
  destruct (wire_of _ _) as [raw'|]; [|by left; eauto].
  destruct (MaxTxBytes _ <? _) eqn:Es; [by left; eauto|]. zbool.
  destruct (evm_wrong_chain _ _); [by left; eauto|].
  pose proof (evmPrice_spec (cfg p) tx Hcfg) as Hp.
  destruct (evmPrice _ _) as [[err|[price tip]]|]; [by left; eauto| |done]. cbn [mbind option_bind].
  destruct Hp as (f & Hf & Hle & Ht). right. eexists. split; [done|].
  split_and!; [|done|done|by eexists]. split_and!; [done|done|]. cbn. eauto.
Qed.

Lemma AddDew_cases tx raw chainID now p r : AddDew tx raw chainID now p = Some r →
  (∃ err, r = reject 0 err p) ∨
  (∃ e, r = add e p ∧ entry_ok (cfg p) e ∧ e_Kind e = KindDew
        ∧ ∃ t, tx = Some t ∧ DewTx_Hash t = Some (e_Hash e)
               ∧ e_From e = dtx_Sender t ∧ e_Nonce e = dtx_Nonce t).
Proof using.
  unfold AddDew. destruct tx as [tx|]; [|intros [= <-]; by left; eauto].
  destruct (wire_of _ _) as [raw'|]; [|intros [= <-]; by left; eauto].
  destruct (MaxTxBytes _ <? _) eqn:Es; [intros [= <-]; by left; eauto|]. zbool.
  destruct (dew_wrong_chain _ _); [intros [= <-]; by left; eauto|].
  destruct (_ <? MinDewFeeWei _) eqn:Ef; [intros [= <-]; by left; eauto|]. zbool.
  destruct (DewTx_Hash tx) as [h|] eqn:Eh; [|done]. cbn [mbind option_bind]. intros [= <-].
  right. eexists. split; [done|]. split_and!; [|done|by eexists]. split_and!; done.
Qed.

Lemma pool_call_wf p p' : config_ok (cfg p) → pool_wf p → pool_call p p' →
  pool_wf p' ∧ cfg p' = cfg p.
Proof using OL.
  intros Hcfg Hwf [tx from raw chainID now p1 r H|tx raw chainID now p1 r H|h].
  - destruct (AddEVM_cases tx from raw chainID now p Hcfg) as [[err E]|(e & E & Hok & _)]; rewrite E in H.
    + injection H as <- _. split; [by apply pool_wf_noteReject|done].
    + destruct (add_refines_admission e p Hwf Hok) as (? & ? & _).
      injection H as H. rewrite H in *. done.
  - destruct (AddDew_cases _ _ _ _ _ _ H) as [[err E]|(e & E & Hok & _)].
    + injection E as -> _. split; [by apply pool_wf_noteReject|done].
    + destruct (add_refines_admission e p Hwf Hok) as (? & ? & _). rewrite <- E in *. done.
  - split; [|apply removeLocked_cfg]. unfold Remove. destruct (byHash p !! h) as [e|] eqn:E.
    + destruct (remove_room h e p Hwf E) as (Hc & Hall & _ & _ & Hl).
      split; [done|lia|done|]. rewrite removeLocked_cfg. apply (wf_limits _ Hwf).
    + unfold removeLocked. by rewrite E.
Qed.

Lemma reachable_inv c p : reachable c p → pool_wf p ∧ cfg p = New_config c.
Proof using OL.
  intros H. unfold reachable in H.
  enough (∀ p0, rtc pool_call p0 p → pool_wf p0 ∧ cfg p0 = New_config c →
    pool_wf p ∧ cfg p = New_config c) as Hgen.
  { apply (Hgen _ H). split; [apply NewPool_wf|done]. }
  clear H. intros p0. induction 1 as [|p0 p1 p2 Hcall _ IH]; [done|].
  intros [Hwf Hcfg]. apply IH. destruct (pool_call_wf p0 p1) as [? ->]; [|done..].
  rewrite Hcfg. apply New_config_ok.
Qed.

(** C18. After any sequence of calls the pool's two indexes describe the same
    entries, no sender has two pending transactions with one nonce, the
    global and per-sender limits hold, and every pending entry meets the size
    limit and the fee floor of its kind; and admission of an EVM transaction
    never panics. *)
Theorem pool_invariant c p :
  reachable c p →
  pool_wf p
  ∧ (∀ h1 h2 e1 e2, PoolGet p h1 = Some e1 → PoolGet p h2 = Some e2 →
       e_From e1 = e_From e2 → e_Nonce e1 = e_Nonce e2 → h1 = h2)
  ∧ (∀ tx from raw chainID now, is_Some (AddEVM tx from raw chainID now p)).
Proof using OL.
  intros H. destruct (reachable_inv c p H) as [Hwf Hcfg]. split_and!; [done| |].
  - intros h1 h2 e1 e2 H1 H2 Ea En.
    destruct (core_hash _ (wf_core _ Hwf) _ _ H1) as [_ S1].
    destruct (core_hash _ (wf_core _ Hwf) _ _ H2) as [_ S2]. congruence.
  - intros tx from raw chainID now.
    destruct (AddEVM_cases tx from raw chainID now p) as [[err ->]|(e & -> & _)]; [|done..].
    rewrite Hcfg. apply New_config_ok.
Qed.

(** C8. Admission refines the abstract pool: on every reachable pool [add]
    answers and changes the set of pending entries as [admission] allows.  A
    replacement is admitted only over an entry of the same sender and nonce
    and at the bumped price, an eviction takes out a cheapest entry strictly
    cheaper than the newcomer and only when the pool is full, a refusal
    leaves the set as it was, and a replaced entry is never lost to a
    refusal. *)
Theorem add_refines c p e :
  reachable c p → entry_ok (cfg p) e →
  ∃ p' h err, add e p = (p', (h, err))
    ∧ admission (New_config c) e (byHash p) (byHash p') err
    ∧ (err = None → h = e_Hash e ∧ PoolGet p' h = Some e)
    ∧ (err ≠ None → byHash p' = byHash p).
Proof using OL.
  intros H Hok. destruct (reachable_inv c p H) as [Hwf Hcfg].
  destruct (add_refines_admission e p Hwf Hok) as (_ & _ & Ha & Hh).
  destruct (add e p) as [p' [h err]]. cbn [fst snd] in *. exists p', h, err. rewrite <- Hcfg.
  split_and!; [done|done| |].
  - intros ->. specialize (Hh eq_refl) as ->. split; [done|]. unfold PoolGet.
    inversion Ha as [| | | | | |? ? ? ? ? ? ? ? E|? ? ? ? E]; by rewrite lookup_insert_eq.
  - by destruct Ha.
Qed.
End Reach.

(** ** Telemetry *)
Definition more_pending (x y : SenderPending) : Prop := sp_Pending y <= sp_Pending x.

Lemma sift_perm x l : sift x l ≡ₚ x :: l.
Proof.
  induction l as [|y l IH]; [done|]. cbn [sift]. destruct (_ <? _); [|done].
  rewrite IH. apply Permutation_swap.
Qed.

(** The prefix is kept last-first, so it is sorted by rising counts. *)
Lemma sift_sorted x l :
  StronglySorted (λ a b, more_pending b a) l → StronglySorted (λ a b, more_pending b a) (sift x l).
Proof.
  induction 1 as [|y l Hl IH Hy]; [repeat constructor|]. cbn [sift].
  destruct (sp_Pending y <? sp_Pending x) eqn:E; zbool.
  - constructor; [done|]. rewrite (sift_perm x l). constructor; [unfold more_pending; lia|done].
  - constructor; [by constructor|]. constructor; [done|].
    eapply Forall_impl; [exact Hy|]. unfold more_pending. intros z ?. lia.
Qed.

Lemma StronglySorted_rev {A} (R : A → A → Prop) l :
  StronglySorted (λ a b, R b a) l → StronglySorted R (rev l).
Proof.
  induction 1 as [|x l Hl IH Hx]; [constructor|]. cbn [rev].
  apply StronglySorted_app_2; [|done|repeat constructor].
  intros a b Ha Hb. apply list_elem_of_singleton in Hb as ->. rewrite <- Permutation_rev in Ha.
  rewrite Forall_forall in Hx. by apply Hx.
Qed.

Lemma insertion_sort_spec l :
  insertion_sort l ≡ₚ l ∧ StronglySorted more_pending (insertion_sort l).
Proof.
  unfold insertion_sort.
  enough (∀ acc, StronglySorted (λ a b, more_pending b a) acc →
    foldl (λ prefix x, sift x prefix) acc l ≡ₚ acc ++ l
    ∧ StronglySorted (λ a b, more_pending b a) (foldl (λ prefix x, sift x prefix) acc l)) as Hgen.
  { destruct (Hgen []) as [Hp Hs]; [constructor|]. split; [|by apply StronglySorted_rev].
    rewrite <- Permutation_rev. exact Hp. }
  induction l as [|x l IH]; intros acc Hacc; cbn [foldl]; [by rewrite app_nil_r|].
  destruct (IH (sift x acc)) as [Hp Hs]; [by apply sift_sorted|]. split; [|done].
  rewrite Hp, (sift_perm x acc). cbn. apply Permutation_middle.
Qed.

Lemma count_kinds es : count_kind KindEVM es + count_kind KindDew es = Z.of_nat (length es).
Proof.
  unfold count_kind. induction es as [|e es IH]; [done|]. rewrite !filter_cons.
  destruct (e_Kind e); [rewrite decide_True, decide_False by done|rewrite decide_False, decide_True by done];
    cbn [length]; lia.
Qed.

Lemma sumZ_map_to_list `{Countable K} {A} (f : K → A → Z) (m : gmap K A) :
  sumZ (map (λ x, f x.1 x.2) (map_to_list m)) = map_sum f m.
Proof.
  induction m as [|k x m Hk IH] using map_ind.
  - by rewrite map_to_list_empty, map_sum_empty.
  - rewrite map_sum_insert, <- IH by done.
    rewrite (sumZ_perm _ _ (Permutation_map _ (map_to_list_insert m k x Hk))). done.
Qed.

Section TelemetryProps.
Context `{C : Crypto} `{O : PoolOrder} {OL : PoolOrderLaws O}.

(** The telemetry snapshot of a reachable pool adds up: the two kinds
    and the per-sender counts each sum to the number of pending entries, and
    the top-sender list is the (at most 16) senders with the most pending
    entries, with their true counts, in falling order. *)
Theorem telemetry_consistent c p senders :
  reachable c p → senders ≡ₚ map_to_list (bySender p) →
  let t := PoolTelemetry senders p in
  t_PendingEVM t + t_PendingDew t = t_Pending t
  ∧ sumZ (map (λ am, Z.of_nat (size am.2)) senders) = t_Pending t
  ∧ length (t_TopSenders t) = Nat.min topN (size (bySender p))
  ∧ StronglySorted more_pending (t_TopSenders t)
  ∧ (∀ x, x ∈ t_TopSenders t → sp_Pending x = count_from (byHash p) (sp_Address x))
  ∧ (∀ h e, PoolGet p h = Some e → (∃ x, x ∈ t_TopSenders t ∧ sp_Address x = e_From e)
       ∨ ∀ x, x ∈ t_TopSenders t → count_from (byHash p) (e_From e) <= sp_Pending x).
Proof using OL.
  intros Hr Hs t. destruct (reachable_inv c p Hr) as [Hwf _]. pose proof (wf_core _ Hwf) as Hc.
  set (pairs := map (λ '(a, m), mkSenderPending a (Z.of_nat (size m))) senders) in *.
  destruct (insertion_sort_spec pairs) as [Hperm Hsort].
  assert (∀ x, x ∈ pairs ↔ is_Some (bySender p !! sp_Address x)
            ∧ sp_Pending x = count_from (byHash p) (sp_Address x)) as Hpair.
  { intros [a n]. unfold pairs. rewrite list_elem_of_fmap. cbn [sp_Address sp_Pending].
    rewrite <- sender_count_from by done. unfold sender_count. split.
    - intros ([a' m] & [= -> ->] & Hin). rewrite Hs in Hin. apply elem_of_map_to_list in Hin.
      rewrite Hin. eauto.
    - intros [[m Hm] ->]. exists (a, m). rewrite Hm. split; [done|]. rewrite Hs. by apply elem_of_map_to_list. }
  assert (t_TopSenders t = take topN (insertion_sort pairs)) as Etop by done.
  assert (length senders = size (bySender p)) as Elen by (rewrite Hs; apply length_map_to_list).
  split_and!.
  - cbn [t t_PendingEVM t_PendingDew t_Pending PoolTelemetry]. rewrite count_kinds. unfold Len, Pending.
    rewrite length_fmap, (range_entries_ok (byHash p)), length_map_to_list. done.
  - rewrite (sumZ_perm _ _ (Permutation_map _ Hs)).
    rewrite (sumZ_map_to_list (λ _ m, Z.of_nat (size m))). cbn [t t_Pending PoolTelemetry]. unfold Len.
    rewrite <- (sum_count_from (byHash p) (bySender p)).
    + apply map_sum_ext. intros a m Ha. rewrite <- sender_count_from by done. unfold sender_count. by rewrite Ha.
    + intros h e He. destruct (core_hash _ Hc h e He) as [_ Hsl]. unfold slot in Hsl.
      destruct (bySender p !! e_From e); [eauto|done].
  - rewrite Etop, length_take, Hperm. unfold pairs. rewrite length_map, Elen. done.
  - rewrite Etop. apply StronglySorted_app_1_l with (l2 := drop topN (insertion_sort pairs)).
    by rewrite take_drop.
  - intros x Hx. apply Hpair. rewrite <- Hperm. apply (subseteq_take topN (insertion_sort pairs)).
    by rewrite <- Etop.
  - intros h e He. destruct (core_hash _ Hc h e He) as [_ Hsl]. unfold slot in Hsl.
    set (x0 := mkSenderPending (e_From e) (count_from (byHash p) (e_From e))).
    assert (x0 ∈ insertion_sort pairs) as Hx0.
    { rewrite Hperm. apply Hpair. split; [|done]. cbn. destruct (bySender p !! e_From e); [eauto|done]. }
    rewrite <- (take_drop topN (insertion_sort pairs)) in Hx0, Hsort. rewrite Etop.
    apply elem_of_app in Hx0 as [Hin|Hin]; [left; by exists x0|right].
    intros x Hx. apply (StronglySorted_app_1_elem_of _ _ _ _ _ Hsort Hx Hin).
Qed.
End TelemetryProps.

(** ** Evaluation *)
Definition listed_order : PoolOrder := {| range_entries := map_to_list |}.

Lemma listed_order_laws : PoolOrderLaws listed_order.
Proof. split. intros m. reflexivity. Qed.

Section Witnesses.
Local Existing Instances toy_crypto listed_order listed_order_laws.

(** A legacy transaction at 1 gwei, and a pool that admitted it. *)
Definition sample_eth : EthTx := mkEthTx 0 None None (Some 1000000000) (Some 1337) 4 99 (Err "unset").
Definition sample_pool : Pool :=
  default (NewPool DefaultConfig)
    (fst <$> AddEVM (Some sample_eth) 7 [1; 2; 3] (Some 1337) 0 (NewPool DefaultConfig)).

Lemma sample_pool_reachable : reachable DefaultConfig sample_pool.
Proof.
  apply rtc_once.
  apply (call_AddEVM _ (Some sample_eth) 7 [1; 2; 3] (Some 1337) 0 sample_pool (99, None)).
  vm_compute. reflexivity.
Qed.

(** The same sender's replacement at the bumped price. *)
Definition sample_bump : Entry := mkEntry 100 7 4 KindEVM [5] 1100000000 None 1 1.

Lemma pool_invariant_witness : pool_wf sample_pool ∧ Len sample_pool = 1.
Proof. split; [apply (pool_invariant DefaultConfig), sample_pool_reachable|reflexivity]. Defined.

Lemma add_refines_witness :
  ∃ p' h err, add sample_bump sample_pool = (p', (h, err))
    ∧ admission (New_config DefaultConfig) sample_bump (byHash sample_pool) (byHash p') err
    ∧ (err = None → h = 100 ∧ PoolGet p' h = Some sample_bump)
    ∧ (err ≠ None → byHash p' = byHash sample_pool).
Proof.
  apply (add_refines DefaultConfig sample_pool sample_bump); [apply sample_pool_reachable|].
  split_and!; [reflexivity|vm_compute; discriminate|]. cbn. split.
  - exists 1000000000. split; [reflexivity|]. vm_compute. discriminate.
  - intros t H. discriminate.
Defined.

(** ... and the answer of that call. *)
Lemma sample_bump_admitted : (add sample_bump sample_pool).2 = (100, None).
Proof. reflexivity. Qed.

Lemma telemetry_consistent_witness :
  let t := PoolTelemetry (map_to_list (bySender sample_pool)) sample_pool in
  t_PendingEVM t + t_PendingDew t = t_Pending t ∧ t_Pending t = 1.
Proof.
  split; [|reflexivity].
  apply (telemetry_consistent DefaultConfig sample_pool); [apply sample_pool_reachable|reflexivity].
Defined.
End Witnesses.
