(* ===== verification/ValidatorSet.v ===== *)
(** * The validator set

    Models [consensus/validator.go] and [consensus/activeset.go]: the
    address-sorted stake-weighted set, the quorum test, the weighted
    round-robin proposer and the conversion of staked candidates into a set.

    The theorems characterise construction (exactly the well-formed inputs are
    accepted, whatever their order), show the proposer rotation is exactly
    proportional to stake, and give the range in which the [uint64] quorum
    test is the strict two-thirds test. *)
From S2P Require Import Prelude Types.

Record Validator : Type := mkValidator { v_addr : Address; v_power : Z }.

#[export] Instance Validator_eq_dec : EqDecision Validator.
Proof. solve_decision. Defined.

Record ValidatorSet : Type := mkValidatorSet {
  Validators : list Validator;
  totalPower : Z;
  index : gmap Address nat;
}.

(** The comparison [string(cp[i].Address[:]) < string(cp[j].Address[:])]. *)
Definition addr_le (v w : Validator) : Prop := v_addr v <= v_addr w.
#[export] Instance addr_le_dec v w : Decision (addr_le v w).
Proof. unfold addr_le. apply _. Defined.

(** The loop of [NewValidatorSet] from position [i]. *)
Fixpoint NewValidatorSet_loop (i : nat) (l : list Validator) (idx : gmap Address nat) (total : Z)
    : res (gmap Address nat * Z) :=
  match l with
  | [] => Ok (idx, total)
  | v :: l' =>
      if v_power v =? 0 then Err "consensus: validator has zero power" else
      match idx !! v_addr v with
      | Some _ => Err "consensus: duplicate validator"
      | None =>
          if (total +₆₄ v_power v) <? total then Err "consensus: voting power overflow"
          else NewValidatorSet_loop (S i) l' (<[v_addr v := i]> idx) (total +₆₄ v_power v)
      end
  end.

Definition NewValidatorSet (vals : list Validator) : res ValidatorSet :=
  match vals with
  | [] => Err "consensus: empty validator set"
  | _ =>
      let cp := merge_sort addr_le vals in
      let? (idx, total) := NewValidatorSet_loop 0 cp ∅ 0 in
      Ok (mkValidatorSet cp total idx)
  end.

Definition Size (vs : ValidatorSet) : Z := Z.of_nat (length (Validators vs)).
Definition TotalPower (vs : ValidatorSet) : Z := totalPower vs.

(** [Get]: [None] is the [false] result; an index outside the slice panics
    and is [None] here too, which no set built by [NewValidatorSet] reaches. *)
Definition Get (vs : ValidatorSet) (addr : Address) : option Validator :=
  match index vs !! addr with
  | None => None
  | Some i => Validators vs !! i
  end.

Definition PowerOf (vs : ValidatorSet) (addr : Address) : Z :=
  match Get vs addr with None => 0 | Some v => v_power v end.

(** The package function [HasQuorum] on [uint64]s. *)
Definition HasQuorum (votePower totalPower : Z) : bool :=
  if totalPower =? 0 then false else (totalPower *₆₄ 2) <? (votePower *₆₄ 3).

(** The loop of [ProposerIndex]. *)
Fixpoint ProposerIndex_loop (slot acc : Z) (i : nat) (l : list Validator) : option nat :=
  match l with
  | [] => None
  | v :: l' =>
      let acc' := acc +₆₄ v_power v in
      if slot <? acc' then Some i else ProposerIndex_loop slot acc' (S i) l'
  end.

Definition ProposerIndex (vs : ValidatorSet) (height round : Z) : Z :=
  let total := totalPower vs in
  if total =? 0 then 0 else
  let slot := (height +₆₄ round) mod total in
  match ProposerIndex_loop slot 0 0 (Validators vs) with
  | Some i => Z.of_nat i
  | None => Z.of_nat (length (Validators vs)) - 1
  end.

(** [Proposer]; [None] is the out-of-range panic. *)
Definition ProposerOf (vs : ValidatorSet) (height round : Z) : option Address :=
  let i := ProposerIndex vs height round in
  if i <? 0 then None else v_addr <$> Validators vs !! Z.to_nat i.

(** ** Active set conversion ([consensus/activeset.go]) *)
Record Candidate : Type := mkCandidate { c_addr : Address; c_votingPower : Z }.

Definition powerFromU256 (v : Z) : Z :=
  if v <=? 0 then 0 else if v <? 2 ^ 64 then v else 2 ^ 64 - 1.

Definition candidate_validator (c : Candidate) : list Validator :=
  if c_addr c =? 0 then [] else
  if c_votingPower c =? 0 then [] else
  let power := powerFromU256 (c_votingPower c) in
  if power =? 0 then [] else [mkValidator (c_addr c) power].

Definition ActiveSetToValidatorSet (candidates : list Candidate) : res ValidatorSet :=
  match candidates with
  | [] => Err "consensus: empty active set"
  | _ => NewValidatorSet (concat (map candidate_validator candidates))
  end.

Definition ShouldRotateEpoch (height epochLength : Z) : bool :=
  if (epochLength =? 0) || (height =? 0) then false else height mod epochLength =? 0.

(** ** Well-formedness *)
Definition powers (l : list Validator) : Z := sumZ (map v_power l).

#[global] Arguments powers : simpl never.

Definition valid_validators (l : list Validator) : Prop :=
  l ≠ [] ∧ Forall (λ v, 0 < v_power v) l ∧ NoDup (map v_addr l) ∧ powers l < 2 ^ 64.

Record vs_wf (vs : ValidatorSet) : Prop := {
  wf_valid : valid_validators (Validators vs);
  wf_sorted : StronglySorted addr_le (Validators vs);
  wf_total : totalPower vs = powers (Validators vs);
  wf_index : ∀ a i, index vs !! a = Some i ↔ v_addr <$> Validators vs !! i = Some a;
}.

(** ** Construction *)
Lemma powers_nil : powers [] = 0.
Proof. done. Qed.

Lemma powers_cons v l : powers (v :: l) = v_power v + powers l.
Proof. done. Qed.

Lemma powers_app l1 l2 : powers (l1 ++ l2) = powers l1 + powers l2.
Proof. unfold powers. by rewrite map_app, sumZ_app. Qed.

Lemma powers_perm l1 l2 : l1 ≡ₚ l2 → powers l1 = powers l2.
Proof. intros H. apply sumZ_perm. by rewrite H. Qed.

Lemma powers_nonneg l : Forall (λ v, 0 < v_power v) l → 0 <= powers l.
Proof. intros H. apply sumZ_nonneg, Forall_map. eapply Forall_impl; [exact H|]. cbn. lia. Qed.

Lemma powers_take_le i j l :
  Forall (λ v, 0 < v_power v) l → (i <= j)%nat → powers (take i l) <= powers (take j l).
Proof.
  intros Hl Hij. replace j with (i + (j - i))%nat by lia.
  rewrite <-take_take_drop, powers_app.
  assert (0 <= powers (take (j - i) (drop i l))); [|lia].
  by apply powers_nonneg, Forall_take, Forall_drop.
Qed.

Lemma powers_take_S l i v : l !! i = Some v → powers (take (S i) l) = powers (take i l) + v_power v.
Proof.
  intros Hi. rewrite (take_S_r _ _ v Hi), powers_app. unfold powers at 2. cbn. lia.
Qed.

Lemma addr_le_total : Total addr_le.
Proof. intros v w. unfold addr_le. lia. Qed.

Lemma addr_le_trans : Transitive addr_le.
Proof. intros u v w. unfold addr_le. lia. Qed.

#[export] Existing Instances addr_le_total addr_le_trans.

(** What the loop checks of the entries from position [i] on. *)
Definition loop_pre (l : list Validator) (idx : gmap Address nat) (total : Z) : Prop :=
  Forall (λ v, 0 < v_power v) l ∧ NoDup (map v_addr l) ∧
  (∀ a, a ∈ map v_addr l → idx !! a = None) ∧ total + powers l < 2 ^ 64.

Lemma u64_add_overflow total p :
  is_u64 total → is_u64 p → (total +₆₄ p <? total) = negb (total + p <? 2 ^ 64).
Proof.
  unfold is_u64, u64. intros.
  destruct (Z.ltb_spec (total + p) (2 ^ 64)); cbn; [apply Z.ltb_ge|apply Z.ltb_lt]; zlia.
Qed.

Lemma NewValidatorSet_loop_ok i l idx total :
  is_u64 total → loop_pre l idx total →
  ∃ idx', NewValidatorSet_loop i l idx total = Ok (idx', total + powers l).
Proof.
  revert i idx total. induction l as [|v l IH]; intros i idx total Ht (Hp & Hnd & Hidx & Hs).
  { exists idx. cbn. by rewrite powers_nil, Z.add_0_r. }
  rewrite powers_cons in *. inv Hp. cbn in Hnd. apply NoDup_cons in Hnd as [Hv Hnd].
  pose proof (powers_nonneg l ltac:(done)). unfold is_u64 in Ht. cbn.
  destruct (Z.eqb_spec (v_power v) 0); [lia|].
  rewrite Hidx by (cbn; left).
  rewrite u64_add_overflow by (unfold is_u64; lia).
  destruct (Z.ltb_spec (total + v_power v) (2 ^ 64)); [cbn|lia].
  rewrite u64_id by (unfold is_u64; lia). rewrite Z.add_assoc. apply IH.
  - unfold is_u64; lia.
  - split_and!; [done|done| |lia]. intros a Ha. rewrite lookup_insert_ne by (intros <-; contradiction).
    apply Hidx. cbn. by right.
Qed.

Lemma NewValidatorSet_loop_inv i l idx total r :
  is_u64 total → Forall (λ v, is_u64 (v_power v)) l →
  NewValidatorSet_loop i l idx total = Ok r →
  loop_pre l idx total ∧ r.2 = total + powers l ∧
  (∀ a j, r.1 !! a = Some j ↔
     idx !! a = Some j ∨ ∃ k, (j = i + k)%nat ∧ v_addr <$> l !! k = Some a).
Proof.
  revert i idx total. induction l as [|v l IH]; intros i idx total Ht Hu Hr; cbn in Hr.
  { inv Hr. rewrite powers_nil. cbn. split_and!; [|lia|].
    - split_and!; [done|constructor|set_solver|]. unfold is_u64 in Ht. rewrite powers_nil. lia.
    - intros a j. split; [by left|]. intros [?|(k & _ & ?)]; done. }
  inv Hu. destruct (Z.eqb_spec (v_power v) 0); [done|].
  destruct (idx !! v_addr v) eqn:Hv; [done|].
  rewrite u64_add_overflow in Hr by done.
  destruct (Z.ltb_spec (total + v_power v) (2 ^ 64)); [cbn in Hr|done].
  rewrite u64_id in Hr by (unfold is_u64 in *; lia).
  apply IH in Hr as ((Hp & Hnd & Hidx & Hs) & Hr2 & Hr1); [|unfold is_u64 in *; lia|done].
  rewrite powers_cons. split_and!; [split_and!|lia|].
  - constructor; [unfold is_u64 in *; lia|done].
  - cbn. apply NoDup_cons. split; [|done]. intros Hin. apply Hidx in Hin.
    by rewrite lookup_insert_eq in Hin.
  - cbn. intros a [->|Ha]%elem_of_cons; [done|]. specialize (Hidx a Ha).
    by apply lookup_insert_None in Hidx as [? _].
  - rewrite powers_cons. lia.
  - intros a j. rewrite Hr1. split.
    + intros [[[<- <-]|[_ ?]]%lookup_insert_Some|(k & -> & Hk)].
      * right. exists 0%nat. split; [lia|done].
      * by left.
      * right. exists (S k). split; [lia|done].
    + intros [Ha|([|k] & -> & Hk)].
      * left. rewrite lookup_insert_ne; [done|congruence].
      * cbn in Hk. inv Hk. left. by rewrite Nat.add_0_r, lookup_insert_eq.
      * right. exists k. split; [lia|done].
Qed.

Lemma valid_validators_perm l1 l2 : l1 ≡ₚ l2 → valid_validators l1 → valid_validators l2.
Proof.
  intros Hp (Hne & Hpos & Hnd & Hs). split_and!.
  - intros ->. by apply Permutation_nil_r in Hp.
  - by rewrite <-Hp.
  - by rewrite <-Hp.
  - by rewrite <-(powers_perm _ _ Hp).
Qed.

Lemma NewValidatorSet_accepts l :
  valid_validators l → ∃ vs, NewValidatorSet l = Ok vs ∧ Validators vs = merge_sort addr_le l.
Proof.
  intros Hl. pose proof (merge_sort_Permutation addr_le l) as Hp.
  pose proof (valid_validators_perm _ _ (symmetry Hp) Hl) as (Hne & Hpos & Hnd & Hs).
  destruct Hl as (Hne' & _). unfold NewValidatorSet. destruct l as [|v l]; [done|].
  destruct (NewValidatorSet_loop_ok 0 (merge_sort addr_le (v :: l)) ∅ 0) as [idx Hidx].
  - unfold is_u64; lia.
  - split_and!; [done|done|intros; apply lookup_empty|lia].
  - rewrite Hidx. cbn [rbind]. eauto.
Qed.

Lemma NewValidatorSet_wf l vs :
  Forall (λ v, is_u64 (v_power v)) l →
  NewValidatorSet l = Ok vs → vs_wf vs ∧ Validators vs = merge_sort addr_le l.
Proof.
  intros Hu Hvs. unfold NewValidatorSet in Hvs. destruct l as [|v l]; [done|].
  pose proof (merge_sort_Permutation addr_le (v :: l)) as Hp.
  pose proof (StronglySorted_merge_sort addr_le (v :: l)) as Hso.
  remember (merge_sort addr_le (v :: l)) as cp eqn:Hcp.
  destruct (NewValidatorSet_loop 0 cp ∅ 0) as [[idx total]|] eqn:Hr; [|done].
  cbn in Hvs. injection Hvs as <-. apply NewValidatorSet_loop_inv in Hr as ((Hpos & Hnd & _ & Hs) & Ht & Hi).
  - cbn in Ht, Hi. split; [|done]. split; cbn; [|done|lia|].
    + split_and!; [|done|done|lia]. intros ->. by apply Permutation_nil_l in Hp.
    + intros a i. rewrite Hi, lookup_empty. split.
      * intros [|(k & -> & Hk)]; done.
      * intros Hk. right. by exists i.
  - unfold is_u64; lia.
  - by rewrite Hp.
Qed.

Lemma wf_positive vs : vs_wf vs → Forall (λ v, 0 < v_power v) (Validators vs).
Proof. intros Hwf. apply (wf_valid _ Hwf). Qed.

Lemma wf_NoDup_index vs i j v w :
  vs_wf vs → Validators vs !! i = Some v → Validators vs !! j = Some w →
  v_addr v = v_addr w → i = j.
Proof.
  intros [(_ & _ & Hnd & _) _ _ _] Hi Hj Hvw.
  eapply (NoDup_lookup _ _ _ (v_addr v)); [exact Hnd| |].
  - by rewrite list_lookup_fmap, Hi.
  - by rewrite list_lookup_fmap, Hj, Hvw.
Qed.

Lemma Get_lookup vs i v : vs_wf vs → Validators vs !! i = Some v → Get vs (v_addr v) = Some v.
Proof.
  intros Hwf Hi. unfold Get.
  assert (index vs !! v_addr v = Some i) as -> by (apply (wf_index _ Hwf); by rewrite Hi). done.
Qed.

Lemma Get_elem_of vs a v : vs_wf vs → Get vs a = Some v ↔ v ∈ Validators vs ∧ v_addr v = a.
Proof.
  intros Hwf. split.
  - unfold Get. destruct (index vs !! a) as [i|] eqn:Hi; [|done]. intros Hv.
    apply (wf_index _ Hwf) in Hi. rewrite Hv in Hi. inv Hi.
    split; [by eapply list_elem_of_lookup_2|done].
  - intros [[i Hi]%list_elem_of_lookup_1 <-]. by eapply Get_lookup.
Qed.

Lemma PowerOf_lookup vs i v : vs_wf vs → Validators vs !! i = Some v → PowerOf vs (v_addr v) = v_power v.
Proof. intros Hwf Hi. unfold PowerOf. by erewrite Get_lookup. Qed.

Lemma wf_total_pos vs : vs_wf vs → 0 < totalPower vs < 2 ^ 64.
Proof.
  intros [(Hne & Hpos & _ & Hs) _ -> _]. destruct (Validators vs) as [|v l]; [done|].
  inv Hpos. pose proof (powers_nonneg l ltac:(done)). rewrite powers_cons in *. lia.
Qed.

Lemma PowerOf_range vs a : vs_wf vs → 0 <= PowerOf vs a <= totalPower vs.
Proof.
  intros Hwf. pose proof (wf_total_pos _ Hwf). unfold PowerOf.
  destruct (Get vs a) as [v|] eqn:Hv; [|lia].
  apply (Get_elem_of _ _ _ Hwf) in Hv as [[i Hi]%list_elem_of_lookup_1 _].
  destruct (wf_valid _ Hwf) as (_ & Hpos & _). rewrite (wf_total _ Hwf).
  pose proof (Forall_lookup_1 _ _ _ _ Hpos Hi). pose proof (powers_take_S _ _ _ Hi).
  pose proof (powers_nonneg (take i (Validators vs)) ltac:(by apply Forall_take)).
  pose proof (powers_take_le (S i) (length (Validators vs)) _ Hpos (lookup_lt_Some _ _ _ Hi)) as Hle.
  rewrite firstn_all in Hle. cbn in *. lia.
Qed.

(** ** Proposer rotation *)
Lemma ProposerIndex_loop_spec slot acc i l :
  Forall (λ v, 0 < v_power v) l → 0 <= acc <= slot → acc + powers l < 2 ^ 64 →
  slot < acc + powers l →
  ∃ j, ProposerIndex_loop slot acc i l = Some (i + j)%nat ∧ (j < length l)%nat ∧
       acc + powers (take j l) <= slot < acc + powers (take (S j) l).
Proof.
  revert acc i. induction l as [|v l IH]; intros acc i Hpos Hacc Hs Hlt.
  { rewrite powers_nil in Hlt. lia. }
  inv Hpos. rewrite powers_cons in *. pose proof (powers_nonneg l ltac:(done)). cbn [ProposerIndex_loop].
  rewrite u64_id by (unfold is_u64; lia).
  destruct (Z.ltb_spec slot (acc + v_power v)) as [Hb|Hb].
  - exists 0%nat. split_and!; [f_equal; lia|cbn; lia| |]; cbn [firstn];
      rewrite ?powers_cons, ?firstn_O, ?powers_nil; lia.
  - destruct (IH (acc + v_power v) (S i)) as (j & -> & Hj & Hr); [done|lia|lia|lia|].
    exists (S j). cbn [firstn] in *. rewrite !powers_cons. split_and!; [f_equal; lia|cbn; lia|lia|lia].
Qed.

Lemma ProposerIndex_range vs height round :
  vs_wf vs →
  ∃ i v, ProposerIndex vs height round = Z.of_nat i ∧ Validators vs !! i = Some v ∧
         powers (take i (Validators vs)) <= (height +₆₄ round) mod totalPower vs
           < powers (take i (Validators vs)) + v_power v.
Proof.
  intros Hwf. pose proof (wf_total_pos _ Hwf) as Ht. pose proof (wf_total _ Hwf) as Htot.
  destruct (wf_valid _ Hwf) as (_ & Hpos & _ & _).
  pose proof (Z.mod_pos_bound (height +₆₄ round) (totalPower vs) ltac:(lia)) as Hslot.
  unfold ProposerIndex. destruct (Z.eqb_spec (totalPower vs) 0); [lia|].
  destruct (ProposerIndex_loop_spec ((height +₆₄ round) mod totalPower vs) 0 0 (Validators vs))
    as (j & -> & Hj & Hr); [done|lia|lia|lia|].
  destruct (lookup_lt_is_Some_2 _ _ Hj) as [v Hv].
  exists j, v. rewrite (powers_take_S _ _ _ Hv) in Hr. split_and!; [lia|done|lia|lia].
Qed.

Lemma powers_slot_unique l i j v w slot :
  Forall (λ v, 0 < v_power v) l → l !! i = Some v → l !! j = Some w →
  powers (take i l) <= slot < powers (take i l) + v_power v →
  powers (take j l) <= slot < powers (take j l) + v_power w → i = j.
Proof.
  intros Hpos Hi Hj Hsi Hsj. rewrite <-(powers_take_S _ _ _ Hi) in Hsi.
  rewrite <-(powers_take_S _ _ _ Hj) in Hsj.
  destruct (Nat.lt_trichotomy i j) as [Hij|[|Hij]]; [|done|].
  - pose proof (powers_take_le (S i) j l Hpos Hij). lia.
  - pose proof (powers_take_le (S j) i l Hpos Hij). lia.
Qed.

(** A validator proposes exactly in its window of cumulative power. *)
Lemma ProposerOf_iff vs height round i v :
  vs_wf vs → Validators vs !! i = Some v →
  ProposerOf vs height round = Some (v_addr v) ↔
  powers (take i (Validators vs)) <= (height +₆₄ round) mod totalPower vs
    < powers (take i (Validators vs)) + v_power v.
Proof.
  intros Hwf Hi. destruct (ProposerIndex_range vs height round Hwf) as (j & w & Hj & Hw & Hr).
  unfold ProposerOf. rewrite Hj. destruct (Z.ltb_spec (Z.of_nat j) 0); [lia|].
  rewrite Nat2Z.id, Hw. cbn. split.
  - intros [= Hvw]. by assert (i = j) as -> by (eapply wf_NoDup_index; eauto); simplify_eq.
  - intros Hr'. assert (i = j) as -> by exact (powers_slot_unique _ _ _ _ _ _ (wf_positive _ Hwf) Hi Hw Hr' Hr).
    by simplify_eq.
Qed.

Lemma ProposerOf_is_Some vs height round :
  vs_wf vs → ∃ v, ProposerOf vs height round = Some (v_addr v) ∧ v ∈ Validators vs.
Proof.
  intros Hwf. destruct (ProposerIndex_range vs height round Hwf) as (j & w & Hj & Hw & Hr).
  exists w. split; [|by eapply list_elem_of_lookup_2]. by apply (ProposerOf_iff _ _ _ j).
Qed.

(** Counting the integers of a window that satisfy a predicate. *)
Definition count_where (P : Z → Prop) `{∀ k, Decision (P k)} (start len : Z) : Z :=
  Z.of_nat (length (filter P (seqZ start len))).

Lemma seqZ_1 m : seqZ m 1 = [m].
Proof. done. Qed.

Section Count.
Context (P : Z → Prop) `{HP : ∀ k, Decision (P k)}.

Lemma count_where_S start len :
  0 <= len → count_where P start (Z.succ len) =
             count_where P start len + (if decide (P (start + len)) then 1 else 0).
Proof.
  intros Hl. unfold count_where. replace (Z.succ len) with (len + 1) by lia.
  rewrite seqZ_app by lia. rewrite filter_app, length_app.
  rewrite seqZ_1, filter_cons, filter_nil. destruct (decide _); cbn; lia.
Qed.

Lemma count_where_window start len :
  0 <= len → count_where P (start + 1) len + (if decide (P start) then 1 else 0) =
             count_where P start len + (if decide (P (start + len)) then 1 else 0).
Proof.
  intros Hl. rewrite <-count_where_S by done. unfold count_where.
  replace (Z.succ len) with (1 + len) by lia. rewrite seqZ_app by lia.
  rewrite seqZ_1, filter_app, filter_cons, filter_nil. destruct (decide _); cbn; lia.
Qed.

Lemma count_where_interval lo hi len :
  0 <= lo <= hi → hi <= len → (∀ k, 0 <= k < len → P k ↔ lo <= k < hi) →
  count_where P 0 len = hi - lo.
Proof.
  intros Hlo Hhi HPk.
  assert (∀ n, 0 <= n → n <= len → count_where P 0 n = Z.max 0 (Z.min hi n - lo)) as Haux.
  { intros n Hn. pattern n. apply natlike_ind; [|clear n Hn; intros n Hn IH Hle|done].
    - intros _. change (count_where P 0 0) with 0. lia.
    - rewrite count_where_S, IH by lia. specialize (HPk (0 + n) ltac:(lia)).
      destruct (decide (P (0 + n))) as [Hp|Hp]; rewrite HPk in Hp; lia. }
  rewrite Haux by lia. lia.
Qed.

Lemma count_where_ext (Q : Z → Prop) `{∀ k, Decision (Q k)} start len :
  (∀ k, start <= k < start + len → P k ↔ Q k) → count_where P start len = count_where Q start len.
Proof.
  intros Hpq. unfold count_where. do 2 f_equal.
  assert (Forall (λ k, P k ↔ Q k) (seqZ start len)) as HF.
  { apply Forall_forall. intros k Hk%elem_of_seqZ. by apply Hpq. }
  induction HF as [|k l Hk _ IH]; [done|]. rewrite !filter_cons, IH.
  destruct (decide (P k)), (decide (Q k)); tauto.
Qed.

Lemma count_where_none start len : (∀ k, ¬ P k) → count_where P start len = 0.
Proof.
  intros Hn. unfold count_where. induction (seqZ start len) as [|k l IH]; [done|].
  rewrite filter_cons. destruct (decide (P k)) as [Hk|]; [by apply Hn in Hk|done].
Qed.

Lemma count_where_shift start len d :
  count_where P (start + d) len = count_where (λ k, P (k + d)) start len.
Proof.
  unfold count_where. f_equal. replace (start + d) with (d + start) by lia.
  rewrite <-fmap_add_seqZ. generalize (seqZ start len) as l.
  induction l as [|k l IH]; [done|]. rewrite fmap_cons, !filter_cons, (Z.add_comm d k).
  destruct (decide (P (k + d))); cbn; by rewrite IH.
Qed.
End Count.

Lemma count_where_periodic (P : Z → Prop) `{∀ k, Decision (P k)} T start :
  0 < T → 0 <= start → count_where (λ k, P (k mod T)) start T = count_where P 0 T.
Proof.
  intros HT Hs. pattern start. apply natlike_ind; [|intros s Hs' IH|done].
  - apply count_where_ext. intros k Hk. by rewrite Z.mod_small by lia.
  - pose proof (count_where_window (λ k, P (k mod T)) s T ltac:(lia)) as Hw. cbn in Hw.
    unfold Z.succ.
    rewrite <-IH.
    assert ((s + T) mod T = s mod T) as He by (rewrite <-(Z.mul_1_l T) at 1; apply Z_mod_plus_full).
    destruct (decide (P (s mod T))), (decide (P ((s + T) mod T))); rewrite ?He in *; try done; lia.
Qed.

Lemma ProposerOf_not_member vs height round a :
  vs_wf vs → Get vs a = None → ProposerOf vs height round ≠ Some a.
Proof.
  intros Hwf Ha Hp. destruct (ProposerOf_is_Some vs height round Hwf) as (v & Hv & Hin).
  rewrite Hp in Hv. inv Hv.
  assert (Get vs (v_addr v) = Some v) by (by apply Get_elem_of). congruence.
Qed.

Definition in_window (lo p s : Z) : Prop := lo <= s < lo + p.
#[export] Instance in_window_dec lo p s : Decision (in_window lo p s).
Proof. unfold in_window. apply _. Defined.

(** C34. Over any [TotalPower] consecutive heights at a fixed round (below the
    [uint64] wrap of height plus round), a validator is selected as proposer
    exactly as many times as it has voting power, and a non-member never is. *)
Theorem proposer_fair vs start round a :
  vs_wf vs → 0 <= start → 0 <= round → start + round + totalPower vs <= 2 ^ 64 →
  count_where (λ h, ProposerOf vs h round = Some a) start (totalPower vs) = PowerOf vs a.
Proof.
  intros Hwf Hs Hr Hb. pose proof (wf_total_pos _ Hwf) as Ht.
  destruct (Get vs a) as [v|] eqn:Ha; [|unfold PowerOf; rewrite Ha].
  - destruct (proj1 (Get_elem_of _ _ _ Hwf) Ha) as [[i Hi]%list_elem_of_lookup_1 <-].
    rewrite (PowerOf_lookup _ _ _ Hwf Hi).
    set (lo := powers (take i (Validators vs))).
    set (W := in_window lo (v_power v)).
    transitivity (count_where (λ k, W (k mod totalPower vs)) (start + round) (totalPower vs)).
    + rewrite count_where_shift. apply count_where_ext.
      intros h Hh. rewrite (ProposerOf_iff _ _ _ i) by done.
      rewrite u64_id by (unfold is_u64; lia). done.
    + rewrite count_where_periodic by lia.
      pose proof (Forall_lookup_1 _ _ _ _ (wf_positive _ Hwf) Hi) as Hv. cbn in Hv.
      pose proof (powers_nonneg (take i (Validators vs)) ltac:(apply Forall_take, wf_positive, Hwf)).
      pose proof (powers_take_S _ _ _ Hi).
      pose proof (powers_take_le (S i) (length (Validators vs)) _ (wf_positive _ Hwf)
        (lookup_lt_Some _ _ _ Hi)) as Hle.
      rewrite firstn_all, <-(wf_total _ Hwf) in Hle.
      rewrite (count_where_interval W lo (lo + v_power v)); [lia|lia|lia|done].
  - apply count_where_none. intros h. by apply ProposerOf_not_member.
Qed.

(** [NewValidatorSet] accepts exactly the non-empty lists of positive
    powers with distinct addresses whose total fits [uint64], and the set it
    returns holds the same validators sorted by address, the exact total and
    an index that is right in both directions. *)
Theorem NewValidatorSet_correct l :
  Forall (λ v, is_u64 (v_power v)) l →
  (valid_validators l ↔ ∃ vs, NewValidatorSet l = Ok vs) ∧
  (∀ vs, NewValidatorSet l = Ok vs →
     vs_wf vs ∧ Validators vs ≡ₚ l ∧ TotalPower vs = powers l).
Proof.
  intros Hu. split; [split|].
  - intros Hl. destruct (NewValidatorSet_accepts l Hl) as (vs & ? & _). by exists vs.
  - intros [vs Hvs]. destruct (NewValidatorSet_wf _ _ Hu Hvs) as [Hwf Hcp].
    eapply valid_validators_perm; [|apply Hwf]. rewrite Hcp. apply merge_sort_Permutation.
  - intros vs Hvs. destruct (NewValidatorSet_wf _ _ Hu Hvs) as [Hwf Hcp].
    assert (Validators vs ≡ₚ l) as Hp by (rewrite Hcp; apply merge_sort_Permutation).
    unfold TotalPower. rewrite (wf_total _ Hwf), (powers_perm _ _ Hp). done.
Qed.

Lemma sorted_by_addr_unique l1 l2 :
  l1 ≡ₚ l2 → NoDup (map v_addr l1) → StronglySorted addr_le l1 → StronglySorted addr_le l2 → l1 = l2.
Proof.
  revert l2. induction l1 as [|v l1 IH]; intros l2 Hp Hnd Hs1 Hs2.
  { by apply Permutation_nil_l in Hp. }
  destruct l2 as [|w l2]; [by apply Permutation_nil_r in Hp|].
  inversion Hs1 as [|?? Hs1' Hv]; subst. inversion Hs2 as [|?? Hs2' Hw]; subst.
  cbn in Hnd. apply NoDup_cons in Hnd as [Hnv Hnd].
  assert (v = w) as <-.
  { assert (v ∈ w :: l2) as [|Hvin]%elem_of_cons by (rewrite <-Hp; left); [done|].
    assert (w ∈ v :: l1) as [|Hwin]%elem_of_cons by (rewrite Hp; left); [done|].
    rewrite Forall_forall in Hv, Hw. specialize (Hv _ Hwin). specialize (Hw _ Hvin).
    unfold addr_le in *. destruct Hnv. apply list_elem_of_fmap. exists w. split; [lia|done]. }
  f_equal. apply IH; [|done..]. by apply Permutation_cons_inv in Hp.
Qed.

(** Construction does not depend on the order the validators are listed
    in: every node that starts from the same validators gets the same set,
    and so the same proposers. *)
Theorem NewValidatorSet_order_independent l1 l2 vs :
  Forall (λ v, is_u64 (v_power v)) l1 → l1 ≡ₚ l2 →
  NewValidatorSet l1 = Ok vs → NewValidatorSet l2 = Ok vs.
Proof.
  intros Hu Hp Hvs. destruct (NewValidatorSet_wf _ _ Hu Hvs) as [Hwf Hcp].
  assert (merge_sort addr_le l1 = merge_sort addr_le l2) as Heq.
  { apply sorted_by_addr_unique; [|by rewrite <-Hcp; apply Hwf
      |apply (StronglySorted_merge_sort addr_le)|apply (StronglySorted_merge_sort addr_le)].
    by rewrite !merge_sort_Permutation. }
  unfold NewValidatorSet in *. rewrite <-Heq.
  destruct l1; [done|]. destruct l2; [by apply Permutation_nil_r in Hp|done].
Qed.

(** ** Quorum *)

(** While three times the vote power and twice the total stay below
    [2^64], the wrapped comparison is the strict two-thirds test. *)
Theorem HasQuorum_exact vote total :
  0 <= vote → 0 <= total → 3 * vote < 2 ^ 64 → 2 * total < 2 ^ 64 →
  HasQuorum vote total = true ↔ 0 < total ∧ 2 * total < 3 * vote.
Proof.
  intros Hv Ht H3 H2. unfold HasQuorum. destruct (Z.eqb_spec total 0); [split; [done|lia]|].
  rewrite !u64_id by (unfold is_u64; lia). rewrite Z.ltb_lt. lia.
Qed.

(** Beyond that bound the test fails: [NewValidatorSet] accepts two validators
    of power 2^62 each, twice their total wraps to zero, and each of them alone
    has a quorum. *)
Theorem quorum_wraps a b : a ≠ b →
  ∃ vs, NewValidatorSet [mkValidator a (2 ^ 62); mkValidator b (2 ^ 62)] = Ok vs ∧
    PowerOf vs a + PowerOf vs b = TotalPower vs ∧
    HasQuorum (PowerOf vs a) (TotalPower vs) = true ∧ HasQuorum (PowerOf vs b) (TotalPower vs) = true.
Proof.
  intros Hne. set (l := [_; _]). assert (valid_validators l) as Hv.
  { split_and!; [done|repeat constructor| |done]. cbn. repeat constructor; set_solver. }
  destruct (NewValidatorSet_correct l) as [[Hacc _] Hspec]; [repeat constructor; cbn; lia|].
  destruct (Hacc Hv) as [vs Hvs]. destruct (Hspec vs Hvs) as (Hwf & Hp & Htot). exists vs. split; [done|].
  assert (∀ v, v ∈ l → PowerOf vs (v_addr v) = v_power v) as Hpow.
  { intros v Hin. rewrite <-Hp in Hin. apply list_elem_of_lookup in Hin as [i Hi]. by eapply PowerOf_lookup. }
  pose proof (Hpow (mkValidator a (2 ^ 62)) ltac:(by left)) as Ha.
  pose proof (Hpow (mkValidator b (2 ^ 62)) ltac:(by right; left)) as Hb. cbn [v_addr v_power] in Ha, Hb.
  by rewrite Ha, Hb, Htot.
Qed.

Lemma powerFromU256_range v : 0 <= powerFromU256 v < 2 ^ 64.
Proof. unfold powerFromU256. repeat split_if; lia. Qed.

Lemma candidate_validator_u64 cs :
  Forall (λ v, is_u64 (v_power v)) (concat (map candidate_validator cs)).
Proof.
  induction cs as [|c cs IH]; cbn; [constructor|]. apply Forall_app. split; [|done].
  unfold candidate_validator. repeat split_if; repeat constructor; cbn; apply powerFromU256_range.
Qed.

Lemma candidate_validator_staked c :
  c_addr c ≠ 0 → 2 ^ 64 <= c_votingPower c →
  candidate_validator c = [mkValidator (c_addr c) (2 ^ 64 - 1)].
Proof.
  intros Ha Hp. unfold candidate_validator, powerFromU256.
  destruct (Z.eqb_spec (c_addr c) 0); [done|]. destruct (Z.eqb_spec (c_votingPower c) 0); [lia|].
  destruct (Z.leb_spec (c_votingPower c) 0); [lia|]. destruct (Z.ltb_spec (c_votingPower c) (2 ^ 64)); [lia|].
  done.
Qed.

(** The stake every registered validator must hold ([params/staking.go]). *)
Definition MinValidatorStakeWei : Z := 10 ^ 18 * 100000.

Lemma ActiveSetToValidatorSet_wf cs vs :
  ActiveSetToValidatorSet cs = Ok vs →
  valid_validators (concat (map candidate_validator cs)) ∧ vs_wf vs.
Proof.
  unfold ActiveSetToValidatorSet. destruct cs as [|c cs]; [done|]. intros Hvs.
  destruct (NewValidatorSet_wf _ _ (candidate_validator_u64 _) Hvs) as [Hwf Hcp]. split; [|done].
  eapply valid_validators_perm; [|apply Hwf]. rewrite Hcp. apply merge_sort_Permutation.
Qed.

(** The minimum validator stake is far above [uint64], so the voting power
    of every registered validator saturates: an active set with two of them is
    refused ("voting power overflow"), and in a set with a single one even
    the vote of the whole set is not a quorum, because [3*p] and [2*p] wrap. *)
Theorem active_set_saturates cs1 c cs2 d cs3 :
  c_addr c ≠ 0 → c_addr d ≠ 0 →
  MinValidatorStakeWei <= c_votingPower c → MinValidatorStakeWei <= c_votingPower d →
  is_ok (ActiveSetToValidatorSet (cs1 ++ c :: cs2 ++ d :: cs3)) = false ∧
  (∃ vs, ActiveSetToValidatorSet [c] = Ok vs ∧ PowerOf vs (c_addr c) = TotalPower vs ∧
         HasQuorum (PowerOf vs (c_addr c)) (TotalPower vs) = false).
Proof.
  intros Hc Hd Hpc Hpd. assert (2 ^ 64 < MinValidatorStakeWei) by reflexivity. split.
  - destruct (ActiveSetToValidatorSet _) as [vs|] eqn:Hvs; [exfalso|done].
    apply ActiveSetToValidatorSet_wf in Hvs as [(_ & Hpos & _ & Hs) _].
    rewrite map_app, concat_app in *. cbn [map concat] in *.
    rewrite map_app, concat_app in *. cbn [map concat] in *.
    rewrite (candidate_validator_staked c), (candidate_validator_staked d) in * by first [assumption | lia].
    rewrite !powers_app, !powers_cons, !powers_nil in Hs. cbn [v_power] in Hs.
    rewrite !Forall_app in Hpos. destruct Hpos as (H1 & _ & H2 & _ & H3).
    apply powers_nonneg in H1, H2, H3. lia.
  - set (v := mkValidator (c_addr c) (2 ^ 64 - 1)).
    assert (ActiveSetToValidatorSet [c] = NewValidatorSet [v]) as Hred.
    { unfold ActiveSetToValidatorSet. cbn [map concat].
      rewrite candidate_validator_staked by first [assumption | lia]. reflexivity. }
    assert (NewValidatorSet [v] = Ok (mkValidatorSet [v] (2 ^ 64 - 1) {[c_addr c := 0%nat]})) as Hn.
    { unfold NewValidatorSet, v. cbn. by rewrite lookup_empty. }
    eexists. rewrite Hred, Hn. split; [done|]. unfold PowerOf, Get. cbn.
    rewrite lookup_singleton_eq. split; [reflexivity|vm_compute; reflexivity].
Qed.

(** A concrete set for the witnesses: powers 1, 4 and 2. *)
Definition sample_vals : list Validator := [mkValidator 30 2; mkValidator 10 1; mkValidator 20 4].

Lemma sample_vals_u64 : Forall (λ v, is_u64 (v_power v)) sample_vals.
Proof. repeat constructor; cbn; lia. Qed.

Lemma sample_vals_valid : valid_validators sample_vals.
Proof.
  split_and!; [done|repeat constructor| |reflexivity].
  apply (bool_decide_unpack _). vm_compute. exact I.
Qed.

Definition sample_vs : ValidatorSet :=
  mkValidatorSet [mkValidator 10 1; mkValidator 20 4; mkValidator 30 2] 7
    (<[30 := 2%nat]> (<[20 := 1%nat]> {[10 := 0%nat]})).

Lemma sample_vs_built : NewValidatorSet sample_vals = Ok sample_vs.
Proof. vm_compute. reflexivity. Qed.

Lemma sample_vs_wf : vs_wf sample_vs.
Proof. apply (NewValidatorSet_wf _ _ sample_vals_u64 sample_vs_built). Qed.

Lemma proposer_fair_witness :
  count_where (λ h, ProposerOf sample_vs h 3 = Some 20) 5 (totalPower sample_vs) = PowerOf sample_vs 20.
Proof.
  apply (proposer_fair sample_vs 5 3 20); [apply sample_vs_wf|lia|lia|vm_compute; discriminate].
Defined.

Lemma NewValidatorSet_correct_witness :
  valid_validators sample_vals ↔ ∃ vs, NewValidatorSet sample_vals = Ok vs.
Proof. apply (NewValidatorSet_correct sample_vals), sample_vals_u64. Defined.

Lemma NewValidatorSet_order_independent_witness : NewValidatorSet (reverse sample_vals) = Ok sample_vs.
Proof.
  apply (NewValidatorSet_order_independent sample_vals);
    [apply sample_vals_u64|by rewrite reverse_Permutation|apply sample_vs_built].
Defined.

Lemma HasQuorum_exact_witness : HasQuorum 5 7 = true ↔ 0 < 7 ∧ 2 * 7 < 3 * 5.
Proof. apply (HasQuorum_exact 5 7); lia. Defined.

Lemma active_set_saturates_witness :
  is_ok (ActiveSetToValidatorSet
    [mkCandidate 1 MinValidatorStakeWei; mkCandidate 2 MinValidatorStakeWei]) = false.
Proof.
  apply (active_set_saturates [] (mkCandidate 1 MinValidatorStakeWei) []
           (mkCandidate 2 MinValidatorStakeWei) []); cbn; lia.
Defined.
