(* ===== verification/Votes.v ===== *)
(** * Consensus messages, double-sign evidence and vote sets

    Models [consensus/messages.go] (signed proposals and votes),
    [consensus/evidence.go] (the 114-byte vote wire format and double-sign
    evidence) and the [voteSet] of [consensus/state.go].

    A nil pointer argument is [None].  The order in which Go ranges over a
    vote set's maps is an argument of the two functions that range over one. *)
From S2P Require Import Prelude Types Toy ValidatorSet.

(** ** Messages *)
Definition VotePrevote : Z := 1.
Definition VotePrecommit : Z := 2.

Record Proposal : Type := mkProposal {
  p_Height : Z;
  p_Round : Z;
  p_BlockHash : Hash;
  p_Block : option Block;
  p_Proposer : Address;
  p_Signature : list Z;
}.

Record Vote : Type := mkVote {
  v_Type : Z;
  v_Height : Z;
  v_Round : Z;
  v_BlockHash : Hash;
  v_Validator : Address;
  v_Signature : list Z;
}.

#[export] Instance Vote_eq_dec : EqDecision Vote.
Proof. solve_decision. Defined.

Definition Vote_IsNil (v : Vote) : bool := Hash_IsZero (v_BlockHash v).

Definition proposalDomain : string := "Dew/Proposal/1".
Definition voteDomain : string := "Dew/Vote/1".

Section Messages.
Context `{C : Crypto}.

Definition ProposalSignBytes (height round : Z) (blockHash : Hash) : list Z :=
  Keccak256 (rlp_encode (RList [RStr (str_bytes proposalDomain); RNum height; RNum round;
                                RStr (hash_bytes blockHash)])).

Definition VoteSignBytes (typ height round : Z) (blockHash : Hash) : list Z :=
  Keccak256 (rlp_encode (RList [RStr (str_bytes voteDomain); RNum typ; RNum height; RNum round;
                                RStr (hash_bytes blockHash)])).

Definition SignProposal (p : Proposal) (key : PrivateKey) : res Proposal :=
  let? sig := Sign (ProposalSignBytes (p_Height p) (p_Round p) (p_BlockHash p)) key in
  Ok (mkProposal (p_Height p) (p_Round p) (p_BlockHash p) (p_Block p) (PubkeyToAddress key) sig).

Definition SignVote (v : Vote) (key : PrivateKey) : res Vote :=
  let? sig := Sign (VoteSignBytes (v_Type v) (v_Height v) (v_Round v) (v_BlockHash v)) key in
  Ok (mkVote (v_Type v) (v_Height v) (v_Round v) (v_BlockHash v) (PubkeyToAddress key) sig).

(** [pubkeyBytesToAddress]: a key that is not 65 bytes gives its last 20. *)
Definition pubkeyBytesToAddress (pub : list Z) : Address :=
  if (length pub =? 65)%nat then of_be (drop 12 (Keccak256 (drop 1 pub)))
  else if (20 <=? length pub)%nat then of_be (drop (length pub - 20) pub)
  else 0.

Definition VerifyProposal (p : Proposal) : res unit :=
  if negb (length (p_Signature p) =? 65)%nat
  then Err "consensus: proposal signature must be 65 bytes" else
  let? pub := Ecrecover (ProposalSignBytes (p_Height p) (p_Round p) (p_BlockHash p)) (p_Signature p) in
  if negb (pubkeyBytesToAddress pub =? p_Proposer p)
  then Err "consensus: proposal proposer mismatch" else Ok tt.

Definition VerifyVote (v : Vote) : res unit :=
  if negb (v_Type v =? VotePrevote) && negb (v_Type v =? VotePrecommit)
  then Err "consensus: invalid vote type" else
  if negb (length (v_Signature v) =? 65)%nat
  then Err "consensus: vote signature must be 65 bytes" else
  let? pub := Ecrecover (VoteSignBytes (v_Type v) (v_Height v) (v_Round v) (v_BlockHash v))
                (v_Signature v) in
  if negb (pubkeyBytesToAddress pub =? v_Validator v)
  then Err "consensus: vote validator mismatch" else Ok tt.

(** ** Evidence wire format *)
Definition VoteWireSize : nat := 114.

Definition EncodeVoteWire (v : Vote) : res (list Z) :=
  if negb (length (v_Signature v) =? 65)%nat
  then Err "consensus: vote signature must be 65 bytes" else
  Ok ([u8 (v_Type v)] ++ be_bytes 8 (v_Height v) ++ be_bytes 8 (v_Round v) ++
      hash_bytes (v_BlockHash v) ++ v_Signature v).

Definition DecodeVoteWire (b : list Z) : res Vote :=
  if negb (length b =? VoteWireSize)%nat then Err "consensus: vote wire length" else
  let typ := of_be (slice 0 1 b) in
  let height := of_be (slice 1 9 b) in
  let round := of_be (slice 9 17 b) in
  let blockHash := of_be (slice 17 49 b) in
  let sig := slice 49 114 b in
  let? pub := Ecrecover (VoteSignBytes typ height round blockHash) sig in
  Ok (mkVote typ height round blockHash (pubkeyBytesToAddress pub) sig).

Record DoubleSignEvidence : Type := mkEvidence { VoteA : Vote; VoteB : Vote }.

Definition EncodeDoubleSignEvidenceWire (a b : Vote) : res (list Z) :=
  let? wa := EncodeVoteWire a in
  let? wb := EncodeVoteWire b in
  Ok (wa ++ wb).

Definition DecodeDoubleSignEvidenceWire (b : list Z) : res DoubleSignEvidence :=
  if negb (length b =? 2 * VoteWireSize)%nat then Err "consensus: evidence wire length" else
  let? a := DecodeVoteWire (take VoteWireSize b) in
  let? bb := DecodeVoteWire (drop VoteWireSize b) in
  Ok (mkEvidence a bb).

Definition VerifyDoubleSign (a b : Vote) : res unit :=
  let? _ := VerifyVote a in
  let? _ := VerifyVote b in
  if negb (v_Type a =? v_Type b) then Err "consensus: evidence vote type mismatch" else
  if negb (v_Type a =? VotePrevote) && negb (v_Type a =? VotePrecommit)
  then Err "consensus: evidence invalid vote type" else
  if negb (v_Height a =? v_Height b) || negb (v_Round a =? v_Round b)
  then Err "consensus: evidence height/round mismatch" else
  if negb (v_Validator a =? v_Validator b) then Err "consensus: evidence validator mismatch" else
  if v_BlockHash a =? v_BlockHash b
  then Err "consensus: evidence block hashes identical (not double-sign)" else
  if Hash_IsZero (v_BlockHash a) && Hash_IsZero (v_BlockHash b)
  then Err "consensus: evidence both hashes nil" else Ok tt.

Definition Evidence_Verify (e : option DoubleSignEvidence) : res unit :=
  match e with
  | None => Err "consensus: nil evidence"
  | Some e => VerifyDoubleSign (VoteA e) (VoteB e)
  end.

Definition Offender (e : option DoubleSignEvidence) : Address :=
  match e with None => 0 | Some e => v_Validator (VoteA e) end.

(** Go's string order on bytes: [bytes_gt a b] is [string(a) > string(b)]. *)
Fixpoint bytes_gt (a b : list Z) : bool :=
  match a, b with
  | [], _ => false
  | _ :: _, [] => true
  | x :: a', y :: b' => if x =? y then bytes_gt a' b' else y <? x
  end.

(** The bytes [EvidenceDigest] hashes: the two sign digests in order, then the
    signatures as they stand in the evidence. *)
Definition evidence_preimage (e : DoubleSignEvidence) : list Z :=
  let dig v := VoteSignBytes (v_Type v) (v_Height v) (v_Round v) (v_BlockHash v) in
  let da := dig (VoteA e) in
  let db := dig (VoteB e) in
  let '(da, db) := if bytes_gt da db then (db, da) else (da, db) in
  da ++ db ++ v_Signature (VoteA e) ++ v_Signature (VoteB e).

Definition EvidenceDigest (e : option DoubleSignEvidence) : Hash :=
  match e with None => 0 | Some e => BytesToHash (Keccak256 (evidence_preimage e)) end.
End Messages.

(** ** Vote sets ([consensus/state.go]) *)
Record voteSet : Type := mkVoteSet {
  vs_typ : Z;
  vs_height : Z;
  vs_round : Z;
  byAddr : gmap Address Vote;
  power : gmap Hash Z;
  totalSeen : Z;
}.

Definition newVoteSet (typ height round : Z) : voteSet := mkVoteSet typ height round ∅ ∅ 0.

Definition powerFor (vs : voteSet) (h : Hash) : Z := default 0 (power vs !! h).

Definition voteSet_add (vs : voteSet) (v : Vote) (p : Z) : voteSet * bool :=
  if negb (v_Type v =? vs_typ vs) || negb (v_Height v =? vs_height vs) || negb (v_Round v =? vs_round vs)
  then (vs, false) else
  match byAddr vs !! v_Validator v with
  | Some _ => (vs, false)
  | None =>
      (mkVoteSet (vs_typ vs) (vs_height vs) (vs_round vs)
         (<[v_Validator v := v]> (byAddr vs))
         (<[v_BlockHash v := powerFor vs (v_BlockHash v) +₆₄ p]> (power vs))
         (totalSeen vs +₆₄ p), true)
  end.

(** The orders in which the runtime ranges over the two maps. *)
Record RangeOrder : Type := mkRangeOrder {
  rng_power : gmap Hash Z → list (Hash * Z);
  rng_votes : gmap Address Vote → list (Address * Vote);
}.

Definition order_ok (o : RangeOrder) : Prop := range_ok (rng_power o) ∧ range_ok (rng_votes o).

Definition majorityHash (o : RangeOrder) (vs : voteSet) (totalPower : Z) : option Hash :=
  fst <$> find (λ hp, HasQuorum (snd hp) totalPower) (rng_power o (power vs)).

Definition votesFor (o : RangeOrder) (vs : voteSet) (h : Hash) : list Vote :=
  filter (λ v, v_BlockHash v = h) (snd <$> rng_votes o (byAddr vs)).

(** The order a run of the program could use. *)
Definition list_order : RangeOrder := mkRangeOrder map_to_list map_to_list.

(** ** Message lemmas *)
Definition vote_type_ok (v : Vote) : Prop := v_Type v = VotePrevote ∨ v_Type v = VotePrecommit.

Record vote_ranges (v : Vote) : Prop := {
  vr_height : is_u64 (v_Height v);
  vr_round : is_u64 (v_Round v);
  vr_hash : is_hash (v_BlockHash v);
  vr_sig : bytes_ok (v_Signature v);
}.

Lemma u8_type v : vote_type_ok v → u8 (v_Type v) = v_Type v.
Proof. by intros [-> | ->]. Qed.

Section MessageLemmas.
Context `{C : Crypto} {L : CryptoLaws C}.

Lemma VoteSignBytes_length typ h r bh : length (VoteSignBytes typ h r bh) = 32%nat.
Proof using L. apply keccak_length. Qed.

Lemma ProposalSignBytes_length h r bh : length (ProposalSignBytes h r bh) = 32%nat.
Proof using L. apply keccak_length. Qed.

Lemma pubkey_address k : pubkeyBytesToAddress (pubkey_bytes k) = PubkeyToAddress k.
Proof using L. unfold pubkeyBytesToAddress. by rewrite pubkey_length. Qed.

Lemma VerifyVote_ok v :
  VerifyVote v = Ok tt ↔
  vote_type_ok v ∧ length (v_Signature v) = 65%nat ∧
  ∃ pub, Ecrecover (VoteSignBytes (v_Type v) (v_Height v) (v_Round v) (v_BlockHash v)) (v_Signature v)
           = Ok pub ∧ pubkeyBytesToAddress pub = v_Validator v.
Proof.
  unfold VerifyVote, vote_type_ok. split.
  - intros H. destruct (negb _ && _) eqn:Ht; [done|].
    destruct (Nat.eqb_spec (length (v_Signature v)) 65); [cbn in H|done].
    destruct (Ecrecover _ _) as [pub|]; [cbn in H|done].
    destruct (Z.eqb_spec (pubkeyBytesToAddress pub) (v_Validator v)); [|done].
    split_and!; [|done|by eexists].
    apply andb_false_iff in Ht as [Ht|Ht]; zbool; [by left|by right].
  - intros (Ht & -> & pub & -> & Ha). cbn [rbind]. rewrite Ha, Z.eqb_refl.
    by destruct Ht as [-> | ->].
Qed.

Lemma SignVote_inv v k v' :
  SignVote v k = Ok v' →
  v_Type v' = v_Type v ∧ v_Height v' = v_Height v ∧ v_Round v' = v_Round v ∧
  v_BlockHash v' = v_BlockHash v ∧ v_Validator v' = PubkeyToAddress k.
Proof. unfold SignVote. destruct (Sign _ _); cbn; [|done]. by intros [= <-]. Qed.

Lemma SignVote_total v k :
  vote_type_ok v → ∃ v', SignVote v k = Ok v' ∧ VerifyVote v' = Ok tt.
Proof using L.
  intros Ht. unfold SignVote, Sign. rewrite VoteSignBytes_length. cbn.
  destruct (sign_recovers (VoteSignBytes (v_Type v) (v_Height v) (v_Round v) (v_BlockHash v)) k)
    as (sig & Hs & Hlen & _ & _ & Hrec); [apply keccak_length|apply keccak_bytes|].
  rewrite Hs. cbn. eexists. split; [done|]. apply VerifyVote_ok. cbn. split_and!; [done|done|].
  exists (pubkey_bytes k). split; [|apply pubkey_address].
  unfold Ecrecover. rewrite VoteSignBytes_length. done.
Qed.

Lemma SignProposal_total p k :
  ∃ p', SignProposal p k = Ok p' ∧ VerifyProposal p' = Ok tt ∧ p_Height p' = p_Height p ∧
        p_Round p' = p_Round p ∧ p_BlockHash p' = p_BlockHash p ∧ p_Block p' = p_Block p ∧
        p_Proposer p' = PubkeyToAddress k.
Proof using L.
  unfold SignProposal, Sign. rewrite ProposalSignBytes_length. cbn [negb Nat.eqb].
  destruct (sign_recovers (ProposalSignBytes (p_Height p) (p_Round p) (p_BlockHash p)) k)
    as (sig & Hs & Hlen & _ & _ & Hrec); [apply keccak_length|apply keccak_bytes|].
  rewrite Hs. cbn [rbind]. eexists. split; [done|]. split_and!; [|done..].
  unfold VerifyProposal, Ecrecover. cbn [p_Signature p_Height p_Round p_BlockHash p_Proposer].
  rewrite Hlen, ProposalSignBytes_length. cbn [negb Nat.eqb].
  rewrite Hrec. cbn [rbind]. by rewrite pubkey_address, Z.eqb_refl.
Qed.

(** ** Wire format *)
Lemma slice_app_skip (i j n : nat) (l1 l2 : list Z) :
  length l1 = n → (n <= i)%nat → slice i j (l1 ++ l2) = slice (i - n) (j - n) l2.
Proof.
  intros <- Hi. unfold slice. rewrite drop_app_ge by lia. f_equal. lia.
Qed.

Lemma slice_app_head (j : nat) (l1 l2 : list Z) : length l1 = j → slice 0 j (l1 ++ l2) = l1.
Proof. intros <-. unfold slice. rewrite Nat.sub_0_r. apply take_app_length. Qed.

Lemma wire_slices t h r bh sig :
  length t = 1%nat → length h = 8%nat → length r = 8%nat → length bh = 32%nat → length sig = 65%nat →
  let w := t ++ h ++ r ++ bh ++ sig in
  length w = VoteWireSize ∧ slice 0 1 w = t ∧ slice 1 9 w = h ∧ slice 9 17 w = r ∧
  slice 17 49 w = bh ∧ slice 49 114 w = sig.
Proof.
  intros Ht Hh Hr Hb Hs w. unfold w. split.
  { rewrite !length_app, Ht, Hh, Hr, Hb, Hs. done. }
  split_and!.
  - by apply slice_app_head.
  - rewrite (slice_app_skip _ _ 1) by (done || lia). by apply slice_app_head.
  - rewrite (slice_app_skip _ _ 1), (slice_app_skip _ _ 8) by (done || lia). by apply slice_app_head.
  - rewrite (slice_app_skip _ _ 1), (slice_app_skip _ _ 8), (slice_app_skip _ _ 8) by (done || lia).
    by apply slice_app_head.
  - rewrite (slice_app_skip _ _ 1), (slice_app_skip _ _ 8), (slice_app_skip _ _ 8),
      (slice_app_skip _ _ 32) by (done || lia).
    by apply slice_full.
Qed.

Lemma EncodeVoteWire_inv v w :
  EncodeVoteWire v = Ok w →
  length (v_Signature v) = 65%nat ∧
  w = [u8 (v_Type v)] ++ be_bytes 8 (v_Height v) ++ be_bytes 8 (v_Round v) ++
      hash_bytes (v_BlockHash v) ++ v_Signature v.
Proof.
  unfold EncodeVoteWire. destruct (Nat.eqb_spec (length (v_Signature v)) 65); cbn [negb]; [|done].
  by intros [= <-].
Qed.

Lemma EncodeVoteWire_length v w : EncodeVoteWire v = Ok w → length w = VoteWireSize.
Proof.
  intros [Hs ->]%EncodeVoteWire_inv.
  by rewrite !length_app, !be_bytes_length, hash_bytes_length, Hs.
Qed.

Lemma EncodeVoteWire_verified v : VerifyVote v = Ok tt → ∃ w, EncodeVoteWire v = Ok w.
Proof. intros (_ & Hs & _)%VerifyVote_ok. unfold EncodeVoteWire. rewrite Hs. by eexists. Qed.

Lemma Decode_Encode v w :
  VerifyVote v = Ok tt → vote_ranges v → EncodeVoteWire v = Ok w → DecodeVoteWire w = Ok v.
Proof.
  intros (Ht & Hlen & pub & Hrec & Haddr)%VerifyVote_ok [Hh Hr Hb Hs] [_ ->]%EncodeVoteWire_inv.
  destruct (wire_slices [u8 (v_Type v)] (be_bytes 8 (v_Height v)) (be_bytes 8 (v_Round v))
    (hash_bytes (v_BlockHash v)) (v_Signature v)) as (Hl & H1 & H2 & H3 & H4 & H5);
    [done|apply be_bytes_length..|done|].
  unfold DecodeVoteWire. rewrite Hl, H1, H2, H3, H4, H5. cbn [negb Nat.eqb].
  rewrite !of_be_be_bytes_id by assumption.
  assert (of_be [u8 (v_Type v)] = v_Type v) as -> by (rewrite u8_type by done; reflexivity).
  replace (VoteWireSize =? VoteWireSize)%nat with true by done. cbn [negb].
  unfold hash_bytes. rewrite of_be_be_bytes_id by exact Hb. rewrite Hrec. cbn. rewrite Haddr.
  by destruct v.
Qed.

Lemma list_split_slices (b : list Z) :
  length b = VoteWireSize →
  b = slice 0 1 b ++ slice 1 9 b ++ slice 9 17 b ++ slice 17 49 b ++ slice 49 114 b.
Proof.
  intros Hb. unfold slice. cbn [Nat.sub]. unfold VoteWireSize in Hb.
  rewrite (take_ge (drop 49 b)) by (rewrite length_drop; lia).
  replace (drop 49 b) with (drop 32 (drop 17 b)) by (by rewrite drop_drop).
  rewrite take_drop. replace (drop 17 b) with (drop 8 (drop 9 b)) by (by rewrite drop_drop).
  rewrite take_drop. replace (drop 9 b) with (drop 8 (drop 1 b)) by (by rewrite drop_drop).
  rewrite take_drop. by rewrite drop_0, take_drop.
Qed.

Lemma slice_length (i j : nat) (b : list Z) :
  (i <= j)%nat → (j <= length b)%nat → length (slice i j b) = (j - i)%nat.
Proof. intros. unfold slice. rewrite length_take, length_drop. lia. Qed.

Lemma slice_bytes_ok i j b : bytes_ok b → bytes_ok (slice i j b).
Proof. intros. by apply Forall_take, Forall_drop. Qed.

Lemma be_bytes_slice i j b n :
  bytes_ok b → (i <= j)%nat → (j <= length b)%nat → n = (j - i)%nat →
  be_bytes n (of_be (slice i j b)) = slice i j b.
Proof.
  intros Hb Hij Hj ->. rewrite <-(slice_length i j b) by done.
  by apply be_bytes_of_be, slice_bytes_ok.
Qed.

Lemma Encode_Decode b v :
  bytes_ok b → DecodeVoteWire b = Ok v →
  EncodeVoteWire v = Ok b ∧ vote_ranges v ∧ (vote_type_ok v → VerifyVote v = Ok tt).
Proof.
  intros Hb Hd. unfold DecodeVoteWire in Hd.
  destruct (Nat.eqb_spec (length b) VoteWireSize) as [Hl|]; [cbn [negb] in Hd|done].
  destruct (Ecrecover _ _) as [pub|] eqn:Hrec; [cbn [rbind] in Hd|done]. injection Hd as <-.
  pose proof Hl as Hl'. unfold VoteWireSize in Hl'.
  assert (length (slice 49 114 b) = 65%nat) as Hsig by (rewrite slice_length by lia; done).
  assert (∀ i j, (i <= j)%nat → (j <= 114)%nat →
    0 <= of_be (slice i j b) < 256 ^ Z.of_nat (j - i)) as Hrng.
  { intros i j Hi Hj. pose proof (of_be_range _ (slice_bytes_ok i j b Hb)) as H.
    rewrite slice_length in H by lia. exact H. }
  split_and!.
  - unfold EncodeVoteWire. cbn [v_Signature v_Type v_Height v_Round v_BlockHash].
    rewrite Hsig. cbn [negb Nat.eqb]. f_equal. unfold hash_bytes.
    rewrite !be_bytes_slice by (done || lia).
    assert ([u8 (of_be (slice 0 1 b))] = slice 0 1 b) as ->.
    { rewrite <-(be_bytes_slice 0 1 b 1) at 2 by (done || lia). cbn. done. }
    by rewrite <-list_split_slices.
  - split; [apply (Hrng 1 9)%nat; lia|apply (Hrng 9 17)%nat; lia|apply (Hrng 17 49)%nat; lia|].
    by apply slice_bytes_ok.
  - intros Ht. apply VerifyVote_ok. cbn. split_and!; [done|done|by eexists].
Qed.
End MessageLemmas.

(** ** Double-sign evidence *)
Section Evidence.
Context `{C : Crypto} {L : CryptoLaws C}.

Definition conflicting (a b : Vote) : Prop :=
  v_Type a = v_Type b ∧ v_Height a = v_Height b ∧ v_Round a = v_Round b ∧
  v_Validator a = v_Validator b ∧ v_BlockHash a ≠ v_BlockHash b.

Lemma conflicting_sym a b : conflicting a b → conflicting b a.
Proof. intros (? & ? & ? & ? & ?). split_and!; by auto. Qed.

Lemma VerifyDoubleSign_ok a b :
  VerifyDoubleSign a b = Ok tt ↔ VerifyVote a = Ok tt ∧ VerifyVote b = Ok tt ∧ conflicting a b.
Proof.
  unfold VerifyDoubleSign, conflicting. split.
  - destruct (VerifyVote a) as [[]|]; [|done]. destruct (VerifyVote b) as [[]|]; [cbn [rbind]|done].
    intros H. repeat (split_if; try discriminate).
    split_and!; first [done | congruence].
  - intros (Ha & Hb & Ht & Hh & Hr & Hv & Hd). rewrite Ha, Hb. cbn [rbind].
    rewrite <-Ht, <-Hh, <-Hr, <-Hv, !Z.eqb_refl. cbn [negb orb].
    apply VerifyVote_ok in Ha as ([-> | ->] & _); cbn [negb andb];
      (destruct (Z.eqb_spec (v_BlockHash a) (v_BlockHash b)); [done|]);
      unfold Hash_IsZero; (destruct (Z.eqb_spec (v_BlockHash a) 0); [|done]);
      (destruct (Z.eqb_spec (v_BlockHash b) 0); [congruence|done]).
Qed.

(** Double-sign evidence is accepted exactly when both votes carry valid
    signatures of one validator for one type, height and round and name
    different block hashes; the check does not depend on the order of the two
    votes, and the offender is the signer of both. *)
Theorem VerifyDoubleSign_exact a b :
  (VerifyDoubleSign a b = Ok tt ↔ VerifyVote a = Ok tt ∧ VerifyVote b = Ok tt ∧ conflicting a b) ∧
  (VerifyDoubleSign a b = Ok tt ↔ VerifyDoubleSign b a = Ok tt) ∧
  (VerifyDoubleSign a b = Ok tt → Offender (Some (mkEvidence a b)) = Offender (Some (mkEvidence b a))).
Proof.
  split_and!.
  - apply VerifyDoubleSign_ok.
  - rewrite !VerifyDoubleSign_ok. split; intros (? & ? & ?); auto using conflicting_sym.
  - intros (_ & _ & _ & _ & _ & H & _)%VerifyDoubleSign_ok. exact H.
Qed.

(** Evidence survives the wire: the votes of any valid double-sign encode
    to 228 bytes which decode to the same evidence, still valid. *)
Theorem evidence_wire_roundtrip a b :
  VerifyDoubleSign a b = Ok tt → vote_ranges a → vote_ranges b →
  ∃ w, EncodeDoubleSignEvidenceWire a b = Ok w ∧ length w = 228%nat ∧
       DecodeDoubleSignEvidenceWire w = Ok (mkEvidence a b) ∧
       Evidence_Verify (Some (mkEvidence a b)) = Ok tt.
Proof.
  intros HV Ha Hb. pose proof HV as (Va & Vb & _)%VerifyDoubleSign_ok.
  destruct (EncodeVoteWire_verified a Va) as [wa Hwa].
  destruct (EncodeVoteWire_verified b Vb) as [wb Hwb].
  pose proof (EncodeVoteWire_length _ _ Hwa) as Hla. pose proof (EncodeVoteWire_length _ _ Hwb) as Hlb.
  exists (wa ++ wb). unfold EncodeDoubleSignEvidenceWire, DecodeDoubleSignEvidenceWire.
  rewrite Hwa, Hwb. cbn [rbind]. rewrite length_app, Hla, Hlb.
  rewrite take_app_length', drop_app_length' by done. cbn [Nat.eqb negb Nat.add].
  rewrite (Decode_Encode a wa), (Decode_Encode b wb) by done. done.
Qed.

(** Decoding is exact: whatever 228 bytes decode to evidence are its
    encoding, the decoded fields are in range, and a vote of a known type
    verifies under the address recovered from its own signature, so the
    submitter of evidence cannot name a validator who did not sign it. *)
Theorem evidence_wire_decode_exact w e :
  bytes_ok w → DecodeDoubleSignEvidenceWire w = Ok e →
  EncodeDoubleSignEvidenceWire (VoteA e) (VoteB e) = Ok w ∧
  vote_ranges (VoteA e) ∧ vote_ranges (VoteB e) ∧
  (vote_type_ok (VoteA e) → VerifyVote (VoteA e) = Ok tt) ∧
  (vote_type_ok (VoteB e) → VerifyVote (VoteB e) = Ok tt).
Proof.
  intros Hw Hd. unfold DecodeDoubleSignEvidenceWire in Hd. split_if; [done|].
  destruct (DecodeVoteWire (take _ w)) as [a|] eqn:Ha; [cbn [rbind] in Hd|done].
  destruct (DecodeVoteWire (drop _ w)) as [b|] eqn:Hb; [cbn [rbind] in Hd|done].
  injection Hd as <-.
  apply Encode_Decode in Ha as (Ea & Ra & Va); [|by apply Forall_take].
  apply Encode_Decode in Hb as (Eb & Rb & Vb); [|by apply Forall_drop].
  split_and!; [|done..]. unfold EncodeDoubleSignEvidenceWire. cbn [VoteA VoteB].
  rewrite Ea, Eb. cbn [rbind]. by rewrite take_drop.
Qed.

Lemma evidence_preimage_sigs a b :
  ∃ d, length d = 64%nat ∧ evidence_preimage (mkEvidence a b) = d ++ v_Signature a ++ v_Signature b.
Proof using L.
  unfold evidence_preimage. cbn [VoteA VoteB].
  set (da := VoteSignBytes (v_Type a) _ _ _). set (db := VoteSignBytes (v_Type b) _ _ _).
  assert (length da = 32%nat) as Hda by apply keccak_length.
  assert (length db = 32%nat) as Hdb by apply keccak_length.
  destruct (bytes_gt da db); [exists (db ++ da)|exists (da ++ db)];
    rewrite length_app, Hda, Hdb, <-app_assoc; done.
Qed.

(** The evidence digest is not independent of the order of the two votes:
    only the sign digests are sorted, the signatures follow in the order
    given, so swapping two votes with different signatures hashes different
    bytes although both orders are the same valid evidence. *)
Theorem evidence_digest_order_dependent a b :
  VerifyDoubleSign a b = Ok tt → v_Signature a ≠ v_Signature b →
  VerifyDoubleSign b a = Ok tt ∧
  evidence_preimage (mkEvidence a b) ≠ evidence_preimage (mkEvidence b a).
Proof using L.
  intros HV Hs. pose proof HV as (Va & Vb & Hc)%VerifyDoubleSign_ok. split.
  - apply VerifyDoubleSign_ok. auto using conflicting_sym.
  - apply VerifyVote_ok in Va as (_ & La & _), Vb as (_ & Lb & _).
    destruct (evidence_preimage_sigs a b) as (d1 & H1 & ->).
    destruct (evidence_preimage_sigs b a) as (d2 & H2 & ->).
    intros He. apply app_inj_1 in He as [_ He]; [|congruence].
    apply app_inj_1 in He as [He _]; [done|congruence].
Qed.
End Evidence.

(** ** Concrete evidence *)
Section EvidenceWitness.
Local Existing Instances toy_crypto toy_crypto_laws.

Definition toy_vote (k typ h r bh : Z) : Vote :=
  match SignVote (mkVote typ h r bh 0 []) k with Ok v => v | Err _ => mkVote 0 0 0 0 0 [] end.

Lemma VerifyDoubleSign_witness_holds :
  VerifyDoubleSign (toy_vote 5 VotePrecommit 7 0 11) (toy_vote 5 VotePrecommit 7 0 12) = Ok tt.
Proof. vm_compute. reflexivity. Qed.

Lemma toy_vote_ranges : vote_ranges (toy_vote 5 VotePrecommit 7 0 11) ∧ vote_ranges (toy_vote 5 VotePrecommit 7 0 12).
Proof.
  split; split; try (vm_compute; split; [discriminate|reflexivity]);
    apply (bool_decide_unpack _); vm_compute; exact I.
Qed.

Lemma evidence_wire_roundtrip_witness :
  ∃ w, EncodeDoubleSignEvidenceWire (toy_vote 5 VotePrecommit 7 0 11) (toy_vote 5 VotePrecommit 7 0 12) = Ok w ∧
       length w = 228%nat ∧
       DecodeDoubleSignEvidenceWire w =
         Ok (mkEvidence (toy_vote 5 VotePrecommit 7 0 11) (toy_vote 5 VotePrecommit 7 0 12)) ∧
       Evidence_Verify (Some (mkEvidence (toy_vote 5 VotePrecommit 7 0 11) (toy_vote 5 VotePrecommit 7 0 12))) = Ok tt.
Proof.
  apply evidence_wire_roundtrip;
    [apply VerifyDoubleSign_witness_holds|apply toy_vote_ranges|apply toy_vote_ranges].
Defined.

Definition toy_evidence_wire : list Z :=
  match EncodeDoubleSignEvidenceWire (toy_vote 5 VotePrecommit 7 0 11) (toy_vote 5 VotePrecommit 7 0 12) with
  | Ok w => w | Err _ => [] end.

Lemma evidence_wire_decode_exact_witness :
  EncodeDoubleSignEvidenceWire (toy_vote 5 VotePrecommit 7 0 11) (toy_vote 5 VotePrecommit 7 0 12)
    = Ok toy_evidence_wire.
Proof.
  apply (evidence_wire_decode_exact toy_evidence_wire
    (mkEvidence (toy_vote 5 VotePrecommit 7 0 11) (toy_vote 5 VotePrecommit 7 0 12))).
  - apply (bool_decide_unpack _). vm_compute. exact I.
  - vm_compute. reflexivity.
Defined.

Lemma evidence_digest_order_dependent_witness :
  evidence_preimage (mkEvidence (toy_vote 5 VotePrecommit 7 0 11) (toy_vote 5 VotePrecommit 7 0 12)) ≠
  evidence_preimage (mkEvidence (toy_vote 5 VotePrecommit 7 0 12) (toy_vote 5 VotePrecommit 7 0 11)).
Proof.
  apply evidence_digest_order_dependent; [apply VerifyDoubleSign_witness_holds|vm_compute; discriminate].
Defined.
End EvidenceWitness.
