(* ===== verification/Quorum.v ===== *)
(** * Stake-weighted quorums and vote accounting

    The power of a set of validators, quorum intersection, and the invariant
    of [voteSet] ([consensus/state.go]): the power filed under each hash is
    exactly the stake of the distinct validators who voted for it. *)
From S2P Require Import Prelude Types ValidatorSet Votes.

Definition set_power (vals : ValidatorSet) (S : gset Address) : Z :=
  sumZ (map (λ v, if decide (v_addr v ∈ S) then v_power v else 0) (Validators vals)).

(** The validators whose recorded vote is for [h]. *)
Definition voters (vs : voteSet) (h : Hash) : gset Address :=
  dom (filter (λ av, v_BlockHash (snd av) = h) (byAddr vs)).

(** Three times the total power fits [uint64]: the quorum test cannot wrap. *)
Definition power_bound (vals : ValidatorSet) : Prop := 3 * totalPower vals < 2 ^ 64.

Record voteset_ok (vals : ValidatorSet) (P : Vote → Prop) (vs : voteSet) : Prop := {
  vo_slot : ∀ a v, byAddr vs !! a = Some v →
    v_Validator v = a ∧ v_Type v = vs_typ vs ∧ v_Height v = vs_height vs ∧ v_Round v = vs_round vs ∧ P v;
  vo_power : ∀ h, powerFor vs h = set_power vals (voters vs h);
  vo_seen : totalSeen vs = set_power vals (dom (byAddr vs));
}.

(** ** Power of sets *)
Section SetPower.
Context (vals : ValidatorSet) (Hwf : vs_wf vals).
Implicit Types S A B : gset Address.

Lemma set_power_union_inter A B :
  set_power vals A + set_power vals B = set_power vals (A ∪ B) + set_power vals (A ∩ B).
Proof using.
  clear Hwf. unfold set_power. induction (Validators vals) as [|v l IH]; [done|].
  unfold sumZ in *. cbn. repeat case_decide; first [lia | set_solver].
Qed.

Lemma set_power_mono A B : A ⊆ B → set_power vals A <= set_power vals B.
Proof using Hwf.
  intros HAB. unfold set_power. pose proof (wf_positive _ Hwf) as Hpos.
  induction Hpos as [|v l Hv _ IH]; [done|]. unfold sumZ in *. cbn in *.
  repeat case_decide; first [lia | set_solver].
Qed.

Lemma set_power_empty : set_power vals ∅ = 0.
Proof using.
  clear Hwf. unfold set_power. induction (Validators vals) as [|v l IH]; [done|].
  cbn. by case_decide; [set_solver|].
Qed.

Lemma set_power_nonneg A : 0 <= set_power vals A.
Proof using Hwf. rewrite <-set_power_empty. apply set_power_mono. set_solver. Qed.

Lemma set_power_le_total A : set_power vals A <= totalPower vals.
Proof using Hwf.
  rewrite (wf_total _ Hwf). unfold set_power, powers. pose proof (wf_positive _ Hwf) as Hpos.
  induction Hpos as [|v l Hv _ IH]; [done|]. unfold sumZ in *. cbn in *. case_decide; lia.
Qed.

Lemma set_power_singleton a : set_power vals {[a]} = PowerOf vals a.
Proof using Hwf.
  unfold PowerOf. destruct (Get vals a) as [v|] eqn:Hv.
  - apply (Get_elem_of _ _ _ Hwf) in Hv as [Hin <-].
    destruct (wf_valid _ Hwf) as (_ & _ & Hnd & _). unfold set_power.
    induction (Validators vals) as [|w l IH]; [set_solver|]. unfold sumZ in *. cbn in *.
    apply NoDup_cons in Hnd as [Hw Hnd]. apply elem_of_cons in Hin as [<-|Hin].
    + rewrite decide_True by set_solver.
      enough (foldr Z.add 0 (map (λ w, if decide (v_addr w ∈ ({[v_addr v]} : gset Address))
        then v_power w else 0) l) = 0) by lia.
      clear -Hw. induction l as [|u l IH]; [done|]. cbn in *.
      rewrite decide_False by set_solver. apply IH. set_solver.
    + rewrite decide_False; [by rewrite IH|]. intros Heq%elem_of_singleton.
      apply Hw. rewrite Heq. by apply list_elem_of_fmap_2.
  - assert (∀ v, v ∈ Validators vals → v_addr v ≠ a) as Hn.
    { intros v Hin Heq. assert (Get vals a = Some v) by (by apply Get_elem_of). congruence. }
    unfold set_power. revert Hn. induction (Validators vals) as [|w l IH]; [done|]. intros Hn.
    unfold sumZ in *. cbn. rewrite decide_False; [|intros ?%elem_of_singleton; eapply Hn; [left|done]].
    rewrite IH; [done|]. intros u Hu. apply Hn. by right.
Qed.

Lemma set_power_insert a A :
  a ∉ A → set_power vals ({[a]} ∪ A) = PowerOf vals a + set_power vals A.
Proof using Hwf.
  intros Ha. pose proof (set_power_union_inter {[a]} A) as H.
  assert ({[a]} ∩ A = ∅) as Hd by (apply set_eq; set_solver).
  rewrite Hd, set_power_empty, set_power_singleton in H. lia.
Qed.

Lemma HasQuorum_set A :
  power_bound vals →
  HasQuorum (set_power vals A) (totalPower vals) = true ↔ 2 * totalPower vals < 3 * set_power vals A.
Proof using Hwf.
  unfold power_bound. intros Hb. pose proof (set_power_nonneg A). pose proof (set_power_le_total A).
  pose proof (wf_total_pos _ Hwf). unfold HasQuorum.
  destruct (Z.eqb_spec (totalPower vals) 0); [lia|].
  rewrite !u64_id by (unfold is_u64; lia). rewrite Z.ltb_lt. lia.
Qed.

Lemma quorum_intersection_power A B :
  power_bound vals →
  HasQuorum (set_power vals A) (totalPower vals) = true →
  HasQuorum (set_power vals B) (totalPower vals) = true →
  totalPower vals < 3 * set_power vals (A ∩ B).
Proof using Hwf.
  intros Hb HA HB. rewrite HasQuorum_set in HA, HB by done.
  pose proof (set_power_union_inter A B). pose proof (set_power_le_total (A ∪ B)). lia.
Qed.

(** Sets with power have a member outside any lighter set. *)
Lemma set_power_lt_witness A B :
  set_power vals B < set_power vals A → ∃ a, a ∈ A ∧ a ∉ B.
Proof using Hwf.
  intros Hlt. destruct (decide (A ⊆ B)) as [Hs|Hs].
  - apply set_power_mono in Hs. lia.
  - destruct (set_choose_or_empty (A ∖ B)) as [[a Ha]|He]; [exists a; set_solver|].
    destruct Hs. set_solver.
Qed.
End SetPower.

(** ** Vote sets *)
Lemma elem_of_voters vs h a :
  a ∈ voters vs h ↔ ∃ v, byAddr vs !! a = Some v ∧ v_BlockHash v = h.
Proof.
  unfold voters. rewrite elem_of_dom. unfold is_Some.
  setoid_rewrite map_lookup_filter_Some. naive_solver.
Qed.

Lemma voters_add vs v h :
  byAddr vs !! v_Validator v = None →
  dom (filter (λ av, v_BlockHash (snd av) = h) (<[v_Validator v := v]> (byAddr vs))) =
  if decide (v_BlockHash v = h) then {[v_Validator v]} ∪ voters vs h else voters vs h.
Proof.
  intros Hn. unfold voters. case_decide as Hh.
  - rewrite map_filter_insert_True by done. by rewrite dom_insert_L.
  - rewrite map_filter_insert_False by done. by rewrite delete_id.
Qed.

Lemma voteSet_add_spec vs v p :
  voteSet_add vs v p =
    if decide (v_Type v = vs_typ vs ∧ v_Height v = vs_height vs ∧ v_Round v = vs_round vs ∧
               byAddr vs !! v_Validator v = None)
    then (mkVoteSet (vs_typ vs) (vs_height vs) (vs_round vs)
            (<[v_Validator v := v]> (byAddr vs))
            (<[v_BlockHash v := powerFor vs (v_BlockHash v) +₆₄ p]> (power vs))
            (totalSeen vs +₆₄ p), true)
    else (vs, false).
Proof.
  unfold voteSet_add.
  destruct (Z.eqb_spec (v_Type v) (vs_typ vs)); cbn; [|by rewrite decide_False by naive_solver].
  destruct (Z.eqb_spec (v_Height v) (vs_height vs)); cbn; [|by rewrite decide_False by naive_solver].
  destruct (Z.eqb_spec (v_Round v) (vs_round vs)); cbn; [|by rewrite decide_False by naive_solver].
  destruct (byAddr vs !! v_Validator v); [by rewrite decide_False by naive_solver|].
  by rewrite decide_True.
Qed.

Lemma HasQuorum_zero total : is_u64 total → HasQuorum 0 total = false.
Proof.
  intros. unfold HasQuorum. destruct (total =? 0); [done|]. apply Z.ltb_ge.
  pose proof (u64_range (total * 2)). unfold is_u64 in *. rewrite (u64_id (0 * 3)); unfold is_u64; lia.
Qed.

Lemma majorityHash_Some o vs total h :
  order_ok o → majorityHash o vs total = Some h → HasQuorum (powerFor vs h) total = true.
Proof.
  intros [Ho _] Hm. unfold majorityHash in Hm. destruct (find _ _) as [[h' p]|] eqn:Hf; [|done].
  cbn in Hm. inv Hm. apply find_some in Hf as [Hin Hq].
  apply list_elem_of_In in Hin. rewrite (Ho (power vs)) in Hin.
  apply elem_of_map_to_list in Hin. unfold powerFor. by rewrite Hin.
Qed.

Lemma majorityHash_None o vs total h :
  order_ok o → is_u64 total → majorityHash o vs total = None → HasQuorum (powerFor vs h) total = false.
Proof.
  intros [Ho _] Ht Hm. unfold majorityHash in Hm. destruct (find _ _) eqn:Hf; [done|].
  unfold powerFor. destruct (power vs !! h) as [p|] eqn:Hp; [|by apply HasQuorum_zero].
  cbn. apply (find_none _ _ Hf (h, p)). apply list_elem_of_In.
  rewrite (Ho (power vs)). by apply elem_of_map_to_list.
Qed.

Lemma elem_of_votesFor o vs h v :
  order_ok o → v ∈ votesFor o vs h ↔ v_BlockHash v = h ∧ ∃ a, byAddr vs !! a = Some v.
Proof.
  intros [_ Ho]. unfold votesFor. rewrite list_elem_of_filter, list_elem_of_fmap.
  setoid_rewrite (Ho (byAddr vs)). split.
  - intros [Hh ([a w] & -> & Hin%elem_of_map_to_list)]. by eauto.
  - intros [Hh [a Ha]]. split; [done|]. exists (a, v). by rewrite elem_of_map_to_list.
Qed.

Section VoteSet.
Context (vals : ValidatorSet) (Hwf : vs_wf vals) (P : Vote → Prop).

Lemma voteset_ok_new typ height round : voteset_ok vals P (newVoteSet typ height round).
Proof.
  split; cbn.
  - intros a v H. by rewrite lookup_empty in H.
  - intros h. unfold powerFor, voters. cbn. rewrite lookup_empty, map_filter_empty, dom_empty_L.
    by rewrite set_power_empty.
  - by rewrite dom_empty_L, set_power_empty.
Qed.

Lemma voteset_ok_add vs v :
  voteset_ok vals P vs → P v → voteset_ok vals P (voteSet_add vs v (PowerOf vals (v_Validator v))).1.
Proof using Hwf.
  intros Hok HP. rewrite voteSet_add_spec. case_decide as Hd; [|exact Hok].
  destruct Hd as (Ht & Hh & Hr & Hn). destruct Hok as [Hs Hp Hseen].
  assert (∀ A, v_Validator v ∉ A →
    u64 (set_power vals A + PowerOf vals (v_Validator v)) = set_power vals ({[v_Validator v]} ∪ A)) as Hadd.
  { intros A HA. rewrite set_power_insert by done. rewrite Z.add_comm. apply u64_id.
    rewrite <-set_power_insert by done. unfold is_u64.
    pose proof (set_power_nonneg _ Hwf ({[v_Validator v]} ∪ A)).
    pose proof (set_power_le_total _ Hwf ({[v_Validator v]} ∪ A)).
    pose proof (wf_total_pos _ Hwf). lia. }
  split; cbn.
  - intros a w [[<- <-]|[_ Hw]]%lookup_insert_Some; [|by apply Hs]. by split_and!.
  - intros h. unfold powerFor at 1, voters. cbn [power byAddr]. rewrite voters_add by done.
    case_decide as Hb.
    + subst h. rewrite lookup_insert_eq. cbn. rewrite Hp. apply Hadd.
      rewrite elem_of_voters. naive_solver congruence.
    + rewrite lookup_insert_ne by done. apply Hp.
  - rewrite dom_insert_L, Hseen. apply Hadd. by apply not_elem_of_dom.
Qed.

Lemma quorum_unique vs h1 h2 :
  power_bound vals → voteset_ok vals P vs →
  HasQuorum (powerFor vs h1) (totalPower vals) = true →
  HasQuorum (powerFor vs h2) (totalPower vals) = true → h1 = h2.
Proof using Hwf.
  intros Hb Hok. rewrite !(vo_power _ _ _ Hok). intros Hq1 Hq2.
  pose proof (quorum_intersection_power _ Hwf _ _ Hb Hq1 Hq2) as Hi.
  destruct (set_power_lt_witness _ Hwf (voters vs h1 ∩ voters vs h2) ∅) as (a & Ha & _).
  { rewrite set_power_empty. pose proof (wf_total_pos _ Hwf). lia. }
  apply elem_of_intersection in Ha as [H1 H2]. rewrite elem_of_voters in H1, H2.
  destruct H1 as (v1 & Hv1 & <-), H2 as (v2 & Hv2 & <-). congruence.
Qed.

End VoteSet.

(** Folding a sequence of votes into a set, each with its validator's power. *)
Definition add_votes (vals : ValidatorSet) (vs : voteSet) (l : list Vote) : voteSet :=
  foldl (λ s v, (voteSet_add s v (PowerOf vals (v_Validator v))).1) vs l.

Lemma add_votes_ok vals P vs l :
  vs_wf vals → voteset_ok vals P vs → Forall P l → voteset_ok vals P (add_votes vals vs l).
Proof.
  intros Hwf Hok Hl. revert vs Hok. induction Hl as [|v l Hv _ IH]; intros vs Hok; [done|].
  apply IH. by apply voteset_ok_add.
Qed.

(** Vote accounting is exact whatever is delivered: after any sequence of
    votes (duplicates, equivocations and votes for other slots included) the
    power filed under each hash is the total stake of the distinct validators
    whose first vote for the slot named it, with no [uint64] wrap. *)
Theorem voteSet_accounting vals typ height round l h :
  vs_wf vals →
  let vs := add_votes vals (newVoteSet typ height round) l in
  powerFor vs h = set_power vals (voters vs h) ∧
  totalSeen vs = set_power vals (dom (byAddr vs)) ∧ totalSeen vs <= TotalPower vals.
Proof.
  intros Hwf vs. assert (voteset_ok vals (λ _, True) vs) as Hok.
  { apply add_votes_ok; [done|apply voteset_ok_new|by apply Forall_true]. }
  split_and!; [apply Hok|apply Hok|]. rewrite (vo_seen _ _ _ Hok). by apply set_power_le_total.
Qed.

(** [majorityHash] ranges over a Go map, whose order is unspecified, yet
    its result is determined: while the quorum test cannot wrap, at most one
    hash of a vote set has a quorum, and every order finds it. *)
Theorem majorityHash_deterministic vals typ height round l o1 o2 :
  vs_wf vals → power_bound vals → order_ok o1 → order_ok o2 →
  let vs := add_votes vals (newVoteSet typ height round) l in
  majorityHash o1 vs (TotalPower vals) = majorityHash o2 vs (TotalPower vals).
Proof.
  intros Hwf Hb Ho1 Ho2 vs. assert (voteset_ok vals (λ _, True) vs) as Hok.
  { apply add_votes_ok; [done|apply voteset_ok_new|by apply Forall_true]. }
  assert (is_u64 (TotalPower vals)) as Hu
    by (pose proof (wf_total_pos _ Hwf); unfold TotalPower, is_u64; lia).
  destruct (majorityHash o1 vs _) as [h1|] eqn:H1, (majorityHash o2 vs _) as [h2|] eqn:H2; [| | |done].
  - f_equal. eapply quorum_unique; eauto using majorityHash_Some.
  - apply majorityHash_Some in H1; [|done]. by rewrite (majorityHash_None _ _ _ _ Ho2 Hu H2) in H1.
  - apply majorityHash_Some in H2; [|done]. by rewrite (majorityHash_None _ _ _ _ Ho1 Hu H1) in H2.
Qed.

(** ** Concrete vote sequences: an equivocation, a duplicate and a stranger *)
Definition sample_votes : list Vote :=
  [mkVote 1 4 0 77 10 []; mkVote 1 4 0 77 20 []; mkVote 1 4 0 78 20 []; mkVote 1 4 0 77 10 [];
   mkVote 1 4 1 77 30 []; mkVote 1 4 0 77 99 []].

Definition reverse_order : RangeOrder :=
  mkRangeOrder (λ m, reverse (map_to_list m)) (λ m, reverse (map_to_list m)).

Lemma list_order_ok : order_ok list_order.
Proof. split; intros m; done. Qed.

Lemma reverse_order_ok : order_ok reverse_order.
Proof. split; intros m; cbn; by rewrite reverse_Permutation. Qed.

Lemma sample_power_bound : power_bound sample_vs.
Proof. vm_compute. reflexivity. Qed.

Lemma voteSet_accounting_witness :
  powerFor (add_votes sample_vs (newVoteSet 1 4 0) sample_votes) 77 =
  set_power sample_vs (voters (add_votes sample_vs (newVoteSet 1 4 0) sample_votes) 77).
Proof. apply (voteSet_accounting sample_vs 1 4 0 sample_votes 77), sample_vs_wf. Defined.

Lemma majorityHash_deterministic_witness :
  majorityHash list_order (add_votes sample_vs (newVoteSet 1 4 0) sample_votes) (TotalPower sample_vs) =
  majorityHash reverse_order (add_votes sample_vs (newVoteSet 1 4 0) sample_votes) (TotalPower sample_vs).
Proof.
  apply majorityHash_deterministic;
    [apply sample_vs_wf|apply sample_power_bound|apply list_order_ok|apply reverse_order_ok].
Defined.
