(* ===== verification/Engine.v ===== *)
(** * The Dew-BFT state machine of one validator

    Models [consensus/engine.go], the builders and validators of
    [consensus/block.go] and [consensus/builder.go], and the timeout step of
    [consensus/runner.go].

    Go releases the engine mutex in two places: [StartRound] while a block is
    built, and [enterPrevoteLocked] while a proposal is executed.  Those two
    functions are split there into a first half that ends with a snapshot of
    the locals ([StartSnap], [PrevoteSnap]) and a second half that resumes
    from it, so that other calls may run in between.  [StartRound] and
    [HandleProposal] below compose the halves without interleaving; the step
    relation of the file on nodes composes them with it.  The broadcaster and
    the commit callback are the [outbox] each call returns. *)
From S2P Require Import Prelude Types ValidatorSet Votes.

Inductive Step : Type :=
| StepNewRound
| StepPropose
| StepPrevote
| StepPrecommit
| StepCommit.

#[export] Instance Step_eq_dec : EqDecision Step.
Proof. solve_decision. Defined.

Record CommitEvent : Type := mkCommitEvent {
  ce_Height : Z;
  ce_Round : Z;
  ce_BlockHash : Hash;
  ce_Block : option Block;
  ce_Precommits : list Vote;
}.

Record outbox : Type := mkOutbox {
  proposals : list Proposal;
  votes : list Vote;
  commit : option CommitEvent;
}.

Definition empty_box : outbox := mkOutbox [] [] None.
Definition outbox_proposal (o : outbox) (p : Proposal) : outbox :=
  mkOutbox (proposals o ++ [p]) (votes o) (commit o).
Definition outbox_vote (o : outbox) (v : Vote) : outbox :=
  mkOutbox (proposals o) (votes o ++ [v]) (commit o).
Definition outbox_commit (o : outbox) (ev : CommitEvent) : outbox :=
  mkOutbox (proposals o) (votes o) (Some ev).

(** The interfaces [BlockBuilder] and [ProposalValidator]. *)
Definition BlockBuilder : Type := Z → Header → Address → Hash → res (option Block).
Definition ProposalValidator : Type := Z → Header → Block → res unit.

(** The conversion [int64(x)] of a [uint64]. *)
Definition int64 (x : Z) : Z := if x <? 2 ^ 63 then x else x - 2 ^ 64.

Section Engine.
Context `{C : Crypto}.

(** ** Builders and validators *)
Definition EmptyBlockBuilder (gasLimit : Z) (baseFee : option Z) : BlockBuilder :=
  λ height parent proposer stateRoot,
    if negb (height =? Number parent +₆₄ 1) then Err "consensus: height not parent+1" else
    let gl := if gasLimit =? 0 then GasLimit parent else gasLimit in
    let bf := match baseFee with
              | Some f => f
              | None => default 1000000000 (BaseFee parent)
              end in
    let h := mkHeader (Header_Hash parent) stateRoot EmptyTxRoot EmptyReceiptRoot height
               (Timestamp parent +₆₄ 1) gl 0 (Some bf) [] proposer in
    Ok (Some (NewBlock h [])).

(** [DefaultValidator]: [Some root] checks the state root ([NewRootValidator]),
    [None] does not ([NewBasicValidator]). *)
Definition DefaultValidator (expected : option Hash) : ProposalValidator :=
  λ height parent block,
    let h := header block in
    if negb (Number h =? height) then Err "consensus: block number" else
    if negb (ParentHash h =? Header_Hash parent) then Err "consensus: parent hash mismatch" else
    if negb (height =? Number parent +₆₄ 1) then Err "consensus: height not contiguous" else
    match expected with
    | Some root => if negb (StateRoot h =? root) then Err "consensus: invalid state root" else Ok tt
    | None => Ok tt
    end.

(** [BlockExecutor]: the node's block building and execution. *)
Record BlockExecutor : Type := {
  BuildBlockFromPool : Z → Header → Address → Z → res (option Block);
  ValidateAndExecuteBlock : Header → Block → res Hash;
}.

Definition MempoolBlockBuilder (Exec : option BlockExecutor) (MaxTxs : Z) : BlockBuilder :=
  λ height parent proposer _,
    match Exec with
    | None => Err "consensus: nil mempool block builder"
    | Some ex =>
        let maxTxs := if MaxTxs <=? 0 then 64 else MaxTxs in
        BuildBlockFromPool ex height parent proposer maxTxs
    end.

Definition ExecutionValidator (Exec : option BlockExecutor) : ProposalValidator :=
  λ _ parent block,
    match Exec with
    | None => Err "consensus: nil execution validator"
    | Some ex =>
        let? root := ValidateAndExecuteBlock ex parent block in
        if negb (root =? StateRoot (header block)) then Err "consensus: invalid state root" else Ok tt
    end.

(** ** Engine state *)
Record Engine : Type := mkEngine {
  e_address : Address;
  e_key : PrivateKey;
  e_valSet : ValidatorSet;
  e_height : Z;
  e_round : Z;
  e_step : Step;
  e_parent : Header;
  e_proposal : option Proposal;
  e_prevotes : voteSet;
  e_precommits : voteSet;
  e_lockedRound : Z;
  e_lockedHash : Hash;
  e_builder : BlockBuilder;
  e_validator : ProposalValidator;
  e_proposeRoot : Hash;
  e_committed : bool;
  e_LastCommit : option CommitEvent;
}.

Definition set_step (e : Engine) (s : Step) : Engine :=
  mkEngine (e_address e) (e_key e) (e_valSet e) (e_height e) (e_round e) s (e_parent e) (e_proposal e)
    (e_prevotes e) (e_precommits e) (e_lockedRound e) (e_lockedHash e) (e_builder e) (e_validator e)
    (e_proposeRoot e) (e_committed e) (e_LastCommit e).

Definition set_proposal (e : Engine) (p : option Proposal) : Engine :=
  mkEngine (e_address e) (e_key e) (e_valSet e) (e_height e) (e_round e) (e_step e) (e_parent e) p
    (e_prevotes e) (e_precommits e) (e_lockedRound e) (e_lockedHash e) (e_builder e) (e_validator e)
    (e_proposeRoot e) (e_committed e) (e_LastCommit e).

Definition set_votes (e : Engine) (pv pc : voteSet) : Engine :=
  mkEngine (e_address e) (e_key e) (e_valSet e) (e_height e) (e_round e) (e_step e) (e_parent e)
    (e_proposal e) pv pc (e_lockedRound e) (e_lockedHash e) (e_builder e) (e_validator e)
    (e_proposeRoot e) (e_committed e) (e_LastCommit e).

Definition set_locked (e : Engine) (r : Z) (h : Hash) : Engine :=
  mkEngine (e_address e) (e_key e) (e_valSet e) (e_height e) (e_round e) (e_step e) (e_parent e)
    (e_proposal e) (e_prevotes e) (e_precommits e) r h (e_builder e) (e_validator e)
    (e_proposeRoot e) (e_committed e) (e_LastCommit e).

Definition set_slot (e : Engine) (height round : Z) : Engine :=
  mkEngine (e_address e) (e_key e) (e_valSet e) height round (e_step e) (e_parent e)
    (e_proposal e) (e_prevotes e) (e_precommits e) (e_lockedRound e) (e_lockedHash e) (e_builder e)
    (e_validator e) (e_proposeRoot e) (e_committed e) (e_LastCommit e).

Definition set_chain (e : Engine) (parent : Header) (committed : bool) (lc : option CommitEvent) : Engine :=
  mkEngine (e_address e) (e_key e) (e_valSet e) (e_height e) (e_round e) (e_step e) parent
    (e_proposal e) (e_prevotes e) (e_precommits e) (e_lockedRound e) (e_lockedHash e) (e_builder e)
    (e_validator e) (e_proposeRoot e) committed lc.

Definition set_config (e : Engine) (vs : ValidatorSet) (v : ProposalValidator) (root : Hash) : Engine :=
  mkEngine (e_address e) (e_key e) vs (e_height e) (e_round e) (e_step e) (e_parent e)
    (e_proposal e) (e_prevotes e) (e_precommits e) (e_lockedRound e) (e_lockedHash e) (e_builder e)
    v root (e_committed e) (e_LastCommit e).

Definition resetVotes (e : Engine) : Engine :=
  set_chain
    (set_proposal
       (set_votes e (newVoteSet VotePrevote (e_height e) (e_round e))
          (newVoteSet VotePrecommit (e_height e) (e_round e))) None)
    (e_parent e) false (e_LastCommit e).

Record EngineConfig : Type := mkEngineConfig {
  cfg_PrivateKey : option PrivateKey;
  cfg_ValSet : option ValidatorSet;
  cfg_Parent : option Header;
  cfg_Builder : option BlockBuilder;
  cfg_Validator : option ProposalValidator;
  cfg_ProposeRoot : Hash;
}.

Definition NewEngine (cfg : EngineConfig) : res Engine :=
  match cfg_PrivateKey cfg, cfg_ValSet cfg, cfg_Parent cfg with
  | None, _, _ => Err "consensus: missing private key"
  | _, None, _ => Err "consensus: missing validator set"
  | _, _, None => Err "consensus: missing parent header"
  | Some key, Some vs, Some parent =>
      let addr := PubkeyToAddress key in
      match Get vs addr with
      | None => Err "consensus: local address not in validator set"
      | Some _ =>
          Ok (resetVotes
            (mkEngine addr key vs (Number parent +₆₄ 1) 0 StepNewRound parent None
               (newVoteSet 0 0 0) (newVoteSet 0 0 0) (-1) 0
               (default (EmptyBlockBuilder 0 None) (cfg_Builder cfg))
               (default (DefaultValidator None) (cfg_Validator cfg))
               (cfg_ProposeRoot cfg) false None))
      end
  end.

Definition ReplaceValSet (e : Engine) (vs : option ValidatorSet) : Engine * res unit :=
  match vs with
  | None => (e, Err "consensus: cannot replace with empty validator set")
  | Some vs =>
      if Size vs =? 0 then (e, Err "consensus: cannot replace with empty validator set")
      else (set_config e vs (e_validator e) (e_proposeRoot e), Ok tt)
  end.

Definition SetProposeRoot (e : Engine) (root : Hash) : Engine :=
  set_config e (e_valSet e) (e_validator e) root.

Definition SetValidator (e : Engine) (v : ProposalValidator) : Engine :=
  set_config e (e_valSet e) v (e_proposeRoot e).

(** ** Votes and commits *)
Definition addPrevoteLocked (e : Engine) (v : Vote) : Engine * bool :=
  let '(pv, ok) := voteSet_add (e_prevotes e) v (PowerOf (e_valSet e) (v_Validator v)) in
  (set_votes e pv (e_precommits e), ok).

Definition addPrecommitLocked (e : Engine) (v : Vote) : Engine * bool :=
  let '(pc, ok) := voteSet_add (e_precommits e) v (PowerOf (e_valSet e) (v_Validator v)) in
  (set_votes e (e_prevotes e) pc, ok).

Definition enterNextRoundLocked (e : Engine) : Engine :=
  set_step (resetVotes (set_locked (set_slot e (e_height e) (e_round e +₆₄ 1)) (-1) 0)) StepNewRound.

Definition enterCommitLocked (o : RangeOrder) (blockHash : Hash) (e : Engine) (box : outbox)
    : Engine * outbox * res unit :=
  if e_committed e then (e, box, Ok tt) else
  match e_proposal e with
  | None => (e, box, Err "consensus: commit hash without matching proposal")
  | Some p =>
      if negb (p_BlockHash p =? blockHash)
      then (e, box, Err "consensus: commit hash without matching proposal") else
      let ev := mkCommitEvent (e_height e) (e_round e) blockHash (p_Block p)
                  (votesFor o (e_precommits e) blockHash) in
      let parent := match p_Block p with Some b => header b | None => e_parent e end in
      let e1 := set_chain (set_step e StepCommit) parent true (Some ev) in
      let e2 := set_locked (set_slot e1 (e_height e +₆₄ 1) 0) (-1) 0 in
      (set_step (resetVotes e2) StepNewRound, outbox_commit box ev, Ok tt)
  end.

Definition tryAfterPrecommitLocked (o : RangeOrder) (e : Engine) (box : outbox)
    : Engine * outbox * res unit :=
  if negb (bool_decide (e_step e = StepPrecommit)) then (e, box, Ok tt) else
  match majorityHash o (e_precommits e) (TotalPower (e_valSet e)) with
  | None => (e, box, Ok tt)
  | Some maj =>
      if Hash_IsZero maj then (enterNextRoundLocked e, box, Ok tt)
      else enterCommitLocked o maj e box
  end.

Definition enterPrecommitLocked (o : RangeOrder) (polkaHash : Hash) (e : Engine) (box : outbox)
    : Engine * outbox * res unit :=
  let e1 := set_step e StepPrecommit in
  let e2 := if Hash_IsZero polkaHash then e1 else set_locked e1 (int64 (e_round e)) polkaHash in
  match SignVote (mkVote VotePrecommit (e_height e) (e_round e) polkaHash (e_address e) []) (e_key e) with
  | Err x => (e2, box, Err x)
  | Ok v => tryAfterPrecommitLocked o (addPrecommitLocked e2 v).1 (outbox_vote box v)
  end.

Definition tryAfterPrevoteLocked (o : RangeOrder) (e : Engine) (box : outbox)
    : Engine * outbox * res unit :=
  if negb (bool_decide (e_step e = StepPrevote)) then (e, box, Ok tt) else
  match majorityHash o (e_prevotes e) (TotalPower (e_valSet e)) with
  | None => (e, box, Ok tt)
  | Some maj => enterPrecommitLocked o maj e box
  end.

(** ** Prevote: the two halves around the released mutex *)
Record PrevoteSnap : Type := mkPrevoteSnap {
  ps_height : Z;
  ps_round : Z;
  ps_parent : Header;
  ps_prop : option Proposal;
  ps_lockedRound : Z;
  ps_lockedHash : Hash;
  ps_box : outbox;
}.

(** A call either ends or waits in [enterPrevoteLocked] for the validator. *)
Inductive outcome : Type :=
| Done (e : Engine) (box : outbox) (r : res unit)
| Wait (e : Engine) (s : PrevoteSnap).

Definition enterPrevote_begin (e : Engine) (box : outbox) : outcome :=
  if negb (bool_decide (e_step e = StepPropose)) && negb (bool_decide (e_step e = StepNewRound))
  then Done e box (Ok tt)
  else Wait (set_step e StepPrevote)
         (mkPrevoteSnap (e_height e) (e_round e) (e_parent e) (e_proposal e)
            (e_lockedRound e) (e_lockedHash e) box).

(** The hash prevoted: the proposal's if it validates, unless locked. *)
Definition prevote_hash (s : PrevoteSnap) (valid : Block → res unit) : Hash :=
  let hash := match ps_prop s with
              | Some p => match p_Block p with
                          | Some b => if is_ok (valid b) then p_BlockHash p else 0
                          | None => 0
                          end
              | None => 0
              end in
  if (0 <=? ps_lockedRound s) && negb (Hash_IsZero (ps_lockedHash s)) then ps_lockedHash s else hash.

Definition enterPrevote_finish (o : RangeOrder) (e : Engine) (s : PrevoteSnap) (valid : Block → res unit)
    : Engine * outbox * res unit :=
  match SignVote (mkVote VotePrevote (ps_height s) (ps_round s) (prevote_hash s valid) (e_address e) [])
          (e_key e) with
  | Err x => (e, ps_box s, Err x)
  | Ok v =>
      if negb (e_height e =? ps_height s) || negb (e_round e =? ps_round s)
         || negb (bool_decide (e_step e = StepPrevote))
      then (e, ps_box s, Ok tt)
      else tryAfterPrevoteLocked o (addPrevoteLocked e v).1 (outbox_vote (ps_box s) v)
  end.

(** ** Handlers *)
Record StartSnap : Type := mkStartSnap {
  ss_height : Z;
  ss_round : Z;
  ss_parent : Header;
  ss_root : Hash;
  ss_isProposer : bool;
}.

(** [StartRound] up to the first unlock; [None] is the early return.  The
    panic of [Proposer] on an empty set is the comparison failing here: no
    engine holds an empty set ([NewEngine], [ReplaceValSet]). *)
Definition StartRound_begin (e : Engine) : Engine * option StartSnap :=
  if negb (bool_decide (e_step e = StepNewRound)) then (e, None) else
  let e1 := set_step (resetVotes e) StepPropose in
  (e1, Some (mkStartSnap (e_height e1) (e_round e1) (e_parent e1) (e_proposeRoot e1)
               (bool_decide (ProposerOf (e_valSet e1) (e_height e1) (e_round e1) = Some (e_address e1))))).

(** [StartRound] after the block was built (an error of the builder returns
    before the mutex is taken again). *)
Definition StartRound_finish (e : Engine) (s : StartSnap) (built : res (option Block)) : outcome :=
  match (if ss_isProposer s then built else Ok None) with
  | Err x => Done e empty_box (Err x)
  | Ok block =>
      if negb (e_height e =? ss_height s) || negb (e_round e =? ss_round s)
         || negb (bool_decide (e_step e = StepPropose))
      then Done e empty_box (Ok tt) else
      if negb (ss_isProposer s) then Done e empty_box (Ok tt) else
      match block with
      | None => Done e empty_box (Err "consensus: nil proposal block")
      | Some b =>
          match SignProposal (mkProposal (ss_height s) (ss_round s) (Block_Hash b) (Some b) (e_address e) [])
                  (e_key e) with
          | Err x => Done e empty_box (Err x)
          | Ok p => enterPrevote_begin (set_proposal e (Some p)) (outbox_proposal empty_box p)
          end
      end
  end.

Definition HandleProposal_begin (e : Engine) (p : Proposal) : outcome :=
  match VerifyProposal p with
  | Err x => Done e empty_box (Err x)
  | Ok _ =>
      if match p_Block p with Some b => negb (Block_Hash b =? p_BlockHash p) | None => false end
      then Done e empty_box (Err "consensus: proposal block hash mismatch") else
      if negb (p_Height p =? e_height e) || negb (p_Round p =? e_round e)
      then Done e empty_box (Ok tt) else
      match e_proposal e with
      | Some _ => Done e empty_box (Ok tt)
      | None =>
          if negb (bool_decide (ProposerOf (e_valSet e) (e_height e) (e_round e) = Some (p_Proposer p)))
          then Done e empty_box (Err "consensus: proposal from non-proposer")
          else enterPrevote_begin (set_proposal e (Some p)) empty_box
      end
  end.

Definition HandleVote (o : RangeOrder) (e : Engine) (v : Vote) : Engine * outbox * res unit :=
  if negb (v_Height v =? e_height e) then (e, empty_box, Ok tt) else
  match VerifyVote v with
  | Err x => (e, empty_box, Err x)
  | Ok _ =>
      match Get (e_valSet e) (v_Validator v) with
      | None => (e, empty_box, Err "consensus: vote from non-validator")
      | Some _ =>
          if v_Type v =? VotePrevote then
            if negb (v_Round v =? e_round e) then (e, empty_box, Ok tt) else
            let '(e1, ok) := addPrevoteLocked e v in
            if negb ok then (e1, empty_box, Ok tt) else tryAfterPrevoteLocked o e1 empty_box
          else if v_Type v =? VotePrecommit then
            if negb (v_Round v =? e_round e) then (e, empty_box, Ok tt) else
            let '(e1, ok) := addPrecommitLocked e v in
            if negb ok then (e1, empty_box, Ok tt) else tryAfterPrecommitLocked o e1 empty_box
          else (e, empty_box, Err "consensus: unknown vote type")
      end
  end.

Definition ForceTimeoutRound (e : Engine) : Engine := enterNextRoundLocked e.

Definition ApplySyncedBlock (e : Engine) (block : Block) : Engine * res bool :=
  let h := header block in
  if Number h <? e_height e then (e, Ok false) else
  if negb (e_height e =? Number h) then (e, Err "consensus: synced block height") else
  if negb (ParentHash h =? Header_Hash (e_parent e)) then (e, Err "consensus: synced block parent mismatch") else
  let e1 := set_locked (set_slot (set_chain e h false (e_LastCommit e)) (Number h +₆₄ 1) 0) (-1) 0 in
  let e2 := set_step (resetVotes e1) StepNewRound in
  (set_chain e2 (e_parent e2) (e_committed e2)
     (Some (mkCommitEvent (Number h) 0 (Block_Hash block) (Some block) [])), Ok true).

(** The handlers run to the end, with nothing else in between. *)
Definition run_outcome (o : RangeOrder) (r : outcome) : Engine * outbox * res unit :=
  match r with
  | Done e box x => (e, box, x)
  | Wait e s => enterPrevote_finish o e s (e_validator e (ps_height s) (ps_parent s))
  end.

Definition StartRound (o : RangeOrder) (e : Engine) : Engine * outbox * res unit :=
  match StartRound_begin e with
  | (e1, None) => (e1, empty_box, Ok tt)
  | (e1, Some s) =>
      run_outcome o (StartRound_finish e1 s
        (e_builder e1 (ss_height s) (ss_parent s) (e_address e1) (ss_root s)))
  end.

Definition HandleProposal (o : RangeOrder) (e : Engine) (p : Proposal) : Engine * outbox * res unit :=
  run_outcome o (HandleProposal_begin e p).

(** One tick of [Runner.timeoutLoop]. *)
Definition timeout_tick (o : RangeOrder) (e : Engine) : Engine * outbox * res unit :=
  match e_step e with
  | StepNewRound => StartRound o e
  | StepPropose | StepPrevote | StepPrecommit => StartRound o (ForceTimeoutRound e)
  | StepCommit => (e, empty_box, Ok tt)
  end.
End Engine.
