(* ===== verification/Node.v ===== *)
(** * A validator as a transition system

    The calls that reach one engine, with the two points where it releases
    its mutex, as a step relation; and the invariants of its reachable
    states: exact vote accounting, the lock only ever held in the precommit
    step, and the certificate carried by every commit event. *)
From S2P Require Import Prelude Types ValidatorSet Votes Quorum Engine.

(** Calls in flight are kept beside the engine. *)
Record node `{C : Crypto} : Type := mkNode {
  n_eng : Engine;
  n_starts : list StartSnap;
  n_prevs : list PrevoteSnap;
}.
Arguments mkNode {_} _ _ _.

Section Node.
Context `{C : Crypto}.

(** Height and round stay below the [uint64] wrap. *)
Definition below_wrap (e : Engine) : Prop := e_height e < 2 ^ 64 - 1 ∧ e_round e < 2 ^ 64 - 1.

(** One call, or one half of a call that releases the mutex.  The network
    delivers votes satisfying [auth]; the block builder may answer anything;
    the proposal validator accepts only blocks satisfying [okb]. *)
Inductive node_step (auth : Vote → Prop) (okb : Z → Header → Block → Prop)
    : node → outbox → node → Prop :=
| NS_start_begin e ss ps e' s :
    below_wrap e → StartRound_begin e = (e', Some s) →
    node_step auth okb (mkNode e ss ps) empty_box (mkNode e' (s :: ss) ps)
| NS_start_done e ss1 s ss2 ps built e' box r :
    below_wrap e → StartRound_finish e s built = Done e' box r →
    node_step auth okb (mkNode e (ss1 ++ s :: ss2) ps) box (mkNode e' (ss1 ++ ss2) ps)
| NS_start_wait e ss1 s ss2 ps built e' w :
    below_wrap e → StartRound_finish e s built = Wait e' w →
    node_step auth okb (mkNode e (ss1 ++ s :: ss2) ps) empty_box (mkNode e' (ss1 ++ ss2) (w :: ps))
| NS_proposal_done e ss ps p e' box r :
    below_wrap e → HandleProposal_begin e p = Done e' box r →
    node_step auth okb (mkNode e ss ps) box (mkNode e' ss ps)
| NS_proposal_wait e ss ps p e' w :
    below_wrap e → HandleProposal_begin e p = Wait e' w →
    node_step auth okb (mkNode e ss ps) empty_box (mkNode e' ss (w :: ps))
| NS_prevote e ss ps1 s ps2 o valid e' box r :
    below_wrap e → order_ok o →
    (∀ b, valid b = Ok tt → okb (ps_height s) (ps_parent s) b) →
    enterPrevote_finish o e s valid = (e', box, r) →
    node_step auth okb (mkNode e ss (ps1 ++ s :: ps2)) box (mkNode e' ss (ps1 ++ ps2))
| NS_vote e ss ps o v e' box r :
    below_wrap e → order_ok o → auth v → HandleVote o e v = (e', box, r) →
    node_step auth okb (mkNode e ss ps) box (mkNode e' ss ps)
| NS_timeout e ss ps :
    below_wrap e →
    node_step auth okb (mkNode e ss ps) empty_box (mkNode (ForceTimeoutRound e) ss ps)
| NS_sync e ss ps b e' r :
    below_wrap e → ApplySyncedBlock e b = (e', r) →
    node_step auth okb (mkNode e ss ps) empty_box (mkNode e' ss ps).

(** ** Progress of a node *)
Definition step_rank (s : Step) : Z :=
  match s with
  | StepNewRound => 0 | StepPropose => 1 | StepPrevote => 2 | StepPrecommit => 3 | StepCommit => 4
  end.

(** Lexicographic order on (height, round). *)
Definition slot_lt (h r h' r' : Z) : Prop := h < h' ∨ (h = h' ∧ r < r').

Definition advances (e e' : Engine) : Prop :=
  e_address e' = e_address e ∧
  (slot_lt (e_height e) (e_round e) (e_height e') (e_round e') ∨
   (e_height e' = e_height e ∧ e_round e' = e_round e ∧ step_rank (e_step e) <= step_rank (e_step e'))).

Lemma advances_refl e : advances e e.
Proof. split; [done|]. right. lia. Qed.

Lemma advances_trans e1 e2 e3 : advances e1 e2 → advances e2 e3 → advances e1 e3.
Proof. unfold advances, slot_lt. lia. Qed.

(** ** Engine invariant *)
Record slot_votes (A : Vote → Prop) (vals : ValidatorSet) (typ height round : Z) (vs : voteSet) : Prop := {
  sv_ok : voteset_ok vals A vs;
  sv_typ : vs_typ vs = typ;
  sv_height : vs_height vs = height;
  sv_round : vs_round vs = round;
}.

Definition proposal_ok (p : Proposal) : Prop := ∀ b, p_Block p = Some b → Block_Hash b = p_BlockHash p.

Record eng_inv (A : Vote → Prop) (vals : ValidatorSet) (e : Engine) : Prop := {
  ei_vals : e_valSet e = vals;
  ei_addr : e_address e = PubkeyToAddress (e_key e);
  ei_slot : is_u64 (e_height e) ∧ is_u64 (e_round e);
  ei_lock : e_step e ≠ StepPrecommit → e_lockedRound e = -1 ∧ e_lockedHash e = 0;
  ei_step : e_step e ≠ StepCommit;
  ei_committed : e_committed e = false;
  ei_prevotes : slot_votes A vals VotePrevote (e_height e) (e_round e) (e_prevotes e);
  ei_precommits : slot_votes A vals VotePrecommit (e_height e) (e_round e) (e_precommits e);
  ei_proposal : ∀ p, e_proposal e = Some p → proposal_ok p;
}.

(** The certificate of a commit event: precommits of distinct validators, all
    acceptable, for its height, round and hash, whose power is a quorum. *)
Record certificate (A : Vote → Prop) (vals : ValidatorSet) (ev : CommitEvent) : Prop := {
  ct_votes : ∀ v, v ∈ ce_Precommits ev →
    A v ∧ v_Type v = VotePrecommit ∧ v_Height v = ce_Height ev ∧ v_Round v = ce_Round ev ∧
    v_BlockHash v = ce_BlockHash ev;
  ct_quorum : HasQuorum (set_power vals (list_to_set (map v_Validator (ce_Precommits ev))))
                (totalPower vals) = true;
  ct_nonzero : ce_BlockHash ev ≠ 0;
  ct_block : ∀ b, ce_Block ev = Some b → Block_Hash b = ce_BlockHash ev;
}.

(** ** Monotonicity in the accepted votes *)
Lemma voteset_ok_mono (A B : Vote → Prop) vals vs :
  (∀ v, A v → B v) → voteset_ok vals A vs → voteset_ok vals B vs.
Proof. intros HAB [Hs Hp Ht]. split; [|done|done]. intros a v Hv. apply Hs in Hv. naive_solver. Qed.

Lemma slot_votes_mono (A B : Vote → Prop) vals typ h r vs :
  (∀ v, A v → B v) → slot_votes A vals typ h r vs → slot_votes B vals typ h r vs.
Proof. intros HAB [Hok ? ? ?]. split; [|done..]. by eapply voteset_ok_mono. Qed.

Lemma eng_inv_mono (A B : Vote → Prop) vals e :
  (∀ v, A v → B v) → eng_inv A vals e → eng_inv B vals e.
Proof. intros HAB []. split; eauto using slot_votes_mono. Qed.

Lemma certificate_mono (A B : Vote → Prop) vals ev :
  (∀ v, A v → B v) → certificate A vals ev → certificate B vals ev.
Proof. intros HAB [Hv ? ? ?]. split; [|done..]. intros v Hin. apply Hv in Hin. naive_solver. Qed.

(** ** The engine invariant, operation by operation *)
Section Inv.
Context (A : Vote → Prop) (vals : ValidatorSet) (Hwf : vs_wf vals).

Lemma eng_inv_fresh e s :
  e_valSet e = vals → e_address e = PubkeyToAddress (e_key e) →
  is_u64 (e_height e) → is_u64 (e_round e) → e_lockedRound e = -1 → e_lockedHash e = 0 →
  s ≠ StepCommit → eng_inv A vals (set_step (resetVotes e) s).
Proof.
  intros. split; cbn; try done.
  - split; [|done..]. apply voteset_ok_new.
  - split; [|done..]. apply voteset_ok_new.
Qed.

Lemma NewEngine_inv cfg e :
  cfg_ValSet cfg = Some vals → NewEngine cfg = Ok e → eng_inv A vals e ∧ e_step e = StepNewRound.
Proof.
  unfold NewEngine. intros Hvs He. rewrite Hvs in He.
  destruct (cfg_PrivateKey cfg) as [k|]; [|done]. destruct (cfg_Parent cfg) as [ph|]; [|done].
  destruct (Get vals _); [|done]. injection He as <-. split; [|done].
  split; cbn; try done.
  - split; [apply u64_range|]. unfold is_u64. lia.
  - split; [|done..]. apply voteset_ok_new.
  - split; [|done..]. apply voteset_ok_new.
Qed.

Lemma NewEngine_address cfg k e :
  cfg_PrivateKey cfg = Some k → NewEngine cfg = Ok e → e_address e = PubkeyToAddress k.
Proof using.
  unfold NewEngine. intros -> He. destruct (cfg_ValSet cfg) as [vs|]; [|done].
  destruct (cfg_Parent cfg); [|done]. destruct (Get _ _); [|done]. by injection He as <-.
Qed.

Lemma enterNextRound_inv e :
  eng_inv A vals e → below_wrap e →
  eng_inv A vals (enterNextRoundLocked e) ∧ advances e (enterNextRoundLocked e).
Proof.
  intros He [Hh Hr]. destruct (ei_slot _ _ _ He) as [Hu1 Hu2]. unfold is_u64 in Hu1, Hu2. split.
  - apply eng_inv_fresh; cbn; try done; [apply He|apply He|apply u64_range].
  - split; [done|]. left. right. cbn. rewrite u64_id by (unfold is_u64; lia). lia.
Qed.

Lemma addPrevote_inv e v :
  eng_inv A vals e → A v → eng_inv A vals (addPrevoteLocked e v).1.
Proof using Hwf.
  intros He HA. unfold addPrevoteLocked.
  pose proof (voteset_ok_add vals Hwf A _ v (sv_ok _ _ _ _ _ _ (ei_prevotes _ _ _ He)) HA) as Hok.
  rewrite <-(ei_vals _ _ _ He) in Hok.
  pose proof (voteSet_add_spec (e_prevotes e) v (PowerOf (e_valSet e) (v_Validator v))) as Hs.
  destruct (voteSet_add _ _ _) as [pv ok]. cbn in Hok |- *.
  destruct He as [H1 H2 H3 H4 H5 H6 [_ H7 H8 H9] H10 H11]. subst vals.
  split; cbn; try done. split; [done|..]; case_decide; inv Hs; done.
Qed.

Lemma addPrecommit_inv e v :
  eng_inv A vals e → A v → eng_inv A vals (addPrecommitLocked e v).1.
Proof using Hwf.
  intros He HA. unfold addPrecommitLocked.
  pose proof (voteset_ok_add vals Hwf A _ v (sv_ok _ _ _ _ _ _ (ei_precommits _ _ _ He)) HA) as Hok.
  rewrite <-(ei_vals _ _ _ He) in Hok.
  pose proof (voteSet_add_spec (e_precommits e) v (PowerOf (e_valSet e) (v_Validator v))) as Hs.
  destruct (voteSet_add _ _ _) as [pv ok]. cbn in Hok |- *.
  destruct He as [H1 H2 H3 H4 H5 H6 H10 [_ H7 H8 H9] H11]. subst vals.
  split; cbn; try done. split; [done|..]; case_decide; inv Hs; done.
Qed.

Lemma addPrevote_slot e v :
  let e' := (addPrevoteLocked e v).1 in
  e_height e' = e_height e ∧ e_round e' = e_round e ∧ e_step e' = e_step e ∧ e_address e' = e_address e.
Proof. unfold addPrevoteLocked. by destruct (voteSet_add _ _ _). Qed.

Lemma addPrecommit_slot e v :
  let e' := (addPrecommitLocked e v).1 in
  e_height e' = e_height e ∧ e_round e' = e_round e ∧ e_step e' = e_step e ∧ e_address e' = e_address e.
Proof. unfold addPrecommitLocked. by destruct (voteSet_add _ _ _). Qed.

(** A quorum of precommits in the engine is a certificate. *)
Lemma commit_certificate o e h p :
  eng_inv A vals e → order_ok o → e_proposal e = Some p → p_BlockHash p = h → h ≠ 0 →
  HasQuorum (powerFor (e_precommits e) h) (totalPower vals) = true →
  certificate A vals
    (mkCommitEvent (e_height e) (e_round e) h (p_Block p) (votesFor o (e_precommits e) h)).
Proof.
  intros He Ho Hp <- Hnz Hq. destruct (ei_precommits _ _ _ He) as [Hok Ht Hh Hr].
  split; cbn; [| |done|by apply (ei_proposal _ _ _ He)].
  - intros v [Hb [a Ha]]%elem_of_votesFor; [|done]. apply (vo_slot _ _ _ Hok) in Ha.
    destruct Ha as (_ & -> & -> & -> & HA). done.
  - rewrite (vo_power _ _ _ Hok) in Hq. rewrite <-Hq. do 2 f_equal. apply set_eq. intros a.
    rewrite elem_of_list_to_set, list_elem_of_fmap, elem_of_voters. split.
    + intros (v & -> & [Hb [a' Ha]]%elem_of_votesFor); [|done]. exists v. split; [|done].
      pose proof (vo_slot _ _ _ Hok _ _ Ha) as [-> _]. done.
    + intros (v & Ha & Hb). exists v. split; [by destruct (vo_slot _ _ _ Hok _ _ Ha)|].
      apply elem_of_votesFor; [done|]. eauto.
Qed.

(** What a step that casts no vote does to the outbox. *)
Definition box_commit (e : Engine) (box box' : outbox) : Prop :=
  votes box' = votes box ∧ proposals box' = proposals box ∧
  (commit box' = commit box ∨
   ∃ ev, commit box' = Some ev ∧ certificate A vals ev ∧
         ce_Height ev = e_height e ∧ ce_Round ev = e_round e).

Lemma tryAfterPrecommit_inv o e box e' box' r :
  eng_inv A vals e → order_ok o → below_wrap e →
  tryAfterPrecommitLocked o e box = (e', box', r) →
  eng_inv A vals e' ∧ advances e e' ∧ box_commit e box box'.
Proof.
  intros He Ho Hb H. unfold tryAfterPrecommitLocked in H.
  assert (eng_inv A vals e ∧ advances e e ∧ box_commit e box box) as Hsame.
  { split_and!; [done|apply advances_refl|]. split_and!; [done|done|by left]. }
  case_bool_decide as Hst; cbn in H; [|by inv H].
  destruct (majorityHash _ _ _) as [maj|] eqn:Hm; [|by inv H].
  apply majorityHash_Some in Hm; [|done]. unfold TotalPower in Hm. rewrite (ei_vals _ _ _ He) in Hm.
  unfold Hash_IsZero in H. destruct (Z.eqb_spec maj 0) as [Hz|Hz].
  { inv H. destruct (enterNextRound_inv e He Hb). split_and!; [done|done|].
    split_and!; [done|done|by left]. }
  unfold enterCommitLocked in H. rewrite (ei_committed _ _ _ He) in H.
  destruct (e_proposal e) as [p|] eqn:Hp; [|by inv H].
  destruct (Z.eqb_spec (p_BlockHash p) maj) as [Hpb|]; cbn in H; [|by inv H].
  injection H as <- <- <-. destruct (ei_slot _ _ _ He) as [Hu1 Hu2], Hb as [Hh Hr].
  unfold is_u64 in Hu1, Hu2. split_and!.
  - apply eng_inv_fresh; cbn; try done; [apply He|apply He|apply u64_range].
  - split; [done|]. left. left. cbn. rewrite u64_id by (unfold is_u64; lia). lia.
  - split_and!; [done|done|]. right. eexists. split; [done|].
    split_and!; [by apply commit_certificate|done|done].
Qed.

End Inv.

(** ** Casting the precommit *)
Section Cast.
Context {L : CryptoLaws C} (A : Vote → Prop) (vals : ValidatorSet) (Hwf : vs_wf vals).

(** The state and outbox after the vote [v] was cast in [e], once the accepted
    votes include it. *)
Definition cast_result (v : Vote) (e : Engine) (box : outbox) (e' : Engine) (box' : outbox) : Prop :=
  ∀ B : Vote → Prop, (∀ w, A w → B w) → B v →
    eng_inv B vals e' ∧ advances (set_step e StepPrecommit) e' ∧
    box_commit B vals e (outbox_vote box v) box'.

Lemma enterPrecommit_inv o h e box e' box' r :
  eng_inv A vals e → order_ok o → below_wrap e →
  enterPrecommitLocked o h e box = (e', box', r) →
  ∃ v, SignVote (mkVote VotePrecommit (e_height e) (e_round e) h (e_address e) []) (e_key e) = Ok v ∧
       VerifyVote v = Ok tt ∧ cast_result v e box e' box'.
Proof using Hwf L.
  intros HeA Ho Hb H. unfold enterPrecommitLocked in H.
  destruct (SignVote_total (mkVote VotePrecommit (e_height e) (e_round e) h (e_address e) []) (e_key e))
    as (v & Hv & Hver); [by right|].
  rewrite Hv in H. exists v. split_and!; [done|done|]. intros B HAB HB.
  pose proof (eng_inv_mono _ _ _ _ HAB HeA) as He.
  set (e2 := if Hash_IsZero h then _ else _) in H.
  assert (eng_inv B vals e2 ∧ e_height e2 = e_height e ∧ e_round e2 = e_round e ∧
          e_step e2 = StepPrecommit ∧ e_address e2 = e_address e) as (He2 & Hh2 & Hr2 & Hs2 & Ha2).
  { unfold e2. destruct He. destruct (Hash_IsZero h); split_and!; try done; split; try done. }
  destruct (addPrecommit_slot e2 v) as (Hh3 & Hr3 & Hs3 & Ha3).
  apply (tryAfterPrecommit_inv B vals) in H as (He' & Hadv & Hbox); [| |done|].
  - split_and!; [done| |].
    + unfold advances in *. cbn. rewrite Hh3, Hr3, Hs3, Ha3, Hh2, Hr2, Hs2, Ha2 in Hadv. exact Hadv.
    + unfold box_commit in *. by rewrite Hh3, Hr3, Hh2, Hr2 in Hbox.
  - by apply addPrecommit_inv.
  - unfold below_wrap in *. by rewrite Hh3, Hr3, Hh2, Hr2.
Qed.

(** [tryAfterPrevoteLocked] either does nothing or, in the prevote step and on
    a quorum of prevotes, casts the one precommit for the slot. *)
Lemma tryAfterPrevote_inv o e box e' box' r :
  eng_inv A vals e → order_ok o → below_wrap e →
  tryAfterPrevoteLocked o e box = (e', box', r) →
  (e' = e ∧ box' = box) ∨
  (e_step e = StepPrevote ∧ ∃ h v,
     HasQuorum (powerFor (e_prevotes e) h) (totalPower vals) = true ∧
     SignVote (mkVote VotePrecommit (e_height e) (e_round e) h (e_address e) []) (e_key e) = Ok v ∧
     VerifyVote v = Ok tt ∧ cast_result v e box e' box').
Proof using Hwf L.
  intros He Ho Hb H. unfold tryAfterPrevoteLocked in H.
  case_bool_decide as Hst; cbn in H; [|inv H; by left].
  destruct (majorityHash _ _ _) as [maj|] eqn:Hm; [|inv H; by left].
  right. split; [done|]. apply majorityHash_Some in Hm; [|done].
  unfold TotalPower in Hm. rewrite (ei_vals _ _ _ He) in Hm.
  apply enterPrecommit_inv in H as (v & ? & ? & ?); [|done..]. exists maj, v. done.
Qed.
End Cast.
End Node.
