(* ===== verification/Agreement.v ===== *)
(** * Agreement and accountability of Dew-BFT

    Several validators over one validator set: honest ones run the engine of
    [Engine.v] with arbitrary interleaving, message loss, reordering and
    duplication; the others send anything they can sign.  Signatures of
    honest validators are not forged, which is the only assumption made of
    the network.

    Shown: an honest validator never equivocates; every commit carries a
    certificate; two commits for one height and round name the same block
    unless validators holding more than a third of the power signed two
    precommits, each pair of which is valid double-sign evidence; a committed
    block was accepted by an honest validator.  Commits of one height in
    different rounds are not protected: the lock is never in force when a
    prevote is cast, and a fork without any faulty validator is exhibited in
    [Fork.v]. *)
From S2P Require Import Prelude Types ValidatorSet Votes Quorum Engine Node.

Definition same_ballot (v w : Vote) : Prop :=
  v_Type v = v_Type w ∧ v_Height v = v_Height w ∧ v_Round v = v_Round w ∧
  v_BlockHash v = v_BlockHash w ∧ v_Validator v = v_Validator w.

Record world `{C : Crypto} : Type := mkWorld {
  w_nodes : gmap Address node;
  w_votes : list Vote;
  w_commits : list (Address * CommitEvent);
}.
Arguments mkWorld {_} _ _ _.

Section World.
Context `{C : Crypto} (vals : ValidatorSet) (honest : gset Address).
Context (okb : Address → Z → Header → Block → Prop).

(** A vote the network can deliver: it verifies, and if it names an honest
    validator that validator cast it. *)
Definition auth (L : list Vote) (v : Vote) : Prop :=
  VerifyVote v = Ok tt ∧ (v_Validator v ∈ honest → ∃ w, w ∈ L ∧ same_ballot v w).

Definition commit_of (a : Address) (box : outbox) : list (Address * CommitEvent) :=
  match commit box with Some ev => [(a, ev)] | None => [] end.

Inductive world_step : world → world → Prop :=
| WS_node w a n n' box :
    w_nodes w !! a = Some n →
    node_step (auth (w_votes w)) (okb a) n box n' →
    world_step w (mkWorld (<[a := n']> (w_nodes w)) (reverse (votes box) ++ w_votes w)
                    (commit_of a box ++ w_commits w)).

(** Every honest validator starts from a fresh engine. *)
Definition world_init (w : world) : Prop :=
  w_votes w = [] ∧ w_commits w = [] ∧
  ∀ a n, w_nodes w !! a = Some n →
    a ∈ honest ∧ n_starts n = [] ∧ n_prevs n = [] ∧
    ∃ cfg, cfg_ValSet cfg = Some vals ∧ NewEngine cfg = Ok (n_eng n) ∧ e_address (n_eng n) = a.

Definition reachable (w : world) : Prop := ∃ w0, world_init w0 ∧ rtc world_step w0 w.

(** ** What each validator has cast *)
Definition vote_past (e : Engine) (v : Vote) : Prop :=
  slot_lt (v_Height v) (v_Round v) (e_height e) (e_round e) ∨
  (v_Height v = e_height e ∧ v_Round v = e_round e ∧
   (v_Type v = VotePrevote → 2 <= step_rank (e_step e)) ∧
   (v_Type v = VotePrecommit → 3 <= step_rank (e_step e))).

Definition log_ok (a : Address) (e : Engine) (L : list Vote) : Prop :=
  (∀ v, v ∈ L → v_Validator v = a → vote_past e v) ∧
  (∀ v w, v ∈ L → w ∈ L → v_Validator v = a → v_Validator w = a →
     v_Type v = v_Type w → v_Height v = v_Height w → v_Round v = v_Round w →
     v_BlockHash v = v_BlockHash w).

(** A prevote in flight is for a slot the validator has not prevoted in. *)
Definition snap_ok (a : Address) (e : Engine) (L : list Vote) (s : PrevoteSnap) : Prop :=
  (slot_lt (ps_height s) (ps_round s) (e_height e) (e_round e) ∨
   (ps_height s = e_height e ∧ ps_round s = e_round e ∧ 2 <= step_rank (e_step e))) ∧
  (∀ v, v ∈ L → v_Validator v = a → v_Type v = VotePrevote →
     ¬ (v_Height v = ps_height s ∧ v_Round v = ps_round s)) ∧
  ps_lockedRound s = -1 ∧
  votes (ps_box s) = [] ∧ commit (ps_box s) = None ∧
  (∀ p, ps_prop s = Some p → proposal_ok p).

Definition snap_slot (s : PrevoteSnap) : Z * Z := (ps_height s, ps_round s).

Definition pend_ok (a : Address) (e : Engine) (L : list Vote) (ps : list PrevoteSnap) : Prop :=
  Forall (snap_ok a e L) ps ∧ NoDup (map snap_slot ps).

(** A non-nil prevote names a block its caster accepted; a non-nil precommit
    follows a quorum of prevotes for its block. *)
Definition prevote_backed (v : Vote) : Prop :=
  v_Type v = VotePrevote → v_BlockHash v ≠ 0 →
  ∃ parent b, Block_Hash b = v_BlockHash v ∧ okb (v_Validator v) (v_Height v) parent b.

Definition precommit_backed (L : list Vote) (v : Vote) : Prop :=
  v_Type v = VotePrecommit → v_BlockHash v ≠ 0 →
  ∃ Q : gset Address, HasQuorum (set_power vals Q) (totalPower vals) = true ∧
    ∀ a, a ∈ Q → ∃ w, auth L w ∧ v_Validator w = a ∧ v_Type w = VotePrevote ∧
      v_Height w = v_Height v ∧ v_Round w = v_Round v ∧ v_BlockHash w = v_BlockHash v.

Record node_ok (L : list Vote) (a : Address) (n : node) : Prop := {
  no_honest : a ∈ honest;
  no_addr : e_address (n_eng n) = a;
  no_inv : eng_inv (auth L) vals (n_eng n);
  no_log : log_ok a (n_eng n) L;
  no_pend : pend_ok a (n_eng n) L (n_prevs n);
}.

Record world_ok (w : world) : Prop := {
  wo_nodes : ∀ a n, w_nodes w !! a = Some n → node_ok (w_votes w) a n;
  wo_casters : ∀ v, v ∈ w_votes w → is_Some (w_nodes w !! v_Validator v);
  wo_votes : ∀ v, v ∈ w_votes w → VerifyVote v = Ok tt ∧ prevote_backed v ∧ precommit_backed (w_votes w) v;
  wo_commits : ∀ a ev, (a, ev) ∈ w_commits w → certificate (auth (w_votes w)) vals ev;
}.

(** ** Monotonicity in the log *)
Lemma auth_mono L1 L2 v : L1 ⊆ L2 → auth L1 v → auth L2 v.
Proof. intros HL [Hv Hh]. split; [done|]. intros Hin. destruct (Hh Hin) as (w & Hw & ?). eauto. Qed.

Lemma precommit_backed_mono L1 L2 v : L1 ⊆ L2 → precommit_backed L1 v → precommit_backed L2 v.
Proof.
  intros HL Hb Ht Hz. destruct (Hb Ht Hz) as (Q & Hq & HQ). exists Q. split; [done|].
  intros a Ha. destruct (HQ a Ha) as (w & Hw & Hrest). exists w. split; [by eapply auth_mono|done].
Qed.

Lemma advances_vote_past e e' v :
  advances e e' → vote_past e v → vote_past e' v.
Proof. unfold advances, vote_past, slot_lt. lia. Qed.

Lemma log_ok_advances a e e' L : advances e e' → log_ok a e L → log_ok a e' L.
Proof. intros Hadv [H1 H2]. split; [|done]. intros v Hv Ha. eapply advances_vote_past; eauto. Qed.

Lemma snap_ok_advances a e e' L s : advances e e' → snap_ok a e L s → snap_ok a e' L s.
Proof.
  intros Hadv (H1 & H2). split; [|done]. clear H2. unfold advances, slot_lt in *. lia.
Qed.

Lemma pend_ok_advances a e e' L ps : advances e e' → pend_ok a e L ps → pend_ok a e' L ps.
Proof.
  intros Hadv [H1 H2]. split; [|done]. eapply Forall_impl; [exact H1|].
  intros s. by apply snap_ok_advances.
Qed.

(** Votes of other validators do not matter. *)
Lemma log_ok_other a e L v : v_Validator v ≠ a → log_ok a e L → log_ok a e (v :: L).
Proof.
  intros Hne [H1 H2]. split.
  - intros w [->|Hw]%elem_of_cons Ha; [done|by apply H1].
  - intros w1 w2 [->|Hw1]%elem_of_cons [->|Hw2]%elem_of_cons Ha1 Ha2; [done..|by apply H2].
Qed.

Lemma pend_ok_other a e L ps v : v_Validator v ≠ a → pend_ok a e L ps → pend_ok a e (v :: L) ps.
Proof.
  intros Hne [H1 H2]. split; [|done]. eapply Forall_impl; [exact H1|].
  intros s (Hs1 & Hs2 & Hs3). split; [done|]. split; [|done].
  intros w [->|Hw]%elem_of_cons Ha; [done|by apply Hs2].
Qed.

(** Casting the precommit of the slot. *)
Lemma log_ok_precommit a e L v :
  v_Type v = VotePrecommit → v_Height v = e_height e → v_Round v = e_round e →
  e_step e = StepPrevote → log_ok a e L → log_ok a (set_step e StepPrecommit) (v :: L).
Proof.
  intros Ht Hh Hr Hst [H1 H2].
  assert (∀ w, w ∈ L → v_Validator w = a → v_Type v = v_Type w → v_Height v = v_Height w →
    v_Round v = v_Round w → False) as Hnew.
  { intros w Hw Ha Htw Hhw Hrw. destruct (H1 w Hw Ha) as [Hlt|(_ & _ & _ & Hpc)].
    - unfold slot_lt in Hlt. lia.
    - rewrite Hst in Hpc. cbn in Hpc. rewrite <-Htw in Hpc. specialize (Hpc Ht). lia. }
  split.
  - intros w [->|Hw]%elem_of_cons Ha.
    + right. cbn. split_and!; [done|done|lia|lia].
    + apply (advances_vote_past e); [|by apply H1].
      split; [done|]. right. cbn. rewrite Hst. cbn. lia.
  - intros w1 w2 [->|Hw1]%elem_of_cons [->|Hw2]%elem_of_cons Ha1 Ha2 Htt Hhh Hrr; [done| | |by apply H2].
    + by destruct (Hnew w2).
    + by destruct (Hnew w1).
Qed.

Lemma pend_ok_precommit a e L ps v :
  v_Type v = VotePrecommit → pend_ok a e L ps → pend_ok a e (v :: L) ps.
Proof.
  intros Ht [H1 H2]. split; [|done]. eapply Forall_impl; [exact H1|].
  intros s (Hs1 & Hs2 & Hs3). split; [done|]. split; [|done].
  intros w [->|Hw]%elem_of_cons Ha Htw; [|by apply Hs2].
  rewrite Ht in Htw. discriminate.
Qed.

(** Casting the prevote of a slot whose snapshot is then consumed. *)
Lemma log_ok_prevote a e L v s ps1 ps2 :
  v_Type v = VotePrevote → v_Height v = ps_height s → v_Round v = ps_round s →
  ps_height s = e_height e → ps_round s = e_round e → e_step e = StepPrevote →
  log_ok a e L → pend_ok a e L (ps1 ++ s :: ps2) →
  log_ok a e (v :: L) ∧ pend_ok a e (v :: L) (ps1 ++ ps2).
Proof.
  intros Ht Hh Hr Hsh Hsr Hst [H1 H2] [HF Hnd].
  rewrite Forall_app, Forall_cons in HF. destruct HF as (HF1 & (_ & Hs & _) & HF2).
  rewrite map_app in Hnd. cbn in Hnd.
  rewrite <-Permutation_middle in Hnd. apply NoDup_cons in Hnd as [Hn Hnd]. split; [split|split].
  - intros w [->|Hw]%elem_of_cons Ha; [|by apply H1].
    right. rewrite Hst. cbn. split_and!; [lia|lia|lia|]. rewrite Ht. discriminate.
  - intros w1 w2 [->|Hw1]%elem_of_cons [->|Hw2]%elem_of_cons Ha1 Ha2 Htt Hhh Hrr; [done| | |by apply H2].
    + destruct (Hs w2 Hw2 Ha2); [congruence|split; congruence].
    + destruct (Hs w1 Hw1 Ha1); [congruence|split; congruence].
  - assert (Forall (snap_ok a e L) (ps1 ++ ps2)) as HF by (by apply Forall_app).
    apply Forall_forall. intros t Htin. rewrite Forall_forall in HF.
    destruct (HF t Htin) as (Ha1 & Ha2 & Ha3). split; [done|]. split; [|done].
    intros w [->|Hw]%elem_of_cons Ha Htw; [|by apply Ha2].
    rewrite Hh, Hr. intros [E1 E2]. apply Hn. rewrite <-map_app. apply list_elem_of_fmap.
    exists t. unfold snap_slot. split; [congruence|done].
  - by rewrite map_app.
Qed.

(** Entering the prevote step creates the slot's only snapshot. *)
Lemma pend_ok_begin a e e' L ps s :
  e_address e' = e_address e →
  e_height e' = e_height e → e_round e' = e_round e → e_step e' = StepPrevote →
  step_rank (e_step e) < 2 → ps_height s = e_height e → ps_round s = e_round e →
  ps_lockedRound s = -1 → votes (ps_box s) = [] → commit (ps_box s) = None →
  (∀ p, ps_prop s = Some p → proposal_ok p) →
  log_ok a e L → pend_ok a e L ps → pend_ok a e' L (s :: ps).
Proof.
  intros Hae Hh Hr Hst Hlt Hsh Hsr Hl Hv Hc Hp [H1 _] Hpend.
  assert (advances e e') as Hadv by (split; [done|]; right; rewrite Hst; cbn; lia).
  pose proof (pend_ok_advances _ _ _ _ _ Hadv Hpend) as [HF Hnd]. split.
  - constructor; [|done]. split_and!; try done.
    + right. rewrite Hst. cbn. lia.
    + intros v Hin Ha Htv [E1 E2]. destruct (H1 v Hin Ha) as [Hs|(_ & _ & Hs & _)].
      * unfold slot_lt in Hs. lia.
      * specialize (Hs Htv). lia.
  - cbn. apply NoDup_cons. split; [|done]. intros (t & Heq & Ht)%list_elem_of_fmap.
    destruct Hpend as [HF0 _]. rewrite Forall_forall in HF0.
    destruct (HF0 t Ht) as ([Hs|Hs] & _); unfold snap_slot, slot_lt in *; inv Heq; lia.
Qed.

(** ** Every step of a validator preserves the invariant *)
Definition own_ok (L : list Vote) (a : Address) (v : Vote) : Prop :=
  v_Validator v = a ∧ VerifyVote v = Ok tt ∧ prevote_backed v ∧ precommit_backed L v.

Definition step_good (L : list Vote) (a : Address) (new : list Vote) (c : option CommitEvent) (n' : node)
    : Prop :=
  node_ok (reverse new ++ L) a n' ∧
  (∀ v, v ∈ new → own_ok (reverse new ++ L) a v) ∧
  (∀ ev, c = Some ev → certificate (auth (reverse new ++ L)) vals ev).

Lemma node_ok_advances L a e ss ps ss' e' :
  node_ok L a (mkNode e ss ps) → eng_inv (auth L) vals e' → advances e e' →
  node_ok L a (mkNode e' ss' ps).
Proof.
  intros [H1 H2 H3 H4 H5] He Hadv. cbn in *. split; cbn; [done| |done| |].
  - destruct Hadv. congruence.
  - by eapply log_ok_advances.
  - by eapply pend_ok_advances.
Qed.

Lemma step_good_quiet L a n' c :
  node_ok L a n' → (∀ ev, c = Some ev → certificate (auth L) vals ev) → step_good L a [] c n'.
Proof. intros Hn Hc. split_and!; [done| |done]. intros v Hv. by apply elem_of_nil in Hv. Qed.

Lemma auth_own L v : VerifyVote v = Ok tt → auth (v :: L) v.
Proof. intros Hv. split; [done|]. intros _. exists v. split; [by left|done]. Qed.

Lemma auth_cons L v w : auth L w → auth (v :: L) w.
Proof. apply auth_mono. intros x Hx. by right. Qed.

Lemma polka_backed L e h v :
  eng_inv (auth L) vals e → HasQuorum (powerFor (e_prevotes e) h) (totalPower vals) = true →
  v_Height v = e_height e → v_Round v = e_round e → v_BlockHash v = h → precommit_backed L v.
Proof.
  intros He Hq Hh Hr Hb _ _. destruct (ei_prevotes _ _ _ He) as [Hok Ht Hvh Hvr].
  exists (voters (e_prevotes e) h). rewrite (vo_power _ _ _ Hok) in Hq. split; [done|].
  intros b (w & Hw & Hwh)%elem_of_voters. destruct (vo_slot _ _ _ Hok _ _ Hw) as (? & ? & ? & ? & ?).
  exists w. split_and!; congruence.
Qed.

Context {Laws : CryptoLaws C} (Hwf : vs_wf vals).

Lemma try_good L a o e ss ps box e' box' r :
  node_ok L a (mkNode e ss ps) → order_ok o → below_wrap e → commit box = None →
  tryAfterPrevoteLocked o e box = (e', box', r) →
  ∃ new, votes box' = votes box ++ new ∧ step_good L a new (commit box') (mkNode e' ss ps).
Proof using Laws Hwf.
  intros Hn Ho Hb Hc H. destruct Hn as [Hho Ha He Hlog Hpend] eqn:Hn'. clear Hn'. cbn in *.
  eapply tryAfterPrevote_inv in H as [[-> ->]|(Hst & h & v & Hq & Hs & Hver & Hcast)]; [| |done..].
  { exists []. rewrite app_nil_r. split; [done|]. apply step_good_quiet; [done|congruence]. }
  apply SignVote_inv in Hs as (Ht & Hh & Hr & Hbh & Hval). cbn in Ht, Hh, Hr, Hbh.
  rewrite <-(ei_addr _ _ _ He), Ha in Hval.
  destruct (Hcast (auth (v :: L))) as (He' & Hadv & Hvotes & _ & Hcom);
    [intros; by apply auth_cons|by apply auth_own|].
  exists [v]. split; [done|]. change (reverse [v] ++ L) with (v :: L). split_and!.
  - assert (node_ok (v :: L) a (mkNode (set_step e StepPrecommit) ss ps)) as Hmid.
    { split; cbn; [done|done| | |].
      - destruct (eng_inv_mono _ _ _ _ (λ w, auth_cons L v w) He). split; done.
      - by apply log_ok_precommit.
      - apply (pend_ok_advances _ e); [split; [done|]; right; cbn; rewrite Hst; cbn; lia|].
        by apply pend_ok_precommit. }
    by eapply node_ok_advances.
  - intros w ->%list_elem_of_singleton. split_and!; [done|done| |].
    + intros Hpv. rewrite Ht in Hpv. discriminate.
    + apply (precommit_backed_mono L); [intros x Hx; by right|]. by eapply polka_backed.
  - intros ev Hev. destruct Hcom as [Hcom|(ev' & Hcom & Hcert & _)].
    + cbn in Hcom. congruence.
    + rewrite Hcom in Hev. by inv Hev.
Qed.

Lemma StartRound_finish_done e s built e' box r :
  StartRound_finish e s built = Done e' box r → e' = e ∧ box = empty_box.
Proof.
  unfold StartRound_finish, enterPrevote_begin. intros H.
  destruct (if ss_isProposer s then built else Ok None) as [[b|]|]; [| |inv H; by split].
  - destruct (_ || _) eqn:Hst; [inv H; by split|]. apply orb_false_iff in Hst as [_ Hst].
    destruct (negb (ss_isProposer s)); [inv H; by split|]. destruct (SignProposal _ _); [|inv H; by split].
    cbn in H. rewrite Hst in H. done.
  - destruct (_ || _); [inv H; by split|]. destruct (negb _); inv H; by split.
Qed.

Lemma StartRound_finish_wait e s built e' w :
  StartRound_finish e s built = Wait e' w →
  ∃ p, proposal_ok p ∧ e' = set_step (set_proposal e (Some p)) StepPrevote ∧ e_step e = StepPropose ∧
       w = mkPrevoteSnap (e_height e) (e_round e) (e_parent e) (Some p) (e_lockedRound e)
             (e_lockedHash e) (outbox_proposal empty_box p).
Proof.
  unfold StartRound_finish, enterPrevote_begin. intros H.
  destruct (if ss_isProposer s then built else Ok None) as [[b|]|]; [| |by inv H].
  - destruct (_ || _) eqn:Hst; [by inv H|]. apply orb_false_iff in Hst as [_ Hst].
    apply negb_false_iff, bool_decide_eq_true in Hst.
    destruct (negb (ss_isProposer s)); [by inv H|]. destruct (SignProposal _ _) as [p|] eqn:Hp; [|by inv H].
    exists p. cbn in H. rewrite Hst in H. cbn in H. inv H. split_and!; [|done..].
    unfold SignProposal in Hp. destruct (Sign _ _); [|done]. inv Hp. intros b' Hb. cbn in *. by inv Hb.
  - destruct (_ || _); [by inv H|]. by destruct (negb _); inv H.
Qed.

Lemma HandleProposal_begin_cases e p :
  (∃ r, HandleProposal_begin e p = Done e empty_box r) ∨
  (proposal_ok p ∧ HandleProposal_begin e p = enterPrevote_begin (set_proposal e (Some p)) empty_box).
Proof.
  unfold HandleProposal_begin. destruct (VerifyProposal p) as [[]|]; [|by eauto].
  destruct (match p_Block p with Some _ => _ | None => _ end) eqn:Hb; [by eauto|].
  destruct (_ || _); [by eauto|]. destruct (e_proposal e); [by eauto|].
  destruct (negb _); [by eauto|]. right. split; [|done].
  intros b Hpb. rewrite Hpb in Hb. by zbool.
Qed.

Lemma eng_inv_set_proposal A e p :
  eng_inv A vals e → proposal_ok p → eng_inv A vals (set_proposal e (Some p)).
Proof. intros [] Hp. split; try done. cbn. intros q Hq. by inv Hq. Qed.

(** Entering the prevote step, from either caller. *)
Lemma begin_good L a e ss ss' ps p box e' w :
  node_ok L a (mkNode e ss ps) → proposal_ok p → votes box = [] → commit box = None →
  step_rank (e_step e) < 2 → e' = set_step (set_proposal e (Some p)) StepPrevote →
  w = mkPrevoteSnap (e_height e) (e_round e) (e_parent e) (Some p) (e_lockedRound e) (e_lockedHash e) box →
  step_good L a [] None (mkNode e' ss' (w :: ps)).
Proof.
  intros [H1 H2 H3 H4 H5] Hp Hv Hc Hlt -> ->. cbn in *. apply step_good_quiet; [|done].
  destruct (ei_lock _ _ _ H3) as [Hl Hlh]; [intros Heq; rewrite Heq in Hlt; cbn in Hlt; lia|].
  split; cbn; [done|done| | |].
  - destruct (eng_inv_set_proposal _ _ _ H3 Hp). by split.
  - apply (log_ok_advances _ e); [|done]. split; [done|]. right. cbn. lia.
  - eapply (pend_ok_begin a e); try done. cbn. intros q Hq. by inv Hq.
Qed.

Lemma HandleVote_cases A o e v e' box r :
  eng_inv A vals e → A v → order_ok o → below_wrap e → HandleVote o e v = (e', box, r) →
  (eng_inv A vals e' ∧ advances e e' ∧ box_commit A vals e empty_box box) ∨
  (∃ e1, eng_inv A vals e1 ∧ advances e e1 ∧ below_wrap e1 ∧
         tryAfterPrevoteLocked o e1 empty_box = (e', box, r)).
Proof using Hwf.
  intros He HA Ho Hb H. unfold HandleVote in H.
  assert (eng_inv A vals e ∧ advances e e ∧ box_commit A vals e empty_box empty_box) as Hsame.
  { split_and!; [done|apply advances_refl|]. split_and!; [done|done|by left]. }
  destruct (negb _); [inv H; by left|]. destruct (VerifyVote v) as [[]|]; [|inv H; by left].
  destruct (Get _ _); [|inv H; by left].
  destruct (v_Type v =? VotePrevote); [|destruct (v_Type v =? VotePrecommit); [|inv H; by left]];
    (destruct (negb _); [inv H; by left|]).
  - pose proof (addPrevote_inv A vals Hwf e v He HA) as Hi. pose proof (addPrevote_slot e v) as Hs.
    destruct (addPrevoteLocked e v) as [e1 ok]. cbn in Hi, Hs. destruct Hs as (Hh & Hr & Hst & Had).
    assert (advances e e1) as Hadv by (split; [done|]; right; rewrite Hst; lia).
    destruct ok; cbn in H; [right|inv H; left; split_and!; [done|done|apply Hsame..]].
    exists e1. split_and!; [done|done| |done]. unfold below_wrap. by rewrite Hh, Hr.
  - pose proof (addPrecommit_inv A vals Hwf e v He HA) as Hi. pose proof (addPrecommit_slot e v) as Hs.
    destruct (addPrecommitLocked e v) as [e1 ok]. cbn in Hi, Hs. destruct Hs as (Hh & Hr & Hst & Had).
    assert (advances e e1) as Hadv by (split; [done|]; right; rewrite Hst; lia).
    left. destruct ok; cbn in H; [|inv H; split_and!; [done|done|apply Hsame..]].
    apply (tryAfterPrecommit_inv A vals) in H as (He' & Hadv' & Hbox); [|done|done|].
    + split_and!; [done|by eapply advances_trans|]. unfold box_commit in *. by rewrite Hh, Hr in Hbox.
    + unfold below_wrap in *. by rewrite Hh, Hr.
Qed.

Lemma ApplySyncedBlock_inv A e b e' r :
  eng_inv A vals e → below_wrap e → ApplySyncedBlock e b = (e', r) →
  eng_inv A vals e' ∧ advances e e'.
Proof.
  intros He Hb H. unfold ApplySyncedBlock in H.
  destruct (_ <? _); [inv H; auto using advances_refl|].
  destruct (Z.eqb_spec (e_height e) (Number (header b))) as [Hn|]; cbn in H;
    [|inv H; auto using advances_refl].
  destruct (_ =? _); cbn in H; [|inv H; auto using advances_refl].
  injection H as <- <-. destruct (ei_slot _ _ _ He) as [Hu _], Hb as [Hh _]. unfold is_u64 in Hu. split.
  - destruct He. split; cbn; try done.
    + split; [apply u64_range|]. unfold is_u64. lia.
    + split; [|done..]. apply voteset_ok_new.
    + split; [|done..]. apply voteset_ok_new.
  - split; [done|]. left. left. cbn. rewrite u64_id by (unfold is_u64; lia). lia.
Qed.

Lemma pend_ok_remove a e L ps1 s ps2 : pend_ok a e L (ps1 ++ s :: ps2) → pend_ok a e L (ps1 ++ ps2).
Proof.
  intros [HF Hnd]. rewrite Forall_app, Forall_cons in HF. destruct HF as (HF1 & _ & HF2).
  split; [by apply Forall_app|]. rewrite map_app in *. cbn in Hnd.
  rewrite <-Permutation_middle in Hnd. by apply NoDup_cons in Hnd as [_ Hnd].
Qed.

(** The prevoted hash never comes from the lock. *)
Lemma prevote_hash_backed a e L s valid v :
  snap_ok a e L s → (∀ b, valid b = Ok tt → okb a (ps_height s) (ps_parent s) b) →
  v_Validator v = a → v_Height v = ps_height s → v_BlockHash v = prevote_hash s valid →
  prevote_backed v.
Proof.
  intros (_ & _ & Hl & _ & _ & Hprop) Hvalid Ha Hh Hb _ Hz. rewrite Hb in Hz |- *. clear Hb.
  unfold prevote_hash in *. rewrite Hl in *. cbn in *.
  destruct (ps_prop s) as [p|]; [|done]. destruct (p_Block p) as [b|] eqn:Hpb; [|done].
  destruct (valid b) as [[]|] eqn:Hvb; cbn in *; [|done].
  exists (ps_parent s), b. rewrite Ha, Hh. split; [by apply Hprop|by apply Hvalid].
Qed.

Lemma prevote_good L a e ss ps1 s ps2 o valid e' box r :
  node_ok L a (mkNode e ss (ps1 ++ s :: ps2)) → order_ok o → below_wrap e →
  (∀ b, valid b = Ok tt → okb a (ps_height s) (ps_parent s) b) →
  enterPrevote_finish o e s valid = (e', box, r) →
  step_good L a (votes box) (commit box) (mkNode e' ss (ps1 ++ ps2)).
Proof using Laws Hwf.
  intros [Hho Ha He Hlog Hpend] Ho Hb Hvalid H. cbn in *.
  assert (snap_ok a e L s) as Hs.
  { destruct Hpend as [HF _]. by rewrite Forall_app, Forall_cons in HF; destruct HF as (_ & ? & _). }
  pose proof Hs as (_ & _ & _ & Hnv & Hnc & _). unfold enterPrevote_finish in H.
  destruct (SignVote_total (mkVote VotePrevote (ps_height s) (ps_round s) (prevote_hash s valid)
    (e_address e) []) (e_key e)) as (v & Hv & Hver); [by left|].
  rewrite Hv in H. apply SignVote_inv in Hv as (Ht & Hh & Hr & Hbh & Hval). cbn in Ht, Hh, Hr, Hbh.
  rewrite <-(ei_addr _ _ _ He), Ha in Hval.
  destruct (_ || _) eqn:Hst.
  { injection H as <- <- <-. rewrite Hnv, Hnc. apply step_good_quiet; [|done].
    split; cbn; try done. by eapply pend_ok_remove. }
  zbool. destruct (addPrevote_slot e v) as (Hh1 & Hr1 & Hs1 & Ha1).
  assert (advances e (addPrevoteLocked e v).1) as Hadv by (split; [done|]; right; rewrite Hs1; lia).
  assert (node_ok (v :: L) a (mkNode (addPrevoteLocked e v).1 ss (ps1 ++ ps2))) as Hn1.
  { destruct (log_ok_prevote a e L v s ps1 ps2) as [Hl Hp]; [done..|].
    apply (node_ok_advances _ _ e ss _ ss); [| |done].
    - split; cbn; try done. eapply eng_inv_mono; [|exact He]. intros w. apply auth_cons.
    - apply addPrevote_inv; [done| |by apply auth_own].
      eapply eng_inv_mono; [|exact He]. intros w. apply auth_cons. }
  destruct (try_good (v :: L) a o _ ss _ (outbox_vote (ps_box s) v) e' box r Hn1 Ho)
    as (new & Hnew & Hg1 & Hg2 & Hg3); [unfold below_wrap; by rewrite Hh1, Hr1|done|exact H|].
  cbn in Hnew. rewrite Hnv in Hnew. cbn in Hnew. rewrite Hnew. unfold step_good.
  rewrite reverse_cons, <-app_assoc. cbn. split_and!; [done| |done].
  intros w [->|Hw]%elem_of_cons; [|by apply Hg2]. split_and!; [done|done| |].
  - by eapply prevote_hash_backed.
  - intros Hpc. rewrite Ht in Hpc. discriminate.
Qed.

Lemma vote_good L a e ss ps o v e' box r :
  node_ok L a (mkNode e ss ps) → order_ok o → below_wrap e → auth L v →
  HandleVote o e v = (e', box, r) → step_good L a (votes box) (commit box) (mkNode e' ss ps).
Proof using Laws Hwf.
  intros Hn Ho Hb HA H. pose proof (no_inv _ _ _ Hn) as He. cbn in He.
  apply (HandleVote_cases (auth L)) in H as [(He' & Hadv & Hv & _ & Hc)|(e1 & He1 & Hadv & Hb1 & H)];
    [| |done..].
  - rewrite Hv. apply step_good_quiet; [by eapply node_ok_advances|].
    intros ev Hev. destruct Hc as [Hc|(ev' & Hc & Hct & _)]; rewrite Hc in Hev; by inv Hev.
  - pose proof (node_ok_advances _ _ _ _ _ ss _ Hn He1 Hadv) as Hn1.
    destruct (try_good _ _ _ _ _ _ empty_box _ _ _ Hn1 Ho Hb1 eq_refl H) as (new & Hnew & Hg).
    cbn in Hnew. by rewrite Hnew.
Qed.

Lemma node_step_good L a n box n' :
  node_ok L a n → node_step (auth L) (okb a) n box n' → step_good L a (votes box) (commit box) n'.
Proof using Laws Hwf.
  intros Hn Hs. pose proof (no_inv _ _ _ Hn) as He.
  destruct Hs as [e ss ps e' s Hb H|e ss1 s ss2 ps built e' box r Hb H|e ss1 s ss2 ps built e' w Hb H
    |e ss ps p e' box r Hb H|e ss ps p e' w Hb H|e ss ps1 s ps2 o valid e' box r Hb Ho Hval H
    |e ss ps o v e' box r Hb Ho HA H|e ss ps Hb|e ss ps b e' r Hb H]; cbn in He.
  - unfold StartRound_begin in H. case_bool_decide as Hst; [cbn in H|done]. injection H as <- <-.
    apply step_good_quiet; [|done]. destruct (ei_slot _ _ _ He).
    destruct (ei_lock _ _ _ He) as [Hl1 Hl2]; [by rewrite Hst|].
    eapply node_ok_advances; [done| |].
    + destruct He. by apply eng_inv_fresh.
    + split; [done|]. right. cbn. rewrite Hst. cbn. lia.
  - apply StartRound_finish_done in H as [-> ->]. apply step_good_quiet; [|done].
    eapply node_ok_advances; [done|done|apply advances_refl].
  - apply StartRound_finish_wait in H as (p & Hp & -> & Hst & ->).
    eapply (begin_good L a e _ _ _ p (outbox_proposal empty_box p));
      [exact Hn|exact Hp|done|done|by rewrite Hst|done|done].
  - destruct (HandleProposal_begin_cases e p) as [[r' Hr]|[Hp Hr]]; rewrite Hr in H.
    + injection H as <- <- <-. by apply step_good_quiet.
    + unfold enterPrevote_begin in H. destruct (_ && _); [|done]. injection H as <- <- <-.
      apply step_good_quiet; [|done].
      eapply node_ok_advances; [done|by apply eng_inv_set_proposal|]. split; [done|]. right. cbn. lia.
  - destruct (HandleProposal_begin_cases e p) as [[r' Hr]|[Hp Hr]]; rewrite Hr in H; [done|].
    unfold enterPrevote_begin in H. destruct (_ && _) eqn:Hst; [done|]. injection H as <- <-.
    eapply (begin_good L a e _ _ _ p empty_box); [exact Hn|exact Hp|done|done| |done|done].
    cbn in Hst. apply andb_false_iff in Hst as [Hst|Hst]; zbool; by rewrite Hst.
  - by eapply prevote_good.
  - by eapply vote_good.
  - apply step_good_quiet; [|done]. destruct (enterNextRound_inv _ _ e He Hb).
    by eapply node_ok_advances.
  - apply step_good_quiet; [|done]. destruct (ApplySyncedBlock_inv _ _ _ _ _ He Hb H).
    by eapply node_ok_advances.
Qed.

(** ** The reachable worlds *)
Lemma node_ok_others L a n new :
  (∀ v, v ∈ new → v_Validator v ≠ a) → node_ok L a n → node_ok (reverse new ++ L) a n.
Proof.
  revert L. induction new as [|v new IH] using rev_ind; intros L Hne Hn; [done|].
  rewrite reverse_snoc. cbn.
  assert (v_Validator v ≠ a) as Hv by (apply Hne; rewrite elem_of_app; right; by left).
  destruct (IH L) as [H1 H2 H3 H4 H5]; [intros w Hw; apply Hne; rewrite elem_of_app; by left|done|].
  split; [done|done| |by apply log_ok_other|by apply pend_ok_other].
  eapply eng_inv_mono; [|exact H3]. intros w. apply auth_cons.
Qed.

Lemma world_init_ok w : world_init w → world_ok w.
Proof.
  intros (Hv & Hc & Hn). split; rewrite ?Hv, ?Hc.
  - intros a n Ha. destruct (Hn a n Ha) as (Hh & _ & Hp & cfg & Hcfg & He & Had). split; try done.
    + by eapply NewEngine_inv.
    + split; intros; by match goal with H : _ ∈ [] |- _ => apply elem_of_nil in H end.
    + rewrite Hp. split; constructor.
  - intros v Hin. by apply elem_of_nil in Hin.
  - intros v Hin. by apply elem_of_nil in Hin.
  - intros a ev Hin. by apply elem_of_nil in Hin.
Qed.

Lemma world_step_ok w w' : world_ok w → world_step w w' → world_ok w'.
Proof using Laws Hwf.
  intros [Hn Hcast Hv Hc] Hs. destruct Hs as [w a n n' box Ha Hs].
  destruct (node_step_good _ _ _ _ _ (Hn a n Ha) Hs) as (Hn' & Hown & Hcert).
  assert (w_votes w ⊆ reverse (votes box) ++ w_votes w) as Hsub
    by (intros x Hx; rewrite elem_of_app; by right).
  split; cbn.
  - intros b m [[<- <-]|[Hne Hb]]%lookup_insert_Some; [done|].
    apply node_ok_others; [|by apply Hn]. intros v Hin. destruct (Hown v Hin). congruence.
  - intros v [Hin|Hin]%elem_of_app.
    + rewrite elem_of_reverse in Hin. destruct (Hown v Hin) as [-> _].
      rewrite lookup_insert_eq. by eexists.
    + destruct (decide (v_Validator v = a)) as [->|]; [rewrite lookup_insert_eq; by eexists|].
      rewrite lookup_insert_ne by done. by apply Hcast.
  - intros v [Hin|Hin]%elem_of_app.
    + rewrite elem_of_reverse in Hin. by destruct (Hown v Hin) as (_ & ? & ? & ?).
    + destruct (Hv v Hin) as (? & ? & ?). split_and!; [done|done|by eapply precommit_backed_mono].
  - intros b ev [Hin|Hin]%elem_of_app.
    + unfold commit_of in Hin. destruct (commit box) as [ev'|]; [|by apply elem_of_nil in Hin].
      apply list_elem_of_singleton in Hin. inv Hin. by apply Hcert.
    + eapply certificate_mono; [|by eapply Hc]. intros v. by apply auth_mono.
Qed.

Lemma reachable_ok w : reachable w → world_ok w.
Proof using Laws Hwf.
  intros (w0 & Hi & Hs). apply world_init_ok in Hi.
  induction Hs as [|w1 w2 w3 H12 _ IH]; [done|]. apply IH. by eapply world_step_ok.
Qed.

(** C16. An honest validator never equivocates, whatever is delivered to it and
    however its calls interleave (two round starts, a proposal and a timeout
    may overlap): below the [uint64] wrap of height and round, all its votes of
    one type, height and round name one block hash. *)
Theorem honest_never_equivocates w v1 v2 :
  reachable w → v1 ∈ w_votes w → v2 ∈ w_votes w →
  v_Validator v1 = v_Validator v2 → ¬ conflicting v1 v2.
Proof using Laws Hwf.
  intros Hr H1 H2 Hval (Ht & Hh & Hrd & _ & Hne). apply reachable_ok in Hr.
  destruct (wo_casters _ Hr v1 H1) as [n Hn]. destruct (no_log _ _ _ (wo_nodes _ Hr _ _ Hn)) as [_ Hl].
  apply Hne, Hl; congruence.
Qed.

(** ** Accountability and agreement *)
Lemma certificate_members A ev a :
  certificate A vals ev → a ∈ (list_to_set (map v_Validator (ce_Precommits ev)) : gset Address) →
  ∃ v, v ∈ ce_Precommits ev ∧ v_Validator v = a ∧ A v ∧ v_Type v = VotePrecommit ∧
       v_Height v = ce_Height ev ∧ v_Round v = ce_Round ev ∧ v_BlockHash v = ce_BlockHash ev.
Proof.
  intros Hc. rewrite elem_of_list_to_set, list_elem_of_fmap. intros (v & -> & Hv).
  destruct (ct_votes _ _ _ Hc v Hv) as (? & ? & ? & ? & ?). exists v. by split_and!.
Qed.

(** C2. Accountable safety: for one fixed validator set with three times the
    total power below 2^64, if two commits anywhere in the network name
    different blocks for one height and round, then the precommits carried by
    the two commit events contain valid double-sign evidence against
    validators holding more than a third of the total power. *)
Theorem conflicting_commits_accountable w a1 ev1 a2 ev2 :
  power_bound vals → reachable w → (a1, ev1) ∈ w_commits w → (a2, ev2) ∈ w_commits w →
  ce_Height ev1 = ce_Height ev2 → ce_Round ev1 = ce_Round ev2 → ce_BlockHash ev1 ≠ ce_BlockHash ev2 →
  ∃ S : gset Address, totalPower vals < 3 * set_power vals S ∧
    ∀ a, a ∈ S → ∃ v1 v2, v1 ∈ ce_Precommits ev1 ∧ v2 ∈ ce_Precommits ev2 ∧
      v_Validator v1 = a ∧ VerifyDoubleSign v1 v2 = Ok tt.
Proof using Laws Hwf.
  intros Hbound Hr H1 H2 Hh Hrd Hne. apply reachable_ok in Hr.
  pose proof (wo_commits _ Hr _ _ H1) as C1. pose proof (wo_commits _ Hr _ _ H2) as C2.
  eexists. split; [apply (quorum_intersection_power _ Hwf _ _ Hbound (ct_quorum _ _ _ C1) (ct_quorum _ _ _ C2))|].
  intros a [Ha1 Ha2]%elem_of_intersection.
  destruct (certificate_members _ _ _ C1 Ha1) as (v1 & Hv1 & Hval1 & [Hok1 _] & ? & ? & ? & ?).
  destruct (certificate_members _ _ _ C2 Ha2) as (v2 & Hv2 & Hval2 & [Hok2 _] & ? & ? & ? & ?).
  exists v1, v2. split_and!; [done|done|done|]. apply VerifyDoubleSign_ok.
  split_and!; [done|done|]. split_and!; congruence.
Qed.

Lemma third_meets_quorum X H :
  totalPower vals < 3 * set_power vals X → 2 * totalPower vals < 3 * set_power vals H → ∃ a, a ∈ X ∧ a ∈ H.
Proof using Hwf.
  intros HX HH.
  pose proof (set_power_union_inter vals X H). pose proof (set_power_le_total vals Hwf (X ∪ H)).
  destruct (set_power_lt_witness vals Hwf (X ∩ H) ∅) as (a & Ha & _).
  { rewrite set_power_empty. lia. }
  exists a. by apply elem_of_intersection.
Qed.

Lemma quorums_meet_honest Q :
  power_bound vals → HasQuorum (set_power vals Q) (totalPower vals) = true →
  2 * totalPower vals < 3 * set_power vals honest → ∃ a, a ∈ Q ∧ a ∈ honest.
Proof using Hwf.
  intros Hbound HQ Hh. apply third_meets_quorum; [|done]. rewrite HasQuorum_set in HQ by done.
  pose proof (wf_total_pos _ Hwf). lia.
Qed.

(** C1. Agreement within a round: for one fixed validator set with three times
    the total power below 2^64, when the honest validators hold more than two
    thirds of the power, any two commits of one height and round, at any two
    validators, are for the same block hash. *)
Theorem agreement_same_round w a1 ev1 a2 ev2 :
  power_bound vals → reachable w → 2 * totalPower vals < 3 * set_power vals honest →
  (a1, ev1) ∈ w_commits w → (a2, ev2) ∈ w_commits w →
  ce_Height ev1 = ce_Height ev2 → ce_Round ev1 = ce_Round ev2 → ce_BlockHash ev1 = ce_BlockHash ev2.
Proof using Laws Hwf.
  intros Hbound Hr Hq H1 H2 Hh Hrd. apply reachable_ok in Hr.
  pose proof (wo_commits _ Hr _ _ H1) as C1. pose proof (wo_commits _ Hr _ _ H2) as C2.
  pose proof (quorum_intersection_power _ Hwf _ _ Hbound (ct_quorum _ _ _ C1) (ct_quorum _ _ _ C2)) as HX.
  destruct (third_meets_quorum _ _ HX Hq) as (a & [Ha1 Ha2]%elem_of_intersection & Hho).
  destruct (certificate_members _ _ _ C1 Ha1) as (v1 & _ & <- & [_ A1] & ? & ? & ? & <-).
  destruct (certificate_members _ _ _ C2 Ha2) as (v2 & _ & Hval & [_ A2] & ? & ? & ? & <-).
  destruct (A1 Hho) as (w1 & Hw1 & (? & ? & ? & -> & ?)).
  rewrite Hval in A2. destruct (A2 Hho) as (w2 & Hw2 & (? & ? & ? & -> & ?)).
  destruct (wo_casters _ Hr w1 Hw1) as [n Hn]. destruct (no_log _ _ _ (wo_nodes _ Hr _ _ Hn)) as [_ Hl].
  apply Hl; congruence.
Qed.

(** C17. Validity: for one fixed validator set with three times the total power
    below 2^64, when the honest validators hold more than two thirds of the
    power, every committed block hash is the hash of a block that the proposal
    validator of some honest validator accepted at that height. *)
Theorem committed_block_accepted w a ev :
  power_bound vals → reachable w → 2 * totalPower vals < 3 * set_power vals honest →
  (a, ev) ∈ w_commits w →
  ∃ h parent b, h ∈ honest ∧ Block_Hash b = ce_BlockHash ev ∧ okb h (ce_Height ev) parent b.
Proof using Laws Hwf.
  intros Hbound Hr Hq Hin. apply reachable_ok in Hr. pose proof (wo_commits _ Hr _ _ Hin) as Ct.
  destruct (quorums_meet_honest _ Hbound (ct_quorum _ _ _ Ct) Hq) as (p & Hp & Hph).
  destruct (certificate_members _ _ _ Ct Hp) as (v & _ & <- & [_ Hv] & Ht & Hh & Hrd & Hb).
  destruct (Hv Hph) as (w1 & Hw1 & (? & ? & ? & ? & ?)).
  destruct (wo_votes _ Hr w1 Hw1) as (_ & _ & Hpc).
  destruct Hpc as (Q & HQ & HQv); [congruence|pose proof (ct_nonzero _ _ _ Ct); congruence|].
  destruct (quorums_meet_honest Q Hbound HQ Hq) as (q & HqQ & Hqh).
  destruct (HQv q HqQ) as (u & [_ Hu] & <- & ? & ? & ? & ?).
  destruct (Hu Hqh) as (w2 & Hw2 & (? & ? & ? & ? & ?)).
  destruct (wo_votes _ Hr w2 Hw2) as (_ & Hpv & _).
  destruct Hpv as (parent & b & Hbh & Hok); [congruence|pose proof (ct_nonzero _ _ _ Ct); congruence|].
  exists (v_Validator w2), parent, b. split_and!; [congruence|congruence|].
  replace (ce_Height ev) with (v_Height w2) by congruence. done.
Qed.
End World.
