(* ===== verification/Fork.v ===== *)
(** * Rounds are not tied together: a fork with no faulty validator

    An executable scheduler for the worlds of [Agreement.v], sound for their
    step relation, and two runs of four validators of equal power on it: one
    in which all commit one block, and one in which one validator commits in
    round 0 while the rest time out ([Runner.timeoutLoop]) and commit a
    different block in round 1.  The second run is possible because
    [enterNextRoundLocked] clears the lock taken by [enterPrecommitLocked]. *)
From S2P Require Import Prelude Types Toy ValidatorSet Votes Quorum Engine Node Agreement.

(** ** The lock is never in force *)
Section LockDead.
Context `{C : Crypto} {L : CryptoLaws C} (vals : ValidatorSet) (Hwf : vs_wf vals).
Context (honest : gset Address) (okb : Address → Z → Header → Block → Prop).

(** In every reachable state of every validator no prevote can be decided
    by the lock: a prevote in flight was started without a lock, and a
    validator about to enter the prevote step holds none, because the lock is
    only ever held in the precommit step.  (The documentation promises
    Tendermint-style locking across rounds.) *)
Theorem lock_never_decides_prevote w a n :
  reachable vals honest okb w → w_nodes w !! a = Some n →
  (∀ s valid, s ∈ n_prevs n →
     prevote_hash s valid =
       match ps_prop s with
       | Some p => match p_Block p with
                   | Some b => if is_ok (valid b) then p_BlockHash p else 0
                   | None => 0
                   end
       | None => 0
       end) ∧
  (0 <= e_lockedRound (n_eng n) → e_step (n_eng n) = StepPrecommit).
Proof using L Hwf.
  intros Hr Ha. apply reachable_ok in Hr; [|done|done]. pose proof (wo_nodes _ _ _ _ Hr _ _ Ha) as Hn.
  split.
  - intros s valid Hs. destruct (no_pend _ _ _ _ _ Hn) as [HF _]. rewrite Forall_forall in HF.
    destruct (HF s Hs) as (_ & _ & Hl & _). unfold prevote_hash. by rewrite Hl.
  - intros Hl. destruct (decide (e_step (n_eng n) = StepPrecommit)) as [|Hst]; [done|].
    destruct (ei_lock _ _ _ (no_inv _ _ _ _ _ Hn) Hst) as [H _]. lia.
Qed.
End LockDead.

(** ** A scheduler *)
Lemma list_exists_ex (l : list Vote) a t r h :
  existsb (λ v, (v_Validator v =? a) && (v_Type v =? t) && (v_Round v =? r) && (v_BlockHash v =? h)) l = true →
  ∃ v, v ∈ l ∧ v_Validator v = a ∧ v_Type v = t ∧ v_Round v = r ∧ v_BlockHash v = h.
Proof.
  intros (v & Hin & H)%existsb_exists. zbool. exists v. split; [by apply list_elem_of_In|done].
Qed.

Inductive action : Type :=
| AStart (a : Address)                    (** [StartRound] up to the unlock *)
| ABuild (a : Address)                    (** its second half *)
| AProposal (a from : Address)            (** deliver the proposal [from] holds *)
| APrevote (a : Address)                  (** the second half of [enterPrevoteLocked] *)
| AVote (a from : Address) (typ h r : Z)  (** deliver a vote already cast *)
| ATimeout (a : Address)
| AForgeProposal (a : Address) (p : Proposal)  (** deliver any proposal *)
| AForgeVote (a : Address) (v : Vote).         (** deliver a vote of a faulty validator *)

Definition action_node (x : action) : Address :=
  match x with
  | AStart a | ABuild a | AProposal a _ | APrevote a | AVote a _ _ _ _ | ATimeout a
  | AForgeProposal a _ | AForgeVote a _ => a
  end.

Section Scheduler.
Context `{C : Crypto} (vals : ValidatorSet) (honest : gset Address).

Definition accepts (a : Address) (h : Z) (parent : Header) (b : Block) : Prop :=
  DefaultValidator None h parent b = Ok tt.

Definition find_vote (L : list Vote) (from typ h r : Z) : option Vote :=
  find (λ v, (v_Validator v =? from) && (v_Type v =? typ) && (v_Height v =? h) && (v_Round v =? r)) L.

Definition exec_node (w : world) (x : action) (n : node) : option (outbox * node) :=
  let '(mkNode e ss ps) := n in
  match x with
  | AStart _ =>
      match StartRound_begin e with
      | (e', Some s) => Some (empty_box, mkNode e' (s :: ss) ps)
      | _ => None
      end
  | ABuild _ =>
      match ss with
      | s :: ss' =>
          match StartRound_finish e s (e_builder e (ss_height s) (ss_parent s) (e_address e) (ss_root s)) with
          | Done e' box _ => Some (box, mkNode e' ss' ps)
          | Wait e' v => Some (empty_box, mkNode e' ss' (v :: ps))
          end
      | [] => None
      end
  | AProposal _ from =>
      match w_nodes w !! from with
      | Some m =>
          match e_proposal (n_eng m) with
          | Some p =>
              match HandleProposal_begin e p with
              | Done e' box _ => Some (box, mkNode e' ss ps)
              | Wait e' v => Some (empty_box, mkNode e' ss (v :: ps))
              end
          | None => None
          end
      | None => None
      end
  | APrevote _ =>
      match ps with
      | s :: ps' =>
          match enterPrevote_finish list_order e s (DefaultValidator None (ps_height s) (ps_parent s)) with
          | (e', box, _) => Some (box, mkNode e' ss ps')
          end
      | [] => None
      end
  | AVote _ from typ h r =>
      match find_vote (w_votes w) from typ h r with
      | Some v =>
          if is_ok (VerifyVote v) then
            match HandleVote list_order e v with (e', box, _) => Some (box, mkNode e' ss ps) end
          else None
      | None => None
      end
  | ATimeout _ => Some (empty_box, mkNode (ForceTimeoutRound e) ss ps)
  | AForgeProposal _ p =>
      match HandleProposal_begin e p with
      | Done e' box _ => Some (box, mkNode e' ss ps)
      | Wait e' v => Some (empty_box, mkNode e' ss (v :: ps))
      end
  | AForgeVote _ v =>
      if is_ok (VerifyVote v) && bool_decide (v_Validator v ∉ honest) then
        match HandleVote list_order e v with (e', box, _) => Some (box, mkNode e' ss ps) end
      else None
  end.

Definition exec (w : world) (x : action) : option world :=
  match w_nodes w !! action_node x with
  | Some n =>
      if (e_height (n_eng n) <? 2 ^ 64 - 1) && (e_round (n_eng n) <? 2 ^ 64 - 1) then
        match exec_node w x n with
        | Some (box, n') =>
            Some (mkWorld (<[action_node x := n']> (w_nodes w)) (reverse (votes box) ++ w_votes w)
                    (commit_of (action_node x) box ++ w_commits w))
        | None => None
        end
      else None
  | None => None
  end.

Fixpoint run (w : world) (l : list action) : option world :=
  match l with
  | [] => Some w
  | x :: l' => match exec w x with Some w' => run w' l' | None => None end
  end.

Lemma exec_node_sound w x n box n' :
  below_wrap (n_eng n) → exec_node w x n = Some (box, n') →
  node_step (auth honest (w_votes w)) (accepts (action_node x)) n box n'.
Proof.
  destruct n as [e ss ps]. cbn. intros Hb H. destruct x as [a|a|a from|a|a from typ h r|a|a p|a v]; cbn in *.
  - destruct (StartRound_begin e) as [e' [s|]] eqn:He; [|done]. inv H. by constructor.
  - destruct ss as [|s ss]; [done|].
    destruct (StartRound_finish _ _ _) eqn:Hf; inv H.
    + by eapply (NS_start_done _ _ _ []).
    + by eapply (NS_start_wait _ _ _ []).
  - destruct (w_nodes w !! from) as [m|]; [|done]. destruct (e_proposal _) as [p|]; [|done].
    destruct (HandleProposal_begin e p) eqn:Hp; inv H.
    + by eapply NS_proposal_done.
    + by eapply NS_proposal_wait.
  - destruct ps as [|s ps]; [done|]. destruct (enterPrevote_finish _ _ _ _) as [[e' box'] r] eqn:Hf.
    inv H. eapply (NS_prevote _ _ _ _ []); [done|apply list_order_ok| |done]. done.
  - destruct (find_vote _ _ _ _ _) as [v|] eqn:Hv; [|done].
    destruct (VerifyVote v) as [[]|] eqn:Hver; [|done]. cbn in H.
    destruct (HandleVote _ _ _) as [[e' box'] rr] eqn:Hh. inv H.
    eapply NS_vote; [done|apply list_order_ok| |done]. split; [done|]. intros _.
    exists v. split; [|done]. apply find_some in Hv as [Hv _]. by apply list_elem_of_In.
  - inv H. by constructor.
  - destruct (HandleProposal_begin e p) eqn:Hp; inv H.
    + by eapply NS_proposal_done.
    + by eapply NS_proposal_wait.
  - destruct (VerifyVote v) as [[]|] eqn:Hver; [|done]. cbn in H. case_bool_decide as Hf; [|done].
    destruct (HandleVote _ _ _) as [[e' box'] rr] eqn:Hh. inv H.
    eapply NS_vote; [done|apply list_order_ok| |done]. by split.
Qed.

Lemma run_sound w l w' : run w l = Some w' → rtc (world_step honest accepts) w w'.
Proof.
  revert w. induction l as [|x l IH]; intros w H; cbn in H; [inv H; apply rtc_refl|].
  destruct (exec w x) as [w1|] eqn:Hx; [|done]. eapply rtc_l; [|by apply IH].
  unfold exec in Hx. destruct (w_nodes w !! action_node x) as [n|] eqn:Hn; [|done].
  destruct (_ && _) eqn:Hb; [|done]. zbool. destruct (exec_node w x n) as [[box n']|] eqn:He; [|done].
  inv Hx. apply (WS_node _ _ w _ n n'); [done|]. by apply exec_node_sound.
Qed.

(** Fresh engines for a list of keys. *)
Definition fresh_node (cfg : PrivateKey → EngineConfig) (k : PrivateKey) : option (Address * node) :=
  match NewEngine (cfg k) with
  | Ok e => Some (PubkeyToAddress k, mkNode e [] [])
  | Err _ => None
  end.

Definition fresh_world (cfg : PrivateKey → EngineConfig) (ks : list PrivateKey) : world :=
  mkWorld (list_to_map (omap (fresh_node cfg) ks)) [] [].

Lemma fresh_world_init cfg ks :
  (∀ k, cfg_PrivateKey (cfg k) = Some k) → (∀ k, cfg_ValSet (cfg k) = Some vals) →
  world_init vals (list_to_set (map PubkeyToAddress ks)) (fresh_world cfg ks).
Proof using.
  intros Hk Hv. split_and!; [done|done|]. intros a n Ha. cbn in Ha. apply elem_of_list_to_map_2 in Ha.
  apply list_elem_of_omap in Ha as (k & Hin & Hn). unfold fresh_node in Hn.
  destruct (NewEngine (cfg k)) as [e|] eqn:He; [|done]. injection Hn as <- <-. cbn.
  split_and!; [|done|done|].
  - apply elem_of_list_to_set, list_elem_of_fmap. by exists k.
  - exists (cfg k). split_and!; [done|done|]. by eapply NewEngine_address.
Qed.
End Scheduler.

(** ** Four validators of equal power *)
Section Runs.
Local Existing Instances toy_crypto toy_crypto_laws.

(** [MakeGenesisHeader] of [consensus/local.go]. *)
Definition MakeGenesisHeader : Header :=
  mkHeader 0 0 EmptyTxRoot EmptyReceiptRoot 0 1 30000000 0 None (str_bytes "dew-bft-test") 0.

Definition addr_of (k : Z) : Address := PubkeyToAddress k.

Definition four_vals : ValidatorSet :=
  match NewValidatorSet (map (λ k, mkValidator (addr_of k) 1) [1; 2; 3; 4]) with
  | Ok vs => vs
  | Err _ => mkValidatorSet [] 0 ∅
  end.

Definition four_honest : gset Address := list_to_set (map PubkeyToAddress [1; 2; 3; 4]).

Definition four_cfg (k : Z) : EngineConfig :=
  mkEngineConfig (Some k) (Some four_vals) (Some MakeGenesisHeader) None None 0.

Definition four_world : world := fresh_world four_cfg [1; 2; 3; 4].

(** Schedules. *)
Definition starts (ks : list Z) : list action :=
  concat (map (λ k, [AStart (addr_of k); ABuild (addr_of k)]) ks).
Definition proposes (from : Z) (ks : list Z) : list action :=
  map (λ k, AProposal (addr_of k) (addr_of from)) ks.
Definition prevote_all (ks : list Z) : list action := map (λ k, APrevote (addr_of k)) ks.
Definition deliver (typ r : Z) (tos froms : list Z) : list action :=
  concat (map (λ t, map (λ f, AVote (addr_of t) (addr_of f) typ 1 r) froms) tos).
Definition timeouts (ks : list Z) : list action := map (λ k, ATimeout (addr_of k)) ks.

Definition round0 : list action :=
  starts [1; 2; 3; 4] ++ proposes 2 [1; 3; 4] ++ prevote_all [1; 2; 3; 4] ++
  deliver VotePrevote 0 [1; 2; 3; 4] [1; 2; 3].

(** The precommits reach validators 1 and 2. *)
Definition smooth_run : list action := round0 ++ deliver VotePrecommit 0 [1; 2] [2; 3; 4; 1].

(** The precommits of round 0 reach validator 1 only; the others time out. *)
Definition fork_run : list action :=
  round0 ++ deliver VotePrecommit 0 [1] [2; 3] ++ timeouts [2; 3; 4] ++
  starts [2; 3; 4] ++ proposes 3 [2; 4] ++ prevote_all [2; 3; 4] ++
  deliver VotePrevote 1 [2; 3; 4] [2; 3; 4] ++ deliver VotePrecommit 1 [2] [3; 4].

(** (validator, height, round, block hash) of each commit. *)
Definition commit_rows (w : world) : list (Address * Z * Z * Hash) :=
  map (λ aev, (aev.1, ce_Height aev.2, ce_Round aev.2, ce_BlockHash aev.2)) (w_commits w).

Lemma four_vals_wf : vs_wf four_vals.
Proof.
  apply (NewValidatorSet_wf (map (λ k, mkValidator (addr_of k) 1) [1; 2; 3; 4])).
  - apply Forall_forall. intros v (k & -> & _)%list_elem_of_fmap. cbn [v_power]. unfold is_u64. lia.
  - vm_compute. reflexivity.
Qed.

Lemma four_power_bound : power_bound four_vals.
Proof. vm_compute. reflexivity. Qed.

Lemma four_world_init : world_init four_vals four_honest four_world.
Proof. exact (fresh_world_init four_vals four_cfg [1; 2; 3; 4] (λ k, eq_refl) (λ k, eq_refl)). Qed.

Lemma commit_row_event w a h r bh :
  (a, h, r, bh) ∈ commit_rows w →
  ∃ ev, (a, ev) ∈ w_commits w ∧ ce_Height ev = h ∧ ce_Round ev = r ∧ ce_BlockHash ev = bh.
Proof.
  unfold commit_rows. intros ([a' ev] & Heq & Hin)%list_elem_of_fmap. cbn in Heq.
  injection Heq as -> -> -> ->. by exists ev.
Qed.

(** The block hash of the commit of validator [k] at height 1 and round [r]. *)
Definition row_hash_of (w : world) (k r : Z) : option Hash :=
  snd <$> find (λ x, let '(a, h, r', _) := x in (a =? addr_of k) && (h =? 1) && (r' =? r)) (commit_rows w).

Lemma row_hash_of_event w k r bh :
  row_hash_of w k r = Some bh →
  ∃ ev, (addr_of k, ev) ∈ w_commits w ∧ ce_Height ev = 1 ∧ ce_Round ev = r ∧ ce_BlockHash ev = bh.
Proof.
  unfold row_hash_of. destruct (find _ _) as [[[[a h] r'] b]|] eqn:Hf; [|discriminate].
  apply find_some in Hf as [Hin Hb]. rewrite !andb_true_iff, !Z.eqb_eq in Hb.
  destruct Hb as [[-> ->] ->]. intros Heq. cbn in Heq. injection Heq as <-.
  apply commit_row_event. by apply list_elem_of_In.
Qed.

(** What is checked of a run by evaluation: it executes, validators [k1] and
    [k2] commit in rounds [r1] and [r2], for the same block exactly when [same],
    and each listed (validator, type, round) was voted for the first block. *)
Definition run_check (honest : gset Address) (w0 : world) (l : list action) (k1 r1 k2 r2 : Z) (same : bool)
    (vs : list (Z * Z * Z)) : bool :=
  match run honest w0 l with
  | None => false
  | Some w =>
      match row_hash_of w k1 r1, row_hash_of w k2 r2 with
      | Some b1, Some b2 =>
          Bool.eqb (b1 =? b2) same &&
          forallb (λ x, let '(k, t, r) := x in
            existsb (λ v, (v_Validator v =? addr_of k) && (v_Type v =? t) && (v_Round v =? r)
                          && (v_BlockHash v =? b1)) (w_votes w)) vs
      | _, _ => false
      end
  end.

Lemma run_check_spec honest w0 l k1 r1 k2 r2 same vs :
  world_init four_vals honest w0 → run_check honest w0 l k1 r1 k2 r2 same vs = true →
  ∃ w ev1 ev2, reachable four_vals honest accepts w ∧
    (addr_of k1, ev1) ∈ w_commits w ∧ (addr_of k2, ev2) ∈ w_commits w ∧
    ce_Height ev1 = 1 ∧ ce_Height ev2 = 1 ∧ ce_Round ev1 = r1 ∧ ce_Round ev2 = r2 ∧
    (ce_BlockHash ev1 =? ce_BlockHash ev2) = same ∧
    ∀ k t r, (k, t, r) ∈ vs →
      ∃ v, v ∈ w_votes w ∧ v_Validator v = addr_of k ∧ v_Type v = t ∧ v_Round v = r ∧
           v_BlockHash v = ce_BlockHash ev1.
Proof.
  intros Hi H. unfold run_check in H. destruct (run honest w0 l) as [w|] eqn:Hw; [|discriminate].
  destruct (row_hash_of w k1 r1) as [b1|] eqn:H1; [|discriminate].
  destruct (row_hash_of w k2 r2) as [b2|] eqn:H2; [|discriminate].
  apply andb_true_iff in H as [Hs Hv]. apply Bool.eqb_prop in Hs.
  destruct (row_hash_of_event _ _ _ _ H1) as (ev1 & Hin1 & Hh1 & Hr1 & Hb1).
  destruct (row_hash_of_event _ _ _ _ H2) as (ev2 & Hin2 & Hh2 & Hr2 & Hb2).
  exists w, ev1, ev2. rewrite Hb1, Hb2. apply run_sound in Hw.
  split; [by exists w0|]. do 7 (split; [assumption|]).
  intros k t r Hin. rewrite forallb_forall in Hv. specialize (Hv (k, t, r)).
  apply list_exists_ex, Hv. by apply list_elem_of_In.
Qed.

Lemma smooth_run_check :
  run_check four_honest four_world smooth_run 1 0 2 0 true [(1, VotePrevote, 0); (1, VotePrecommit, 0)] = true.
Proof. vm_compute. reflexivity. Qed.

Lemma fork_run_check :
  run_check four_honest four_world fork_run 1 0 2 1 false [(2, VotePrecommit, 0)] = true.
Proof. vm_compute. reflexivity. Qed.

(** C37. There is a run of four validators, all of them honest and none losing
    its state, that commits two different blocks at height 1: the one of
    round 0 at one validator and another in round 1 at a validator that had
    precommitted (and locked) the first block in round 0. *)
Theorem fork_without_faults :
  ∃ w ev1 ev2, reachable four_vals four_honest accepts w ∧
    set_power four_vals four_honest = totalPower four_vals ∧
    (addr_of 1, ev1) ∈ w_commits w ∧ (addr_of 2, ev2) ∈ w_commits w ∧
    ce_Height ev1 = 1 ∧ ce_Height ev2 = 1 ∧ ce_Round ev1 = 0 ∧ ce_Round ev2 = 1 ∧
    ce_BlockHash ev1 ≠ ce_BlockHash ev2 ∧
    (∃ v, v ∈ w_votes w ∧ v_Validator v = addr_of 2 ∧ v_Type v = VotePrecommit ∧ v_Round v = 0 ∧
          v_BlockHash v = ce_BlockHash ev1).
Proof.
  destruct (run_check_spec _ _ _ _ _ _ _ _ _ four_world_init fork_run_check)
    as (w & ev1 & ev2 & Hr & H1 & H2 & Hh1 & Hh2 & Hr1 & Hr2 & Hb & Hv).
  exists w, ev1, ev2. split; [exact Hr|]. split; [vm_compute; reflexivity|].
  do 6 (split; [assumption|]). split; [by apply Z.eqb_neq|]. apply Hv. left.
Qed.

(** ** A run with equivocating validators

    Validators 2 and 3, half of the power, sign for two blocks of round 0. *)
Definition two_honest : gset Address := list_to_set (map PubkeyToAddress [1; 4]).
Definition two_world : world := fresh_world four_cfg [1; 4].

Definition faulty_block (root : Hash) : Block :=
  match EmptyBlockBuilder 0 None 1 MakeGenesisHeader (addr_of 2) root with
  | Ok (Some b) => b
  | _ => mkBlock MakeGenesisHeader []
  end.

Definition faulty_proposal (root : Hash) : Proposal :=
  let b := faulty_block root in
  match SignProposal (mkProposal 1 0 (Block_Hash b) (Some b) 0 []) 2 with
  | Ok p => p
  | Err _ => mkProposal 0 0 0 None 0 []
  end.

Definition faulty_votes (to : Z) (root : Hash) : list action :=
  let vote typ k := AForgeVote (addr_of to) (toy_vote k typ 1 0 (Block_Hash (faulty_block root))) in
  [AForgeProposal (addr_of to) (faulty_proposal root); APrevote (addr_of to);
   vote VotePrevote 2; vote VotePrevote 3; vote VotePrecommit 2; vote VotePrecommit 3].

Definition equivocation_run : list action := faulty_votes 1 5 ++ faulty_votes 4 6.

Lemma equivocation_run_check :
  run_check two_honest two_world equivocation_run 1 0 4 0 false [] = true.
Proof. vm_compute. reflexivity. Qed.

Lemma two_world_init : world_init four_vals two_honest two_world.
Proof. exact (fresh_world_init four_vals four_cfg [1; 4] (λ k, eq_refl) (λ k, eq_refl)). Qed.

Lemma honest_never_equivocates_witness :
  ∃ w v1 v2, v1 ∈ w_votes w ∧ v2 ∈ w_votes w ∧
    v_Type v1 = VotePrevote ∧ v_Type v2 = VotePrecommit ∧ ¬ conflicting v1 v2.
Proof.
  destruct (run_check_spec _ _ _ _ _ _ _ _ _ four_world_init smooth_run_check)
    as (w & ev1 & ev2 & Hr & _ & _ & _ & _ & _ & _ & _ & Hv).
  destruct (Hv 1 VotePrevote 0) as (v1 & Hin1 & Ha1 & Ht1 & _); [left|].
  destruct (Hv 1 VotePrecommit 0) as (v2 & Hin2 & Ha2 & Ht2 & _); [right; left|].
  exists w, v1, v2. split; [exact Hin1|]. split; [exact Hin2|]. split; [exact Ht1|]. split; [exact Ht2|].
  exact (honest_never_equivocates four_vals four_honest accepts four_vals_wf
            w v1 v2 Hr Hin1 Hin2 (eq_trans Ha1 (eq_sym Ha2))).
Defined.

Lemma four_honest_thirds : 2 * totalPower four_vals < 3 * set_power four_vals four_honest.
Proof. vm_compute. reflexivity. Qed.

Lemma conflicting_commits_accountable_witness :
  ∃ ev1 ev2, ce_BlockHash ev1 ≠ ce_BlockHash ev2 ∧
    ∃ S : gset Address, totalPower four_vals < 3 * set_power four_vals S ∧
      ∀ a, a ∈ S → ∃ v1 v2, v1 ∈ ce_Precommits ev1 ∧ v2 ∈ ce_Precommits ev2 ∧
        v_Validator v1 = a ∧ VerifyDoubleSign v1 v2 = Ok tt.
Proof.
  destruct (run_check_spec _ _ _ _ _ _ _ _ _ two_world_init equivocation_run_check)
    as (w & ev1 & ev2 & Hr & H1 & H2 & Hh1 & Hh2 & Hr1 & Hr2 & Hb & _).
  apply Z.eqb_neq in Hb. exists ev1, ev2. split; [exact Hb|].
  exact (conflicting_commits_accountable four_vals two_honest accepts four_vals_wf
    w _ ev1 _ ev2 four_power_bound Hr H1 H2 (eq_trans Hh1 (eq_sym Hh2)) (eq_trans Hr1 (eq_sym Hr2)) Hb).
Defined.

Lemma agreement_same_round_witness :
  ∃ w ev1 ev2, (addr_of 1, ev1) ∈ w_commits w ∧ (addr_of 2, ev2) ∈ w_commits w ∧
    ce_BlockHash ev1 = ce_BlockHash ev2.
Proof.
  destruct (run_check_spec _ _ _ _ _ _ _ _ _ four_world_init smooth_run_check)
    as (w & ev1 & ev2 & Hr & H1 & H2 & Hh1 & Hh2 & Hr1 & Hr2 & _ & _).
  exists w, ev1, ev2. split; [exact H1|]. split; [exact H2|].
  exact (agreement_same_round four_vals four_honest accepts four_vals_wf
    w _ ev1 _ ev2 four_power_bound Hr four_honest_thirds H1 H2 (eq_trans Hh1 (eq_sym Hh2)) (eq_trans Hr1 (eq_sym Hr2))).
Defined.

Lemma committed_block_accepted_witness :
  ∃ w ev, (addr_of 1, ev) ∈ w_commits w ∧
    ∃ h parent b, h ∈ four_honest ∧ Block_Hash b = ce_BlockHash ev ∧ accepts h (ce_Height ev) parent b.
Proof.
  destruct (run_check_spec _ _ _ _ _ _ _ _ _ four_world_init smooth_run_check)
    as (w & ev1 & ev2 & Hr & H1 & _).
  exists w, ev1. split; [exact H1|].
  exact (committed_block_accepted four_vals four_honest accepts four_vals_wf
    w _ ev1 four_power_bound Hr four_honest_thirds H1).
Defined.

(** Validator 1 of the initial world holds no lock. *)
Lemma four_node_1 : is_Some (w_nodes four_world !! addr_of 1).
Proof. apply (bool_decide_unpack _). vm_compute. exact I. Qed.

Lemma lock_never_decides_prevote_witness :
  ∃ n, w_nodes four_world !! addr_of 1 = Some n ∧
    (0 <= e_lockedRound (n_eng n) → e_step (n_eng n) = StepPrecommit).
Proof.
  destruct four_node_1 as [n Hn]. exists n. split; [exact Hn|].
  exact (proj2 (lock_never_decides_prevote four_vals four_vals_wf four_honest accepts four_world (addr_of 1) n
    (ex_intro _ four_world (conj four_world_init (rtc_refl _ _))) Hn)).
Defined.
End Runs.
