(* ===== verification/Liveness.v ===== *)
(** * A good round commits

    One validator over one round of Dew-BFT whose proposer is honest: if the
    messages of the honest validators, who hold a quorum, all arrive before the
    round times out, the validator commits the proposed block, in whatever
    order they arrive, duplicated or mixed with other votes of the height.
    The signature of a proposal covers its block hash and not its block, so the
    copies of the proposal that arrive are assumed to carry the block. *)
From S2P Require Import Prelude Types Toy ValidatorSet Votes Quorum Engine Node Agreement Fork.

Section Liveness.
Context `{C : Crypto} {L : CryptoLaws C}.

(** A message of the network and the handler it reaches. *)
Inductive message : Type := MProposal (p : Proposal) | MVote (v : Vote).

Definition deliver (o : RangeOrder) (e : Engine) (m : message) : Engine * outbox * res unit :=
  match m with MProposal p => HandleProposal o e p | MVote v => HandleVote o e v end.

Definition deliver_all (o : RangeOrder) (e : Engine) (ms : list message) : Engine :=
  foldl (λ e m, (deliver o e m).1.1) e ms.

(** The round: its slot, the honest validators [H], their proposal [p] of
    block [b]; and the validator [me] that is observed. *)
Context (vals : ValidatorSet) (Hwf : vs_wf vals) (Hbound : power_bound vals).
Context (o : RangeOrder) (Ho : order_ok o).
Context (height round : Z) (H : gset Address) (p : Proposal) (b : Block) (me : Address).
Let hash : Hash := Block_Hash b.

Record good_round : Prop := {
  gr_height : 0 <= height < 2 ^ 64 - 1;
  gr_round : is_u64 round;
  gr_quorum : HasQuorum (set_power vals H) (totalPower vals) = true;
  gr_signed : VerifyProposal p = Ok tt;
  gr_slot : p_Height p = height ∧ p_Round p = round;
  gr_block : p_Block p = Some b ∧ p_BlockHash p = hash;
  gr_nonzero : hash ≠ 0;
  gr_proposer : ProposerOf vals height round = Some (p_Proposer p);
}.

(** An honest validator votes for the proposal only. *)
Definition honest_vote (v : Vote) : Prop :=
  VerifyVote v = Ok tt ∧ (v_Validator v ∈ H → v_Height v = height → v_Round v = round → v_BlockHash v = hash).

(** What may arrive, all of this height: of the honest validators the votes
    above, of the others any vote; proposals of other rounds or of others than
    the proposer; and copies of the proposal, whose signature may differ, with
    the proposed block or with one that does not have the signed hash. *)
Definition message_ok (m : message) : Prop :=
  match m with
  | MProposal q => p_Height q = height ∧
      (VerifyProposal q = Ok tt → p_Round q = round → p_Proposer q = p_Proposer p →
       p_BlockHash q = hash ∧ ∃ b', p_Block q = Some b' ∧ (Block_Hash b' = hash → b' = b))
  | MVote v => v_Height v = height ∧ (VerifyVote v = Ok tt → honest_vote v)
  end.

(** A proposal of the block. *)
Definition carries (r : option Proposal) : Prop :=
  ∃ q, r = Some q ∧ p_Block q = Some b ∧ p_BlockHash q = hash.

(** The vote of [a] of type [typ] in the round was among [seen]. *)
Definition voted (seen : list message) (typ : Z) (a : Address) : Prop :=
  ∃ v, MVote v ∈ seen ∧ v_Type v = typ ∧ v_Height v = height ∧ v_Round v = round ∧ v_Validator v = a ∧
    VerifyVote v = Ok tt ∧ is_Some (Get vals a).

(** The engine is in the round and has recorded what it has [seen]. *)
Record in_round (seen : list message) (e : Engine) : Prop := {
  ir_inv : eng_inv honest_vote vals e;
  ir_height : e_height e = height;
  ir_round : e_round e = round;
  ir_valid : e_validator e height (e_parent e) b = Ok tt;
  ir_prevotes : ∀ a, voted seen VotePrevote a → is_Some (byAddr (e_prevotes e) !! a);
  ir_precommits : ∀ a, voted seen VotePrecommit a → is_Some (byAddr (e_precommits e) !! a);
  ir_me : e_address e = me;
}.

(** The engine waits for what it needs in its step. *)
Definition waiting (seen : list message) (e : Engine) : Prop :=
  match e_step e with
  | StepPropose => e_proposal e = None ∧ MProposal p ∉ seen
  | StepPrevote => carries (e_proposal e) ∧ is_Some (byAddr (e_prevotes e) !! e_address e) ∧
      HasQuorum (powerFor (e_prevotes e) hash) (totalPower vals) = false
  | StepPrecommit => carries (e_proposal e) ∧ is_Some (byAddr (e_precommits e) !! e_address e) ∧
      HasQuorum (powerFor (e_precommits e) hash) (totalPower vals) = false
  | _ => False
  end.

Definition live (seen : list message) (e : Engine) : Prop := in_round seen e ∧ waiting seen e.

Definition decided (e : Engine) : Prop :=
  e_height e = height + 1 ∧ e_round e = 0 ∧ e_parent e = header b ∧
  ∃ ev, e_LastCommit e = Some ev ∧ ce_Height ev = height ∧ ce_Round ev = round ∧ ce_BlockHash ev = hash ∧ ce_Block ev = Some b.

Context (G : good_round).

Lemma quorum_is_hash vs h : voteset_ok vals honest_vote vs → vs_height vs = height → vs_round vs = round →
  HasQuorum (powerFor vs h) (totalPower vals) = true → h = hash.
Proof using Hwf Hbound G.
  intros Hok Hh Hr Hq. rewrite (vo_power _ _ _ Hok) in Hq.
  pose proof (quorum_intersection_power _ Hwf _ _ Hbound Hq (gr_quorum G)) as Hi.
  destruct (set_power_lt_witness _ Hwf (voters vs h ∩ H) ∅) as (a & Ha & _).
  { rewrite set_power_empty. pose proof (wf_total_pos _ Hwf). lia. }
  apply elem_of_intersection in Ha as [(v & Hv & <-)%elem_of_voters HH].
  apply (vo_slot _ _ _ Hok) in Hv as (<- & _ & Hvh & Hvr & _ & Hv). apply Hv; [done|congruence|congruence].
Qed.

(** All honest votes together are a quorum. *)
Lemma honest_quorum vs : voteset_ok vals honest_vote vs → vs_height vs = height → vs_round vs = round →
  (∀ a, a ∈ H → is_Some (byAddr vs !! a)) → HasQuorum (powerFor vs hash) (totalPower vals) = true.
Proof using Hwf Hbound G.
  intros Hok Hh Hr Hall. rewrite (vo_power _ _ _ Hok). apply HasQuorum_set; [done..|].
  pose proof (gr_quorum G) as Hq. rewrite HasQuorum_set in Hq by done.
  assert (H ⊆ voters vs hash) as Hs; [|apply (set_power_mono _ Hwf) in Hs; lia].
  intros a Ha. destruct (Hall a Ha) as [v Hv]. apply elem_of_voters. exists v. split; [done|].
  apply (vo_slot _ _ _ Hok) in Hv as (<- & _ & Hvh & Hvr & _ & Hv). apply Hv; [done|congruence|congruence].
Qed.

(** ** The vote sets only grow *)
Lemma voteSet_add_has vs v pw : v_Type v = vs_typ vs → v_Height v = vs_height vs → v_Round v = vs_round vs →
  is_Some (byAddr (voteSet_add vs v pw).1 !! v_Validator v) ∧
  ∀ a, is_Some (byAddr vs !! a) → is_Some (byAddr (voteSet_add vs v pw).1 !! a).
Proof using.
  intros Ht Hh Hr. rewrite voteSet_add_spec. case_decide as Hd; cbn.
  - rewrite lookup_insert_eq. split; [by eexists|]. intros a Ha. destruct (decide (v_Validator v = a)) as [<-|];
      [rewrite lookup_insert_eq; by eexists|by rewrite lookup_insert_ne].
  - split; [|done]. destruct (byAddr vs !! v_Validator v) eqn:E; [by eexists|]. by destruct Hd.
Qed.

Lemma add_prevote_in_round seen e v : in_round seen e → honest_vote v → v_Type v = VotePrevote → v_Height v = height → v_Round v = round →
  let e' := (addPrevoteLocked e v).1 in
  in_round seen e' ∧ is_Some (byAddr (e_prevotes e') !! v_Validator v) ∧
  e_step e' = e_step e ∧ e_proposal e' = e_proposal e ∧ e_address e' = e_address e ∧ e_key e' = e_key e ∧
  (∀ a, is_Some (byAddr (e_prevotes e) !! a) → is_Some (byAddr (e_prevotes e') !! a)) ∧ e_precommits e' = e_precommits e.
Proof using Hwf.
  intros [I Hh Hr Hv Hp Hc Hme] Hhon Ht Hvh Hvr. pose proof (addPrevote_inv honest_vote vals Hwf e v I Hhon) as I'.
  destruct (ei_prevotes _ _ _ I) as [_ Ht' Hh' Hr'].
  destruct (voteSet_add_has (e_prevotes e) v (PowerOf (e_valSet e) (v_Validator v))) as [A1 A2]; [congruence..|].
  unfold addPrevoteLocked in *. destruct (voteSet_add _ _ _) as [pv ok]. cbn in A1, A2, I' |- *.
  split_and!; [|done..]. split; [done|done|done|done| |done|done]. intros a Ha. cbn. auto.
Qed.

Lemma add_precommit_in_round seen e v : in_round seen e → honest_vote v → v_Type v = VotePrecommit → v_Height v = height → v_Round v = round →
  let e' := (addPrecommitLocked e v).1 in
  in_round seen e' ∧ is_Some (byAddr (e_precommits e') !! v_Validator v) ∧
  e_step e' = e_step e ∧ e_proposal e' = e_proposal e ∧ e_address e' = e_address e ∧ e_key e' = e_key e ∧
  (∀ a, is_Some (byAddr (e_precommits e) !! a) → is_Some (byAddr (e_precommits e') !! a)) ∧ e_prevotes e' = e_prevotes e.
Proof using Hwf.
  intros [I Hh Hr Hv Hp Hc Hme] Hhon Ht Hvh Hvr. pose proof (addPrecommit_inv honest_vote vals Hwf e v I Hhon) as I'.
  destruct (ei_precommits _ _ _ I) as [_ Ht' Hh' Hr'].
  destruct (voteSet_add_has (e_precommits e) v (PowerOf (e_valSet e) (v_Validator v))) as [A1 A2]; [congruence..|].
  unfold addPrecommitLocked in *. destruct (voteSet_add _ _ _) as [pc ok]. cbn in A1, A2, I' |- *.
  split_and!; [|done..]. split; [done|done|done|done|done| |done]. intros a Ha. cbn. auto.
Qed.

(** A validator's own vote for the proposal. *)
Lemma own_vote e typ : eng_inv honest_vote vals e → typ = VotePrevote ∨ typ = VotePrecommit →
  ∃ v, SignVote (mkVote typ height round hash (e_address e) []) (e_key e) = Ok v ∧ honest_vote v ∧
    v_Type v = typ ∧ v_Height v = height ∧ v_Round v = round ∧ v_Validator v = e_address e.
Proof using L.
  intros I Ht. destruct (SignVote_total (mkVote typ height round hash (e_address e) []) (e_key e)) as (v & Hs & Hv); [done|].
  exists v. split; [done|]. unfold SignVote in Hs. destruct (Sign _ _); [|done]. cbn in Hs. injection Hs as <-.
  split; [by split|]. cbn. by rewrite (ei_addr _ _ _ I).
Qed.

(** ** What the two thresholds do *)
Lemma after_precommit seen e box : in_round seen e → e_step e = StepPrecommit → carries (e_proposal e) →
  is_Some (byAddr (e_precommits e) !! e_address e) →
  let e' := (tryAfterPrecommitLocked o e box).1.1 in live seen e' ∨ decided e'.
Proof using Hwf Hbound Ho G.
  intros R Hst Hp Hown. pose proof (ir_inv _ _ R) as I. destruct (ei_precommits _ _ _ I) as [Hok _ Hh Hr].
  rewrite (ir_height _ _ R) in Hh. rewrite (ir_round _ _ R) in Hr.
  assert (TotalPower (e_valSet e) = totalPower vals) as Htot by (by rewrite (ei_vals _ _ _ I)).
  unfold tryAfterPrecommitLocked. rewrite bool_decide_eq_true_2, Htot by done. cbn [negb].
  destruct (majorityHash o (e_precommits e) (totalPower vals)) as [maj|] eqn:Hm.
  - apply majorityHash_Some in Hm; [|done]. apply quorum_is_hash in Hm as ->; [|done..].
    destruct Hp as (q & Hp & Hb & Hph). unfold Hash_IsZero. rewrite (proj2 (Z.eqb_neq _ _)) by apply (gr_nonzero G).
    unfold enterCommitLocked. rewrite (ei_committed _ _ _ I), Hp, Hph, Z.eqb_refl, Hb. cbn. right. unfold decided. cbn.
    rewrite (ir_height _ _ R), (ir_round _ _ R). pose proof (gr_height G).
    split_and!; [apply u64_id; unfold is_u64; lia|done|done|]. eexists. by split_and!.
  - left. split; [done|]. unfold waiting. cbn [fst]. rewrite Hst. split_and!; [done|done|].
    apply (majorityHash_None o); [done| |done]. pose proof (wf_total_pos _ Hwf). unfold power_bound in Hbound. unfold is_u64. lia.
Qed.

Lemma in_round_precommit_step seen e : in_round seen e →
  in_round seen (set_locked (set_step e StepPrecommit) (int64 (e_round e)) hash).
Proof using.
  intros [I H1 H2 H3 H4 H5 H6]. split; [|done..]. destruct I. by split.
Qed.

Lemma after_prevote seen e box : in_round seen e → e_step e = StepPrevote → carries (e_proposal e) →
  is_Some (byAddr (e_prevotes e) !! e_address e) →
  let e' := (tryAfterPrevoteLocked o e box).1.1 in live seen e' ∨ decided e'.
Proof using Hwf Hbound Ho G L.
  intros R Hst Hp Hown. pose proof (ir_inv _ _ R) as I. destruct (ei_prevotes _ _ _ I) as [Hok _ Hh Hr].
  rewrite (ir_height _ _ R) in Hh. rewrite (ir_round _ _ R) in Hr.
  assert (TotalPower (e_valSet e) = totalPower vals) as Htot by (by rewrite (ei_vals _ _ _ I)).
  unfold tryAfterPrevoteLocked. rewrite bool_decide_eq_true_2, Htot by done. cbn [negb].
  destruct (majorityHash o (e_prevotes e) (totalPower vals)) as [maj|] eqn:Hm.
  - apply majorityHash_Some in Hm; [|done]. apply quorum_is_hash in Hm as ->; [|done..].
    unfold enterPrecommitLocked. unfold Hash_IsZero. rewrite (proj2 (Z.eqb_neq _ _)) by apply (gr_nonzero G).
    rewrite (ir_height _ _ R), (ir_round _ _ R). destruct (own_vote e VotePrecommit I) as (v & -> & Hv & Ht & Hvh & Hvr & Hva); [by right|].
    pose proof (in_round_precommit_step _ _ R) as R2. rewrite (ir_round _ _ R) in R2.
    destruct (add_precommit_in_round _ _ _ R2 Hv Ht Hvh Hvr) as (R3 & Hin & Hs3 & Hp3 & Ha3 & _).
    apply after_precommit; [done|by rewrite Hs3|by rewrite Hp3|]. rewrite Ha3. cbn. by rewrite <- Hva.
  - left. split; [done|]. unfold waiting. cbn [fst]. rewrite Hst. split_and!; [done|done|].
    apply (majorityHash_None o); [done| |done]. pose proof (wf_total_pos _ Hwf). unfold power_bound in Hbound. unfold is_u64. lia.
Qed.

(** Taking the proposal in. *)
Lemma after_proposal seen e box q : in_round seen e → e_step e = StepPropose → p_Block q = Some b → p_BlockHash q = hash →
  let e' := (run_outcome o (enterPrevote_begin (set_proposal e (Some q)) box)).1.1 in live seen e' ∨ decided e'.
Proof using Hwf Hbound Ho G L.
  intros R Hst Hqb Hqh. pose proof (ir_inv _ _ R) as I. unfold enterPrevote_begin. cbn [set_proposal e_step]. rewrite Hst. cbn [negb andb bool_decide].
  rewrite (bool_decide_eq_true_2 (StepPropose = StepPropose)) by done. cbn [negb andb run_outcome]. unfold enterPrevote_finish.
  set (e1 := set_step (set_proposal e (Some q)) StepPrevote).
  assert (in_round seen e1) as R1.
  { destruct R as [_ H1 H2 H3 H4 H5 H6]. split; [|done..]. destruct I as [I1 I2 I3 I4 I5 I6 I7 I8 I9]. split; try done.
    - cbn. intros _. apply I4. by rewrite Hst.
    - cbn. intros q' [= <-]. unfold proposal_ok. rewrite Hqb, Hqh. by intros b' [= <-]. }
  cbn [ps_height ps_round ps_box ps_parent]. set (s := mkPrevoteSnap _ _ _ _ _ _ _).
  change (e_height (set_proposal e (Some q))) with (e_height e). change (e_round (set_proposal e (Some q))) with (e_round e).
  change (e_parent (set_proposal e (Some q))) with (e_parent e).
  assert (prevote_hash s (e_validator e1 (e_height e) (e_parent e)) = hash) as ->.
  { unfold prevote_hash. cbn [s ps_prop ps_lockedRound ps_lockedHash set_proposal e_proposal e_lockedRound e_lockedHash].
    rewrite Hqb, Hqh. destruct (ei_lock _ _ _ I) as [-> ->]; [by rewrite Hst|]. cbn [Z.leb Z.compare andb].
    cbn [e1 set_step set_proposal e_validator]. by rewrite (ir_height _ _ R), (ir_valid _ _ R). }
  rewrite (ir_height _ _ R), (ir_round _ _ R).
  destruct (own_vote e1 VotePrevote (ir_inv _ _ R1)) as (v & -> & Hv & Ht & Hvh & Hvr & Hva); [by left|].
  rewrite (ir_height _ _ R1), (ir_round _ _ R1), !Z.eqb_refl. rewrite (bool_decide_eq_true_2 (e_step e1 = StepPrevote)) by done. cbn [negb orb].
  destruct (add_prevote_in_round _ _ _ R1 Hv Ht Hvh Hvr) as (R3 & Hin & Hs3 & Hp3 & Ha3 & _).
  apply after_prevote; [done|by rewrite Hs3|rewrite Hp3; by exists q|]. by rewrite Ha3, <- Hva.
Qed.

(** ** One message *)

(** A message that changes nothing was seen, unless it is one to record. *)
Lemma live_skip seen e m : live seen e → m ≠ MProposal p ∨ e_step e ≠ StepPropose →
  (∀ v, m = MVote v → ¬ (v_Height v = height ∧ v_Round v = round ∧ VerifyVote v = Ok tt ∧ is_Some (Get vals (v_Validator v)))) →
  live (seen ++ [m]) e.
Proof using.
  intros [[I H1 H2 H3 H4 H5 H6] W] Hm Hv.
  assert (∀ typ a, voted (seen ++ [m]) typ a → voted seen typ a) as Hvoted.
  { intros typ a (v & [Hin|Em%list_elem_of_singleton]%elem_of_app & Hrest); [by exists v|].
    destruct Hrest as (? & ? & ? & <- & ? & ?). by destruct (Hv v (eq_sym Em)). }
  split; [split; auto|]. unfold waiting in *. destruct (e_step e); try done. destruct W as [W1 W2]. split; [done|].
  intros [Hin|Em%list_elem_of_singleton]%elem_of_app; [done|]. by destruct Hm.
Qed.

Lemma in_round_more seen e m : in_round seen e → (∀ v, m = MVote v → voted [m] (v_Type v) (v_Validator v) →
    (v_Type v = VotePrevote → is_Some (byAddr (e_prevotes e) !! v_Validator v)) ∧
    (v_Type v = VotePrecommit → is_Some (byAddr (e_precommits e) !! v_Validator v))) → in_round (seen ++ [m]) e.
Proof using.
  intros [I H1 H2 H3 H4 H5 H6] Hm.
  assert (∀ typ a, voted (seen ++ [m]) typ a → voted seen typ a ∨ ∃ v, m = MVote v ∧ v_Type v = typ ∧ v_Validator v = a ∧ voted [m] typ a) as Hvoted.
  { intros typ a (v & [Hin|Em%list_elem_of_singleton]%elem_of_app & Hrest); [left; by exists v|right]. subst m.
    exists v. destruct Hrest as (? & ? & ? & ? & ? & ?). split_and!; [done..|]. exists v. split_and!; [by apply list_elem_of_singleton|done..]. }
  split; [done|done|done|done| | |done]; intros a [?|(v & Em & Ht & <- & Hv)]%Hvoted; [auto| |auto|]; rewrite <- Ht in Hv; by apply (Hm v Em Hv).
Qed.

Lemma live_prevote seen e v : live seen e → honest_vote v → v_Type v = VotePrevote → v_Height v = height → v_Round v = round →
  let '(e1, ok) := addPrevoteLocked e v in
  let e' := if negb ok then e1 else (tryAfterPrevoteLocked o e1 empty_box).1.1 in live (seen ++ [MVote v]) e' ∨ decided e'.
Proof using Hwf Hbound Ho G L.
  intros [R W] Hv Ht Hvh Hvr. destruct (add_prevote_in_round _ _ _ R Hv Ht Hvh Hvr) as (R1 & Hin & Hs & Hp & Ha & _ & Hmono & Hpc).
  assert (∀ e1, in_round seen e1 → is_Some (byAddr (e_prevotes e1) !! v_Validator v) → in_round (seen ++ [MVote v]) e1) as Hmore.
  { intros e1 Re1 Hv1. apply in_round_more; [done|]. intros w [= <-] _. split; [done|]. by rewrite Ht. }
  apply Hmore in R1; [|done]. unfold waiting in W. destruct (addPrevoteLocked e v) as [e1 ok] eqn:Ea. cbn [fst] in *. destruct ok; cbn [negb].
  - destruct (e_step e) eqn:Est; try done.
    + left. unfold tryAfterPrevoteLocked. rewrite Hs, bool_decide_eq_false_2 by done. cbn [negb fst]. split; [done|]. unfold waiting. rewrite Hs, Hp. split; [apply W|].
      intros [?|E%list_elem_of_singleton]%elem_of_app; [by apply W|done].
    + destruct W as (W1 & W2 & _). apply after_prevote; [done|done|by rewrite Hp|]. rewrite Ha. auto.
    + left. unfold tryAfterPrevoteLocked. rewrite Hs, bool_decide_eq_false_2 by done. cbn [negb fst]. split; [done|]. unfold waiting. by rewrite Hs, Hp, Ha, Hpc.
  - left. split; [done|]. unfold addPrevoteLocked in Ea. rewrite voteSet_add_spec in Ea. destruct (decide _) as [|Hd]; [done|].
    injection Ea as <-. unfold waiting. cbn. destruct (e_step e); try done. split; [apply W|].
    intros [?|E%list_elem_of_singleton]%elem_of_app; [by apply W|done].
Qed.

Lemma live_precommit seen e v : live seen e → honest_vote v → v_Type v = VotePrecommit → v_Height v = height → v_Round v = round →
  let '(e1, ok) := addPrecommitLocked e v in
  let e' := if negb ok then e1 else (tryAfterPrecommitLocked o e1 empty_box).1.1 in live (seen ++ [MVote v]) e' ∨ decided e'.
Proof using Hwf Hbound Ho G L.
  intros [R W] Hv Ht Hvh Hvr. destruct (add_precommit_in_round _ _ _ R Hv Ht Hvh Hvr) as (R1 & Hin & Hs & Hp & Ha & _ & Hmono & Hpc).
  assert (∀ e1, in_round seen e1 → is_Some (byAddr (e_precommits e1) !! v_Validator v) → in_round (seen ++ [MVote v]) e1) as Hmore.
  { intros e1 Re1 Hv1. apply in_round_more; [done|]. intros w [= <-] _. split; [by rewrite Ht|done]. }
  apply Hmore in R1; [|done]. unfold waiting in W. destruct (addPrecommitLocked e v) as [e1 ok] eqn:Ea. cbn [fst] in *. destruct ok; cbn [negb].
  - destruct (e_step e) eqn:Est; try done.
    + left. unfold tryAfterPrecommitLocked. rewrite Hs, bool_decide_eq_false_2 by done. cbn [negb fst]. split; [done|]. unfold waiting. rewrite Hs, Hp. split; [apply W|].
      intros [?|E%list_elem_of_singleton]%elem_of_app; [by apply W|done].
    + left. unfold tryAfterPrecommitLocked. rewrite Hs, bool_decide_eq_false_2 by done. cbn [negb fst]. split; [done|]. unfold waiting. by rewrite Hs, Hp, Ha, Hpc.
    + destruct W as (W1 & W2 & _). apply after_precommit; [done|done|by rewrite Hp|]. rewrite Ha. auto.
  - left. split; [done|]. unfold addPrecommitLocked in Ea. rewrite voteSet_add_spec in Ea. destruct (decide _) as [|Hd]; [done|].
    injection Ea as <-. unfold waiting. cbn. destruct (e_step e); try done. split; [apply W|].
    intros [?|E%list_elem_of_singleton]%elem_of_app; [by apply W|done].
Qed.

Lemma live_step seen e m : live seen e → message_ok m → let e' := (deliver o e m).1.1 in live (seen ++ [m]) e' ∨ decided e'.
Proof using Hwf Hbound Ho G L.
  intros [R W] Hm. destruct m as [q|v]; cbn [deliver message_ok] in *; cbv zeta.
  - unfold HandleProposal, HandleProposal_begin. destruct Hm as [Hqh Hq].
    assert (∀ box r, q ≠ p ∨ e_step e ≠ StepPropose → live (seen ++ [MProposal q]) (run_outcome o (Done e box r)).1.1 ∨
      decided (run_outcome o (Done e box r)).1.1) as Hskip.
    { intros box r Hne. left. apply live_skip; [by split| |done]. destruct Hne; [left; congruence|by right]. }
    destruct (gr_block G) as [Hb Hh], (gr_slot G) as [Hph Hpr]. rewrite (ir_height _ _ R), (ir_round _ _ R).
    destruct (VerifyProposal q) as [[]|] eqn:Ev; [|apply Hskip; left; intros ->; by rewrite (gr_signed G) in Ev].
    destruct (match p_Block q with Some _ => _ | None => _ end) eqn:Eb.
    { apply Hskip. left. intros ->. by rewrite Hb, Hh, Z.eqb_refl in Eb. }
    destruct (Z.eqb_spec (p_Height q) height); [|done]. destruct (Z.eqb_spec (p_Round q) round); cbn [negb orb]; [|apply Hskip; left; by intros ->].
    pose proof W as W'. unfold waiting in W'. destruct (e_proposal e) as [p'|] eqn:Ep.
    { apply Hskip. right. intros Hst. rewrite Hst in W'. by destruct W'. }
    assert (e_step e = StepPropose) as Hst by (destruct (e_step e); [done..|by destruct W' as [(? & ? & _) _]|by destruct W' as [(? & ? & _) _]|done]).
    rewrite (ei_vals _ _ _ (ir_inv _ _ R)), (gr_proposer G). case_bool_decide as Hprop; cbn [negb]; [|apply Hskip; left; by intros ->].
    destruct (Hq eq_refl) as (Hqh' & b' & Hqb & Hb'); [done|congruence|]. rewrite Hqb, Hqh' in Eb.
    apply negb_false_iff, Z.eqb_eq, Hb' in Eb as ->. by apply after_proposal; [apply in_round_more|..].
  - unfold HandleVote. destruct Hm as [Hvh Hv].
    assert (¬ (v_Round v = round ∧ VerifyVote v = Ok tt ∧ is_Some (Get vals (v_Validator v))) → live (seen ++ [MVote v]) e) as Hskip.
    { intros Hno. apply live_skip; [by split|by left|]. intros w [= <-]. naive_solver. }
    rewrite (ir_height _ _ R), Hvh, Z.eqb_refl. cbn [negb].
    destruct (VerifyVote v) as [[]|] eqn:Ev; [|left; apply Hskip; by intros (_ & ? & _)].
    rewrite (ei_vals _ _ _ (ir_inv _ _ R)). destruct (Get vals (v_Validator v)) as [val|] eqn:Eg;
      [|left; apply Hskip; by intros (_ & _ & [? ?])].
    specialize (Hv eq_refl). destruct (Z.eqb_spec (v_Type v) VotePrevote) as [Ht|Ht].
    + rewrite (ir_round _ _ R). destruct (Z.eqb_spec (v_Round v) round) as [Hvr|]; cbn [negb]; [|left; apply Hskip; by intros (? & _)].
      pose proof (live_prevote seen e v (conj R W) Hv Ht Hvh Hvr) as Hl. destruct (addPrevoteLocked e v) as [e1 []]; exact Hl.
    + destruct (Z.eqb_spec (v_Type v) VotePrecommit) as [Ht'|Ht']; [|destruct (proj1 (VerifyVote_ok v) Ev) as [[?|?] _]; done].
      rewrite (ir_round _ _ R). destruct (Z.eqb_spec (v_Round v) round) as [Hvr|]; cbn [negb]; [|left; apply Hskip; by intros (? & _)].
      pose proof (live_precommit seen e v (conj R W) Hv Ht' Hvh Hvr) as Hl. destruct (addPrecommitLocked e v) as [e1 []]; exact Hl.
Qed.

(** Nothing of the old height touches an engine that has decided. *)
Lemma decided_step e m : decided e → message_ok m → (deliver o e m).1.1 = e.
Proof using.
  intros (Hh & _) Hm. destruct m as [q|v]; cbn [deliver message_ok] in *.
  - unfold HandleProposal, HandleProposal_begin. destruct (VerifyProposal q); [|done]. destruct (match p_Block q with Some _ => _ | None => _ end); [done|].
    rewrite (proj2 (Z.eqb_neq (p_Height q) (e_height e))) by lia. done.
  - unfold HandleVote. rewrite (proj2 (Z.eqb_neq (v_Height v) (e_height e))) by lia. done.
Qed.

Lemma decided_all e ms : decided e → Forall message_ok ms → deliver_all o e ms = e.
Proof using.
  intros Hd Hms. induction Hms as [|m ms Hm _ IH]; [done|].
  change (deliver_all o e (m :: ms)) with (deliver_all o (deliver o e m).1.1 ms). by rewrite decided_step.
Qed.

Lemma live_all seen e ms : live seen e ∨ decided e → Forall message_ok ms →
  live (seen ++ ms) (deliver_all o e ms) ∨ decided (deliver_all o e ms).
Proof using Hwf Hbound Ho G L.
  intros He Hms. revert seen e He. induction Hms as [|m ms Hm _ IH]; intros seen e He; [by rewrite app_nil_r|].
  change (deliver_all o e (m :: ms)) with (deliver_all o (deliver o e m).1.1 ms). rewrite (cons_middle m), app_assoc. apply IH.
  destruct He as [He|He]; [by apply live_step|right]. by rewrite decided_step.
Qed.

(** With all the messages of the honest validators nothing is left to wait for. *)
Lemma live_stuck seen e : live seen e → MProposal p ∈ seen ∨ e_step e ≠ StepPropose →
  (∀ a, a ∈ H → a = me ∨ (voted seen VotePrevote a ∧ voted seen VotePrecommit a)) → False.
Proof using Hwf Hbound G.
  intros [R W] Hp Hall. rewrite <- (ir_me _ _ R) in Hall. pose proof (ir_inv _ _ R) as I. unfold waiting in W. destruct (e_step e); try done.
  - destruct W, Hp; done.
  - destruct W as (_ & Hown & Hq). destruct (ei_prevotes _ _ _ I) as [Hok _ Hh Hr]. rewrite (ir_height _ _ R) in Hh. rewrite (ir_round _ _ R) in Hr.
    rewrite honest_quorum in Hq; [done..|]. intros a [->|[Hv _]]%Hall; [done|]. by apply (ir_prevotes _ _ R).
  - destruct W as (_ & Hown & Hq). destruct (ei_precommits _ _ _ I) as [Hok _ Hh Hr]. rewrite (ir_height _ _ R) in Hh. rewrite (ir_round _ _ R) in Hr.
    rewrite honest_quorum in Hq; [done..|]. intros a [->|[_ Hv]]%Hall; [done|]. by apply (ir_precommits _ _ R).
Qed.

(** ** The start of the round *)

(** The state of the validator when the round starts. *)
Record at_start (e : Engine) : Prop := {
  as_inv : eng_inv (λ _, True) vals e;
  as_step : e_step e = StepNewRound;
  as_slot : e_height e = height ∧ e_round e = round;
  as_me : e_address e = me;
  as_valid : e_validator e height (e_parent e) b = Ok tt;
  as_builds : p_Proposer p = me →
    e_builder e height (e_parent e) me (e_proposeRoot e) = Ok (Some b) ∧
    SignProposal (mkProposal height round hash (Some b) me []) (e_key e) = Ok p;
}.

Lemma StartRound_live e : at_start e →
  let e' := (StartRound o e).1.1 in (∃ seen, live seen e' ∧ (MProposal p ∈ seen ∨ p_Proposer p ≠ me)) ∨ decided e'.
Proof using Hwf Hbound Ho G L.
  intros [I Hst [Hh Hr] Hme Hv Hb]. unfold StartRound, StartRound_begin. rewrite Hst, bool_decide_eq_true_2 by done. cbn [negb].
  set (e1 := set_step (resetVotes e) StepPropose).
  assert (in_round [] e1) as R.
  { destruct (ei_lock _ _ _ I) as [Hl1 Hl2]; [by rewrite Hst|]. destruct (ei_slot _ _ _ I) as [Hu1 Hu2].
    split; [|done|done|done|..|done]; [apply eng_inv_fresh; [apply I|apply I|done..]|by intros a (v & ?%elem_of_nil & _)..]. }
  cbn [ss_height ss_parent ss_root]. unfold StartRound_finish. cbn [ss_isProposer ss_height ss_round].
  change (e_height e1) with (e_height e). change (e_round e1) with (e_round e). change (e_valSet e1) with (e_valSet e).
  change (e_address e1) with (e_address e). change (e_parent e1) with (e_parent e). change (e_proposeRoot e1) with (e_proposeRoot e).
  change (e_builder e1) with (e_builder e). change (e_key e1) with (e_key e).
  rewrite Hh, Hr, Hme, (ei_vals _ _ _ I), (gr_proposer G). case_bool_decide as Hp.
  - injection Hp as Hp. destruct (Hb Hp) as [-> Hs]. rewrite !Z.eqb_refl, (bool_decide_eq_true_2 (e_step e1 = StepPropose)) by done. cbn [negb orb].
    fold hash. rewrite Hs. assert (in_round ([] ++ [MProposal p]) e1) as R' by (by apply in_round_more).
    destruct (gr_block G). destruct (after_proposal _ e1 (outbox_proposal empty_box p) p R' eq_refl) as [Hl|Hd]; [done|done| |]; [left|by right]. eexists. split; [exact Hl|]. left. by left.
  - assert (live [] e1) as Hl. { split; [done|]. split; [done|]. apply not_elem_of_nil. }
    rewrite !Z.eqb_refl, (bool_decide_eq_true_2 (e_step e1 = StepPropose)) by done. cbn [negb orb]. left. exists []. split; [exact Hl|]. right. congruence.
Qed.

Lemma voted_mono seen seen' typ a : seen ⊆ seen' → voted seen typ a → voted seen' typ a.
Proof using. intros Hs (v & Hv & Hrest). exists v. split; [by apply Hs|done]. Qed.
End Liveness.

(** C3. A good round commits: let three times the total power fit 64 bits,
    honest validators hold a quorum and the proposer of a round be one of
    them.  A validator that starts the round and then receives, in any order
    and with repetitions, the proposal and the prevotes and precommits of the
    honest validators ends the round having committed the proposed block: its
    height is the next one, its parent the new block and its last commit names
    it.  Other votes of the height may come in between, and copies of the
    proposal as long as none has lost its block or carries another one of the
    same hash: the proposer's signature covers the hash alone. *)
Theorem good_round_commits `{C : Crypto} {L : CryptoLaws C} vals o height round H p b me e ms :
  vs_wf vals → power_bound vals → order_ok o → good_round vals height round H p b → at_start vals height round p b me e →
  Forall (message_ok height round H p b) ms → (p_Proposer p = me ∨ MProposal p ∈ ms) →
  (∀ a, a ∈ H → a = me ∨ (voted vals height round ms VotePrevote a ∧ voted vals height round ms VotePrecommit a)) →
  let e' := deliver_all o (StartRound o e).1.1 ms in
  e_height e' = height + 1 ∧ e_round e' = 0 ∧ e_parent e' = header b ∧
  ∃ ev, e_LastCommit e' = Some ev ∧ ce_Height ev = height ∧ ce_Round ev = round ∧ ce_BlockHash ev = Block_Hash b ∧ ce_Block ev = Some b.
Proof.
  intros Hwf Hb Ho G Hst Hms Hp Hall e'. change (decided height round b e').
  pose proof (StartRound_live vals Hwf Hb o Ho height round H p b me G e Hst) as Hs. cbv zeta in Hs.
  destruct Hs as [(seen & Hl & Hseen)|Hd].
  2: { unfold e'. by rewrite (decided_all o height round H p b). }
  destruct (live_all vals Hwf Hb o Ho height round H p b me G seen _ ms (or_introl Hl) Hms) as [Hlive|Hd]; [|exact Hd].
  exfalso. eapply (live_stuck vals Hwf Hb height round H p b me G); [exact Hlive|left|].
  - apply elem_of_app. destruct Hseen as [?|Hne]; [by left|]. destruct Hp as [?|?]; [done|by right].
  - intros a Ha. destruct (Hall a Ha) as [?|[H1 H2]]; [by left|right]. split; (eapply voted_mono; [|eassumption]); set_solver.
Qed.

(** *** Four validators, one of them silent and faulty *)
Local Existing Instances toy_crypto toy_crypto_laws.

Definition good_block : Block := faulty_block 5.
Definition good_proposal : Proposal := faulty_proposal 5.
Definition good_honest : gset Address := list_to_set (map addr_of [1; 2; 3]).
Definition good_vote (k typ : Z) : Vote := toy_vote k typ 1 0 (Block_Hash good_block).

(** The precommits arrive first and the proposal last; validator 4 votes nil. *)
Definition good_messages : list message :=
  [MVote (good_vote 2 VotePrecommit); MVote (toy_vote 4 VotePrevote 1 0 0); MVote (good_vote 3 VotePrecommit);
   MVote (good_vote 3 VotePrevote); MVote (good_vote 3 VotePrevote); MVote (good_vote 2 VotePrevote); MProposal good_proposal].

Lemma good_engine : ∃ e, NewEngine (four_cfg 1) = Ok e ∧ e_step e = StepNewRound ∧ e_height e = 1 ∧ e_round e = 0 ∧ e_address e = addr_of 1 ∧
  e_validator e = DefaultValidator None ∧ e_parent e = MakeGenesisHeader.
Proof.
  unfold NewEngine. cbn [four_cfg cfg_PrivateKey cfg_ValSet cfg_Parent]. change (PubkeyToAddress _) with (addr_of 1).
  destruct (Get four_vals (addr_of 1)) eqn:E.
  - eexists. split; [reflexivity|]. split_and!; reflexivity.
  - vm_compute in E. discriminate E.
Qed.

(** Checks of the messages by evaluation. *)
Definition vote_for (v : Vote) (a typ : Z) : bool :=
  (v_Type v =? typ) && (v_Height v =? 1) && (v_Round v =? 0) && (v_Validator v =? a) && is_ok (VerifyVote v) &&
  match Get four_vals a with Some _ => true | None => false end.

Definition vote_check (v : Vote) : bool :=
  (v_Height v =? 1) && (bool_decide (v_Validator v ∉ good_honest) || (v_BlockHash v =? Block_Hash good_block)).

Lemma vote_check_ok v : vote_check v = true → message_ok 1 0 good_honest good_proposal good_block (MVote v).
Proof.
  intros [H1 H2]%andb_prop. apply Z.eqb_eq in H1. split; [exact H1|]. intros Hv. split; [exact Hv|]. intros Hin _ _.
  apply orb_prop in H2 as [H2|H2]; [|by apply Z.eqb_eq]. apply bool_decide_eq_true in H2. by destruct (H2 Hin).
Qed.

Lemma good_messages_ok : Forall (message_ok 1 0 good_honest good_proposal good_block) good_messages.
Proof.
  unfold good_messages. do 6 (apply Forall_cons; split; [apply vote_check_ok; vm_compute; reflexivity|]).
  apply Forall_singleton. split; [vm_compute; reflexivity|]. intros _ _ _. split; [reflexivity|]. exists good_block. by split.
Qed.

Lemma voted_check ms typ a : existsb (λ m, match m with MVote v => vote_for v a typ | MProposal _ => false end) ms = true →
  voted four_vals 1 0 ms typ a.
Proof.
  intros ([q|v] & Hin & Hv)%existsb_exists; [discriminate Hv|]. exists v. unfold vote_for in Hv.
  apply andb_prop in Hv as [[[[[H1 H2]%andb_prop H3]%andb_prop H4]%andb_prop H5]%andb_prop H6].
  apply Z.eqb_eq in H1, H2, H3, H4. split; [by apply list_elem_of_In|]. do 4 (split; [assumption|]). split.
  - destruct (VerifyVote v) as [[]|]; [reflexivity|discriminate H5].
  - destruct (Get four_vals a) as [x|]; [by exists x|discriminate H6].
Qed.

Lemma one_of_three (k : Z) : k ∈ [1; 2; 3] → k = 1 ∨ k = 2 ∨ k = 3.
Proof. set_solver. Qed.

Lemma good_round_commits_witness : ∃ e, NewEngine (four_cfg 1) = Ok e ∧
  e_height (deliver_all list_order (StartRound list_order e).1.1 good_messages) = 2.
Proof.
  destruct good_engine as (e & E & H1 & H2 & H3 & H4 & H5 & H6). exists e. split; [exact E|].
  destruct (good_round_commits four_vals list_order 1 0 good_honest good_proposal good_block (addr_of 1) e good_messages) as (Hh & _).
  - exact four_vals_wf.
  - exact four_power_bound.
  - exact list_order_ok.
  - split.
    + lia.
    + unfold is_u64. lia.
    + vm_compute. reflexivity.
    + vm_compute. reflexivity.
    + split; vm_compute; reflexivity.
    + split; vm_compute; reflexivity.
    + vm_compute. discriminate.
    + vm_compute. reflexivity.
  - destruct (NewEngine_inv (λ _, True) four_vals (four_cfg 1) e eq_refl E) as [I _]. split.
    + exact I.
    + exact H1.
    + split; assumption.
    + exact H4.
    + rewrite H5, H6. vm_compute. reflexivity.
    + intros Hp. exfalso. revert Hp. vm_compute. discriminate.
  - exact good_messages_ok.
  - right. unfold good_messages. do 6 right. left.
  - intros a Ha. unfold good_honest in Ha. rewrite elem_of_list_to_set in Ha. apply list_elem_of_fmap in Ha as (k & -> & Hk).
    destruct (one_of_three k Hk) as [-> | [-> | ->]].
    + left. reflexivity.
    + right. split; apply voted_check; vm_compute; reflexivity.
    + right. split; apply voted_check; vm_compute; reflexivity.
  - exact Hh.
Defined.
