(* ===== verification/Rlp.v ===== *)
(** * RLP decoding

    [rlp.EncodeToBytes] is a parameter of the development ([Types.Crypto]).
    This file adds its inverse, [rlp.DecodeBytes], as the source uses it: the
    decoder splits the bytes into a tree of byte strings and lists, and the
    Go type it decodes into says which trees are accepted.  An unsigned
    integer and a [*big.Int] are byte strings without a leading zero.

    The laws are witnessed by the encoding of the RLP specification. *)
From S2P Require Import Prelude Types Toy DewTx.

#[warnings="-register-all"]
Inductive rlp_tree : Type :=
| TStr (b : list Z)
| TList (l : list rlp_tree).

Fixpoint item_tree (i : rlp_item) : rlp_tree :=
  match i with
  | RStr b => TStr b
  | RNum n => TStr (big_bytes n)
  | RList l => TList (map item_tree l)
  end.

(** The values [rlp] encodes: bytes and non-negative integers. *)
Fixpoint item_ok (i : rlp_item) : Prop :=
  match i with
  | RStr b => bytes_ok b
  | RNum n => 0 <= n
  | RList l => foldr (λ j P, item_ok j ∧ P) True l
  end.

Class RlpCodec : Type := { rlp_decode : list Z → option rlp_tree }.

Class RlpLaws (C : Crypto) (R : RlpCodec) : Prop := {
  rlp_decode_encode : ∀ i, item_ok i → rlp_decode (rlp_encode i) = Some (item_tree i);
  rlp_encode_tree : ∀ i j, item_ok i → item_ok j → item_tree i = item_tree j → rlp_encode i = rlp_encode j;
  rlp_list_head : ∀ l, ∃ x r, rlp_encode (RList l) = x :: r ∧ 128 <= x;
  rlp_encode_bytes : ∀ i, item_ok i → bytes_ok (rlp_encode i);
  rlp_decode_canonical : ∀ b t, rlp_decode b = Some t → ∃ i, item_ok i ∧ item_tree i = t ∧ rlp_encode i = b;
}.

(** ** Decoding into Go types *)
Definition dec_bytes (t : rlp_tree) : option (list Z) :=
  match t with TStr b => Some b | TList _ => None end.

(** [*big.Int] *)
Definition dec_big (t : rlp_tree) : option Z :=
  match t with
  | TStr b => if bool_decide (head b = Some 0) then None else Some (of_be b)
  | TList _ => None
  end.

(** [uint8], [uint32], [uint64], [uint]: a value of [w] bits. *)
Definition dec_uint (w : Z) (t : rlp_tree) : option Z :=
  n ← dec_big t; if n <? 2 ^ w then Some n else None.

Definition dec_slice {A} (f : rlp_tree → option A) (t : rlp_tree) : option (list A) :=
  match t with TList l => mapM f l | TStr _ => None end.

(** [rlp.DecodeBytes] into a type with this decoder. *)
Definition rlp_into {A} `{RlpCodec} (f : rlp_tree → option A) (b : list Z) : res A :=
  match rlp_decode b ≫= f with Some a => Ok a | None => Err "rlp" end.

(** A structure is a list with one element per field. *)
Definition dec_fields (t : rlp_tree) : option (list rlp_tree) :=
  match t with TList l => Some l | TStr _ => None end.

Lemma item_ok_list l : item_ok (RList l) ↔ Forall item_ok l.
Proof.
  cbn. induction l as [|i l IH]; cbn; [done|]. rewrite Forall_cons, IH. done.
Qed.

Lemma rlp_item_rect' (P : rlp_item → Prop) :
  (∀ b, P (RStr b)) → (∀ n, P (RNum n)) → (∀ l, Forall P l → P (RList l)) → ∀ i, P i.
Proof.
  intros Hs Hn Hl. fix IH 1. intros [b|n|l]; [apply Hs|apply Hn|]. apply Hl.
  induction l as [|i l IHl]; constructor; [apply IH|exact IHl].
Qed.

(** ** Integers *)
Lemma be_bytes_head (n : nat) z : 256 ^ Z.of_nat n <= z < 256 ^ Z.of_nat (S n) →
  head (be_bytes (S n) z) = Some (z / 256 ^ Z.of_nat n).
Proof.
  revert z. induction n as [|n IH]; intros z Hz.
  - cbn in *. rewrite Z.div_1_r, Z.mod_small by lia. done.
  - change (be_bytes (S (S n)) z) with (be_bytes (S n) (z / 256) ++ [z mod 256]).
    rewrite head_app, IH.
    + f_equal. rewrite Z.div_div by lia. f_equal. rewrite (Nat2Z.inj_succ n), Z.pow_succ_r by lia. lia.
    + rewrite !Nat2Z.inj_succ, !Z.pow_succ_r in * by lia. split.
      * apply Z.div_le_lower_bound; lia.
      * apply Z.div_lt_upper_bound; lia.
Qed.

Lemma big_bytes_no_zero n : 0 <= n → head (big_bytes n) ≠ Some 0.
Proof.
  intros Hn. unfold big_bytes. rewrite Z.abs_eq by done.
  destruct (byte_len n) as [|k] eqn:E; [done|].
  assert (256 ^ Z.of_nat k <= n < 256 ^ Z.of_nat (S k)) as Hr.
  { split.
    - apply Z.nlt_ge. intros H. apply (byte_len_le n k Hn) in H. lia.
    - apply byte_len_le; [done|lia]. }
  rewrite be_bytes_head by done. intros [= H].
  apply Z.div_small_iff in H; [|apply Z.pow_nonzero; lia]. lia.
Qed.

Lemma of_be_big_bytes n : 0 <= n → of_be (big_bytes n) = n.
Proof.
  intros Hn. unfold big_bytes. rewrite Z.abs_eq by done. apply of_be_be_bytes_id.
  split; [done|]. by apply byte_len_le.
Qed.

Lemma big_bytes_ok n : bytes_ok (big_bytes n).
Proof. apply be_bytes_ok. Qed.

(** A byte string without a leading zero is the image of its value. *)
Lemma big_bytes_of_be b : bytes_ok b → head b ≠ Some 0 → big_bytes (of_be b) = b.
Proof.
  intros Hb Hz. pose proof (of_be_range b Hb) as Hr. unfold big_bytes. rewrite Z.abs_eq by lia.
  destruct b as [|x b]; [done|]. rewrite <- (be_bytes_of_be (x :: b) Hb) at 3. f_equal.
  apply Forall_cons in Hb as [Hx Hb]. unfold is_byte in Hx.
  assert (x ≠ 0) as Hx0 by (intros ->; by apply Hz).
  assert (256 ^ Z.of_nat (length b) <= of_be (x :: b)) as Hlow.
  { change (of_be (x :: b)) with (foldl (λ acc c, acc * 256 + c) x b).
    assert (∀ y, 0 <= y → y * 256 ^ Z.of_nat (length b) <= foldl (λ acc c, acc * 256 + c) y b) as H.
    { clear -Hb. induction Hb as [|c b Hc _ IH]; intros y Hy.
      - cbn [length foldl]. change (Z.of_nat 0) with 0. rewrite Z.pow_0_r. lia.
      - cbn [length foldl]. unfold is_byte in Hc. specialize (IH (y * 256 + c) ltac:(lia)).
        rewrite Nat2Z.inj_succ, Z.pow_succ_r by lia.
        assert (0 <= c * 256 ^ Z.of_nat (length b)) by (apply Z.mul_nonneg_nonneg; lia). lia. }
    specialize (H x ltac:(lia)).
    assert (256 ^ Z.of_nat (length b) <= x * 256 ^ Z.of_nat (length b)); [|lia].
    assert (0 < 256 ^ Z.of_nat (length b)) by (apply Z.pow_pos_nonneg; lia). nia. }
  apply Nat.le_antisymm.
  - apply byte_len_le; lia.
  - apply Nat.nlt_ge. intros H. assert (byte_len (of_be (x :: b)) <= length b)%nat as H' by (cbn [length] in H; lia).
    apply byte_len_le in H'; lia.
Qed.

Lemma dec_bytes_str b : dec_bytes (item_tree (RStr b)) = Some b.
Proof. done. Qed.

Lemma dec_big_num n : 0 <= n → dec_big (TStr (big_bytes n)) = Some n.
Proof.
  intros Hn. cbn [dec_big]. rewrite bool_decide_false by by apply big_bytes_no_zero.
  by rewrite of_be_big_bytes.
Qed.

Lemma dec_uint_num w n : 0 <= n < 2 ^ w → dec_uint w (TStr (big_bytes n)) = Some n.
Proof.
  intros Hn. unfold dec_uint. rewrite dec_big_num by lia. cbn [mbind option_bind].
  by rewrite (proj2 (Z.ltb_lt _ _)) by lia.
Qed.

Lemma dec_slice_map {A} (f : rlp_tree → option A) (g : A → rlp_item) l :
  (∀ a, a ∈ l → f (item_tree (g a)) = Some a) → dec_slice f (item_tree (RList (map g l))) = Some l.
Proof.
  intros H. cbn [item_tree dec_slice]. induction l as [|a l IH]; [done|]. cbn.
  rewrite H by set_solver. cbn. rewrite IH; [done|]. intros; apply H. set_solver.
Qed.

Lemma dec_slice_bytes l : dec_slice dec_bytes (item_tree (RList (map RStr l))) = Some l.
Proof. apply dec_slice_map. done. Qed.

#[export] Hint Rewrite dec_bytes_str dec_slice_bytes : dewrw.

Lemma rlp_into_encode {A} `{C : Crypto} `{R : RlpCodec} {L : RlpLaws C R} (f : rlp_tree → option A) i a :
  item_ok i → f (item_tree i) = Some a → rlp_into f (rlp_encode i) = Ok a.
Proof. intros Hi Hf. unfold rlp_into. rewrite rlp_decode_encode by done. cbn. by rewrite Hf. Qed.

(** The whole input of a decoder whose result re-encodes to the same tree. *)
Lemma rlp_into_canonical {A} `{C : Crypto} `{R : RlpCodec} {L : RlpLaws C R} (f : rlp_tree → option A) b a :
  rlp_into f b = Ok a → ∃ i, item_ok i ∧ rlp_encode i = b ∧ f (item_tree i) = Some a.
Proof.
  unfold rlp_into. destruct (rlp_decode b) as [t|] eqn:E; [|done]. cbn.
  destruct (rlp_decode_canonical b t E) as (i & Hi & <- & He).
  destruct (f (item_tree i)) as [a'|] eqn:Ef; [|done]. intros [= ->]. eauto.
Qed.

(** ** The native transaction's codec, by RLP *)
Definition dec_dewtx (t : rlp_tree) : option dewTxSignedRLP :=
  match dec_fields t with
  | Some [ve; ch; no; se; re; am; fe; pa; ac; y; r; s] =>
      ve ← dec_uint 32 ve; ch ← dec_big ch; no ← dec_uint 64 no; se ← dec_bytes se; re ← dec_bytes re;
      am ← dec_big am; fe ← dec_uint 64 fe; pa ← dec_bytes pa; ac ← dec_slice dec_bytes ac;
      y ← dec_big y; r ← dec_big r; s ← dec_big s;
      Some (mkSigned (mkUnsigned ve ch no se re am fe pa ac) y r s)
  | _ => None
  end.

Definition rlp_dewtx `{R : RlpCodec} : DewTxCodec := {| rlp_decode_dewtx b := rlp_into dec_dewtx b |}.

Lemma tree_str_ok j b : item_ok j → item_tree j = TStr b → bytes_ok b.
Proof. destruct j; cbn [item_tree item_ok]; intros Hj [= <-]; [exact Hj|apply big_bytes_ok]. Qed.

Lemma dec_bytes_inv j b : item_ok j → dec_bytes (item_tree j) = Some b → item_tree j = TStr b ∧ bytes_ok b.
Proof.
  intros Hj. destruct (item_tree j) as [b'|] eqn:Ht; [|done]. cbn. intros [= ->]. split; [done|by eapply tree_str_ok].
Qed.

Lemma dec_big_inv j n : item_ok j → dec_big (item_tree j) = Some n → item_tree j = TStr (big_bytes n) ∧ 0 <= n.
Proof.
  intros Hj. destruct (item_tree j) as [b|] eqn:Ht; [|done]. pose proof (tree_str_ok _ _ Hj Ht) as Hb. cbn [dec_big].
  case_bool_decide as Hz; [done|]. intros [= <-]. split; [by rewrite big_bytes_of_be|]. apply (of_be_range b Hb).
Qed.

Lemma dec_uint_inv w j n : item_ok j → dec_uint w (item_tree j) = Some n → item_tree j = TStr (big_bytes n) ∧ 0 <= n < 2 ^ w.
Proof.
  intros Hj. unfold dec_uint. destruct (dec_big (item_tree j)) as [m|] eqn:Hm; [|done]. cbn [mbind option_bind].
  destruct (m <? 2 ^ w) eqn:Hw; [|done]. intros [= <-]. apply Z.ltb_lt in Hw. destruct (dec_big_inv _ _ Hj Hm). split; [done|lia].
Qed.

Lemma dec_slice_inv j l : item_ok j → dec_slice dec_bytes (item_tree j) = Some l →
  item_tree j = TList (map TStr l) ∧ Forall bytes_ok l.
Proof.
  destruct j as [| |js]; [done..|]. rewrite item_ok_list. cbn [item_tree dec_slice]. revert l.
  induction js as [|j js IH]; intros l Hok; cbn [map mapM]; [by intros [= <-]|].
  apply Forall_cons in Hok as [Hj Hjs]. destruct (dec_bytes (item_tree j)) as [b|] eqn:Hb; cbn [mbind option_bind]; [|done].
  destruct (mapM dec_bytes (map item_tree js)) as [bs|] eqn:Hbs; cbn [mbind option_bind]; [|done]. intros [= <-].
  destruct (dec_bytes_inv _ _ Hj Hb) as [-> Hbo]. destruct (IH bs Hjs eq_refl) as [[= ->] Hbso].
  split; [done|by constructor].
Qed.

(** Follows the decoder of a structure field by field. *)
Ltac dec_field H :=
  match type of H with
  | mbind _ (dec_uint ?w (item_tree ?j)) = _ =>
      let n := fresh "n" in let E := fresh "E" in
      destruct (dec_uint w (item_tree j)) as [n|] eqn:E; [|done]; apply dec_uint_inv in E; [|done]
  | mbind _ (dec_big (item_tree ?j)) = _ =>
      let n := fresh "n" in let E := fresh "E" in
      destruct (dec_big (item_tree j)) as [n|] eqn:E; [|done]; apply dec_big_inv in E; [|done]
  | mbind _ (dec_bytes (item_tree ?j)) = _ =>
      let n := fresh "b" in let E := fresh "E" in
      destruct (dec_bytes (item_tree j)) as [n|] eqn:E; [|done]; apply dec_bytes_inv in E; [|done]
  | mbind _ (dec_slice dec_bytes (item_tree ?j)) = _ =>
      let n := fresh "l" in let E := fresh "E" in
      destruct (dec_slice dec_bytes (item_tree j)) as [n|] eqn:E; [|done]; apply dec_slice_inv in E; [|done]
  end; cbn [mbind option_bind] in H.

Lemma signed_item_ok r : raw_ok r → item_ok (signed_item r).
Proof.
  intros [Hv Hn Hf Hc Ha (Hy & Hr & Hs) Hse Hre Hpa Hal]. unfold is_u64 in *. apply item_ok_list.
  unfold unsigned_fields. cbn [app]. repeat (apply Forall_cons_2; [cbn [item_ok]; first [lia|assumption|idtac]|]); [|by apply Forall_nil_2].
  fold (item_ok (RList (map RStr (u_AccessList (s_unsigned r))))). apply item_ok_list, Forall_fmap. exact Hal.
Qed.

Lemma dec_dewtx_item r : raw_ok r → dec_dewtx (item_tree (signed_item r)) = Some r.
Proof.
  intros [Hv Hn Hf Hc Ha (Hy & Hr & Hs) _ _ _ _]. unfold is_u64, dec_dewtx, signed_item, unsigned_fields in *.
  cbn [app item_tree map dec_fields]. change (TList (map item_tree (map RStr ?l))) with (item_tree (RList (map RStr l))).
  repeat first [rewrite dec_uint_num by lia | rewrite dec_big_num by lia | rewrite dec_slice_bytes]; cbn [mbind option_bind dec_bytes].
  repeat first [rewrite dec_uint_num by lia | rewrite dec_big_num by lia | rewrite dec_slice_bytes]; cbn [mbind option_bind dec_bytes].
  by destruct r as [[] ? ? ?].
Qed.

Lemma dec_dewtx_inv l r : Forall item_ok l → dec_dewtx (TList (map item_tree l)) = Some r →
  raw_ok r ∧ item_tree (signed_item r) = TList (map item_tree l).
Proof.
  intros Hok H. unfold dec_dewtx in H. cbn [dec_fields] in H.
  do 12 (destruct l as [|? l]; [done|]). destruct l; [|done]. cbn [map] in *.
  repeat (apply Forall_cons in Hok as [? Hok]). repeat dec_field H. injection H as <-. destruct_and!.
  split; [split; cbn; unfold is_u64; try done; lia|].
  unfold signed_item, unsigned_fields. cbn [app item_tree map s_unsigned u_Version u_ChainID u_Nonce u_Sender u_Receiver u_Amount
    u_Fee u_Payload u_AccessList s_YParity s_R s_S]. rewrite map_map. cbn [item_tree].
  repeat match goal with H : item_tree ?j = _ |- context [item_tree ?j] => rewrite H; clear H end. done.
Qed.

Lemma rlp_dewtx_laws `{C : Crypto} `{R : RlpCodec} {L : RlpLaws C R} : DewTxCodecLaws C rlp_dewtx.
Proof.
  split.
  - intros r Hr. apply rlp_into_encode; [by apply signed_item_ok|by apply dec_dewtx_item].
  - intros b r Hb. apply rlp_into_canonical in Hb as (i & Hi & <- & Hd).
    destruct i as [| |l]; [done|done|]. apply item_ok_list in Hi as Hl. cbn [item_tree] in Hd.
    destruct (dec_dewtx_inv l r Hl Hd) as [Hr Ht]. split; [done|].
    apply rlp_encode_tree; [by apply signed_item_ok|done|done].
  - intros r. unfold signed_item. destruct (rlp_list_head (unsigned_fields (s_unsigned r) ++
      [RNum (s_YParity r); RNum (s_R r); RNum (s_S r)])) as (x & q & -> & _). done.
Qed.

(** ** The encoding of the RLP specification

    It stands for go-ethereum's [rlp] package and shows that the laws hold of
    it.  A payload whose length needs more than eight bytes cannot be encoded
    by RLP and cannot be held by a Go program; so that the laws need no bound,
    it gets a header that RLP leaves unused, with its length in unary. *)
Definition rlp_head (base long : Z) (mark n : nat) : list Z :=
  let k := byte_len (Z.of_nat n) in
  if (n <? 56)%nat then [base + Z.of_nat n]
  else if (k <=? 8)%nat then (long + Z.of_nat k) :: big_bytes (Z.of_nat n)
  else 129 :: Z.of_nat mark :: replicate n 1 ++ [0].

Definition str_head (n : nat) : list Z := rlp_head 128 183 0 n.
Definition list_head (n : nat) : list Z := rlp_head 192 247 1 n.

Definition encode_str (b : list Z) : list Z :=
  match b with
  | [x] => if x <? 128 then [x] else [129; x]
  | _ => str_head (length b) ++ b
  end.

Fixpoint encode_tree (t : rlp_tree) : list Z :=
  match t with
  | TStr b => encode_str b
  | TList l => let p := concat (map encode_tree l) in list_head (length p) ++ p
  end.

Definition read_long (k : Z) (l : list Z) : nat * list Z :=
  (Z.to_nat (of_be (take (Z.to_nat k) l)), drop (Z.to_nat k) l).

Definition read_len (x : Z) (l : list Z) : nat * list Z :=
  if x <? 56 then (Z.to_nat x, l) else read_long (x - 55) l.

Fixpoint read_unary (l : list Z) : nat * list Z :=
  match l with
  | 1 :: l => let '(n, r) := read_unary l in (S n, r)
  | _ :: l => (0%nat, l)
  | [] => (0%nat, [])
  end.

Definition cut (p : nat * list Z) : list Z * list Z := (take p.1 p.2, drop p.1 p.2).

Fixpoint parse_many (parse : list Z → option (rlp_tree * list Z)) (k : nat) (l : list Z)
    : option (list rlp_tree) :=
  match l with
  | [] => Some []
  | _ => match k with
         | O => None
         | S k => '(t, r) ← parse l; ts ← parse_many parse k r; Some (t :: ts)
         end
  end.

Fixpoint parse_tree (fuel : nat) (l : list Z) : option (rlp_tree * list Z) :=
  match fuel, l with
  | S fuel, x :: l =>
      let str '(b, r) := Some (TStr b, r) in
      let lst '(p, r) := ts ← parse_many (parse_tree fuel) (length p) p; Some (TList ts, r) in
      if x <? 128 then Some (TStr [x], l)
      else match decide (x = 129), l with
      | left _, 0 :: l => str (cut (read_unary l))
      | left _, 1 :: l => lst (cut (read_unary l))
      | _, _ =>
          if x <? 192 then str (cut (read_len (x - 128) l)) else lst (cut (read_len (x - 192) l))
      end
  | _, _ => None
  end.

Lemma cut_app n b l : n = length b → cut (n, b ++ l) = (b, l).
Proof. intros ->. unfold cut. cbn. by rewrite take_app_length, drop_app_length. Qed.

Lemma read_long_big n l : read_long (Z.of_nat (byte_len (Z.of_nat n))) (big_bytes (Z.of_nat n) ++ l) = (n, l).
Proof.
  unfold read_long. rewrite Nat2Z.id.
  assert (length (big_bytes (Z.of_nat n)) = byte_len (Z.of_nat n)) as H by (rewrite big_bytes_length, Z.abs_eq; [done|lia]).
  rewrite <- H, take_app_length, drop_app_length, of_be_big_bytes, Nat2Z.id by lia. done.
Qed.

Lemma byte_len_pos n : (56 <= n)%nat → (0 < byte_len (Z.of_nat n))%nat.
Proof.
  intros Hn. apply Nat.nle_gt. intros H. apply (byte_len_le (Z.of_nat n) 0) in H; [|lia].
  change (Z.of_nat 0) with 0 in H. rewrite Z.pow_0_r in H. lia.
Qed.

Lemma read_unary_app n l : read_unary (replicate n 1 ++ 0 :: l) = (n, l).
Proof. induction n as [|n IH]; [done|]. cbn. by rewrite IH. Qed.

(** The parser reads a header back, whatever it heads. *)
Lemma parse_head fuel (base long : Z) (mark : nat) b l :
  (base, long, mark) = (128, 183, 0%nat) ∧ (∀ x, b = [x] → 128 <= x) ∨ (base, long, mark) = (192, 247, 1%nat) →
  parse_tree (S fuel) ((rlp_head base long mark (length b) ++ b) ++ l) =
    if decide (mark = 0%nat) then Some (TStr b, l)
    else ts ← parse_many (parse_tree fuel) (length b) b; Some (TList ts, l).
Proof.
  intros Hk. rewrite <- app_assoc. unfold rlp_head.
  destruct (length b <? 56)%nat eqn:E; [apply Nat.ltb_lt in E|apply Nat.ltb_ge in E].
  - cbn [app parse_tree]. destruct Hk as [[[= -> -> ->] H1]|[= -> -> ->]]; rewrite (proj2 (Z.ltb_ge _ _)) by lia;
      unfold read_len.
    + destruct (decide (128 + Z.of_nat (length b) = 129)) as [E1|_].
      * assert (length b = 1%nat) as Hb by lia. destruct b as [|x [|]]; try done. specialize (H1 x eq_refl).
        cbn [app]. destruct x as [|[]|]; try lia; reflexivity.
      * rewrite !(proj2 (Z.ltb_lt _ _)) by lia. replace (Z.to_nat _) with (length b) by lia. by rewrite cut_app.
    + rewrite decide_False, (proj2 (Z.ltb_ge _ _)), (proj2 (Z.ltb_lt _ _)) by lia.
      replace (Z.to_nat _) with (length b) by lia. by rewrite cut_app.
  - pose proof (byte_len_pos _ E) as Hp. set (k := byte_len _) in *.
    destruct (k <=? 8)%nat eqn:Ek; [apply Nat.leb_le in Ek|apply Nat.leb_gt in Ek].
    + rewrite <- app_comm_cons; cbn [parse_tree].
      destruct Hk as [[[= -> -> ->] _]|[= -> -> ->]]; rewrite (proj2 (Z.ltb_ge _ _)), decide_False by lia;
        [rewrite (proj2 (Z.ltb_lt _ _)) by lia|rewrite (proj2 (Z.ltb_ge _ _)) by lia];
        unfold read_len; rewrite (proj2 (Z.ltb_ge _ _)) by lia;
        (match goal with |- context [read_long ?x _] => replace x with (Z.of_nat k) by lia end);
        unfold k; rewrite read_long_big, cut_app by done; done.
    + destruct Hk as [[[= -> -> ->] _]|[= -> -> ->]]; rewrite <- app_comm_cons, <- app_comm_cons, <- app_assoc;
        cbn [app parse_tree]; change (129 <? 128) with false; rewrite decide_True by done;
        cbn [Z.of_nat Pos.of_succ_nat]; rewrite read_unary_app, cut_app by done; done.
Qed.

Lemma parse_str fuel b l : bytes_ok b → parse_tree (S fuel) (encode_str b ++ l) = Some (TStr b, l).
Proof.
  intros Hb.
  assert ((∀ x, b = [x] → 128 <= x) → parse_tree (S fuel) ((str_head (length b) ++ b) ++ l) = Some (TStr b, l)) as Hlong.
  { intros H. unfold str_head. rewrite parse_head by by left. done. }
  destruct b as [|x [|y b]]; [by apply Hlong| |by apply Hlong].
  cbn [encode_str]. destruct (x <? 128) eqn:E; zbool.
  - cbn [app parse_tree]. by rewrite (proj2 (Z.ltb_lt _ _)) by lia.
  - change ([129; x]) with (str_head (length [x]) ++ [x]). apply Hlong. by intros y [= <-].
Qed.

Fixpoint depth (t : rlp_tree) : nat :=
  match t with
  | TStr _ => 1
  | TList l => S (foldr (λ u d, Nat.max (depth u) d) 0%nat l)
  end.

Lemma parse_many_app parse k ts :
  (length ts <= k)%nat →
  (∀ t, t ∈ ts → encode_tree t ≠ [] ∧ ∀ l, parse (encode_tree t ++ l) = Some (t, l)) →
  parse_many parse k (concat (map encode_tree ts)) = Some ts.
Proof.
  revert k. induction ts as [|t ts IH]; intros k Hk Ht; [by destruct k|].
  destruct k as [|k]; [cbn in Hk; lia|]. cbn [map concat].
  destruct (Ht t ltac:(set_solver)) as [Hne Hp].
  destruct (encode_tree t ++ concat (map encode_tree ts)) as [|x l] eqn:E.
  { apply app_eq_nil in E as [E _]. done. }
  cbn [parse_many]. rewrite <- E, Hp. cbn [mbind option_bind].
  rewrite IH; [done|cbn in Hk; lia|]. intros; apply Ht. set_solver.
Qed.

Lemma rlp_head_cons base long mark n : 128 <= base → 128 <= long →
  ∃ x l, rlp_head base long mark n = x :: l ∧ 128 <= x.
Proof.
  intros. unfold rlp_head. destruct (_ <? _)%nat; [|destruct (_ <=? _)%nat]; eexists _, _; (split; [done|lia]).
Qed.

Lemma rlp_head_nonempty base long mark n l : rlp_head base long mark n ++ l ≠ [].
Proof. unfold rlp_head. destruct (_ <? _)%nat; [done|]. by destruct (_ <=? _)%nat. Qed.

Lemma rlp_head_bytes base long mark n : (base, long, mark) = (128, 183, 0%nat) ∨ (base, long, mark) = (192, 247, 1%nat) →
  bytes_ok (rlp_head base long mark n).
Proof.
  intros Hk. unfold rlp_head. destruct (n <? 56)%nat eqn:E; [apply Nat.ltb_lt in E|].
  - apply Forall_singleton. unfold is_byte. destruct Hk as [[= -> -> ->]|[= -> -> ->]]; lia.
  - destruct (_ <=? 8)%nat eqn:Ek; [apply Nat.leb_le in Ek|].
    + apply Forall_cons_2; [|apply be_bytes_ok]. unfold is_byte. destruct Hk as [[= -> -> ->]|[= -> -> ->]]; lia.
    + apply Forall_cons_2; [unfold is_byte; lia|]. apply Forall_cons_2.
      { unfold is_byte. destruct Hk as [[= -> -> ->]|[= -> -> ->]]; lia. }
      apply Forall_app_2; [apply Forall_replicate; unfold is_byte; lia|]. apply Forall_singleton. unfold is_byte. lia.
Qed.

Lemma encode_tree_nonempty t : encode_tree t ≠ [].
Proof.
  destruct t as [b|l]; cbn.
  - destruct b as [|x [|y b]]; [apply rlp_head_nonempty|unfold encode_str; by destruct (x <? 128)|apply rlp_head_nonempty].
  - apply rlp_head_nonempty.
Qed.

Lemma length_concat_nonempty {A} (ls : list (list A)) : Forall (λ l, l ≠ []) ls → (length ls <= length (concat ls))%nat.
Proof.
  induction 1 as [|l ls Hl _ IH]; [done|]. cbn. rewrite length_app. destruct l; [done|cbn; lia].
Qed.

Lemma parse_item fuel i l : item_ok i → (depth (item_tree i) <= fuel)%nat →
  parse_tree fuel (encode_tree (item_tree i) ++ l) = Some (item_tree i, l).
Proof.
  revert fuel l. induction i as [b|n|its IH] using rlp_item_rect'; intros fuel l Hok Hd;
    (destruct fuel as [|fuel]; [cbn in Hd; lia|]); cbn [item_tree encode_tree].
  - by apply parse_str.
  - apply parse_str, big_bytes_ok.
  - apply item_ok_list in Hok. set (ts := map item_tree its). set (p := concat (map encode_tree ts)).
    assert (parse_many (parse_tree fuel) (length p) p = Some ts) as Hp.
    { apply parse_many_app.
      - unfold p. rewrite <- (length_map encode_tree ts). apply length_concat_nonempty.
        apply Forall_fmap, Forall_forall. intros t _. apply encode_tree_nonempty.
      - intros t Ht. split; [apply encode_tree_nonempty|]. intros r.
        apply list_elem_of_fmap in Ht as (i & -> & Hi).
        rewrite Forall_forall in IH, Hok. apply IH; [done|by apply Hok|].
        cbn [item_tree depth] in Hd. fold ts in Hd. clear -Hd Hi.
        assert (item_tree i ∈ ts) as Ht by (apply list_elem_of_fmap; eauto).
        revert Hd Ht. generalize ts (item_tree i). clear. intros ts t.
        induction ts as [|u ts IH]; intros Hd Ht; [by apply elem_of_nil in Ht|].
        cbn [foldr] in Hd. apply elem_of_cons in Ht as [->|Ht]; [lia|]. apply IH; [lia|done]. }
    unfold list_head. rewrite parse_head by by right. rewrite decide_False by done. by rewrite Hp.
Qed.

(** The decoder accepts exactly the canonical encodings. *)
Fixpoint tree_item (t : rlp_tree) : rlp_item :=
  match t with TStr b => RStr b | TList l => RList (map tree_item l) end.

Lemma rlp_tree_rect' (P : rlp_tree → Prop) :
  (∀ b, P (TStr b)) → (∀ l, Forall P l → P (TList l)) → ∀ t, P t.
Proof.
  intros Hs Hl. fix IH 1. intros [b|l]; [apply Hs|]. apply Hl.
  induction l as [|i l IHl]; constructor; [apply IH|exact IHl].
Qed.

Lemma item_tree_item t : item_tree (tree_item t) = t.
Proof.
  induction t as [b|l IH] using rlp_tree_rect'; [done|]. cbn. f_equal.
  induction IH as [|t l Ht _ IHl]; [done|]. cbn. by rewrite Ht, IHl.
Qed.

#[export] Instance item_ok_dec i : Decision (item_ok i).
Proof.
  revert i. fix IH 1. intros [b|n|l]; cbn [item_ok].
  - unfold bytes_ok. apply _.
  - apply _.
  - induction l as [|j l IHl]; cbn; [apply _|]. destruct (IH j), IHl; [left|right|right|right]; tauto.
Defined.

Definition spec_decode (b : list Z) : option rlp_tree :=
  match parse_tree (length b) b with
  | Some (t, []) => if decide (item_ok (tree_item t) ∧ encode_tree t = b) then Some t else None
  | _ => None
  end.

Definition spec_crypto : Crypto := {|
  Keccak256 := toy_hash;
  rlp_encode i := encode_tree (item_tree i);
  PrivateKey := Z;
  pubkey_bytes := @pubkey_bytes toy_crypto;
  eth_sign := @eth_sign toy_crypto;
  eth_ecrecover := @eth_ecrecover toy_crypto;
|}.

Lemma spec_crypto_laws : CryptoLaws spec_crypto.
Proof. destruct toy_crypto_laws. split; assumption. Qed.

Definition spec_rlp : RlpCodec := {| rlp_decode := spec_decode |}.

Lemma depth_le_length i : item_ok i → (depth (item_tree i) <= length (encode_tree (item_tree i)))%nat.
Proof.
  assert (∀ t, (depth t <= length (encode_tree t))%nat) as H; [|intros; apply H].
  induction t as [b|l IH] using rlp_tree_rect'; cbn [depth].
  - pose proof (encode_tree_nonempty (TStr b)). destruct (encode_tree (TStr b)); [done|cbn; lia].
  - cbn [encode_tree]. rewrite length_app.
    assert (foldr (λ u d, Nat.max (depth u) d) 0 l <= length (concat (map encode_tree l)))%nat as Hf.
    { induction IH as [|t l Ht _ IHl]; [done|]. cbn. rewrite length_app. lia. }
    destruct (rlp_head_cons 192 247 1 (length (concat (map encode_tree l)))) as (x & r & Hh & _); [lia..|].
    unfold list_head. rewrite Hh. cbn [length]. lia.
Qed.

Lemma tree_item_ok i : item_ok i → item_ok (tree_item (item_tree i)).
Proof.
  induction i as [b|n|its IH] using rlp_item_rect'; cbn [item_tree tree_item]; intros H; [exact H|apply big_bytes_ok|].
  apply item_ok_list in H. apply item_ok_list. rewrite Forall_forall in IH, H. apply Forall_forall.
  intros j Hj. apply list_elem_of_fmap in Hj as (t & -> & Ht). apply list_elem_of_fmap in Ht as (i & -> & Hi).
  apply IH; [done|by apply H].
Qed.

Lemma encode_item_bytes i : item_ok i → bytes_ok (encode_tree (item_tree i)).
Proof.
  assert (∀ b, bytes_ok b → bytes_ok (encode_str b)) as Hs.
  { intros b Hb. assert (bytes_ok (str_head (length b) ++ b)) as Hl.
    { apply Forall_app_2; [apply rlp_head_bytes; by left|done]. }
    destruct b as [|x [|y b]]; [done| |done]. cbn [encode_str]. destruct (x <? 128); [done|].
    apply Forall_cons_2; [unfold is_byte; lia|done]. }
  induction i as [b|n|its IH] using rlp_item_rect'; cbn [item_tree encode_tree]; intros Hi.
  - by apply Hs.
  - apply Hs, big_bytes_ok.
  - apply item_ok_list in Hi. apply Forall_app_2; [apply rlp_head_bytes; by right|].
    apply Forall_concat. apply Forall_fmap, Forall_fmap. rewrite Forall_forall in IH, Hi. apply Forall_forall.
    intros j Hj. cbn. apply IH; [done|by apply Hi].
Qed.

Lemma spec_rlp_laws : RlpLaws spec_crypto spec_rlp.
Proof.
  split; cbn [rlp_decode spec_rlp rlp_encode spec_crypto].
  - intros i Hi. unfold spec_decode.
    pose proof (parse_item _ i [] Hi (depth_le_length i Hi)) as Hp. rewrite app_nil_r in Hp. rewrite Hp.
    rewrite decide_True; [done|]. split; [by apply tree_item_ok|done].
  - by intros i j _ _ ->.
  - intros l. cbn [item_tree encode_tree]. set (p := concat _).
    destruct (rlp_head_cons 192 247 1 (length p)) as (x & r & Hh & Hx); [lia..|].
    unfold list_head. rewrite Hh. exists x, (r ++ p). by split.
  - apply encode_item_bytes.
  - intros b t. unfold spec_decode. destruct (parse_tree _ _) as [[t' [|]]|]; [|done..].
    destruct (decide _) as [[H1 H2]|]; [|done]. intros [= ->]. exists (tree_item t).
    by rewrite item_tree_item.
Qed.
