(* ===== verification/EvmTx.v ===== *)
(** * EVM transactions and wire blocks

    Models [core/types/transaction.go] (the legacy and EIP-1559 structures and
    their signed encodings), [Header.DecodeRLP] of [core/types/header.go] and
    the block encoding of [core/types/block_wire.go].

    Blocks elsewhere in the development hold each transaction as its signed
    encoding ([Types.Transaction]): it is all that hashing, storage and
    execution read of a transaction.  Here that encoding is opened.  The
    cached [hash] and [from] fields are derived data and are left out. *)
From S2P Require Import Prelude Types Toy DewTx Rlp.

Definition LegacyTxType : Z := 0x00.
Definition AccessListTxType : Z := 0x01.
Definition DynamicFeeType : Z := 0x02.

Record AccessTuple : Type := mkAccessTuple { at_Address : Address; at_StorageKeys : list Hash }.

Record EvmTx : Type := mkEvmTx {
  tx_Type : Z;
  tx_ChainID : option Z;
  tx_Nonce : Z;
  tx_GasTipCap : option Z;
  tx_GasFeeCap : option Z;
  tx_Gas : Z;
  tx_To : option Address;
  tx_Value : option Z;
  tx_Data : list Z;
  tx_AccessList : list AccessTuple;
  tx_V : option Z;
  tx_R : option Z;
  tx_S : option Z;
}.

Definition NewDynamicFeeTx (chainID : option Z) (nonce : Z) (gasTipCap gasFeeCap : option Z) (gas : Z)
    (to : option Address) (value : option Z) (data : list Z) : EvmTx :=
  mkEvmTx DynamicFeeType (Some (copyBig chainID)) nonce (Some (copyBig gasTipCap)) (Some (copyBig gasFeeCap))
    gas to (Some (copyBig value)) data [] (Some 0) (Some 0) (Some 0).

Definition IsContractCreation (tx : EvmTx) : bool := bool_decide (tx_To tx = None).

Definition addrBytes (a : option Address) : list Z := match a with None => [] | Some a => addr_bytes a end.

(** An address field of any other length than 20 is read as absent. *)
Definition bytesToAddr (b : list Z) : option Address :=
  if (length b =? 20)%nat then Some (of_be b) else None.

Definition legacyRLP (tx : EvmTx) : list rlp_item :=
  [RNum (tx_Nonce tx); RNum (copyBig (tx_GasFeeCap tx)); RNum (tx_Gas tx); RStr (addrBytes (tx_To tx));
   RNum (copyBig (tx_Value tx)); RStr (tx_Data tx); RNum (copyBig (tx_V tx)); RNum (copyBig (tx_R tx));
   RNum (copyBig (tx_S tx))].

Definition accessTupleRLP (t : AccessTuple) : rlp_item :=
  RList [RStr (addr_bytes (at_Address t)); RList (map (λ k, RStr (hash_bytes k)) (at_StorageKeys t))].

Definition dynamicFeeRLP (tx : EvmTx) : list rlp_item :=
  [RNum (copyBig (tx_ChainID tx)); RNum (tx_Nonce tx); RNum (copyBig (tx_GasTipCap tx));
   RNum (copyBig (tx_GasFeeCap tx)); RNum (tx_Gas tx); RStr (addrBytes (tx_To tx));
   RNum (copyBig (tx_Value tx)); RStr (tx_Data tx); RList (map accessTupleRLP (tx_AccessList tx));
   RNum (copyBig (tx_V tx)); RNum (copyBig (tx_R tx)); RNum (copyBig (tx_S tx))].

(** [rlp] refuses a negative [*big.Int]. *)
Definition encodable (fields : list rlp_item) : bool :=
  forallb (λ i, match i with RNum n => 0 <=? n | _ => true end) fields.

Definition encode_fields `{C : Crypto} (fields : list rlp_item) : res (list Z) :=
  if encodable fields then Ok (rlp_encode (RList fields)) else Err "rlp: cannot encode negative *big.Int".

Definition decode_tuple (t : rlp_tree) : option AccessTuple :=
  match dec_fields t with
  | Some [a; ks] =>
      a ← dec_bytes a; ks ← dec_slice dec_bytes ks;
      Some (mkAccessTuple (default 0 (bytesToAddr a)) (map BytesToHash ks))
  | _ => None
  end.

Definition decode_legacy (t : rlp_tree) : option EvmTx :=
  match dec_fields t with
  | Some [n; gp; g; to; v; d; yp; r; s] =>
      n ← dec_uint 64 n; gp ← dec_big gp; g ← dec_uint 64 g; to ← dec_bytes to; v ← dec_big v;
      d ← dec_bytes d; yp ← dec_big yp; r ← dec_big r; s ← dec_big s;
      Some (mkEvmTx LegacyTxType None n (Some gp) (Some gp) g (bytesToAddr to) (Some v) d [] (Some yp) (Some r) (Some s))
  | _ => None
  end.

Definition decode_dynamic (t : rlp_tree) : option EvmTx :=
  match dec_fields t with
  | Some [c; n; tip; fee; g; to; v; d; al; yp; r; s] =>
      c ← dec_big c; n ← dec_uint 64 n; tip ← dec_big tip; fee ← dec_big fee; g ← dec_uint 64 g;
      to ← dec_bytes to; v ← dec_big v; d ← dec_bytes d; al ← dec_slice decode_tuple al;
      yp ← dec_big yp; r ← dec_big r; s ← dec_big s;
      Some (mkEvmTx DynamicFeeType (Some c) n (Some tip) (Some fee) g (bytesToAddr to) (Some v) d al
              (Some yp) (Some r) (Some s))
  | _ => None
  end.

Section Wire.
Context `{C : Crypto} `{R : RlpCodec}.

Definition EvmTx_MarshalBinary (tx : EvmTx) : res (list Z) :=
  if tx_Type tx =? LegacyTxType then encode_fields (legacyRLP tx)
  else if tx_Type tx =? DynamicFeeType then
    let? payload := encode_fields (dynamicFeeRLP tx) in Ok (DynamicFeeType :: payload)
  else Err "types: unsupported tx type".

Definition EvmTx_UnmarshalBinary (data : list Z) : res EvmTx :=
  match data with
  | [] => Err "types: empty tx binary"
  | ty :: payload =>
      if ty =? DynamicFeeType then rlp_into decode_dynamic payload else rlp_into decode_legacy data
  end.

(** [Transaction.Hash]: an encoding error panics. *)
Definition EvmTx_Hash (tx : EvmTx) : option Hash :=
  match EvmTx_MarshalBinary tx with Ok enc => Some (Keccak256Hash enc) | Err _ => None end.

(** ** Headers and blocks *)
Definition decode_header (t : rlp_tree) : option Header :=
  match dec_fields t with
  | Some [ph; sr; tr; rr; n; ts; gl; gu; bf; ex; pr] =>
      ph ← dec_bytes ph; sr ← dec_bytes sr; tr ← dec_bytes tr; rr ← dec_bytes rr;
      n ← dec_uint 64 n; ts ← dec_uint 64 ts; gl ← dec_uint 64 gl; gu ← dec_uint 64 gu;
      bf ← dec_big bf; ex ← dec_bytes ex; pr ← dec_bytes pr;
      if negb (length pr =? 0)%nat && negb (length pr =? 20)%nat then None
      else Some (mkHeader (BytesToHash ph) (BytesToHash sr) (BytesToHash tr) (BytesToHash rr)
                   n ts gl gu (Some bf) ex (of_be pr))
  | _ => None
  end.

Definition Block_MarshalBinary (b : Block) : list Z :=
  rlp_encode (RList [RStr (Header_EncodeRLP (header b)); RList (map RStr (transactions b))]).

(** The transactions of a decoded block are re-encoded when they are hashed,
    stored or executed. *)
Definition rewire (raw : list Z) : res (list Z) :=
  let? tx := EvmTx_UnmarshalBinary raw in EvmTx_MarshalBinary tx.

Fixpoint rewire_all (raws : list (list Z)) : res (list (list Z)) :=
  match raws with
  | [] => Ok []
  | raw :: raws => let? tx := rewire raw in let? txs := rewire_all raws in Ok (tx :: txs)
  end.

Definition decode_block_payload (t : rlp_tree) : option (list Z * list (list Z)) :=
  match dec_fields t with
  | Some [h; txs] => h ← dec_bytes h; txs ← dec_slice dec_bytes txs; Some (h, txs)
  | _ => None
  end.

Definition UnmarshalBlockBinary (data : list Z) : res Block :=
  let? payload := rlp_into decode_block_payload data in
  let? h := rlp_into decode_header payload.1 in
  let? txs := rewire_all payload.2 in
  Ok (NewBlock h txs).
End Wire.

(** ** Round trips *)

(** What the constructors and the decoder produce. *)
Record tuple_ok (t : AccessTuple) : Prop := {
  tok_addr : is_addr (at_Address t);
  tok_keys : Forall is_hash (at_StorageKeys t);
}.

Definition big_ok (v : option Z) : Prop := ∃ z, v = Some z ∧ 0 <= z.

Record evmtx_ok (tx : EvmTx) : Prop := {
  eok_nonce : is_u64 (tx_Nonce tx);
  eok_gas : is_u64 (tx_Gas tx);
  eok_fee : big_ok (tx_GasFeeCap tx) ∧ big_ok (tx_GasTipCap tx) ∧ big_ok (tx_Value tx);
  eok_sig : big_ok (tx_V tx) ∧ big_ok (tx_R tx) ∧ big_ok (tx_S tx);
  eok_to : ∀ a, tx_To tx = Some a → is_addr a;
  eok_data : bytes_ok (tx_Data tx);
  eok_access : Forall tuple_ok (tx_AccessList tx);
  eok_type : tx_Type tx = LegacyTxType ∧ tx_ChainID tx = None ∧ tx_GasTipCap tx = tx_GasFeeCap tx ∧ tx_AccessList tx = []
             ∨ tx_Type tx = DynamicFeeType ∧ big_ok (tx_ChainID tx);
}.

Lemma bytesToAddr_addrBytes a : (∀ x, a = Some x → is_addr x) → bytesToAddr (addrBytes a) = a.
Proof.
  intros H. destruct a as [a|]; [|done]. unfold bytesToAddr, addrBytes. rewrite addr_bytes_length. cbn [Nat.eqb].
  by rewrite addr_bytes_roundtrip by by apply H.
Qed.

Lemma addrBytes_ok a : bytes_ok (addrBytes a).
Proof. destruct a; [apply addr_bytes_ok|constructor]. Qed.

Lemma hash_bytes_ok h : bytes_ok (hash_bytes h).
Proof. apply be_bytes_ok. Qed.

#[export] Hint Resolve addrBytes_ok hash_bytes_ok addr_bytes_ok : dew.

Lemma decode_tuple_item t : tuple_ok t → decode_tuple (item_tree (accessTupleRLP t)) = Some t.
Proof.
  intros [Ha Hk]. unfold decode_tuple, accessTupleRLP. cbn [item_tree map dec_fields].
  cbn [dec_bytes mbind option_bind].
  change (TList (map item_tree (map (λ k, RStr (hash_bytes k)) (at_StorageKeys t))))
    with (item_tree (RList (map (λ k, RStr (hash_bytes k)) (at_StorageKeys t)))).
  rewrite <- (map_map hash_bytes RStr), dec_slice_bytes. cbn [mbind option_bind].
  rewrite map_map. destruct t as [a ks]. cbn [at_Address at_StorageKeys] in *. f_equal. f_equal.
  - unfold bytesToAddr. rewrite addr_bytes_length. cbn [Nat.eqb default from_option id]. by apply addr_bytes_roundtrip.
  - induction Hk as [|k ks Hk _ IH]; [done|]. cbn [map]. by rewrite IH, BytesToHash_hash_bytes.
Qed.

Lemma accessTuple_item_ok t : item_ok (accessTupleRLP t).
Proof.
  apply item_ok_list. apply Forall_cons_2; [apply addr_bytes_ok|]. apply Forall_singleton.
  apply item_ok_list, Forall_fmap, Forall_forall. intros k _. apply hash_bytes_ok.
Qed.

Ltac big_ok_tac :=
  repeat match goal with H : big_ok _ ∧ _ |- _ => destruct H | H : big_ok _ |- _ => destruct H as (? & ? & ?) end.

(** Rewrites one decoded field after the other. *)
Ltac dec_steps :=
  repeat first
    [ rewrite dec_uint_num by (unfold is_u64 in *; lia)
    | rewrite dec_big_num by (cbn; lia)
    | progress cbn [mbind option_bind dec_bytes] ].

Section RoundTrip.
Context `{C : Crypto} `{R : RlpCodec} {RL : RlpLaws C R}.

Lemma decode_legacy_item tx : evmtx_ok tx → tx_Type tx = LegacyTxType →
  decode_legacy (item_tree (RList (legacyRLP tx))) = Some tx.
Proof using.
  clear. intros [Hn Hg Hf Hs Hto Hd _ [(Ht & Hc & Htip & Hal)|(Ht & _)]] Hty; [|by rewrite Hty in Ht].
  big_ok_tac. destruct tx as [ty c n tip fee g to v d al yp r s].
  cbn [tx_Type tx_ChainID tx_Nonce tx_GasTipCap tx_GasFeeCap tx_Gas tx_To tx_Value tx_Data tx_AccessList tx_V tx_R tx_S] in *.
  simplify_eq. unfold decode_legacy, legacyRLP.
  cbn [item_tree map dec_fields tx_Nonce tx_GasFeeCap tx_Gas tx_To tx_Value tx_Data tx_V tx_R tx_S copyBig default from_option id].
  dec_steps. by rewrite bytesToAddr_addrBytes.
Qed.

Lemma decode_dynamic_item tx : evmtx_ok tx → tx_Type tx = DynamicFeeType →
  decode_dynamic (item_tree (RList (dynamicFeeRLP tx))) = Some tx.
Proof using.
  clear. intros [Hn Hg Hf Hs Hto Hd Hal [(Ht & _)|(Ht & Hc)]] Hty; [by rewrite Hty in Ht|].
  big_ok_tac. destruct tx as [ty c n tip fee g to v d al yp r s].
  cbn [tx_Type tx_ChainID tx_Nonce tx_GasTipCap tx_GasFeeCap tx_Gas tx_To tx_Value tx_Data tx_AccessList tx_V tx_R tx_S] in *.
  simplify_eq. unfold decode_dynamic, dynamicFeeRLP.
  cbn [item_tree map dec_fields tx_ChainID tx_Nonce tx_GasTipCap tx_GasFeeCap tx_Gas tx_To tx_Value tx_Data tx_AccessList tx_V tx_R tx_S copyBig default from_option id].
  change (TList (map item_tree (map accessTupleRLP al))) with (item_tree (RList (map accessTupleRLP al))).
  dec_steps. rewrite dec_slice_map.
  - cbn [mbind option_bind]. dec_steps. by rewrite bytesToAddr_addrBytes.
  - intros t Ht. apply decode_tuple_item. rewrite Forall_forall in Hal. by apply Hal.
Qed.

Lemma fields_ok fields : encodable fields = true →
  Forall (λ i, match i with RNum _ => True | _ => item_ok i end) fields → item_ok (RList fields).
Proof using.
  clear. intros He Hf. apply item_ok_list. induction Hf as [|i l Hi _ IH]; [constructor|].
  cbn in He. apply andb_true_iff in He as [He1 He2]. constructor; [|by apply IH].
  destruct i; [done| |done]. by apply Z.leb_le.
Qed.

Lemma evmtx_encodable tx : evmtx_ok tx → encodable (legacyRLP tx) = true ∧
  (tx_Type tx = DynamicFeeType → encodable (dynamicFeeRLP tx) = true).
Proof using.
  clear. intros [Hn Hg Hf Hs _ _ _ Ht]. big_ok_tac. unfold is_u64 in *. split.
  - cbn. repeat match goal with H : _ = Some _ |- _ => rewrite H end. cbn.
    rewrite !(proj2 (Z.leb_le _ _)) by lia. done.
  - intros Hd. destruct Ht as [(Ht & _)|(_ & Hc)]; [by rewrite Hd in Ht|]. big_ok_tac. cbn.
    repeat match goal with H : _ = Some _ |- _ => rewrite H end. cbn.
    rewrite !(proj2 (Z.leb_le _ _)) by lia. done.
Qed.

Lemma evmtx_roundtrip tx : evmtx_ok tx →
  ∃ b, EvmTx_MarshalBinary tx = Ok b ∧ EvmTx_UnmarshalBinary b = Ok tx.
Proof using RL.
  intros H. destruct (evmtx_encodable tx H) as [Hl Hd]. unfold EvmTx_MarshalBinary, encode_fields.
  pose proof (eok_data _ H) as Hdata. destruct (eok_type _ H) as [(Ht & _)|(Ht & _)]; rewrite Ht; cbn [Z.eqb].
  - rewrite Hl. eexists. split; [done|]. destruct (rlp_list_head (legacyRLP tx)) as (x & r & He & Hx).
    unfold EvmTx_UnmarshalBinary. rewrite He. destruct (x =? DynamicFeeType) eqn:E; zbool; [unfold DynamicFeeType in E; lia|].
    rewrite <- He. apply rlp_into_encode; [|by apply decode_legacy_item].
    apply fields_ok; [done|]. by repeat (apply Forall_cons_2; [solve [exact I | apply addrBytes_ok | exact Hdata]|]).
  - change (DynamicFeeType =? LegacyTxType) with false. cbn [Z.eqb]. rewrite Z.eqb_refl, Hd by done. cbn [rbind].
    eexists. split; [done|]. unfold EvmTx_UnmarshalBinary. rewrite Z.eqb_refl.
    apply rlp_into_encode; [|by apply decode_dynamic_item].
    assert (item_ok (RList (map accessTupleRLP (tx_AccessList tx)))) as Hacc.
    { apply item_ok_list, Forall_fmap, Forall_forall. intros t _. apply accessTuple_item_ok. }
    apply fields_ok; [by apply Hd|].
    by repeat (apply Forall_cons_2; [solve [exact I | apply addrBytes_ok | exact Hdata | exact Hacc]|]).
Qed.

Record header_ok (h : Header) : Prop := {
  hok_hashes : is_hash (ParentHash h) ∧ is_hash (StateRoot h) ∧ is_hash (TxRoot h) ∧ is_hash (ReceiptRoot h);
  hok_nums : is_u64 (Number h) ∧ is_u64 (Timestamp h) ∧ is_u64 (GasLimit h) ∧ is_u64 (GasUsed h);
  hok_fee : big_ok (BaseFee h);
  hok_extra : bytes_ok (ExtraData h);
  hok_proposer : is_addr (Proposer h);
}.

Definition header_item (h : Header) : rlp_item :=
  RList [RStr (hash_bytes (ParentHash h)); RStr (hash_bytes (StateRoot h)); RStr (hash_bytes (TxRoot h));
    RStr (hash_bytes (ReceiptRoot h)); RNum (Number h); RNum (Timestamp h); RNum (GasLimit h); RNum (GasUsed h);
    RNum (default 0 (BaseFee h)); RStr (ExtraData h); RStr (addr_bytes (Proposer h))].

Lemma header_item_ok h : header_ok h → item_ok (header_item h).
Proof using.
  clear. intros [_ (? & ? & ? & ?) (bf & Hbf & ?) He _]. unfold is_u64 in *. apply item_ok_list. rewrite Hbf.
  cbn [default from_option id].
  repeat (apply Forall_cons_2; [cbn [item_ok]; first [lia | exact He | unfold hash_bytes, addr_bytes; apply be_bytes_ok]|]).
  apply Forall_nil_2.
Qed.

Lemma decode_header_item h : header_ok h → decode_header (item_tree (header_item h)) = Some h.
Proof using.
  clear. intros [(? & ? & ? & ?) (? & ? & ? & ?) (bf & Hbf & ?) He Ha].
  destruct h as [ph sr tr rr n ts gl gu ob ex pr]. cbn [ParentHash StateRoot TxRoot ReceiptRoot Number Timestamp
    GasLimit GasUsed BaseFee ExtraData Proposer] in *. subst ob. unfold decode_header, header_item.
  cbn [item_tree map dec_fields ParentHash StateRoot TxRoot ReceiptRoot Number Timestamp
    GasLimit GasUsed BaseFee ExtraData Proposer default from_option id].
  dec_steps. rewrite addr_bytes_length. cbn [Nat.eqb negb andb].
  by rewrite !BytesToHash_hash_bytes, addr_bytes_roundtrip by done.
Qed.

Lemma rewire_all_id txs :
  Forall (λ raw, ∃ tx, evmtx_ok tx ∧ EvmTx_MarshalBinary tx = Ok raw) txs → rewire_all txs = Ok txs.
Proof using RL.
  induction 1 as [|raw txs (tx & Hok & Hm) _ IH]; [done|]. cbn [rewire_all]. unfold rewire.
  destruct (evmtx_roundtrip tx Hok) as (b & Hb & Hu). assert (b = raw) as -> by congruence.
  rewrite Hu. cbn [rbind]. rewrite Hm. cbn [rbind]. by rewrite IH.
Qed.

(** A block as [NewBlock] leaves it, with transactions the codec covers. *)
Record block_ok (b : Block) : Prop := {
  bok_header : header_ok (header b);
  bok_roots : TxRoot (header b) ≠ 0 ∧ ReceiptRoot (header b) ≠ 0;
  bok_txs : Forall (λ raw, bytes_ok raw ∧ ∃ tx, evmtx_ok tx ∧ EvmTx_MarshalBinary tx = Ok raw) (transactions b);
}.

Lemma NewBlock_id h txs : TxRoot h ≠ 0 → ReceiptRoot h ≠ 0 → NewBlock h txs = mkBlock h txs.
Proof using.
  clear. intros Ht Hr. unfold NewBlock, Hash_IsZero, set_roots. apply Z.eqb_neq in Ht, Hr. rewrite Ht, Hr.
  by destruct h.
Qed.

Lemma block_roundtrip b : block_ok b → UnmarshalBlockBinary (Block_MarshalBinary b) = Ok b.
Proof using RL.
  intros [Hh [Ht Hr] Htx]. unfold UnmarshalBlockBinary, Block_MarshalBinary.
  pose proof (header_item_ok _ Hh) as Hitem. pose proof (rlp_encode_bytes _ Hitem) as Hbytes.
  set (it := RList [RStr _; _]).
  assert (item_ok it) as Hit.
  { apply item_ok_list. apply Forall_cons_2; [exact Hbytes|]. apply Forall_singleton.
    apply item_ok_list, Forall_fmap. eapply Forall_impl; [exact Htx|]. by intros raw [? _]. }
  rewrite (rlp_into_encode decode_block_payload it (rlp_encode (header_item (header b)), transactions b) Hit).
  - cbn [rbind fst snd]. rewrite (rlp_into_encode _ _ _ Hitem (decode_header_item _ Hh)). cbn [rbind].
    rewrite rewire_all_id by (eapply Forall_impl; [exact Htx|]; by intros raw [_ ?]). cbn [rbind].
    rewrite NewBlock_id by done. by destruct b.
  - unfold decode_block_payload, it. cbn [item_tree map dec_fields dec_bytes mbind option_bind].
    change (TList (map item_tree (map RStr (transactions b)))) with (item_tree (RList (map RStr (transactions b)))).
    by rewrite dec_slice_bytes.
Qed.
End RoundTrip.

(** ** Evaluation *)
Section Witness.
Local Existing Instances spec_crypto spec_crypto_laws spec_rlp spec_rlp_laws.

Definition sample_tx : EvmTx :=
  mkEvmTx DynamicFeeType (Some 2205) 3 (Some 1) (Some 1000) 21000 (Some 77) (Some 5) [1; 2] [mkAccessTuple 9 [4]]
    (Some 1) (Some 12) (Some 13).

Definition sample_header : Header :=
  mkHeader 1 2 3 4 5 6 30000000 21000 (Some 7) [8] 9.

Definition sample_wire : list Z := match EvmTx_MarshalBinary sample_tx with Ok b => b | Err _ => [] end.

Definition sample_block : Block := mkBlock sample_header [sample_wire].

Lemma sample_block_ok : block_ok sample_block.
Proof.
  unfold sample_block. split.
  - split; unfold is_hash, is_u64, is_addr, big_ok; cbn [header transactions sample_header ParentHash StateRoot TxRoot ReceiptRoot Number
      Timestamp GasLimit GasUsed BaseFee ExtraData Proposer]; try lia.
    + exists 7. split; [reflexivity|lia].
    + apply Forall_singleton. unfold is_byte. lia.
  - split; discriminate.
  - cbn [transactions]. apply Forall_singleton. split; [apply (bool_decide_unpack (Forall is_byte sample_wire)); vm_compute; exact I|].
    exists sample_tx. split; [|vm_compute; reflexivity].
    split; unfold is_u64, big_ok; cbn [sample_tx tx_Type tx_ChainID tx_Nonce tx_GasTipCap tx_GasFeeCap tx_Gas tx_To
      tx_Value tx_Data tx_AccessList tx_V tx_R tx_S]; try lia.
    + split_and!; eexists; (split; [reflexivity|lia]).
    + split_and!; eexists; (split; [reflexivity|lia]).
    + intros a [= <-]. unfold is_addr. lia.
    + repeat constructor; unfold is_byte; lia.
    + repeat constructor; cbn [at_Address at_StorageKeys]; unfold is_addr, is_hash; lia.
    + right. split; [reflexivity|]. eexists. split; [reflexivity|lia].
Qed.
End Witness.
