(* ===== verification/Smt.v ===== *)
(** * The sparse Merkle commitment

    Models [core/state/smt.go].  The root of a block header is computed by
    [smtRootFromMap], which climbs a sorted work list from the leaves; the
    file shows it equal to the textbook definition, the Merkle tree of depth
    256 over all 2^256 paths. *)
From S2P Require Import Prelude Types Toy.

Definition smtDepth : nat := 256.
Definition smtLeafTag : list Z := [0].
Definition smtInternalTag : list Z := [1].

(** [smtPath.bit] *)
Definition bit (p : list Z) (i : nat) : Z :=
  Z.land (Z.shiftr (nth (i / 8) p 0) (7 - Z.of_nat (i mod 8))) 1.

(** [samePrefix]: bits [0, bitIndex) agree. *)
Definition samePrefix (a b : list Z) (bitIndex : nat) : bool :=
  forallb (λ i, bit a i =? bit b i) (seq 0 bitIndex).

Fixpoint bytesCompare (a b : list Z) : Z :=
  match a, b with
  | [], [] => 0
  | [], _ :: _ => -1
  | _ :: _, [] => 1
  | x :: a', y :: b' => if x <? y then -1 else if y <? x then 1 else bytesCompare a' b'
  end.

Record node : Type := mkNode { path : list Z; hash : Hash }.
Record leaf : Type := mkLeaf { key : list Z; val : list Z }.

Definition node_le (x y : node) : Prop := bytesCompare (path x) (path y) <= 0.
#[export] Instance node_le_dec : RelDecision node_le.
Proof. intros x y. apply Z_le_dec. Defined.

Section Smt.
Context `{C : Crypto}.

Definition hashLeaf (value : list Z) : Hash := BytesToHash (Keccak256 (smtLeafTag ++ value)).
Definition hashInternal (lft rgt : Hash) : Hash :=
  BytesToHash (Keccak256 (smtInternalTag ++ hash_bytes lft ++ hash_bytes rgt)).

(** [emptyHashes], filled by [init] *)
Fixpoint emptyHashes (h : nat) : Hash :=
  match h with
  | O => BytesToHash (Keccak256 (smtLeafTag ++ str_bytes "empty"))
  | S h' => let e := emptyHashes h' in hashInternal e e
  end.

Definition EmptySMTRoot : Hash := emptyHashes smtDepth.

(** One turn of the loop over heights: the work list of the next level. *)
Definition pair_up (bitIndex : nat) (l r : node) : node :=
  let '(lft, rgt) := if bit (path l) bitIndex =? 1 then (r, l) else (l, r) in
  mkNode (path lft) (hashInternal (hash lft) (hash rgt)).

Definition lift_single (height bitIndex : nat) (cur : node) : node :=
  mkNode (path cur)
    (if bit (path cur) bitIndex =? 0 then hashInternal (hash cur) (emptyHashes height)
     else hashInternal (emptyHashes height) (hash cur)).

Fixpoint next_level (height : nat) (level : list node) : list node :=
  let bitIndex := (smtDepth - 1 - height)%nat in
  match level with
  | [] => []
  | cur :: rest =>
      match rest with
      | nxt :: rest' =>
          if samePrefix (path cur) (path nxt) bitIndex
          then pair_up bitIndex cur nxt :: next_level height rest'
          else lift_single height bitIndex cur :: next_level height rest
      | [] => [lift_single height bitIndex cur]
      end
  end.

(** The loop from [height], [n] turns. *)
Fixpoint climb (n height : nat) (level : list node) : list node :=
  match n with
  | O => level
  | S n' => climb n' (S height) (next_level height level)
  end.

Definition smtRootFromMap (leaves : gmap (list Z) Hash) : Hash :=
  if decide (leaves = ∅) then EmptySMTRoot else
  let level := merge_sort node_le (map (λ kv, mkNode kv.1 kv.2) (map_to_list leaves)) in
  match climb smtDepth 0 level with
  | [n] => hash n
  | ns => foldl (λ h n, hashInternal h (hash n)) EmptySMTRoot ns
  end.

Definition leaf_map (leaves : list leaf) : gmap (list Z) Hash :=
  foldl (λ m l, <[Keccak256 (key l) := hashLeaf (val l)]> m) ∅ leaves.

Definition ComputeSMTRoot (leaves : list leaf) : Hash :=
  match leaves with
  | [] => EmptySMTRoot
  | _ => smtRootFromMap (leaf_map leaves)
  end.

(** ** The reference tree

    [merkle f k q] is the node at height [k] whose paths are
    [q * 2^k .. (q+1) * 2^k - 1]; [f] gives the hash at a path. *)
Fixpoint merkle (f : Z → Hash) (k : nat) (q : Z) : Hash :=
  match k with
  | O => f q
  | S k' => hashInternal (merkle f k' (2 * q)) (merkle f k' (2 * q + 1))
  end.

(** The leaf at the path with this number. *)
Definition leaf_at (leaves : gmap (list Z) Hash) (n : Z) : Hash :=
  default (emptyHashes 0) (leaves !! be_bytes 32 n).
End Smt.

(** ** Paths as numbers *)
Definition path_ok (p : list Z) : Prop := length p = 32%nat ∧ bytes_ok p.

Lemma nth_of_be p i : bytes_ok p → (i < length p)%nat →
  nth i p 0 = (of_be p / 256 ^ Z.of_nat (length p - 1 - i)) mod 256.
Proof.
  induction p as [|b p IH] using rev_ind; intros Hok Hi; [cbn in Hi; lia|].
  apply Forall_app in Hok as [Hok Hb]. apply Forall_cons in Hb as [Hb _]. unfold is_byte in Hb.
  rewrite length_app in Hi |- *. cbn [length] in Hi |- *. rewrite of_be_snoc.
  destruct (decide (i = length p)) as [->|Hne].
  - rewrite app_nth2, Nat.sub_diag by lia. replace (length p + 1 - 1 - length p)%nat with 0%nat by lia.
    cbn [nth]. change (256 ^ Z.of_nat 0) with 1.
    rewrite Z.div_1_r, Z.add_comm, Z_mod_plus_full, Z.mod_small by lia. reflexivity.
  - rewrite app_nth1, IH by (lia || done).
    replace (length p + 1 - 1 - i)%nat with (S (length p - 1 - i)) by lia.
    rewrite Nat2Z.inj_succ, Z.pow_succ_r, <-Z.div_div by lia.
    rewrite Z.div_add_l, (Z.div_small b 256), Z.add_0_r by lia. reflexivity.
Qed.

Lemma bit_testbit p i : path_ok p → (i < 256)%nat →
  bit p i = Z.b2z (Z.testbit (of_be p) (255 - Z.of_nat i)).
Proof.
  intros [Hl Hok] Hi. unfold bit.
  assert (i / 8 < 32)%nat as Hd by (apply Nat.Div0.div_lt_upper_bound; lia).
  assert (i mod 8 < 8)%nat as Hm by (by apply Nat.mod_upper_bound).
  pose proof (Nat.div_mod_eq i 8) as Hdm.
  rewrite nth_of_be by (done || lia). rewrite Hl.
  change 1 with (Z.ones 1). rewrite Z.land_ones by lia. change (2 ^ 1) with 2. rewrite <-Z.bit0_mod.
  rewrite Z.shiftr_spec, Z.add_0_l by lia. change 256 with (2 ^ 8) at 2.
  rewrite Z.mod_pow2_bits_low by lia. change 256 with (2 ^ 8). rewrite <-Z.pow_mul_r by lia.
  rewrite Z.div_pow2_bits by lia. do 2 f_equal. lia.
Qed.

(** The first [n] bits of a path, as a number. *)
Definition prefix (k : nat) (p : list Z) : Z := of_be p / 2 ^ Z.of_nat k.

Lemma path_range p : path_ok p → 0 <= of_be p < 2 ^ 256.
Proof. intros [Hl Hok]. pose proof (of_be_range p Hok) as H. rewrite Hl in H. exact H. Qed.

Lemma high_bit_zero x m : 0 <= x < 2 ^ 256 → 256 <= m → Z.testbit x m = false.
Proof. intros Hx Hm. rewrite <-(Z.mod_small x (2 ^ 256)) by done. by apply Z.mod_pow2_bits_high. Qed.

Lemma samePrefix_spec a b (k : nat) : path_ok a → path_ok b → (k ≤ 256)%nat →
  samePrefix a b (256 - k) = (prefix k a =? prefix k b).
Proof.
  intros Ha Hb Hk. apply eq_true_iff_eq. unfold samePrefix. rewrite forallb_forall, Z.eqb_eq. unfold prefix.
  pose proof (path_range a Ha) as Ra. pose proof (path_range b Hb) as Rb. split.
  - intros H. apply Z.bits_inj'. intros m Hm. rewrite !Z.div_pow2_bits by lia.
    destruct (decide (m + Z.of_nat k < 256)) as [Hlt|Hge].
    + specialize (H (Z.to_nat (255 - (m + Z.of_nat k)))). rewrite in_seq in H.
      specialize (H ltac:(lia)). rewrite Z.eqb_eq in H. rewrite !bit_testbit in H by (done || lia).
      rewrite Z2Nat.id in H by lia. replace (255 - (255 - (m + Z.of_nat k))) with (m + Z.of_nat k) in H by lia.
      by apply Z.b2z_inj.
    + by rewrite !(high_bit_zero _ (m + Z.of_nat k)) by lia.
  - intros H i Hi%in_seq. rewrite Z.eqb_eq, !bit_testbit by (done || lia). f_equal.
    replace (255 - Z.of_nat i) with ((255 - Z.of_nat i - Z.of_nat k) + Z.of_nat k) by lia.
    rewrite <-!Z.div_pow2_bits by lia. by rewrite H.
Qed.

(** Comparing byte strings of one length compares the numbers. *)
Lemma of_be_cons b p : of_be (b :: p) = b * 256 ^ Z.of_nat (length p) + of_be p.
Proof.
  induction p as [|c p IH] using rev_ind; [cbn; lia|].
  rewrite app_comm_cons, !of_be_snoc, IH, length_app. cbn [length].
  replace (Z.of_nat (length p + 1)) with (Z.succ (Z.of_nat (length p))) by lia.
  rewrite Z.pow_succ_r by lia. ring.
Qed.

Lemma bytesCompare_spec a b : length a = length b → bytes_ok a → bytes_ok b →
  bytesCompare a b = match of_be a ?= of_be b with Lt => -1 | Eq => 0 | Gt => 1 end.
Proof.
  revert b. induction a as [|x a IH]; intros [|y b] Hl Ha Hb; try done. cbn in Hl. injection Hl as Hl.
  apply Forall_cons in Ha as [Hx Ha]. apply Forall_cons in Hb as [Hy Hb]. cbn [bytesCompare].
  pose proof (of_be_range a Ha) as Ra. pose proof (of_be_range b Hb) as Rb.
  rewrite !of_be_cons, Hl in *. set (B := 256 ^ Z.of_nat (length b)) in *.
  destruct (Z.ltb_spec x y) as [Hxy|Hxy].
  - rewrite (proj2 (Z.compare_lt_iff _ _)); [done|nia].
  - destruct (Z.ltb_spec y x) as [Hyx|Hyx].
    + rewrite (proj2 (Z.compare_gt_iff _ _)); [done|nia].
    + assert (x = y) as -> by lia. rewrite IH by done. by rewrite Z.add_compare_mono_l.
Qed.

Lemma node_le_spec x y : path_ok (path x) → path_ok (path y) →
  node_le x y ↔ of_be (path x) <= of_be (path y).
Proof.
  intros [Hx Hxo] [Hy Hyo]. unfold node_le. rewrite bytesCompare_spec by congruence.
  destruct (Z.compare_spec (of_be (path x)) (of_be (path y))); lia.
Qed.

#[export] Instance node_le_total : Total node_le.
Proof.
  intros [a ?] [b ?]. unfold node_le. cbn. revert b. induction a as [|x a IH]; intros [|y b]; cbn; try lia.
  destruct (Z.ltb_spec x y), (Z.ltb_spec y x); try lia. apply IH.
Qed.

#[export] Instance node_le_trans : Transitive node_le.
Proof.
  intros [a ?] [b ?] [c ?]. unfold node_le. cbn. revert b c.
  induction a as [|x a IH]; intros [|y b] [|z c]; cbn; try lia.
  destruct (Z.ltb_spec x y), (Z.ltb_spec y x), (Z.ltb_spec y z), (Z.ltb_spec z y), (Z.ltb_spec x z), (Z.ltb_spec z x);
    try lia. apply IH.
Qed.

(** ** Climbing computes the reference tree *)
Section Reference.
Context `{C : Crypto}.

(** Work lists in path order, without duplicates. *)
Definition ascending (l : list node) : Prop :=
  StronglySorted (λ x y, of_be (path x) < of_be (path y)) l ∧ Forall (λ x, path_ok (path x)) l.

(** The list holds exactly the leaves of [f] below the node [(k, q)]. *)
Record covers (f : Z → Hash) (l : list node) (k : nat) (q : Z) : Prop := {
  cv_in : ∀ x, x ∈ l → prefix k (path x) = q ∧ f (of_be (path x)) = hash x;
  cv_out : ∀ n, n / 2 ^ Z.of_nat k = q → (∀ x, x ∈ l → of_be (path x) ≠ n) → f n = emptyHashes 0;
}.

Lemma merkle_empty f k q : covers f [] k q → merkle f k q = emptyHashes k.
Proof.
  revert q. induction k as [|k IH]; intros q [_ Hout].
  - cbn. apply Hout; [apply Z.div_1_r|by intros x ?%elem_of_nil].
  - cbn [merkle emptyHashes]. assert (∀ b, 0 <= b < 2 → covers f [] k (2 * q + b)) as Hc.
    { intros b Hb. split; [by intros x ?%elem_of_nil|]. intros n Hn _. apply Hout; [|by intros x ?%elem_of_nil].
      rewrite Nat2Z.inj_succ, Z.pow_succ_r, Z.mul_comm, <-Z.div_div, Hn by lia. zlia. }
    rewrite <-(Z.add_0_r (2 * q)) at 1. rewrite (IH (2 * q + 0)), (IH (2 * q + 1)) by (apply Hc; lia). done.
Qed.

(** Nodes that cannot pair are lifted independently. *)
Lemma next_level_app h l1 l2 :
  (∀ x y, x ∈ l1 → y ∈ l2 → samePrefix (path x) (path y) (smtDepth - 1 - h) = false) →
  next_level h (l1 ++ l2) = next_level h l1 ++ next_level h l2.
Proof.
  intros Hsep. remember (length l1) as n eqn:Hn. revert l1 Hn Hsep.
  induction (lt_wf n) as [n _ IH]. intros [|x [|y l1]] Hn Hsep; [done| |].
  - destruct l2 as [|z l2]; [done|]. cbn [app next_level].
    rewrite Hsep by set_solver. done.
  - cbn [app next_level]. destruct (samePrefix (path x) (path y) _); cbn [app]; f_equal.
    + apply (IH (length l1)); [cbn in Hn; lia|done|set_solver].
    + apply (IH (length (y :: l1)) ltac:(cbn in *; lia) (y :: l1)); [done|set_solver].
Qed.

Lemma pair_up_path b x y : path (pair_up b x y) = path x ∨ path (pair_up b x y) = path y.
Proof. unfold pair_up. destruct (_ =? 1); cbn; tauto. Qed.

Lemma next_level_paths h l z : z ∈ next_level h l → ∃ x, x ∈ l ∧ path z = path x.
Proof.
  remember (length l) as n eqn:Hn. revert l Hn. induction (lt_wf n) as [n _ IH]. intros [|x [|y l]] Hn; cbn [next_level].
  - by intros ?%elem_of_nil.
  - intros ->%list_elem_of_singleton. exists x. split; [set_solver|done].
  - destruct (samePrefix _ _ _).
    + intros [->|Hz]%elem_of_cons.
      * destruct (pair_up_path (smtDepth - 1 - h) x y) as [->| ->]; [exists x|exists y]; split; (set_solver || done).
      * destruct (IH (length l) ltac:(cbn in *; lia) l eq_refl Hz) as (w & ? & ?). exists w. split; [set_solver|done].
    + intros [->|Hz]%elem_of_cons; [exists x; split; [set_solver|done]|].
      destruct (IH (length (y :: l)) ltac:(cbn in *; lia) (y :: l) eq_refl Hz) as (w & ? & ?).
      exists w. split; [set_solver|done].
Qed.

Lemma climb_app k h l1 l2 :
  (∀ x y i, x ∈ l1 → y ∈ l2 → (h ≤ i < h + k)%nat → samePrefix (path x) (path y) (smtDepth - 1 - i) = false) →
  climb k h (l1 ++ l2) = climb k h l1 ++ climb k h l2.
Proof.
  revert h l1 l2. induction k as [|k IH]; intros h l1 l2 Hsep; [done|]. cbn.
  rewrite next_level_app by (intros; apply Hsep; [done|done|lia]). apply IH.
  intros x y i Hx Hy Hi. destruct (next_level_paths _ _ _ Hx) as (x' & Hx' & ->).
  destruct (next_level_paths _ _ _ Hy) as (y' & Hy' & ->). apply Hsep; [done|done|lia].
Qed.

Lemma climb_nil k h : climb k h [] = [].
Proof. revert h. induction k; intros h; cbn; [done|auto]. Qed.

Lemma climb_snoc k h l : climb (S k) h l = next_level (h + k) (climb k h l).
Proof.
  revert h l. induction k as [|k IH]; intros h l; [cbn; by rewrite Nat.add_0_r|].
  change (climb (S (S k)) h l) with (climb (S k) (S h) (next_level h l)). rewrite IH. cbn [climb].
  by replace (h + S k)%nat with (S h + k)%nat by lia.
Qed.

Lemma prefix_S k p : prefix (S k) p = prefix k p / 2.
Proof. unfold prefix. rewrite Nat2Z.inj_succ, Z.pow_succ_r, Z.mul_comm, Z.div_div by lia. done. Qed.

Lemma prefix_le i k p p' : (i ≤ k)%nat → prefix i p = prefix i p' → prefix k p = prefix k p'.
Proof.
  intros Hik. replace k with ((k - i) + i)%nat by lia. induction (k - i)%nat as [|d IH]; [done|].
  intros H. cbn [Nat.add]. by rewrite !prefix_S, IH.
Qed.

Lemma bit_prefix p k : path_ok p → (k < 256)%nat → bit p (smtDepth - 1 - k) = prefix k p mod 2.
Proof.
  intros Hp Hk. rewrite bit_testbit by (done || unfold smtDepth; lia).
  replace (255 - Z.of_nat (smtDepth - 1 - k)) with (Z.of_nat k) by (unfold smtDepth; lia).
  unfold prefix. rewrite <-Z.shiftr_div_pow2, <-Z.bit0_mod, Z.shiftr_spec, Z.add_0_l by lia. done.
Qed.

(** The two halves of a work list below one node. *)
Lemma ascending_split l k q : ascending l → (∀ x, x ∈ l → prefix (S k) (path x) = q) →
  ∃ l0 l1, l = l0 ++ l1 ∧ (∀ x, x ∈ l0 → prefix k (path x) = 2 * q) ∧
           (∀ x, x ∈ l1 → prefix k (path x) = 2 * q + 1).
Proof.
  intros [Hs _]. induction Hs as [|x l Hs IH Hx]; intros Hq; [exists [], []; set_solver|].
  pose proof (Hq x ltac:(set_solver)) as Hqx. rewrite prefix_S in Hqx.
  assert (prefix k (path x) = 2 * q ∨ prefix k (path x) = 2 * q + 1) as [H|H] by zlia.
  - destruct IH as (l0 & l1 & -> & H0 & H1); [intros; apply Hq; set_solver|].
    exists (x :: l0), l1. set_solver.
  - exists [], (x :: l). split; [done|]. split; [set_solver|].
    intros y [->|Hy]%elem_of_cons; [done|]. pose proof (Hq y ltac:(set_solver)) as Hqy. rewrite prefix_S in Hqy.
    rewrite Forall_forall in Hx. specialize (Hx y Hy).
    assert (prefix k (path x) <= prefix k (path y)) by (apply Z.div_le_mono; lia). zlia.
Qed.

Lemma covers_half f l la k q b : covers f l (S k) q → 0 <= b < 2 →
  (∀ x, x ∈ la → prefix k (path x) = 2 * q + b ∧ x ∈ l) →
  (∀ x, x ∈ l → prefix k (path x) = 2 * q + b → x ∈ la) → covers f la k (2 * q + b).
Proof.
  intros [Hin Hout] Hb Ha Hl. split.
  - intros x Hx. destruct (Ha x Hx) as [Hp Hxl]. split; [done|]. by apply Hin.
  - intros n Hn Hnot. apply Hout.
    + rewrite Nat2Z.inj_succ, Z.pow_succ_r, Z.mul_comm, <-Z.div_div, Hn by lia. zlia.
    + intros x Hx Heq. apply (Hnot x); [|done]. apply Hl; [done|]. unfold prefix. by rewrite Heq.
Qed.

Lemma ascending_app l0 l1 : ascending (l0 ++ l1) → ascending l0 ∧ ascending l1.
Proof.
  intros [Hs Hp]. apply Forall_app in Hp as [Hp0 Hp1].
  apply StronglySorted_app in Hs as (_ & Hs0 & Hs1). done.
Qed.

(** Combining the two halves. *)
Lemma next_level_two k q p0 p1 h0 h1 : (k < 256)%nat → path_ok p0 → path_ok p1 →
  prefix k p0 = 2 * q → prefix k p1 = 2 * q + 1 →
  next_level k [mkNode p0 h0; mkNode p1 h1] = [mkNode p0 (hashInternal h0 h1)].
Proof.
  intros Hk Hp0 Hp1 H0 H1. cbn [next_level path].
  replace (smtDepth - 1 - k)%nat with (256 - S k)%nat at 1 by (unfold smtDepth; lia).
  rewrite samePrefix_spec, !prefix_S, H0, H1 by (done || lia).
  replace (2 * q / 2) with q by zlia. replace ((2 * q + 1) / 2) with q by zlia. rewrite Z.eqb_refl.
  unfold pair_up. cbn [path]. rewrite bit_prefix, H0 by done. replace (2 * q mod 2) with 0 by zlia. done.
Qed.

Lemma next_level_one k q b p h : (k < 256)%nat → path_ok p → 0 <= b < 2 → prefix k p = 2 * q + b →
  next_level k [mkNode p h] =
    [mkNode p (if b =? 0 then hashInternal h (emptyHashes k) else hashInternal (emptyHashes k) h)].
Proof.
  intros Hk Hp Hb H. cbn [next_level]. unfold lift_single. cbn [path hash].
  rewrite bit_prefix, H by done. by replace ((2 * q + b) mod 2) with b by zlia.
Qed.

(** Lists that meet only above the climb are hashed side by side. *)
Definition apart (k h : nat) (l1 l2 : list node) : Prop :=
  ∀ x y i, x ∈ l1 → y ∈ l2 → (h <= i < h + k)%nat → samePrefix (path x) (path y) (smtDepth - 1 - i) = false.

(** The two halves below a node. *)
Record halves (f : Z → Hash) (l l0 l1 : list node) (k : nat) (q : Z) : Prop := {
  hv_app : l = l0 ++ l1;
  hv_left : ascending l0 ∧ covers f l0 k (2 * q) ∧ ∀ x, x ∈ l0 → prefix k (path x) = 2 * q;
  hv_right : ascending l1 ∧ covers f l1 k (2 * q + 1) ∧ ∀ x, x ∈ l1 → prefix k (path x) = 2 * q + 1;
  hv_apart : apart k 0 l0 l1;
}.

Lemma covers_halves f l k q : (S k ≤ 256)%nat → ascending l → covers f l (S k) q → ∃ l0 l1, halves f l l0 l1 k q.
Proof.
  intros Hk Hasc Hcov. destruct (ascending_split l k q Hasc) as (l0 & l1 & -> & H0 & H1); [apply Hcov|].
  exists l0, l1. destruct (ascending_app _ _ Hasc) as [A0 A1]. destruct Hasc as [_ Hok]. rewrite Forall_forall in Hok.
  assert (covers f l0 k (2 * q + 0)) as C0.
  { eapply covers_half; [exact Hcov|lia| |]; intros x Hx; [rewrite H0 by done; split; [lia|set_solver]|].
    apply elem_of_app in Hx as [Hx|Hx]; [done|]. rewrite H1 by done. lia. }
  rewrite Z.add_0_r in C0. split; [done|done| |].
  - split_and!; [done| |done]. eapply covers_half; [exact Hcov|lia| |]; intros x Hx;
      [rewrite H1 by done; split; [lia|set_solver]|].
    apply elem_of_app in Hx as [Hx|Hx]; [|done]. rewrite H0 by done. lia.
  - intros x y i Hx Hy Hi. replace (smtDepth - 1 - i)%nat with (256 - S i)%nat by (unfold smtDepth; lia).
    rewrite samePrefix_spec by (lia || (apply Hok; set_solver)). apply Z.eqb_neq. intros Heq.
    apply (prefix_le (S i) k) in Heq; [|lia]. rewrite (H0 x Hx), (H1 y Hy) in Heq. lia.
Qed.

(** Climbing [k] levels folds the leaves below a node to that node. *)
Lemma climb_merkle f k l q : (k ≤ 256)%nat → ascending l → covers f l k q → l ≠ [] →
  ∃ x, x ∈ l ∧ climb k 0 l = [mkNode (path x) (merkle f k q)].
Proof.
  revert l q. induction k as [|k IH]; intros l q Hk Hasc Hcov Hne.
  - destruct Hcov as [Hin _]. destruct l as [|x l]; [done|]. exists x. split; [set_solver|].
    destruct (Hin x ltac:(set_solver)) as [Hx Hfx]. unfold prefix in Hx. rewrite Z.div_1_r in Hx. subst q.
    destruct l as [|y l]; [cbn; rewrite Hfx; by destruct x|]. exfalso.
    destruct (Hin y ltac:(set_solver)) as [Hy _]. unfold prefix in Hy. rewrite Z.div_1_r in Hy.
    destruct Hasc as [Hs _]. apply StronglySorted_inv in Hs as [_ Hs].
    apply Forall_cons in Hs as [Hs _]. lia.
  - destruct (covers_halves f l k q Hk Hasc Hcov) as (l0 & l1 & [-> (A0 & C0 & H0) (A1 & C1 & H1) Hap]).
    destruct Hasc as [_ Hok]. rewrite Forall_forall in Hok. rewrite climb_snoc, climb_app by exact Hap.
    cbn [merkle Nat.add].
    destruct (decide (l0 = [])) as [->|N0], (decide (l1 = [])) as [->|N1]; [done|..].
    + destruct (IH l1 (2 * q + 1)) as (x & Hx & ->); [lia|done|done|done|]. exists x. split; [set_solver|].
      rewrite (merkle_empty f k (2 * q) C0).
      rewrite climb_nil. cbn [app]. rewrite (next_level_one k q 1) by (lia || (apply Hok; set_solver) || (by apply H1)). done.
    + destruct (IH l0 (2 * q)) as (x & Hx & ->); [lia|done|done|done|]. exists x. split; [set_solver|].
      rewrite (merkle_empty f k (2 * q + 1) C1).
      rewrite climb_nil. cbn [app]. rewrite (next_level_one k q 0) by (lia || (apply Hok; set_solver) || (rewrite Z.add_0_r; by apply H0)).
      done.
    + destruct (IH l0 (2 * q)) as (x & Hx & ->); [lia|done|done|done|].
      destruct (IH l1 (2 * q + 1)) as (y & Hy & ->); [lia|done|done|done|]. exists x. split; [set_solver|].
      cbn [app]. apply (next_level_two k q); [lia|apply Hok; set_solver|apply Hok; set_solver|by apply H0|by apply H1].
Qed.

Definition paths_ok (m : gmap (list Z) Hash) : Prop := ∀ p, is_Some (m !! p) → path_ok p.

Definition work_list (m : gmap (list Z) Hash) : list node :=
  merge_sort node_le (map (λ kv, mkNode kv.1 kv.2) (map_to_list m)).

Lemma elem_of_work_list m x : x ∈ work_list m ↔ m !! path x = Some (hash x).
Proof.
  unfold work_list. rewrite merge_sort_Permutation, list_elem_of_fmap. split.
  - intros ([p h] & -> & Hin). by apply elem_of_map_to_list in Hin.
  - intros H. exists (path x, hash x). split; [by destruct x|]. by apply elem_of_map_to_list.
Qed.

Lemma of_be_inj p q : path_ok p → path_ok q → of_be p = of_be q → p = q.
Proof.
  intros [Hl Hp] [Hl' Hq] H. rewrite <-(be_bytes_of_be p), <-(be_bytes_of_be q) by done. congruence.
Qed.

Lemma work_list_ascending m : paths_ok m → ascending (work_list m).
Proof.
  intros Hm. assert (Forall (λ x, path_ok (path x)) (work_list m)) as Hok.
  { apply Forall_forall. intros x Hx%elem_of_work_list. apply Hm. by eexists. }
  split; [|done]. assert (NoDup (map path (work_list m))) as Hnd.
  { unfold work_list. rewrite (Permutation_map path (merge_sort_Permutation _ _)), map_map.
    exact (NoDup_fst_map_to_list m). }
  assert (StronglySorted node_le (work_list m)) as Hs by apply (StronglySorted_merge_sort node_le).
  induction Hs as [|x l Hs IH Hx]; [constructor|]. cbn in Hnd. apply NoDup_cons in Hnd as [Hni Hnd].
  apply Forall_cons in Hok as [Hxo Hok]. constructor; [by apply IH|]. rewrite Forall_forall in Hx, Hok |- *.
  intros y Hy. specialize (Hx y Hy). rewrite node_le_spec in Hx by (done || by apply Hok).
  assert (of_be (path x) ≠ of_be (path y)); [|lia]. intros Heq%of_be_inj; [|done|by apply Hok].
  apply Hni. rewrite Heq. by apply list_elem_of_fmap_2.
Qed.

Lemma work_list_covers m : paths_ok m → covers (leaf_at m) (work_list m) 256 0.
Proof.
  intros Hm. split.
  - intros x Hx%elem_of_work_list. assert (path_ok (path x)) as Hp by (apply Hm; by eexists). split.
    + unfold prefix. apply Z.div_small. exact (path_range _ Hp).
    + unfold leaf_at. destruct Hp as [Hl Hb]. rewrite <-Hl, be_bytes_of_be, Hx by done. done.
  - intros n Hn Hnot. unfold leaf_at. destruct (m !! be_bytes 32 n) as [h|] eqn:Hh; [|done]. exfalso.
    apply (Hnot (mkNode (be_bytes 32 n) h)); [by apply elem_of_work_list|]. cbn [path].
    apply of_be_be_bytes_id. change (256 ^ Z.of_nat 32) with (2 ^ Z.of_nat 256).
    assert (0 < 2 ^ Z.of_nat 256) as Hp by (apply Z.pow_pos_nonneg; lia). revert Hn Hp.
    generalize (2 ^ Z.of_nat 256). intros B Hn Hp. apply Z.div_small_iff in Hn; lia.
Qed.

Lemma smtRootFromMap_merkle m : paths_ok m → smtRootFromMap m = merkle (leaf_at m) smtDepth 0.
Proof.
  intros Hm. pose proof (work_list_covers m Hm) as Hc. unfold smtRootFromMap. case_decide as He.
  - subst m. symmetry. apply merkle_empty. exact Hc.
  - fold (work_list m). destruct (climb_merkle (leaf_at m) 256 (work_list m) 0) as (x & _ & Hx).
    + lia.
    + by apply work_list_ascending.
    + done.
    + intros Hnil. apply He. apply map_eq. intros p. rewrite lookup_empty.
      destruct (m !! p) as [h|] eqn:Hp; [|done]. exfalso.
      assert (mkNode p h ∈ work_list m) as Hin by (by apply elem_of_work_list). rewrite Hnil in Hin.
      by apply elem_of_nil in Hin.
    + unfold smtDepth. rewrite Hx. reflexivity.
Qed.
End Reference.

Section Root.
Context `{C : Crypto} `{CL : !CryptoLaws C}.

Lemma leaf_map_ok leaves : paths_ok (leaf_map leaves).
Proof.
  unfold leaf_map. assert (∀ m, paths_ok m → paths_ok (foldl (λ m l, <[Keccak256 (key l) := hashLeaf (val l)]> m) m leaves)) as H.
  { induction leaves as [|l leaves IH]; intros m Hm; [done|]. cbn. apply IH.
    intros p. rewrite lookup_insert_is_Some. intros [<-|[_ Hp]]; [|by apply Hm].
    split; [apply keccak_length|apply keccak_bytes]. }
  apply H. intros p [h Hp]. by rewrite lookup_empty in Hp.
Qed.

Lemma path_above_root p : path_ok p → of_be p / 2 ^ Z.of_nat smtDepth = 0.
Proof. intros Hp. apply Z.div_small. exact (path_range p Hp). Qed.

Lemma root_merkle leaves : ComputeSMTRoot leaves = merkle (leaf_at (leaf_map leaves)) smtDepth 0.
Proof.
  rewrite <-smtRootFromMap_merkle by apply leaf_map_ok. destruct leaves as [|l leaves]; [|done].
  unfold smtRootFromMap, leaf_map. cbn [foldl]. by rewrite decide_True.
Qed.

(** C13. The optimised root is the reference root: climbing the sorted work list
    of [ComputeSMTRoot], pairing neighbours and padding single children with
    the precomputed empty hashes, gives the root of the full binary Merkle
    tree of depth 256 in which every path without a leaf carries the empty
    placeholder.  The fallback fold of [smtRootFromMap] is never reached. *)
Theorem ComputeSMTRoot_merkle leaves :
  ComputeSMTRoot leaves = merkle (leaf_at (leaf_map leaves)) smtDepth 0.
Proof. apply root_merkle. Qed.

Lemma leaf_map_lookup leaves l : NoDup (map (λ x, Keccak256 (key x)) leaves) → l ∈ leaves →
  leaf_map leaves !! Keccak256 (key l) = Some (hashLeaf (val l)).
Proof.
  unfold leaf_map. generalize (∅ : gmap (list Z) Hash) as m.
  induction leaves as [|x leaves IH]; intros m Hnd Hl; [by apply elem_of_nil in Hl|]. cbn in *.
  apply NoDup_cons in Hnd as [Hni Hnd]. apply elem_of_cons in Hl as [->|Hl]; [|by apply IH].
  clear IH. assert (∀ m : gmap (list Z) Hash, m !! Keccak256 (key x) = Some (hashLeaf (val x)) →
    foldl (λ m l, <[Keccak256 (key l) := hashLeaf (val l)]> m) m leaves !! Keccak256 (key x) = Some (hashLeaf (val x))) as H.
  { clear m Hnd. induction leaves as [|y leaves IH]; intros m Hm; [done|]. cbn in *.
    apply IH; [set_solver|]. rewrite lookup_insert_ne; [done|]. intros Heq. set_solver. }
  apply H. by rewrite lookup_insert_eq.
Qed.

Lemma keccak_hash_inj P x y : collision_free P → P x → P y →
  BytesToHash (Keccak256 x) = BytesToHash (Keccak256 y) → x = y.
Proof.
  intros HP Hx Hy H. apply HP; [done..|]. rewrite !BytesToHash_32 in H by apply keccak_length.
  apply of_be_inj; [split; [apply keccak_length|apply keccak_bytes]..|done].
Qed.

Lemma collision_free_list l : NoDup (map Keccak256 (remove_dups l)) → collision_free (λ x, x ∈ l).
Proof using.
  clear CL. intros Hnd x y Hx Hy Heq. rewrite <-elem_of_remove_dups in Hx, Hy.
  apply list_elem_of_lookup in Hx as [i Hi]. apply list_elem_of_lookup in Hy as [j Hj].
  assert (i = j) as ->; [|congruence]. apply (NoDup_lookup _ i j (Keccak256 x) Hnd); rewrite list_lookup_fmap.
  - by rewrite Hi.
  - by rewrite Hj, Heq.
Qed.

Lemma hashInternal_is_hash l r : is_hash (hashInternal l r).
Proof. apply Keccak256Hash_is_hash. Qed.

(** ** What is hashed on the way to a root *)
Definition internal_input (l r : Hash) : list Z := smtInternalTag ++ hash_bytes l ++ hash_bytes r.

Lemma internal_input_inj l r l' r' : is_hash l → is_hash r → is_hash l' → is_hash r' →
  internal_input l r = internal_input l' r' → l = l' ∧ r = r'.
Proof using.
  clear. intros Hl Hr Hl' Hr' H. apply app_inv_head in H. apply app_inj_1 in H as [H1 H2]; [|by rewrite !hash_bytes_length].
  split; [exact (be_bytes_inj 32 _ _ Hl Hl' H1)|exact (be_bytes_inj 32 _ _ Hr Hr' H2)].
Qed.

(** The strings one turn of the loop hashes. *)
Definition pair_input (bitIndex : nat) (l r : node) : list Z :=
  let '(lft, rgt) := if bit (path l) bitIndex =? 1 then (r, l) else (l, r) in
  internal_input (hash lft) (hash rgt).

Definition single_input (height bitIndex : nat) (cur : node) : list Z :=
  if bit (path cur) bitIndex =? 0 then internal_input (hash cur) (emptyHashes height)
  else internal_input (emptyHashes height) (hash cur).

Fixpoint level_inputs (height : nat) (level : list node) : list (list Z) :=
  let bitIndex := (smtDepth - 1 - height)%nat in
  match level with
  | [] => []
  | cur :: rest =>
      match rest with
      | nxt :: rest' =>
          if samePrefix (path cur) (path nxt) bitIndex
          then pair_input bitIndex cur nxt :: level_inputs height rest'
          else single_input height bitIndex cur :: level_inputs height rest
      | [] => [single_input height bitIndex cur]
      end
  end.

Fixpoint climb_inputs (n height : nat) (level : list node) : list (list Z) :=
  match n with
  | O => []
  | S n' => level_inputs height level ++ climb_inputs n' (S height) (next_level height level)
  end.

(** The inputs of [emptyHashes]. *)
Fixpoint empty_inputs (n : nat) : list (list Z) :=
  match n with
  | O => []
  | S n' => internal_input (emptyHashes n') (emptyHashes n') :: empty_inputs n'
  end.

(** The value whose leaf hash is the one of an absent leaf. *)
Definition placeholder : list Z := str_bytes "empty".

(** All byte strings that are hashed to compute a root: the keys, the leaves,
    the table of empty hashes and the nodes of the climb. *)
Definition smt_inputs (leaves : list leaf) : list (list Z) :=
  map key leaves ++ map (λ v, smtLeafTag ++ v) (placeholder :: map val leaves)
  ++ empty_inputs smtDepth ++ climb_inputs smtDepth 0 (work_list (leaf_map leaves)).

(** The inner nodes below [(k, q)]. *)
Fixpoint subtree_input (f : Z → Hash) (k : nat) (q : Z) (x : list Z) : Prop :=
  match k with
  | O => False
  | S k' => x = internal_input (merkle f k' (2 * q)) (merkle f k' (2 * q + 1))
      ∨ subtree_input f k' (2 * q) x ∨ subtree_input f k' (2 * q + 1) x
  end.

Lemma merkle_is_hash f k q : (∀ n, is_hash (f n)) → is_hash (merkle f k q).
Proof. intros Hf. destruct k; [apply Hf|apply hashInternal_is_hash]. Qed.

Lemma merkle_binding P f g k q : collision_free P → (∀ n, is_hash (f n)) → (∀ n, is_hash (g n)) →
  (∀ x, subtree_input f k q x → P x) → (∀ x, subtree_input g k q x → P x) →
  merkle f k q = merkle g k q → ∀ n, n / 2 ^ Z.of_nat k = q → f n = g n.
Proof.
  intros HP Hf Hg. revert q. induction k as [|k IH]; intros q HPf HPg H n Hn.
  - change (2 ^ Z.of_nat 0) with 1 in Hn. rewrite Z.div_1_r in Hn. by subst.
  - cbn [merkle subtree_input] in *.
    apply (keccak_hash_inj P (internal_input _ _) (internal_input _ _)) in H; [|auto..].
    apply internal_input_inj in H as [H0 H1]; [|by apply merkle_is_hash..].
    rewrite Nat2Z.inj_succ, Z.pow_succ_r, Z.mul_comm, <-Z.div_div in Hn by lia.
    assert (n / 2 ^ Z.of_nat k = 2 * q ∨ n / 2 ^ Z.of_nat k = 2 * q + 1) as [E|E] by zlia;
      [apply (IH (2 * q))|apply (IH (2 * q + 1))]; auto.
Qed.

(** ** The climb hashes every node of the tree that is not empty *)
Lemma empty_inputs_le k n x : (k <= n)%nat → x ∈ empty_inputs k → x ∈ empty_inputs n.
Proof using. clear. intros Hle. induction Hle; [done|]. intros Hx. right. auto. Qed.

Lemma covers_nil_half f k q b : covers f [] (S k) q → 0 <= b < 2 → covers f [] k (2 * q + b).
Proof using.
  clear CL. intros Hc Hb. eapply covers_half; [exact Hc|exact Hb| |]; intros x Hx; by apply elem_of_nil in Hx.
Qed.

Lemma subtree_empty f k q x : covers f [] k q → subtree_input f k q x → x ∈ empty_inputs k.
Proof using.
  clear CL. revert q. induction k as [|k IH]; intros q Hc; [done|].
  pose proof (covers_nil_half f k q 0 Hc ltac:(lia)) as C0. pose proof (covers_nil_half f k q 1 Hc ltac:(lia)) as C1.
  rewrite Z.add_0_r in C0. cbn [subtree_input empty_inputs]. rewrite elem_of_cons. intros [->|[Hx|Hx]].
  - left. by rewrite (merkle_empty f k _ C0), (merkle_empty f k _ C1).
  - right. exact (IH _ C0 Hx).
  - right. exact (IH _ C1 Hx).
Qed.

Lemma level_inputs_app h l1 l2 :
  (∀ x y, x ∈ l1 → y ∈ l2 → samePrefix (path x) (path y) (smtDepth - 1 - h) = false) →
  level_inputs h (l1 ++ l2) = level_inputs h l1 ++ level_inputs h l2.
Proof using.
  clear CL. intros Hsep. remember (length l1) as n eqn:Hn. revert l1 Hn Hsep.
  induction (lt_wf n) as [n _ IH]. intros [|x [|y l1]] Hn Hsep; [done| |].
  - destruct l2 as [|z l2]; [done|]. cbn [app level_inputs].
    rewrite Hsep by set_solver. done.
  - cbn [app level_inputs]. destruct (samePrefix (path x) (path y) _); cbn [app]; f_equal.
    + apply (IH (length l1)); [cbn in Hn; lia|done|set_solver].
    + apply (IH (length (y :: l1)) ltac:(cbn in *; lia) (y :: l1)); [done|set_solver].
Qed.

Lemma climb_inputs_app k h l1 l2 x : apart k h l1 l2 →
  x ∈ climb_inputs k h l1 ∨ x ∈ climb_inputs k h l2 → x ∈ climb_inputs k h (l1 ++ l2).
Proof using.
  clear CL. revert h l1 l2. induction k as [|k IH]; intros h l1 l2 Hsep; [by intros [|]|]. cbn [climb_inputs].
  rewrite next_level_app, level_inputs_app by (intros; apply Hsep; [done|done|lia]).
  assert (apart k (S h) (next_level h l1) (next_level h l2)) as Hsep'.
  { intros y z i Hy Hz Hi. destruct (next_level_paths _ _ _ Hy) as (y' & Hy' & ->).
    destruct (next_level_paths _ _ _ Hz) as (z' & Hz' & ->). apply Hsep; [done|done|lia]. }
  specialize (IH (S h) _ _ Hsep'). rewrite !elem_of_app. tauto.
Qed.

Lemma climb_inputs_snoc k h l : climb_inputs (S k) h l = climb_inputs k h l ++ level_inputs (h + k) (climb k h l).
Proof using.
  clear CL. revert h l. induction k as [|k IH]; intros h l; [cbn; by rewrite Nat.add_0_r, app_nil_r|].
  change (climb_inputs (S (S k)) h l) with (level_inputs h l ++ climb_inputs (S k) (S h) (next_level h l)).
  rewrite IH. cbn [climb climb_inputs]. rewrite <-app_assoc. by replace (h + S k)%nat with (S h + k)%nat by lia.
Qed.

Lemma level_inputs_one k q b p h : (k < 256)%nat → path_ok p → 0 <= b < 2 → prefix k p = 2 * q + b →
  level_inputs k [mkNode p h] = [if b =? 0 then internal_input h (emptyHashes k) else internal_input (emptyHashes k) h].
Proof using.
  clear CL. intros Hk Hp Hb H. cbn [level_inputs]. unfold single_input. cbn [path hash].
  rewrite bit_prefix, H by done. by replace ((2 * q + b) mod 2) with b by zlia.
Qed.

Lemma level_inputs_two k q p0 p1 h0 h1 : (k < 256)%nat → path_ok p0 → path_ok p1 →
  prefix k p0 = 2 * q → prefix k p1 = 2 * q + 1 →
  level_inputs k [mkNode p0 h0; mkNode p1 h1] = [internal_input h0 h1].
Proof using.
  clear CL. intros Hk Hp0 Hp1 H0 H1. cbn [level_inputs path].
  replace (smtDepth - 1 - k)%nat with (256 - S k)%nat at 1 by (unfold smtDepth; lia).
  rewrite samePrefix_spec, !prefix_S, H0, H1 by (done || lia).
  replace (2 * q / 2) with q by zlia. replace ((2 * q + 1) / 2) with q by zlia. rewrite Z.eqb_refl.
  unfold pair_input. cbn [path]. rewrite bit_prefix, H0 by done. replace (2 * q mod 2) with 0 by zlia. done.
Qed.

(** The last turn hashes the node itself. *)
Lemma top_climbed f k l q : (S k ≤ 256)%nat → ascending l → covers f l (S k) q → l ≠ [] →
  internal_input (merkle f k (2 * q)) (merkle f k (2 * q + 1)) ∈ level_inputs k (climb k 0 l).
Proof using.
  clear CL. intros Hk Hasc Hcov Hne.
  destruct (covers_halves f l k q Hk Hasc Hcov) as (l0 & l1 & [-> (A0 & C0 & H0) (A1 & C1 & H1) Hap]).
  destruct Hasc as [_ Hok]. rewrite Forall_forall in Hok. rewrite climb_app by exact Hap.
  destruct (decide (l0 = [])) as [->|N0], (decide (l1 = [])) as [->|N1]; [done|..].
  - destruct (climb_merkle f k l1 (2 * q + 1)) as (x & Hx & ->); [lia|done|done|done|].
    rewrite (merkle_empty f k (2 * q) C0), climb_nil. cbn [app].
    rewrite (level_inputs_one k q 1) by (lia || (apply Hok; set_solver) || (by apply H1)). by left.
  - destruct (climb_merkle f k l0 (2 * q)) as (x & Hx & ->); [lia|done|done|done|].
    rewrite (merkle_empty f k (2 * q + 1) C1), climb_nil. cbn [app].
    rewrite (level_inputs_one k q 0) by (lia || (apply Hok; set_solver) || (rewrite Z.add_0_r; by apply H0)). by left.
  - destruct (climb_merkle f k l0 (2 * q)) as (x & Hx & ->); [lia|done|done|done|].
    destruct (climb_merkle f k l1 (2 * q + 1)) as (y & Hy & ->); [lia|done|done|done|]. cbn [app].
    rewrite (level_inputs_two k q) by first [lia|(apply Hok; set_solver)|by apply H0|by apply H1]. by left.
Qed.

Lemma subtree_climbed f k l q x : (k ≤ 256)%nat → ascending l → covers f l k q → subtree_input f k q x →
  x ∈ climb_inputs k 0 l ∨ x ∈ empty_inputs k.
Proof using.
  clear CL. revert l q. induction k as [|k IH]; intros l q Hk Hasc Hcov; [done|].
  destruct (decide (l = [])) as [->|Hne]; [right; by eapply subtree_empty|].
  destruct (covers_halves f l k q Hk Hasc Hcov) as (l0 & l1 & [Hl (A0 & C0 & H0) (A1 & C1 & H1) Hap]).
  intros Hx. rewrite climb_inputs_snoc, elem_of_app. cbn [Nat.add empty_inputs]. rewrite elem_of_cons.
  pose proof (climb_inputs_app k 0 l0 l1 x Hap) as Happ. rewrite <-Hl in Happ.
  destruct Hx as [->|[Hx|Hx]].
  - left. right. by apply top_climbed.
  - destruct (IH l0 (2 * q)) as [|]; [lia|done|done|done|tauto|tauto].
  - destruct (IH l1 (2 * q + 1)) as [|]; [lia|done|done|done|tauto|tauto].
Qed.

(** Every node of the tree below the root is hashed by the climb or stands in
    the table of empty hashes. *)
Lemma tree_hashed leaves x : subtree_input (leaf_at (leaf_map leaves)) smtDepth 0 x → x ∈ smt_inputs leaves.
Proof.
  intros Hx. pose proof (leaf_map_ok leaves) as Hm.
  destruct (subtree_climbed (leaf_at (leaf_map leaves)) 256 (work_list (leaf_map leaves)) 0 x) as [H|H];
    [lia|by apply work_list_ascending|by apply work_list_covers|exact Hx|..];
    unfold smt_inputs; rewrite !elem_of_app; unfold smtDepth; tauto.
Qed.

Lemma key_hashed leaves l : l ∈ leaves → key l ∈ smt_inputs leaves.
Proof using. clear CL. intros Hl. unfold smt_inputs. rewrite elem_of_app. left. by apply list_elem_of_fmap_2. Qed.

Lemma value_hashed leaves l : l ∈ leaves → smtLeafTag ++ val l ∈ smt_inputs leaves.
Proof using.
  clear CL. intros Hl. unfold smt_inputs. rewrite !elem_of_app. right. left. cbn [map]. right.
  rewrite map_map. apply list_elem_of_fmap. by exists l.
Qed.

Lemma placeholder_hashed leaves : smtLeafTag ++ placeholder ∈ smt_inputs leaves.
Proof using. clear CL. unfold smt_inputs. rewrite !elem_of_app. right. left. by left. Qed.

Lemma leaf_at_is_hash (m : gmap (list Z) Hash) n : (∀ p h, m !! p = Some h → is_hash h) → is_hash (leaf_at m n).
Proof.
  intros Hm. unfold leaf_at. destruct (m !! be_bytes 32 n) eqn:H; cbn [default from_option]; [by eapply Hm|].
  apply Keccak256Hash_is_hash.
Qed.

Lemma leaf_map_hashes leaves p h : leaf_map leaves !! p = Some h → is_hash h.
Proof.
  unfold leaf_map. assert (∀ m : gmap (list Z) Hash, (∀ p h, m !! p = Some h → is_hash h) → ∀ p h,
    foldl (λ m l, <[Keccak256 (key l) := hashLeaf (val l)]> m) m leaves !! p = Some h → is_hash h) as H.
  { induction leaves as [|l leaves IH]; intros m Hm; [done|]. cbn. apply IH. intros p' h'.
    rewrite lookup_insert_Some. intros [[_ <-]|[_ Hp]]; [apply Keccak256Hash_is_hash|by eapply Hm]. }
  apply H. intros p' h' Hp. by rewrite lookup_empty in Hp.
Qed.

Lemma leaf_at_key leaves l : NoDup (map (λ x, Keccak256 (key x)) leaves) → l ∈ leaves →
  leaf_at (leaf_map leaves) (of_be (Keccak256 (key l))) = hashLeaf (val l).
Proof.
  intros Hnd Hl. unfold leaf_at. rewrite <-(keccak_length (key l)), be_bytes_of_be by apply keccak_bytes.
  by rewrite leaf_map_lookup.
Qed.

Lemma leaf_map_inv leaves p h : leaf_map leaves !! p = Some h →
  ∃ l, l ∈ leaves ∧ Keccak256 (key l) = p ∧ h = hashLeaf (val l).
Proof.
  unfold leaf_map. assert (∀ m : gmap (list Z) Hash,
    foldl (λ m l, <[Keccak256 (key l) := hashLeaf (val l)]> m) m leaves !! p = Some h →
    m !! p = Some h ∨ ∃ l, l ∈ leaves ∧ Keccak256 (key l) = p ∧ h = hashLeaf (val l)) as H.
  { induction leaves as [|l leaves IH]; intros m Hm; [by left|]. cbn in Hm.
    apply IH in Hm as [Hm|(x & Hx & ?)]; [|right; exists x; split; [by right|done]].
    apply lookup_insert_Some in Hm as [[? <-]|[_ Hm]]; [right; exists l; split; [by left|done]|by left]. }
  intros [Hp|Hp]%H; [by rewrite lookup_empty in Hp|done].
Qed.

(** Leaves a root can speak for: one per key, none the placeholder. *)
Definition leaves_ok (leaves : list leaf) : Prop :=
  NoDup (map key leaves) ∧ ∀ l, l ∈ leaves → val l ≠ placeholder.

Lemma leaf_at_path (m : gmap (list Z) Hash) k :
  leaf_at m (of_be (Keccak256 k)) = default (hashLeaf placeholder) (m !! Keccak256 k).
Proof. unfold leaf_at. by rewrite <-(keccak_length k), be_bytes_of_be by apply keccak_bytes. Qed.

(** Two lists of leaves whose computations hash without a collision. *)
Section Pair.
Context (P : list Z → Prop) (HP : collision_free P).

Lemma distinct_paths leaves : (∀ x, x ∈ smt_inputs leaves → P x) →
  NoDup (map key leaves) → NoDup (map (λ x, Keccak256 (key x)) leaves).
Proof using HP.
  intros Hin Hnd. assert (∀ l, l ∈ leaves → P (key l)) as Hk by (intros l Hl; by apply Hin, key_hashed).
  clear Hin. induction leaves as [|l leaves IH]; cbn [map] in *; [constructor|].
  apply NoDup_cons in Hnd as [Hni Hnd]. constructor; [|apply IH; [done|intros; apply Hk; by right]].
  intros (x & Hx & Hin)%list_elem_of_fmap. apply HP in Hx; [|apply Hk; by left|apply Hk; by right].
  apply Hni. rewrite Hx. by apply list_elem_of_fmap_2.
Qed.

Lemma root_member leaves1 leaves2 l :
  (∀ x, x ∈ smt_inputs leaves1 → P x) → (∀ x, x ∈ smt_inputs leaves2 → P x) →
  NoDup (map key leaves1) → NoDup (map key leaves2) →
  ComputeSMTRoot leaves1 = ComputeSMTRoot leaves2 → l ∈ leaves1 → val l ≠ placeholder → l ∈ leaves2.
Proof using HP CL.
  intros P1 P2 Hn1 Hn2 Hroot Hl Hv. rewrite !root_merkle in Hroot.
  pose proof (distinct_paths _ P1 Hn1) as Hp1.
  pose proof (merkle_binding P _ _ smtDepth 0 HP (λ n, leaf_at_is_hash _ n (leaf_map_hashes leaves1))
    (λ n, leaf_at_is_hash _ n (leaf_map_hashes leaves2)) (λ x Hx, P1 x (tree_hashed leaves1 x Hx))
    (λ x Hx, P2 x (tree_hashed leaves2 x Hx)) Hroot (of_be (Keccak256 (key l)))
    (path_above_root _ (conj (keccak_length _) (keccak_bytes _)))) as Hall. clear Hroot.
  rewrite (leaf_at_key leaves1 l Hp1 Hl), leaf_at_path in Hall.
  destruct (leaf_map leaves2 !! Keccak256 (key l)) as [h|] eqn:Hm; cbn [default from_option id] in Hall.
  - apply leaf_map_inv in Hm as (x & Hx & Hk & ->).
    apply (keccak_hash_inj P) in Hall; [|done|by apply P1, value_hashed|by apply P2, value_hashed].
    apply app_inv_head in Hall. apply HP in Hk; [|by apply P2, key_hashed|by apply P1, key_hashed].
    destruct l, x; cbn [key val] in *; congruence.
  - apply (keccak_hash_inj P) in Hall; [|done|by apply P1, value_hashed|apply P1, placeholder_hashed].
    by apply app_inv_head in Hall.
Qed.
End Pair.

(** C19. The root binds the state: two lists of leaves, each with distinct keys
    and without the value that stands for an absent leaf, that have the same
    root hold exactly the same keys and values, provided Keccak-256 does not
    collide on the byte strings hashed to compute these two roots. *)
Theorem ComputeSMTRoot_binding leaves1 leaves2 :
  collision_free (λ x, x ∈ smt_inputs leaves1 ++ smt_inputs leaves2) →
  leaves_ok leaves1 → leaves_ok leaves2 → ComputeSMTRoot leaves1 = ComputeSMTRoot leaves2 →
  leaves1 ≡ₚ leaves2.
Proof.
  intros HP [Hn1 Hv1] [Hn2 Hv2] Hroot.
  apply NoDup_Permutation; [by apply (NoDup_fmap_1 key)..|]. intros l. split; intros Hl.
  - apply (root_member _ HP leaves1); [intros; rewrite elem_of_app; tauto..|done|done|done|done|by apply Hv1].
  - apply (root_member _ HP leaves2); [intros; rewrite elem_of_app; tauto..|done|done|done|done|by apply Hv2].
Qed.

(** The root does not depend on the order in which the leaves are listed,
    so map iteration order cannot leak into a block header. *)
Theorem ComputeSMTRoot_perm leaves1 leaves2 :
  leaves1 ≡ₚ leaves2 → NoDup (map (λ x, Keccak256 (key x)) leaves1) →
  ComputeSMTRoot leaves1 = ComputeSMTRoot leaves2.
Proof using.
  clear CL. intros Hp Hnd. assert (leaf_map leaves1 = leaf_map leaves2) as Hmap.
  { unfold leaf_map. generalize (∅ : gmap (list Z) Hash).
    induction Hp as [|x l l' Hp IH|x y l|l l' l'' Hp1 IH1 Hp2 IH2]; intros m; cbn in *.
    - done.
    - apply NoDup_cons in Hnd as [_ Hnd]. by apply IH.
    - apply NoDup_cons in Hnd as [Hni _]. rewrite insert_insert_ne; [done|]. intros Heq. set_solver.
    - rewrite IH1 by done. apply IH2. by rewrite <-(Permutation_map _ Hp1). }
  unfold ComputeSMTRoot. rewrite Hmap. destruct leaves1, leaves2; [reflexivity|exfalso..|reflexivity].
  - by apply Permutation_nil_cons in Hp.
  - symmetry in Hp. by apply Permutation_nil_cons in Hp.
Qed.

(** ** Evaluating the inputs

    The same strings in one pass, which carries the empty hash of the level
    instead of recomputing it. *)
Fixpoint fast_level (e : Hash) (height : nat) (level : list node) : list node * list (list Z) :=
  let bitIndex := (smtDepth - 1 - height)%nat in
  let lift cur :=
    let x := if bit (path cur) bitIndex =? 0 then internal_input (hash cur) e else internal_input e (hash cur) in
    (mkNode (path cur) (BytesToHash (Keccak256 x)), x) in
  match level with
  | [] => ([], [])
  | cur :: rest =>
      match rest with
      | nxt :: rest' =>
          if samePrefix (path cur) (path nxt) bitIndex
          then let '(ns, xs) := fast_level e height rest' in
               (pair_up bitIndex cur nxt :: ns, pair_input bitIndex cur nxt :: xs)
          else let '(ns, xs) := fast_level e height rest in
               let '(n, x) := lift cur in (n :: ns, x :: xs)
      | [] => let '(n, x) := lift cur in ([n], [x])
      end
  end.

Fixpoint fast_inputs (n height : nat) (e : Hash) (level : list node) : list (list Z) :=
  match n with
  | O => []
  | S n' =>
      let '(next, xs) := fast_level e height level in
      internal_input e e :: xs ++ fast_inputs n' (S height) (hashInternal e e) next
  end.

Lemma fast_level_spec h l : fast_level (emptyHashes h) h l = (next_level h l, level_inputs h l).
Proof using.
  clear CL. remember (length l) as n eqn:Hn. revert l Hn. induction (lt_wf n) as [n _ IH].
  assert (∀ cur, mkNode (path cur) (BytesToHash (Keccak256 (single_input h (smtDepth - 1 - h) cur)))
    = lift_single h (smtDepth - 1 - h) cur) as Hlift.
  { intros cur. unfold lift_single, single_input. by destruct (bit _ _ =? 0). }
  set (b := (smtDepth - 1 - h)%nat) in *. intros [|x [|y l]] Hn; [done| |].
  - cbn [fast_level next_level level_inputs]. fold b (single_input h b x). by rewrite Hlift.
  - change (next_level h (x :: y :: l)) with (if samePrefix (path x) (path y) b
      then pair_up b x y :: next_level h l else lift_single h b x :: next_level h (y :: l)).
    change (level_inputs h (x :: y :: l)) with (if samePrefix (path x) (path y) b
      then pair_input b x y :: level_inputs h l else single_input h b x :: level_inputs h (y :: l)).
    change (fast_level (emptyHashes h) h (x :: y :: l)) with (if samePrefix (path x) (path y) b
      then let '(ns, xs) := fast_level (emptyHashes h) h l in (pair_up b x y :: ns, pair_input b x y :: xs)
      else let '(ns, xs) := fast_level (emptyHashes h) h (y :: l) in
        (mkNode (path x) (BytesToHash (Keccak256 (single_input h b x))) :: ns, single_input h b x :: xs)).
    rewrite Hlift. destruct (samePrefix _ _ _).
    + by rewrite (IH (length l) ltac:(cbn in *; lia) l eq_refl).
    + by rewrite (IH (length (y :: l)) ltac:(cbn in *; lia) (y :: l) eq_refl).
Qed.

Lemma fast_inputs_spec n h l x :
  x ∈ climb_inputs n h l ∨ (∃ i, (h <= i < h + n)%nat ∧ x = internal_input (emptyHashes i) (emptyHashes i)) →
  x ∈ fast_inputs n h (emptyHashes h) l.
Proof using.
  clear CL. revert h l. induction n as [|n IH]; intros h l; [intros [Hx|(i & Hi & _)]; [done|lia]|].
  cbn [fast_inputs climb_inputs]. rewrite fast_level_spec. change (hashInternal _ _) with (emptyHashes (S h)).
  rewrite elem_of_cons, !elem_of_app. specialize (IH (S h) (next_level h l)).
  intros [[Hx|Hx]|(i & Hi & ->)]; [tauto|tauto|]. destruct (decide (i = h)) as [->|Hne]; [by left|].
  right. right. apply IH. right. exists i. split; [lia|done].
Qed.

Lemma empty_inputs_spec n x : x ∈ empty_inputs n → ∃ i, (i < n)%nat ∧ x = internal_input (emptyHashes i) (emptyHashes i).
Proof using.
  clear. induction n as [|n IH]; cbn [empty_inputs]; [by intros ?%elem_of_nil|].
  intros [->|(i & ? & ->)%IH]%elem_of_cons; [exists n|exists i]; split; auto with lia.
Qed.

(** The strings of [smt_inputs], each at least once. *)
Definition smt_inputs_fast (leaves : list leaf) : list (list Z) :=
  map key leaves ++ map (λ v, smtLeafTag ++ v) (placeholder :: map val leaves)
  ++ fast_inputs smtDepth 0 (emptyHashes 0) (work_list (leaf_map leaves)).

Lemma smt_inputs_evaluated leaves x : x ∈ smt_inputs leaves → x ∈ smt_inputs_fast leaves.
Proof using.
  clear CL. unfold smt_inputs, smt_inputs_fast. rewrite !elem_of_app. intros [Hx|[Hx|[Hx|Hx]]]; [tauto|tauto|..];
    right; right; apply fast_inputs_spec; [right|by left].
  destruct (empty_inputs_spec _ _ Hx) as (i & Hi & ->). exists i. split; [lia|done].
Qed.

Lemma collision_free_mono (P Q : list Z → Prop) : (∀ x, P x → Q x) → collision_free Q → collision_free P.
Proof using. clear CL. intros HPQ HQ x y Hx Hy. apply HQ; auto. Qed.

Lemma collision_free_roots leaves1 leaves2 :
  NoDup (map Keccak256 (remove_dups (smt_inputs_fast leaves1 ++ smt_inputs_fast leaves2))) →
  collision_free (λ x, x ∈ smt_inputs leaves1 ++ smt_inputs leaves2).
Proof using.
  clear CL. intros H. eapply collision_free_mono; [|exact (collision_free_list _ H)].
  intros x. rewrite !elem_of_app. intros [?|?]; [left|right]; by apply smt_inputs_evaluated.
Qed.
End Root.

(** ** Evaluation on a concrete instance *)
Section Witness.
Local Existing Instances toy_crypto toy_crypto_laws.

Lemma ComputeSMTRoot_merkle_witness :
  ComputeSMTRoot [mkLeaf [97] [1]; mkLeaf [98] [2]] =
    merkle (leaf_at (leaf_map [mkLeaf [97] [1]; mkLeaf [98] [2]])) smtDepth 0.
Proof. exact (ComputeSMTRoot_merkle [mkLeaf [97] [1]; mkLeaf [98] [2]]). Defined.

Lemma toy_paths_distinct :
  NoDup (map (λ x, Keccak256 (key x)) [mkLeaf [97] [1]; mkLeaf [98] [2]]).
Proof. apply (bool_decide_unpack _). vm_compute. exact I. Qed.

Lemma ComputeSMTRoot_perm_witness :
  ComputeSMTRoot [mkLeaf [97] [1]; mkLeaf [98] [2]] = ComputeSMTRoot [mkLeaf [98] [2]; mkLeaf [97] [1]].
Proof. exact (ComputeSMTRoot_perm _ _ (perm_swap _ _ []) toy_paths_distinct). Defined.

Lemma toy_leaves_ok : leaves_ok [mkLeaf [97] [1]; mkLeaf [98] [2]].
Proof.
  split; [apply (bool_decide_unpack _); vm_compute; exact I|].
  intros l. rewrite !elem_of_cons, elem_of_nil. intros [->|[->|[]]]; discriminate.
Qed.

(** Two insertion orders of one state. *)
Definition sample_leaves : list leaf := [mkLeaf [97] [1]; mkLeaf [98] [2]].

Lemma toy_collision_free : collision_free (λ x, x ∈ smt_inputs sample_leaves ++ smt_inputs (reverse sample_leaves)).
Proof. apply collision_free_roots, (bool_decide_unpack _). vm_compute. exact I. Qed.

Lemma ComputeSMTRoot_binding_witness : sample_leaves ≡ₚ reverse sample_leaves.
Proof.
  apply (ComputeSMTRoot_binding sample_leaves (reverse sample_leaves) toy_collision_free toy_leaves_ok).
  - split; [apply (bool_decide_unpack _); vm_compute; exact I|].
    intros l. change (reverse sample_leaves) with [mkLeaf [98] [2]; mkLeaf [97] [1]].
    rewrite !elem_of_cons, elem_of_nil. intros [->|[->|[]]]; discriminate.
  - change (smtRootFromMap (leaf_map sample_leaves) = smtRootFromMap (leaf_map (reverse sample_leaves))).
    f_equal.
Defined.
End Witness.
