(* ===== verification/StateDB.v ===== *)
(** * The flat state database

    Models [core/state/statedb.go], [core/state/journal.go],
    [core/state/evm_api.go], [core/state/access_list.go],
    [core/state/access_track.go], [core/state/keys.go] and
    [core/types/account.go].

    The cache maps of the Go struct are the fields of [StateDB]; Go's account
    pointers are always reached through the [accounts] map, so a mutation
    through a pointer is an update of that map.  The backing store is the
    map of its byte keys and values; its I/O errors are not modelled.  An
    operation that can panic returns [option].  Journal entries are kept
    newest first. *)
From S2P Require Import Prelude Types Toy.

(** ** Accounts and keys *)
Record Account : Type := mkAccount {
  Nonce : Z;
  Balance : Z;
  CodeHash : Hash;
}.

#[export] Instance Account_eq_dec : EqDecision Account.
Proof. solve_decision. Defined.

Definition prefixAccount : Z := 97.
Definition prefixStorage : Z := 115.
Definition prefixCode : Z := 99.

Definition accountKey (addr : Address) : list Z := prefixAccount :: addr_bytes addr.
Definition storageKey (addr : Address) (slot : Hash) : list Z :=
  prefixStorage :: addr_bytes addr ++ hash_bytes slot.
Definition codeKey (codeHash : Hash) : list Z := prefixCode :: hash_bytes codeHash.

Abbreviation Database := (gmap (list Z) (list Z)) (only parsing).

(** [rlp.DecodeBytes] into the struct of [decodeAccount]. *)
Class AccountCodec : Type := { rlp_decode_account : list Z → option (Z * Z * list Z) }.

(** Decoding gives back what [rlp.EncodeToBytes] was given. *)
Class AccountCodecLaws `(C : Crypto) `(D : AccountCodec) : Prop := {
  decode_encode_account : ∀ nonce bal ch,
    is_u64 nonce → is_u256 bal → length ch = 32%nat → bytes_ok ch →
    rlp_decode_account (rlp_encode (RList [RNum nonce; RNum bal; RStr ch])) = Some (nonce, bal, ch);
}.

(** ** Access tracking (Dew-PE) *)
Inductive AccessKey : Type :=
| AccountKey (addr : Address)
| StorageKeyAccess (addr : Address) (slot : Hash).

#[export] Instance AccessKey_eq_dec : EqDecision AccessKey.
Proof. solve_decision. Defined.
#[export] Instance AccessKey_countable : Countable AccessKey.
Proof.
  apply (inj_countable'
    (λ k, match k with AccountKey a => inl a | StorageKeyAccess a s => inr (a, s) end)
    (λ x, match x with inl a => AccountKey a | inr (a, s) => StorageKeyAccess a s end)).
  by intros [].
Qed.

Record AccessSet : Type := mkAccessSet { Reads : gset AccessKey; Writes : gset AccessKey }.

Definition NewAccessSet : AccessSet := mkAccessSet ∅ ∅.
Definition RecordRead (k : AccessKey) (a : AccessSet) : AccessSet :=
  if decide (k ∈ Writes a) then a else mkAccessSet ({[k]} ∪ Reads a) (Writes a).
Definition RecordWrite (k : AccessKey) (a : AccessSet) : AccessSet :=
  mkAccessSet (Reads a ∖ {[k]}) ({[k]} ∪ Writes a).
Definition ConflictsWith (a : option AccessSet) (earlierWrites : gset AccessKey) : bool :=
  match a with
  | None => false
  | Some a => bool_decide (Reads a ∩ earlierWrites ≠ ∅) || bool_decide (Writes a ∩ earlierWrites ≠ ∅)
  end.
Definition MergeWrites (a : option AccessSet) (dst : gset AccessKey) : gset AccessKey :=
  match a with None => dst | Some a => Writes a ∪ dst end.

(** ** The EIP-2929 access list

    [addresses] holds an index into [slots], or -1 for an address without
    slots. *)
Record AccessList : Type := mkAccessList { addresses : gmap Address Z; slots : list (gset Hash) }.

Definition newAccessList : AccessList := mkAccessList ∅ [].

Definition ContainsAddress (al : AccessList) (addr : Address) : bool :=
  bool_decide (is_Some (addresses al !! addr)).

(** An index outside [slots] panics in Go; here it reads as the empty set. *)
Definition slots_at (al : AccessList) (idx : Z) : gset Hash := default ∅ (slots al !! Z.to_nat idx).

Definition Contains (al : AccessList) (addr : Address) (slot : Hash) : bool * bool :=
  match addresses al !! addr with
  | None => (false, false)
  | Some idx => if idx =? -1 then (true, false) else (true, bool_decide (slot ∈ slots_at al idx))
  end.

Definition AddAddress (al : AccessList) (addr : Address) : AccessList * bool :=
  match addresses al !! addr with
  | Some _ => (al, false)
  | None => (mkAccessList (<[addr := -1]> (addresses al)) (slots al), true)
  end.

Definition AddSlot (al : AccessList) (addr : Address) (slot : Hash) : AccessList * (bool * bool) :=
  let fresh addrChange :=
    (mkAccessList (<[addr := Z.of_nat (length (slots al))]> (addresses al)) (slots al ++ [{[slot]}]),
     (addrChange, true)) in
  match addresses al !! addr with
  | None => fresh true
  | Some idx =>
      if idx =? -1 then fresh false else
      if bool_decide (slot ∈ slots_at al idx) then (al, (false, false))
      else (mkAccessList (addresses al) (<[Z.to_nat idx := {[slot]} ∪ slots_at al idx]> (slots al)),
            (false, true))
  end.

Definition DeleteAddress (al : AccessList) (addr : Address) : AccessList :=
  mkAccessList (delete addr (addresses al)) (slots al).

Definition DeleteSlot (al : AccessList) (addr : Address) (slot : Hash) : AccessList :=
  match addresses al !! addr with
  | None => al
  | Some idx =>
      if idx =? -1 then al else
      let left := slots_at al idx ∖ {[slot]} in
      mkAccessList (if decide (left = ∅) then <[addr := -1]> (addresses al) else addresses al)
        (<[Z.to_nat idx := left]> (slots al))
  end.

(** ** Journal entries *)
Record Log : Type := mkLog { log_Address : Address; log_Topics : list Hash; log_Data : list Z }.

Inductive journalEntry : Type :=
| balanceChange (account : Address) (prev : Z)
| nonceChange (account : Address) (prev : Z)
| codeChange (account : Address) (prevHash : Hash) (prevCode : option (list Z))
| storageChange (account : Address) (key prevalue : Hash)
| createObjectChange (account : Address)
| suicideChange (account : Address) (prev : bool) (prevBalance : Z)
| refundChange (prev : Z)
| addLogChange
| accessListAddAccountChange (address : Address)
| accessListAddSlotChange (address : Address) (slot : Hash)
| transientStorageChange (account : Address) (key prevalue : Hash)
| touchChange (account : Address).

Definition entryDirtyAddress (e : journalEntry) : option Address :=
  match e with
  | balanceChange a _ | nonceChange a _ | codeChange a _ _ | storageChange a _ _
  | createObjectChange a | suicideChange a _ _ | touchChange a | transientStorageChange a _ _ => Some a
  | _ => None
  end.

Record StateDB : Type := mkStateDB {
  db : Database;
  accounts : gmap Address Account;
  storage : gmap (Address * Hash) Hash;
  code : gmap Hash (list Z);
  accountDirty : gset Address;
  storageDirty : gset (Address * Hash);
  suicides : gset Address;
  jentries : list journalEntry;
  dirties : gmap Address Z;
  validRevisions : list (Z * nat);
  nextRevisionID : Z;
  refund : Z;
  logs : list Log;
  accessList : AccessList;
  transient : gmap Address (gmap Hash Hash);
  newContracts : gset Address;
  storageOrigin : gmap (Address * Hash) Hash;
  trackAccess : bool;
  accessSet : option AccessSet;
}.

Definition set_db (x : Database) (s : StateDB) : StateDB :=
  mkStateDB x (accounts s) (storage s) (code s) (accountDirty s) (storageDirty s) (suicides s)
  (jentries s) (dirties s) (validRevisions s) (nextRevisionID s) (refund s) (logs s) (accessList s)
  (transient s) (newContracts s) (storageOrigin s) (trackAccess s) (accessSet s).
Definition set_accounts (x : gmap Address Account) (s : StateDB) : StateDB :=
  mkStateDB (db s) x (storage s) (code s) (accountDirty s) (storageDirty s) (suicides s) (jentries s)
  (dirties s) (validRevisions s) (nextRevisionID s) (refund s) (logs s) (accessList s) (transient s)
  (newContracts s) (storageOrigin s) (trackAccess s) (accessSet s).
Definition set_storage (x : gmap (Address * Hash) Hash) (s : StateDB) : StateDB :=
  mkStateDB (db s) (accounts s) x (code s) (accountDirty s) (storageDirty s) (suicides s) (jentries s)
  (dirties s) (validRevisions s) (nextRevisionID s) (refund s) (logs s) (accessList s) (transient s)
  (newContracts s) (storageOrigin s) (trackAccess s) (accessSet s).
Definition set_code (x : gmap Hash (list Z)) (s : StateDB) : StateDB :=
  mkStateDB (db s) (accounts s) (storage s) x (accountDirty s) (storageDirty s) (suicides s) (jentries
  s) (dirties s) (validRevisions s) (nextRevisionID s) (refund s) (logs s) (accessList s) (transient
  s) (newContracts s) (storageOrigin s) (trackAccess s) (accessSet s).
Definition set_accountDirty (x : gset Address) (s : StateDB) : StateDB :=
  mkStateDB (db s) (accounts s) (storage s) (code s) x (storageDirty s) (suicides s) (jentries s)
  (dirties s) (validRevisions s) (nextRevisionID s) (refund s) (logs s) (accessList s) (transient s)
  (newContracts s) (storageOrigin s) (trackAccess s) (accessSet s).
Definition set_storageDirty (x : gset (Address * Hash)) (s : StateDB) : StateDB :=
  mkStateDB (db s) (accounts s) (storage s) (code s) (accountDirty s) x (suicides s) (jentries s)
  (dirties s) (validRevisions s) (nextRevisionID s) (refund s) (logs s) (accessList s) (transient s)
  (newContracts s) (storageOrigin s) (trackAccess s) (accessSet s).
Definition set_suicides (x : gset Address) (s : StateDB) : StateDB :=
  mkStateDB (db s) (accounts s) (storage s) (code s) (accountDirty s) (storageDirty s) x (jentries s)
  (dirties s) (validRevisions s) (nextRevisionID s) (refund s) (logs s) (accessList s) (transient s)
  (newContracts s) (storageOrigin s) (trackAccess s) (accessSet s).
Definition set_jentries (x : list journalEntry) (s : StateDB) : StateDB :=
  mkStateDB (db s) (accounts s) (storage s) (code s) (accountDirty s) (storageDirty s) (suicides s) x
  (dirties s) (validRevisions s) (nextRevisionID s) (refund s) (logs s) (accessList s) (transient s)
  (newContracts s) (storageOrigin s) (trackAccess s) (accessSet s).
Definition set_dirties (x : gmap Address Z) (s : StateDB) : StateDB :=
  mkStateDB (db s) (accounts s) (storage s) (code s) (accountDirty s) (storageDirty s) (suicides s)
  (jentries s) x (validRevisions s) (nextRevisionID s) (refund s) (logs s) (accessList s) (transient
  s) (newContracts s) (storageOrigin s) (trackAccess s) (accessSet s).
Definition set_validRevisions (x : list (Z * nat)) (s : StateDB) : StateDB :=
  mkStateDB (db s) (accounts s) (storage s) (code s) (accountDirty s) (storageDirty s) (suicides s)
  (jentries s) (dirties s) x (nextRevisionID s) (refund s) (logs s) (accessList s) (transient s)
  (newContracts s) (storageOrigin s) (trackAccess s) (accessSet s).
Definition set_nextRevisionID (x : Z) (s : StateDB) : StateDB :=
  mkStateDB (db s) (accounts s) (storage s) (code s) (accountDirty s) (storageDirty s) (suicides s)
  (jentries s) (dirties s) (validRevisions s) x (refund s) (logs s) (accessList s) (transient s)
  (newContracts s) (storageOrigin s) (trackAccess s) (accessSet s).
Definition set_refund (x : Z) (s : StateDB) : StateDB :=
  mkStateDB (db s) (accounts s) (storage s) (code s) (accountDirty s) (storageDirty s) (suicides s)
  (jentries s) (dirties s) (validRevisions s) (nextRevisionID s) x (logs s) (accessList s) (transient
  s) (newContracts s) (storageOrigin s) (trackAccess s) (accessSet s).
Definition set_logs (x : list Log) (s : StateDB) : StateDB :=
  mkStateDB (db s) (accounts s) (storage s) (code s) (accountDirty s) (storageDirty s) (suicides s)
  (jentries s) (dirties s) (validRevisions s) (nextRevisionID s) (refund s) x (accessList s)
  (transient s) (newContracts s) (storageOrigin s) (trackAccess s) (accessSet s).
Definition set_accessList (x : AccessList) (s : StateDB) : StateDB :=
  mkStateDB (db s) (accounts s) (storage s) (code s) (accountDirty s) (storageDirty s) (suicides s)
  (jentries s) (dirties s) (validRevisions s) (nextRevisionID s) (refund s) (logs s) x (transient s)
  (newContracts s) (storageOrigin s) (trackAccess s) (accessSet s).
Definition set_transient (x : gmap Address (gmap Hash Hash)) (s : StateDB) : StateDB :=
  mkStateDB (db s) (accounts s) (storage s) (code s) (accountDirty s) (storageDirty s) (suicides s)
  (jentries s) (dirties s) (validRevisions s) (nextRevisionID s) (refund s) (logs s) (accessList s) x
  (newContracts s) (storageOrigin s) (trackAccess s) (accessSet s).
Definition set_newContracts (x : gset Address) (s : StateDB) : StateDB :=
  mkStateDB (db s) (accounts s) (storage s) (code s) (accountDirty s) (storageDirty s) (suicides s)
  (jentries s) (dirties s) (validRevisions s) (nextRevisionID s) (refund s) (logs s) (accessList s)
  (transient s) x (storageOrigin s) (trackAccess s) (accessSet s).
Definition set_storageOrigin (x : gmap (Address * Hash) Hash) (s : StateDB) : StateDB :=
  mkStateDB (db s) (accounts s) (storage s) (code s) (accountDirty s) (storageDirty s) (suicides s)
  (jentries s) (dirties s) (validRevisions s) (nextRevisionID s) (refund s) (logs s) (accessList s)
  (transient s) (newContracts s) x (trackAccess s) (accessSet s).
Definition set_trackAccess (x : bool) (s : StateDB) : StateDB :=
  mkStateDB (db s) (accounts s) (storage s) (code s) (accountDirty s) (storageDirty s) (suicides s)
  (jentries s) (dirties s) (validRevisions s) (nextRevisionID s) (refund s) (logs s) (accessList s)
  (transient s) (newContracts s) (storageOrigin s) x (accessSet s).
Definition set_accessSet (x : option AccessSet) (s : StateDB) : StateDB :=
  mkStateDB (db s) (accounts s) (storage s) (code s) (accountDirty s) (storageDirty s) (suicides s)
  (jentries s) (dirties s) (validRevisions s) (nextRevisionID s) (refund s) (logs s) (accessList s)
  (transient s) (newContracts s) (storageOrigin s) (trackAccess s) x.

(** [transientStorage.set] and [get] *)
Definition transient_set (t : gmap Address (gmap Hash Hash)) (addr : Address) (key value : Hash)
    : gmap Address (gmap Hash Hash) :=
  <[addr := <[key := value]> (default ∅ (t !! addr))]> t.
Definition transient_get (t : gmap Address (gmap Hash Hash)) (addr : Address) (key : Hash) : Hash :=
  match t !! addr with Some m => default 0 (m !! key) | None => 0 end.

Definition noteRead (k : AccessKey) (s : StateDB) : StateDB :=
  if trackAccess s then
    match accessSet s with Some a => set_accessSet (Some (RecordRead k a)) s | None => s end
  else s.
Definition noteWrite (k : AccessKey) (s : StateDB) : StateDB :=
  if trackAccess s then
    match accessSet s with Some a => set_accessSet (Some (RecordWrite k a)) s | None => s end
  else s.

Definition StartAccessTracking (s : StateDB) : StateDB :=
  set_accessSet (Some NewAccessSet) (set_trackAccess true s).
Definition TakeAccessSet (s : StateDB) : StateDB * option AccessSet :=
  (set_accessSet None (set_trackAccess false s), accessSet s).

Definition journal_append (e : journalEntry) (s : StateDB) : StateDB :=
  let s1 := set_jentries (e :: jentries s) s in
  match entryDirtyAddress e with
  | Some a => set_dirties (<[a := default 0 (dirties s !! a) + 1]> (dirties s)) s1
  | None => s1
  end.

Section StateDB.
Context `{C : Crypto} `{D : AccountCodec}.

Definition NewAccount : Account := mkAccount 0 0 EmptyCodeHash.

Definition New (database : Database) : StateDB :=
  mkStateDB database ∅ ∅ ∅ ∅ ∅ ∅ [] ∅ [] 0 0 [] newAccessList ∅ ∅ ∅ false None.

Definition encodeAccount (acc : Account) : list Z :=
  rlp_encode (RList [RNum (Nonce acc); RNum (Balance acc); RStr (hash_bytes (CodeHash acc))]).

Definition decodeAccount (blob : list Z) : res Account :=
  match rlp_decode_account blob with
  | None => Err "state: decode account"
  | Some (nonce, bal, ch) => Ok (mkAccount nonce (u256 bal) (BytesToHash ch))
  end.

(** ** Reads *)
Definition getAccount (addr : Address) (s : StateDB) : StateDB * option Account :=
  if decide (addr ∈ suicides s) then (s, None) else
  match accounts s !! addr with
  | Some acc => (s, Some acc)
  | None =>
      match db s !! accountKey addr with
      | None => (s, None)
      | Some blob =>
          match decodeAccount blob with
          | Err _ => (s, None)
          | Ok acc => (set_accounts (<[addr := acc]> (accounts s)) s, Some acc)
          end
      end
  end.

Definition put_account (addr : Address) (acc : Account) (s : StateDB) : StateDB :=
  set_accountDirty ({[addr]} ∪ accountDirty s) (set_accounts (<[addr := acc]> (accounts s)) s).

Definition GetOrNewAccount (addr : Address) (s : StateDB) : StateDB * Account :=
  match getAccount addr s with
  | (s1, Some acc) => (s1, acc)
  | (s1, None) => (put_account addr NewAccount s1, NewAccount)
  end.

Definition Exist (addr : Address) (s : StateDB) : StateDB * bool :=
  let s1 := noteRead (AccountKey addr) s in
  if decide (addr ∈ suicides s1) then (s1, false) else
  match accounts s1 !! addr with
  | Some _ => (s1, true)
  | None => (s1, bool_decide (is_Some (db s1 !! accountKey addr)))
  end.

Definition ExistEVM (addr : Address) (s : StateDB) : StateDB * bool :=
  if decide (addr ∈ suicides s) then (s, true) else Exist addr s.

Definition GetBalance (addr : Address) (s : StateDB) : StateDB * Z :=
  let '(s1, acc) := getAccount addr (noteRead (AccountKey addr) s) in
  (s1, match acc with None => 0 | Some a => Balance a end).

Definition GetNonce (addr : Address) (s : StateDB) : StateDB * Z :=
  let '(s1, acc) := getAccount addr (noteRead (AccountKey addr) s) in
  (s1, match acc with None => 0 | Some a => Nonce a end).

Definition GetCodeHash (addr : Address) (s : StateDB) : StateDB * Hash :=
  let '(s1, acc) := getAccount addr (noteRead (AccountKey addr) s) in
  (s1, match acc with None => EmptyCodeHash | Some a => CodeHash a end).

(** [GetCode]; nil is [None]. *)
Definition GetCode (addr : Address) (s : StateDB) : StateDB * option (list Z) :=
  let '(s1, hash) := GetCodeHash addr (noteRead (AccountKey addr) s) in
  if hash =? EmptyCodeHash then (s1, None) else
  match code s1 !! hash with
  | Some c => (s1, Some c)
  | None =>
      match db s1 !! codeKey hash with
      | None => (s1, None)
      | Some blob => (set_code (<[hash := blob]> (code s1)) s1, Some blob)
      end
  end.

Definition GetCodeSize (addr : Address) (s : StateDB) : StateDB * Z :=
  let '(s1, c) := GetCode addr s in (s1, Z.of_nat (length (default [] c))).

Definition GetState (addr : Address) (slot : Hash) (s : StateDB) : StateDB * Hash :=
  let s1 := noteRead (StorageKeyAccess addr slot) s in
  match storage s1 !! (addr, slot) with
  | Some v => (s1, v)
  | None =>
      match db s1 !! storageKey addr slot with
      | None => (s1, 0)
      | Some blob =>
          let v := BytesToHash blob in (set_storage (<[(addr, slot) := v]> (storage s1)) s1, v)
      end
  end.

Definition GetCommittedState (addr : Address) (key : Hash) (s : StateDB) : Hash :=
  match storageOrigin s !! (addr, key) with
  | Some v => v
  | None => match db s !! storageKey addr key with None => 0 | Some blob => BytesToHash blob end
  end.

Definition Empty (addr : Address) (s : StateDB) : StateDB * bool :=
  let '(s1, acc) := getAccount addr s in
  (s1, match acc with
       | None => true
       | Some a => (Nonce a =? 0) && (Balance a =? 0) && (CodeHash a =? EmptyCodeHash)
       end).

Definition HasSelfDestructed (addr : Address) (s : StateDB) : bool := bool_decide (addr ∈ suicides s).
Definition IsNewContract (addr : Address) (s : StateDB) : bool := bool_decide (addr ∈ newContracts s).

(** ** Unjournaled writes *)
Definition SetBalance (addr : Address) (bal : Z) (s : StateDB) : StateDB :=
  let '(s1, acc) := GetOrNewAccount addr (noteWrite (AccountKey addr) s) in
  put_account addr (mkAccount (Nonce acc) bal (CodeHash acc)) s1.

Definition SetBalanceRaw (addr : Address) (bal : Z) (s : StateDB) : StateDB :=
  let '(s1, acc) := GetOrNewAccount addr s in
  put_account addr (mkAccount (Nonce acc) bal (CodeHash acc)) s1.

Definition SetNonce (addr : Address) (nonce : Z) (s : StateDB) : StateDB :=
  let '(s1, acc) := GetOrNewAccount addr (noteWrite (AccountKey addr) s) in
  put_account addr (mkAccount nonce (Balance acc) (CodeHash acc)) s1.

Definition put_code (addr : Address) (acc : Account) (c : list Z) (s : StateDB) : StateDB :=
  match c with
  | [] => put_account addr (mkAccount (Nonce acc) (Balance acc) EmptyCodeHash) s
  | _ =>
      let h := Keccak256Hash c in
      put_account addr (mkAccount (Nonce acc) (Balance acc) h) (set_code (<[h := c]> (code s)) s)
  end.

Definition SetCode (addr : Address) (c : list Z) (s : StateDB) : StateDB :=
  let '(s1, acc) := GetOrNewAccount addr (noteWrite (AccountKey addr) s) in put_code addr acc c s1.

Definition put_storage (addr : Address) (slot value : Hash) (s : StateDB) : StateDB :=
  set_storageDirty ({[(addr, slot)]} ∪ storageDirty s) (set_storage (<[(addr, slot) := value]> (storage s)) s).

Definition SetState (addr : Address) (slot value : Hash) (s : StateDB) : StateDB :=
  put_storage addr slot value (GetOrNewAccount addr (noteWrite (StorageKeyAccess addr slot) s)).1.

(** ** Journaled writes *)
Definition CreateAccount (addr : Address) (s : StateDB) : StateDB :=
  let '(s1, prev) := getAccount addr (noteWrite (AccountKey addr) s) in
  let s2 := journal_append (createObjectChange addr) s1 in
  put_account addr (mkAccount 0 (match prev with Some p => Balance p | None => 0 end) EmptyCodeHash) s2.

Definition CreateContract (addr : Address) (s : StateDB) : StateDB :=
  set_newContracts ({[addr]} ∪ newContracts s) s.

(** The common body of the balance setters: [f] of the previous balance. *)
Definition change_balance (addr : Address) (f : Z → Z) (s : StateDB) : StateDB * Z :=
  let '(s1, acc) := GetOrNewAccount addr (noteWrite (AccountKey addr) s) in
  let prev := Balance acc in
  let s2 := journal_append (balanceChange addr prev) s1 in
  (put_account addr (mkAccount (Nonce acc) (f prev) (CodeHash acc)) s2, prev).

Definition SubBalance (addr : Address) (amount : Z) (s : StateDB) : StateDB * Z :=
  change_balance addr (λ prev, prev -₂₅₆ amount) s.
Definition AddBalancePrev (addr : Address) (amount : Z) (s : StateDB) : StateDB * Z :=
  change_balance addr (λ prev, prev +₂₅₆ amount) s.
Definition AddBalance (addr : Address) (amount : Z) (s : StateDB) : StateDB :=
  (AddBalancePrev addr amount s).1.
Definition SetBalanceJournaled (addr : Address) (bal : Z) (s : StateDB) : StateDB :=
  (change_balance addr (λ _, bal) s).1.

Definition SetNonceJournaled (addr : Address) (nonce : Z) (s : StateDB) : StateDB :=
  let '(s1, acc) := GetOrNewAccount addr (noteWrite (AccountKey addr) s) in
  let s2 := journal_append (nonceChange addr (Nonce acc)) s1 in
  put_account addr (mkAccount nonce (Balance acc) (CodeHash acc)) s2.

Definition SetCodeJournaled (addr : Address) (c : list Z) (s : StateDB) : StateDB :=
  let '(s1, acc) := GetOrNewAccount addr (noteWrite (AccountKey addr) s) in
  let '(s2, prevCode) :=
    if CodeHash acc =? EmptyCodeHash then (s1, None) else GetCode addr s1 in
  put_code addr acc c (journal_append (codeChange addr (CodeHash acc) prevCode) s2).

Definition SetStateJournaled (addr : Address) (key value : Hash) (s : StateDB) : StateDB * Hash :=
  let '(s1, prev) := GetState addr key s in
  if prev =? value then (s1, prev) else
  let s2 := noteWrite (StorageKeyAccess addr key) s1 in
  let s3 := match storageOrigin s2 !! (addr, key) with
            | Some _ => s2
            | None => set_storageOrigin (<[(addr, key) := prev]> (storageOrigin s2)) s2
            end in
  let s4 := journal_append (storageChange addr key prev) s3 in
  (put_storage addr key value (GetOrNewAccount addr s4).1, prev).

Definition SelfDestruct (addr : Address) (s : StateDB) : StateDB * Z :=
  match getAccount addr s with
  | (s1, None) => (s1, 0)
  | (s1, Some acc) =>
      let prevBal := Balance acc in
      let s2 := journal_append (suicideChange addr (bool_decide (addr ∈ suicides s1)) prevBal) s1 in
      let s3 := set_suicides ({[addr]} ∪ suicides s2) s2 in
      (put_account addr (mkAccount (Nonce acc) 0 (CodeHash acc)) s3, prevBal)
  end.

Definition SelfDestruct6780 (addr : Address) (s : StateDB) : StateDB * (Z * bool) :=
  if decide (addr ∈ newContracts s) then
    let '(s1, b) := SelfDestruct addr s in (s1, (b, true))
  else
  match getAccount addr s with
  | (s1, None) => (s1, (0, false))
  | (s1, Some acc) =>
      let prev := Balance acc in
      (put_account addr (mkAccount (Nonce acc) 0 (CodeHash acc))
         (journal_append (balanceChange addr prev) s1), (prev, false))
  end.

Definition AddRefund (gas : Z) (s : StateDB) : StateDB :=
  set_refund (refund s +₆₄ gas) (journal_append (refundChange (refund s)) s).

(** [None] is the panic "refund counter below zero". *)
Definition SubRefund (gas : Z) (s : StateDB) : option StateDB :=
  let s1 := journal_append (refundChange (refund s)) s in
  if refund s <? gas then None else Some (set_refund (refund s - gas) s1).

Definition AddLog (l : Log) (s : StateDB) : StateDB :=
  set_logs (logs s ++ [l]) (journal_append addLogChange s).
Definition ClearLogs (s : StateDB) : StateDB := set_logs [] s.

Definition GetTransientState (addr : Address) (key : Hash) (s : StateDB) : Hash :=
  transient_get (transient s) addr key.
Definition SetTransientState (addr : Address) (key value : Hash) (s : StateDB) : StateDB :=
  let prev := transient_get (transient s) addr key in
  let s1 := journal_append (transientStorageChange addr key prev) s in
  set_transient (transient_set (transient s1) addr key value) s1.

Definition AddAddressToAccessList (addr : Address) (s : StateDB) : StateDB :=
  let '(al, changed) := AddAddress (accessList s) addr in
  let s1 := set_accessList al s in
  if changed then journal_append (accessListAddAccountChange addr) s1 else s1.

Definition AddSlotToAccessList (addr : Address) (slot : Hash) (s : StateDB) : StateDB :=
  let '(al, (addrMod, slotMod)) := AddSlot (accessList s) addr slot in
  let s1 := set_accessList al s in
  let s2 := if addrMod then journal_append (accessListAddAccountChange addr) s1 else s1 in
  if slotMod then journal_append (accessListAddSlotChange addr slot) s2 else s2.

Definition Prepare (sender coinbase : Address) (dest : option Address) (precompiles : list Address)
    (s : StateDB) : StateDB :=
  let s1 := set_transient ∅ (set_accessList newAccessList s) in
  let s2 := AddAddressToAccessList sender s1 in
  let s3 := match dest with Some d => AddAddressToAccessList d s2 | None => s2 end in
  let s4 := foldl (λ st a, AddAddressToAccessList a st) s3 precompiles in
  let s5 := AddAddressToAccessList coinbase s4 in
  set_refund 0 (set_newContracts ∅ s5).

(** ** Snapshots *)
Definition revert_entry (e : journalEntry) (s : StateDB) : StateDB :=
  match e with
  | balanceChange a prev =>
      let '(s1, acc) := GetOrNewAccount a s in put_account a (mkAccount (Nonce acc) prev (CodeHash acc)) s1
  | nonceChange a prev =>
      let '(s1, acc) := GetOrNewAccount a s in put_account a (mkAccount prev (Balance acc) (CodeHash acc)) s1
  | codeChange a prevHash prevCode =>
      let '(s1, acc) := GetOrNewAccount a s in
      let s2 := match prevCode with
                | Some c => if prevHash =? EmptyCodeHash then s1
                            else set_code (<[prevHash := c]> (code s1)) s1
                | None => s1
                end in
      put_account a (mkAccount (Nonce acc) (Balance acc) prevHash) s2
  | storageChange a key prevalue => put_storage a key prevalue s
  | createObjectChange a =>
      set_newContracts (newContracts s ∖ {[a]})
        (set_accountDirty (accountDirty s ∖ {[a]}) (set_accounts (delete a (accounts s)) s))
  | suicideChange a prev prevBalance =>
      let s1 := set_suicides (if prev then {[a]} ∪ suicides s else suicides s ∖ {[a]}) s in
      match getAccount a s1 with
      | (s2, Some acc) => put_account a (mkAccount (Nonce acc) prevBalance (CodeHash acc)) s2
      | (s2, None) => s2
      end
  | refundChange prev => set_refund prev s
  | addLogChange => set_logs (removelast (logs s)) s
  | accessListAddAccountChange a => set_accessList (DeleteAddress (accessList s) a) s
  | accessListAddSlotChange a slot => set_accessList (DeleteSlot (accessList s) a slot) s
  | transientStorageChange a key prevalue => set_transient (transient_set (transient s) a key prevalue) s
  | touchChange _ => s
  end.

(** [journal.revert]: undo the newest [n] entries. *)
Fixpoint journal_revert (n : nat) (s : StateDB) : StateDB :=
  match n with
  | O => s
  | S m =>
      match jentries s with
      | [] => s
      | e :: es => journal_revert m (set_jentries es (revert_entry e s))
      end
  end.

Definition Snapshot (s : StateDB) : StateDB * Z :=
  let id := nextRevisionID s in
  (set_validRevisions (validRevisions s ++ [(id, length (jentries s))]) (set_nextRevisionID (id + 1) s), id).

(** The newest valid revision with this id, with the revisions before it. *)
Fixpoint find_revision (revs : list (Z * nat)) (revid : Z) : option (list (Z * nat) * nat) :=
  match revs with
  | [] => None
  | (id, idx) :: revs' =>
      match find_revision revs' revid with
      | Some (before, i) => Some ((id, idx) :: before, i)
      | None => if id =? revid then Some ([], idx) else None
      end
  end.

(** [None] is the panic "invalid snapshot id". *)
Definition RevertToSnapshot (revid : Z) (s : StateDB) : option StateDB :=
  match find_revision (validRevisions s) revid with
  | None => None
  | Some (before, idx) => Some (set_validRevisions before (journal_revert (length (jentries s) - idx) s))
  end.

(** ** End of transaction and commit *)
Definition zero_storage_of (dead : gset Address) (m : gmap (Address * Hash) Hash) : gmap (Address * Hash) Hash :=
  map_imap (λ id v, Some (if decide (id.1 ∈ dead) then 0 else v)) m.

Definition storage_ids_of (dead : gset Address) (m : gmap (Address * Hash) Hash) : gset (Address * Hash) :=
  dom (filter (λ kv, kv.1.1 ∈ dead) m).

(** One turn of the empty-account loop of [Finalise]. *)
Definition drop_if_empty (s : StateDB) (addr : Address) : StateDB :=
  let '(s1, empty) := Empty addr s in
  if empty then
    set_accountDirty ({[addr]} ∪ accountDirty s1) (set_accounts (delete addr (accounts s1)) s1)
  else s1.

(** The loop of [Finalise] over the self-destructed addresses. *)
Definition process_suicides (s : StateDB) : StateDB :=
  let dead := suicides s in
  let s1 := set_accountDirty (dead ∪ accountDirty s)
              (set_accounts (filter (λ kv, kv.1 ∉ dead) (accounts s)) s) in
  set_storageDirty (storage_ids_of dead (storage s1) ∪ storageDirty s1)
    (set_storage (zero_storage_of dead (storage s1)) s1).

(** [Finalise].  The turns of each of its loops touch different addresses, so
    Go's iteration order is immaterial; the second loop is run in the order of
    [map_to_list]. *)
Definition Finalise (deleteEmptyObjects : bool) (s : StateDB) : StateDB :=
  let s2 := process_suicides s in
  let s3 := if deleteEmptyObjects then foldl drop_if_empty s2 (map_to_list (dirties s2)).*1 else s2 in
  set_transient ∅ (set_refund 0 (set_storageOrigin ∅ (set_newContracts ∅ (set_suicides ∅
    (set_validRevisions [] (set_dirties ∅ (set_jentries [] s3))))))).

(** The writes of [FlushDirtyTo] for one account and one slot. *)
Definition flush_account (s : StateDB) (w : Database) (addr : Address) : Database :=
  if decide (addr ∈ suicides s) then delete (accountKey addr) w else
  match accounts s !! addr with
  | None => w
  | Some acc =>
      let w1 := <[accountKey addr := encodeAccount acc]> w in
      if CodeHash acc =? EmptyCodeHash then w1 else
      match code s !! CodeHash acc with
      | Some c => <[codeKey (CodeHash acc) := c]> w1
      | None => w1
      end
  end.

Definition flush_slot (s : StateDB) (w : Database) (id : Address * Hash) : Database :=
  let val := default 0 (storage s !! id) in
  if Hash_IsZero val then delete (storageKey id.1 id.2) w
  else <[storageKey id.1 id.2 := hash_bytes val]> w.

Definition FlushDirtyTo (s : StateDB) (w : Database) : Database :=
  foldl (flush_slot s) (foldl (flush_account s) w (elements (accountDirty s))) (elements (storageDirty s)).

Definition ClearDirty (s : StateDB) : StateDB :=
  set_suicides ∅ (set_storageDirty ∅ (set_accountDirty ∅ s)).

(** ** What can be observed of a state

    The account an address names, whether cached or stored, ignoring the
    self-destruct mark; the storage value; the warm slots of an address. *)
Definition stored_account (d : Database) (a : Address) : option Account :=
  match d !! accountKey a with
  | Some blob => match decodeAccount blob with Ok acc => Some acc | Err _ => None end
  | None => None
  end.

Definition raw_account (s : StateDB) (a : Address) : option Account :=
  match accounts s !! a with
  | Some acc => Some acc
  | None => stored_account (db s) a
  end.

Definition account_of (s : StateDB) (a : Address) : option Account :=
  if decide (a ∈ suicides s) then None else raw_account s a.

Definition storage_of (s : StateDB) (a : Address) (k : Hash) : Hash :=
  match storage s !! (a, k) with
  | Some v => v
  | None => match db s !! storageKey a k with Some blob => BytesToHash blob | None => 0 end
  end.

Definition balance_of (s : StateDB) (a : Address) : Z :=
  match account_of s a with Some acc => Balance acc | None => 0 end.

Definition nonce_of (s : StateDB) (a : Address) : Z :=
  match account_of s a with Some acc => Nonce acc | None => 0 end.

Definition warm (al : AccessList) (a : Address) : option (gset Hash) :=
  match addresses al !! a with
  | None => None
  | Some idx => if idx =? -1 then Some ∅ else Some (slots_at al idx)
  end.

(** The fields only the balance, nonce, code and storage setters leave alone. *)
Definition rest (s : StateDB) :=
  (db s, suicides s, jentries s, validRevisions s, nextRevisionID s, refund s, logs s, accessList s,
   transient s).

(** ** Lookups through the caches *)
Lemma noteRead_id k s : accounts (noteRead k s) = accounts s ∧ storage (noteRead k s) = storage s ∧
  rest (noteRead k s) = rest s ∧ storageOrigin (noteRead k s) = storageOrigin s
  ∧ accountDirty (noteRead k s) = accountDirty s ∧ storageDirty (noteRead k s) = storageDirty s
  ∧ code (noteRead k s) = code s ∧ newContracts (noteRead k s) = newContracts s.
Proof. unfold noteRead. destruct (trackAccess s), (accessSet s); done. Qed.

Lemma noteWrite_id k s : accounts (noteWrite k s) = accounts s ∧ storage (noteWrite k s) = storage s ∧
  rest (noteWrite k s) = rest s ∧ storageOrigin (noteWrite k s) = storageOrigin s
  ∧ accountDirty (noteWrite k s) = accountDirty s ∧ storageDirty (noteWrite k s) = storageDirty s
  ∧ code (noteWrite k s) = code s ∧ newContracts (noteWrite k s) = newContracts s.
Proof. unfold noteWrite. destruct (trackAccess s), (accessSet s); done. Qed.

(** States with the same accounts, storage and other fields. *)
Record same_view (s1 s2 : StateDB) : Prop := {
  sm_raw : ∀ a, raw_account s1 a = raw_account s2 a;
  sm_storage : ∀ a k, storage_of s1 a k = storage_of s2 a k;
  sm_rest : rest s1 = rest s2;
}.

#[export] Instance same_view_equiv : Equivalence same_view.
Proof.
  split.
  - by intros s.
  - intros s1 s2 []. split; intros; by symmetry.
  - intros s1 s2 s3 [] []. split; intros; etrans; eauto.
Qed.

Lemma same_view_intro s1 s2 :
  accounts s1 = accounts s2 → storage s1 = storage s2 → rest s1 = rest s2 → same_view s1 s2.
Proof.
  intros Ha Hs Hr. split; [| |done].
  - intros a. unfold raw_account. injection Hr as -> ?. by rewrite Ha.
  - intros a k. unfold storage_of. injection Hr as -> ?. by rewrite Hs.
Qed.

Lemma same_view_account s1 s2 a : same_view s1 s2 → account_of s1 a = account_of s2 a.
Proof. intros [Hr _ Hs]. unfold account_of. injection Hs as _ -> _. by rewrite Hr. Qed.

Lemma noteRead_view k s : same_view (noteRead k s) s.
Proof. destruct (noteRead_id k s) as (? & ? & ? & _). by apply same_view_intro. Qed.

Lemma noteWrite_view k s : same_view (noteWrite k s) s.
Proof. destruct (noteWrite_id k s) as (? & ? & ? & _). by apply same_view_intro. Qed.

Lemma getAccount_spec a s :
  (getAccount a s).2 = account_of s a ∧ same_view (getAccount a s).1 s ∧
  storage (getAccount a s).1 = storage s.
Proof.
  unfold getAccount, account_of, raw_account, stored_account.
  case_decide; [done|]. destruct (accounts s !! a) as [acc|] eqn:Ha; [done|].
  destruct (db s !! accountKey a) as [blob|] eqn:Hb; [|done].
  destruct (decodeAccount blob) as [acc|] eqn:Hd; [|done]. split_and!; [done| |done].
  split; [|done|done]. intros b. unfold raw_account, stored_account. cbn.
  destruct (decide (a = b)) as [<-|Hne].
  - by rewrite lookup_insert_eq, Ha, Hb, Hd.
  - by rewrite lookup_insert_ne.
Qed.

Lemma raw_account_put a acc s b :
  raw_account (put_account a acc s) b = if decide (a = b) then Some acc else raw_account s b.
Proof.
  unfold raw_account. cbn. case_decide as H; [subst; by rewrite lookup_insert_eq|].
  by rewrite lookup_insert_ne.
Qed.

(** [GetOrNewAccount] gives the live account or a new one, and stores it. *)
Definition live_or_new (s : StateDB) (a : Address) : Account := default NewAccount (account_of s a).

Lemma GetOrNewAccount_spec a s :
  let '(s1, acc) := GetOrNewAccount a s in
  acc = live_or_new s a ∧
  (∀ b, raw_account s1 b = if decide (a = b) then Some acc else raw_account s b) ∧
  (∀ b k, storage_of s1 b k = storage_of s b k) ∧ rest s1 = rest s ∧ storage s1 = storage s.
Proof.
  unfold GetOrNewAccount, live_or_new. destruct (getAccount_spec a s) as (H2 & [Hr Hs Hq] & Hst).
  destruct (getAccount a s) as [s1 [acc|]]; cbn in *; rewrite <-H2; cbn.
  - split_and!; try done. intros b. case_decide as Hb; [subst b|by apply Hr].
    rewrite Hr. unfold account_of in H2. by case_decide.
  - split_and!; try done. intros b. rewrite raw_account_put. by case_decide.
Qed.

(** Reads return the view and do not change it. *)
Lemma GetBalance_spec a s : (GetBalance a s).2 = balance_of s a ∧ same_view (GetBalance a s).1 s.
Proof.
  unfold GetBalance, balance_of. pose proof (noteRead_view (AccountKey a) s) as Hn.
  destruct (getAccount_spec a (noteRead (AccountKey a) s)) as (H2 & Hv & _).
  destruct (getAccount _ _) as [s1 acc]. cbn in *. rewrite H2, (same_view_account _ _ a Hn).
  split; [done|]. by etrans.
Qed.

Lemma GetNonce_spec a s : (GetNonce a s).2 = nonce_of s a ∧ same_view (GetNonce a s).1 s.
Proof.
  unfold GetNonce, nonce_of. pose proof (noteRead_view (AccountKey a) s) as Hn.
  destruct (getAccount_spec a (noteRead (AccountKey a) s)) as (H2 & Hv & _).
  destruct (getAccount _ _) as [s1 acc]. cbn in *. rewrite H2, (same_view_account _ _ a Hn).
  split; [done|]. by etrans.
Qed.

Lemma GetState_spec a k s :
  (GetState a k s).2 = storage_of s a k ∧ same_view (GetState a k s).1 s ∧
  storageOrigin (GetState a k s).1 = storageOrigin s.
Proof.
  unfold GetState. pose proof (noteRead_view (StorageKeyAccess a k) s) as Hn.
  destruct (noteRead_id (StorageKeyAccess a k) s) as (_ & Hs & Hr & Ho & _).
  set (s1 := noteRead _ s) in *. rewrite <-(sm_storage _ _ Hn). unfold storage_of.
  destruct (storage s1 !! (a, k)) as [v|] eqn:Hv; [done|].
  destruct (db s1 !! storageKey a k) as [blob|] eqn:Hb; [|done]. cbn. split_and!; [done| |done].
  etrans; [|exact Hn]. split; [done| |done]. intros b j. unfold storage_of. cbn.
  destruct (decide ((a, k) = (b, j))) as [[= <- <-]|Hne].
  - by rewrite lookup_insert_eq, Hv, Hb.
  - by rewrite lookup_insert_ne.
Qed.
End StateDB.

(** ** A concrete account codec, for evaluating the statements *)
Definition toy_decode_account (b : list Z) : option (Z * Z * list Z) :=
  match b with
  | 3 :: 3 :: 2 :: nonce :: 2 :: bal :: 1 :: _ :: ch => Some (nonce, bal, ch)
  | _ => None
  end.

Definition toy_codec : AccountCodec := {| rlp_decode_account := toy_decode_account |}.

Lemma toy_codec_laws : AccountCodecLaws toy_crypto toy_codec.
Proof. split. intros nonce bal ch _ _ Hch _. cbn. by rewrite app_nil_r. Qed.
