(* ===== verification/StateRevert.v ===== *)
(** * Snapshots of the flat state

    The journal of [core/state/journal.go] undoes what the EVM-facing
    operations of [core/state/evm_api.go] did: after an interleaving of them,
    nested snapshots and reverts included, [RevertToSnapshot] brings back the
    balances, nonces, code hashes, storage and transaction data of the
    snapshot.  It may leave an empty account where there was none, and it does
    not undo a write to an account that had self-destructed before. *)
From S2P Require Import Prelude Types Toy StateDB.

(** ** The access list as a map of slot sets

    Indices into the slot table are in range and belong to one address. *)
Record acl_wf (al : AccessList) : Prop := {
  aw_range : ∀ a i, addresses al !! a = Some i → i = -1 ∨ 0 ≤ i < Z.of_nat (length (slots al));
  aw_inj : ∀ a b i, addresses al !! a = Some i → addresses al !! b = Some i → i ≠ -1 → a = b;
}.

Lemma acl_wf_new : acl_wf newAccessList.
Proof. split; cbn; intros *; by rewrite lookup_empty. Qed.

Ltac acl_idx Hwf a H i Hi :=
  match type of Hwf with
  | acl_wf ?al =>
      destruct (addresses al !! a) as [i|] eqn:H; [pose proof (aw_range _ Hwf _ _ H) as Hi|]
  end.

Lemma AddAddress_warm al a b :
  warm (AddAddress al a).1 b = if decide (a = b) then Some (default ∅ (warm al a)) else warm al b.
Proof.
  unfold AddAddress, warm. case_decide as Hab; [subst b|].
  - destruct (addresses al !! a) as [i|] eqn:Ha; cbn; [by rewrite Ha; case_match|].
    by rewrite lookup_insert_eq.
  - destruct (addresses al !! a); cbn; [done|]. by rewrite lookup_insert_ne.
Qed.

Lemma AddAddress_changed al a : (AddAddress al a).2 = bool_decide (warm al a = None).
Proof.
  unfold AddAddress, warm. destruct (addresses al !! a) as [i|]; cbn; [|done].
  symmetry. case_match; by apply bool_decide_eq_false.
Qed.

Lemma AddAddress_wf al a : acl_wf al → acl_wf (AddAddress al a).1.
Proof.
  intros Hwf. unfold AddAddress. destruct (addresses al !! a) as [i|] eqn:Ha; [done|]. cbn.
  split; cbn.
  - intros b i. destruct (decide (a = b)) as [<-|Hne]; [rewrite lookup_insert_eq|rewrite lookup_insert_ne by done].
    + intros [= <-]. by left.
    + apply Hwf.
  - intros b c i Hb Hc Hi. rewrite lookup_insert_Some in Hb, Hc.
    destruct Hb as [[? ?]|[? Hb]]; [congruence|]. destruct Hc as [[? ?]|[? Hc]]; [congruence|].
    by eapply aw_inj.
Qed.

Lemma DeleteAddress_warm al a b :
  warm (DeleteAddress al a) b = if decide (a = b) then None else warm al b.
Proof.
  unfold warm, DeleteAddress. cbn. case_decide as Hab; [subst|].
  - by rewrite lookup_delete_eq.
  - by rewrite lookup_delete_ne.
Qed.

Lemma DeleteAddress_wf al a : acl_wf al → acl_wf (DeleteAddress al a).
Proof.
  intros Hwf. split; cbn.
  - intros b i Hb. rewrite lookup_delete_Some in Hb. apply (aw_range _ Hwf b), Hb.
  - intros b c i Hb Hc. rewrite lookup_delete_Some in Hb, Hc. apply (aw_inj _ Hwf); [apply Hb|apply Hc].
Qed.

(** Reading the slot table after one index was replaced. *)
Lemma slots_at_insert m ss i j x :
  0 ≤ i < Z.of_nat (length ss) → 0 ≤ j →
  slots_at (mkAccessList m (<[Z.to_nat i := x]> ss)) j =
    if decide (i = j) then x else default ∅ (ss !! Z.to_nat j).
Proof.
  intros Hi Hj. unfold slots_at. cbn. case_decide as Hij.
  - subst. rewrite list_lookup_insert_eq by lia. done.
  - by rewrite list_lookup_insert_ne by lia.
Qed.

Lemma AddSlot_warm al a k b : acl_wf al →
  warm (AddSlot al a k).1 b =
    if decide (a = b) then Some ({[k]} ∪ default ∅ (warm al a)) else warm al b.
Proof.
  intros Hwf. unfold AddSlot, warm.
  assert (Hfresh : ∀ S, S = ∅ →
    warm (mkAccessList (<[a:=Z.of_nat (length (slots al))]> (addresses al)) (slots al ++ [{[k]}])) b =
      if decide (a = b) then Some ({[k]} ∪ S) else warm al b).
  { intros S ->. unfold warm, slots_at. cbn. case_decide as Hab; [subst b|].
    - rewrite lookup_insert_eq, (proj2 (Z.eqb_neq _ _)) by lia.
      rewrite Nat2Z.id, lookup_app_r, Nat.sub_diag by lia. cbn. by rewrite (right_id_L ∅ (∪)).
    - rewrite lookup_insert_ne by done. acl_idx Hwf b Hb j Hj; [|done].
      destruct (Z.eqb_spec j (-1)); [done|]. by rewrite lookup_app_l by lia. }
  acl_idx Hwf a Ha i Hi; [|by apply (Hfresh ∅)].
  destruct (Z.eqb_spec i (-1)) as [->|Hi1]; [by apply (Hfresh ∅)|].
  case_bool_decide as Hk; cbn.
  - case_decide as Hab; [subst b|done].
    rewrite Ha, (proj2 (Z.eqb_neq _ _)) by lia. f_equal. set_solver.
  - case_decide as Hab; [subst b|].
    + rewrite Ha, (proj2 (Z.eqb_neq _ _)), slots_at_insert, decide_True by lia. done.
    + acl_idx Hwf b Hb j Hj; [|done]. destruct (Z.eqb_spec j (-1)); [done|].
      rewrite slots_at_insert, decide_False by (lia || intros ->; by eapply Hab, aw_inj). done.
Qed.

Lemma AddSlot_changed al a k :
  (AddSlot al a k).2 =
    (bool_decide (warm al a = None), bool_decide (k ∉ default ∅ (warm al a))).
Proof.
  unfold AddSlot, warm. destruct (addresses al !! a) as [i|]; cbn.
  - rewrite (bool_decide_eq_false_2 (_ = None)) by (by case_match).
    destruct (i =? -1); cbn; [by rewrite bool_decide_eq_true_2 by set_solver|].
    case_bool_decide as Hk; cbn; f_equal; symmetry; [|by apply bool_decide_eq_true].
    apply bool_decide_eq_false. tauto.
  - by rewrite bool_decide_eq_true_2 by set_solver.
Qed.

Lemma AddSlot_wf al a k : acl_wf al → acl_wf (AddSlot al a k).1.
Proof.
  intros Hwf. unfold AddSlot.
  assert (Hfresh : acl_wf (mkAccessList (<[a:=Z.of_nat (length (slots al))]> (addresses al))
                             (slots al ++ [{[k]}]))).
  { split; cbn.
    - intros b i. rewrite length_app, lookup_insert_Some. cbn.
      intros [[<- <-]|[_ Hb]]; [lia|]. apply (aw_range _ Hwf) in Hb. lia.
    - intros b c i. rewrite !lookup_insert_Some. intros [[<- <-]|[_ Hb]] [[<- Hi]|[_ Hc]] Hne; try done.
      + apply (aw_range _ Hwf) in Hc. lia.
      + apply (aw_range _ Hwf) in Hb. lia.
      + by eapply aw_inj. }
  destruct (addresses al !! a) as [i|] eqn:Ha; [|done]. destruct (i =? -1); [done|].
  case_bool_decide; [done|]. split; cbn; [|apply Hwf].
  intros b j. rewrite length_insert. apply Hwf.
Qed.

Lemma DeleteSlot_warm al a k b : acl_wf al →
  warm (DeleteSlot al a k) b =
    if decide (a = b) then (λ S, S ∖ {[k]}) <$> warm al a else warm al b.
Proof.
  intros Hwf. unfold DeleteSlot, warm. case_decide as Hab; [subst b|].
  - acl_idx Hwf a Ha i Hi; cbn; [|by rewrite Ha].
    destruct (Z.eqb_spec i (-1)) as [->|Hi1]; [rewrite Ha; cbn; f_equal; set_solver|]. cbn.
    case_decide as He.
    + rewrite lookup_insert_eq. cbn. by rewrite He.
    + rewrite Ha, (proj2 (Z.eqb_neq _ _)), slots_at_insert, decide_True by lia. done.
  - acl_idx Hwf a Ha i Hi; [|done]. destruct (Z.eqb_spec i (-1)) as [->|Hi1]; [done|]. cbn.
    assert (Hl : (if decide (slots_at al i ∖ {[k]} = ∅) then <[a:=-1]> (addresses al) else addresses al) !! b
                 = addresses al !! b) by (case_decide; [by rewrite lookup_insert_ne|done]).
    rewrite Hl. acl_idx Hwf b Hb j Hj; [|done]. destruct (Z.eqb_spec j (-1)); [done|].
    rewrite slots_at_insert, decide_False by (lia || intros ->; by eapply Hab, aw_inj). done.
Qed.

Lemma DeleteSlot_wf al a k : acl_wf al → acl_wf (DeleteSlot al a k).
Proof.
  intros Hwf. unfold DeleteSlot. acl_idx Hwf a Ha i Hi; [|done]. destruct (i =? -1); [done|].
  split; cbn; [intros b j; rewrite length_insert|intros b c j]; case_decide; try apply Hwf.
  - rewrite lookup_insert_Some. intros [[_ <-]|[_ Hb]]; [by left|by apply (aw_range _ Hwf b)].
  - rewrite !lookup_insert_Some. intros [[_ <-]|[_ Hb]] [[_ Hj]|[_ Hc]] Hne; try done.
    by eapply aw_inj.
Qed.

(** ** States restored up to fresh empty accounts

    A reverted state may hold an empty account where the original had none:
    the entries for balance, nonce and storage changes leave the account
    they created. *)
Section Revert.
Context `{C : Crypto} `{D : AccountCodec}.

Definition account_rel (r1 r2 : option Account) : Prop :=
  r1 = r2 ∨ (r1 = Some NewAccount ∧ r2 = None).

Record restored (s1 s2 : StateDB) : Prop := {
  rs_account : ∀ a, account_rel (raw_account s1 a) (raw_account s2 a);
  rs_storage : ∀ a k, storage_of s1 a k = storage_of s2 a k;
  rs_fields : (db s1, suicides s1, refund s1, logs s1) = (db s2, suicides s2, refund s2, logs s2);
  rs_warm : ∀ a, warm (accessList s1) a = warm (accessList s2) a;
  rs_transient : ∀ a k, transient_get (transient s1) a k = transient_get (transient s2) a k;
  rs_wf1 : acl_wf (accessList s1);
  rs_wf2 : acl_wf (accessList s2);
}.

Lemma account_rel_refl r : account_rel r r.
Proof. by left. Qed.

Lemma account_rel_live s1 s2 a : suicides s1 = suicides s2 →
  account_rel (raw_account s1 a) (raw_account s2 a) → live_or_new s1 a = live_or_new s2 a.
Proof.
  intros Hs Hr. unfold live_or_new, account_of. rewrite Hs. case_decide; [done|].
  destruct Hr as [->|[-> ->]]; done.
Qed.

Lemma restored_trans s1 s2 s3 : restored s1 s2 → restored s2 s3 → restored s1 s3.
Proof.
  intros [A1 B1 F1 W1 T1 ? ?] [A2 B2 F2 W2 T2 ? ?]. split; intros; try (etrans; eauto); [|done..].
  destruct (A1 a) as [->|[-> H1]]; [done|]. destruct (A2 a) as [<-|[H2 ->]]; [by right|congruence].
Qed.

Lemma same_view_restored s1 s2 : acl_wf (accessList s2) → same_view s1 s2 → restored s1 s2.
Proof.
  intros Hwf [Hr Hs Hq]. unfold rest in Hq. injection Hq as Hdb Hsu _ _ _ Hrf Hlg Hal Htr.
  split; [|done|congruence|by rewrite Hal|by rewrite Htr|by rewrite Hal|done].
  intros a. rewrite Hr. apply account_rel_refl.
Qed.

(** ** The effect of an account update *)
Definition others (s : StateDB) := (db s, suicides s, refund s, logs s, accessList s, transient s).
Definition revisions (s : StateDB) := (validRevisions s, nextRevisionID s).

Lemma restored_intro s1 s2 : acl_wf (accessList s2) → others s1 = others s2 →
  (∀ a, account_rel (raw_account s1 a) (raw_account s2 a)) →
  (∀ a k, storage_of s1 a k = storage_of s2 a k) → restored s1 s2.
Proof.
  intros Hwf Ho Ha Hs. unfold others in Ho. injection Ho as Hdb Hsu Hrf Hlg Hal Htr.
  split; [done|done|congruence|by rewrite Hal|by rewrite Htr|by rewrite Hal|done].
Qed.

Definition account_update (a : Address) (acc : Account) (s s' : StateDB) : Prop :=
  (∀ b, raw_account s' b = if decide (a = b) then Some acc else raw_account s b) ∧
  (∀ b k, storage_of s' b k = storage_of s b k) ∧ others s' = others s.

Lemma rest_others s1 s2 : rest s1 = rest s2 →
  others s1 = others s2 ∧ revisions s1 = revisions s2 ∧ jentries s1 = jentries s2.
Proof. unfold rest, others, revisions. intros [= -> -> -> -> -> -> -> -> ->]. done. Qed.

Lemma journal_append_id e s :
  accounts (journal_append e s) = accounts s ∧ storage (journal_append e s) = storage s ∧
  others (journal_append e s) = others s ∧ revisions (journal_append e s) = revisions s ∧
  jentries (journal_append e s) = e :: jentries s.
Proof. unfold journal_append. by destruct (entryDirtyAddress e). Qed.

(** Equal views and other fields; the journal may differ. *)
Record same_core (s1 s2 : StateDB) : Prop := {
  sc_raw : ∀ a, raw_account s1 a = raw_account s2 a;
  sc_storage : ∀ a k, storage_of s1 a k = storage_of s2 a k;
  sc_others : others s1 = others s2;
}.

Lemma same_core_trans s1 s2 s3 : same_core s1 s2 → same_core s2 s3 → same_core s1 s3.
Proof. intros [] []. split; intros; etrans; eauto. Qed.

Lemma same_core_fields s1 s2 : accounts s1 = accounts s2 → storage s1 = storage s2 →
  others s1 = others s2 → same_core s1 s2.
Proof.
  intros Ha Hs Ho. pose proof Ho as [= Hd _ _ _ _ _].
  split; [intros; unfold raw_account|intros; unfold storage_of|done]; by rewrite ?Ha, ?Hs, Hd.
Qed.

Lemma same_view_core s1 s2 : same_view s1 s2 → same_core s1 s2.
Proof. intros [Hr Hs Hq]. split; [done|done|]. by apply rest_others. Qed.

Lemma journal_append_core e s : same_core (journal_append e s) s.
Proof. destruct (journal_append_id e s) as (? & ? & ? & _). by apply same_core_fields. Qed.

Lemma others_db s1 s2 : others s1 = others s2 → db s1 = db s2 ∧ suicides s1 = suicides s2.
Proof. by intros [= -> -> _ _ _ _]. Qed.

Lemma others_accessList s1 s2 : others s1 = others s2 → accessList s1 = accessList s2.
Proof. by intros [= _ _ _ _ -> _]. Qed.

(** The shape of every account setter: fetch, do bookkeeping that leaves the
    views alone, store. *)
Lemma setter_update a s s1 s2 acc acc' :
  GetOrNewAccount a s = (s1, acc) → same_core s2 s1 →
  acc = live_or_new s a ∧ account_update a acc' s (put_account a acc' s2).
Proof.
  intros Hg [Hr2 Hst2 Ho]. pose proof (GetOrNewAccount_spec a s) as Hspec. rewrite Hg in Hspec.
  destruct Hspec as (-> & Hr & Hst & Hq & _). split; [done|].
  destruct (rest_others _ _ Hq) as (Ho1 & _ & _). split_and!.
  - intros b. rewrite raw_account_put, Hr2, Hr. by case_decide.
  - intros b k. rewrite <-Hst, <-Hst2. done.
  - by transitivity (others s2); [|rewrite Ho].
Qed.

Lemma account_update_view a acc s1 s2 s' :
  same_view s1 s2 → account_update a acc s1 s' → account_update a acc s2 s'.
Proof.
  intros [Hr Hs Hq] (H1 & H2 & H3). destruct (rest_others _ _ Hq) as (Ho & _ & _).
  split_and!; [|by intros; rewrite H2|by rewrite H3].
  intros b. rewrite H1. by rewrite Hr.
Qed.

Lemma live_or_new_view a s1 s2 : same_view s1 s2 → live_or_new s1 a = live_or_new s2 a.
Proof. intros H. unfold live_or_new. by rewrite (same_view_account _ _ a H). Qed.

Lemma account_update_live a acc s s' :
  a ∉ suicides s → account_update a acc s s' → live_or_new s' a = acc.
Proof.
  intros Ha (Hr & _ & Ho). destruct (others_db _ _ Ho) as [_ Hs].
  unfold live_or_new, account_of. rewrite Hs, decide_False, Hr, decide_True; done.
Qed.

(** An update to the live account is no visible change. *)
Lemma account_update_restored a s s' :
  a ∉ suicides s → acl_wf (accessList s) →
  account_update a (live_or_new s a) s s' → restored s' s.
Proof.
  intros Ha Hwf (Hr & Hst & Ho). apply restored_intro; [done|done| |done].
  intros b. rewrite Hr. case_decide as Hb; [subst b|apply account_rel_refl].
  unfold live_or_new, account_of. rewrite decide_False by done.
  destruct (raw_account s a); [by left|by right].
Qed.

Lemma account_update_trans a acc1 acc2 s1 s2 s3 :
  account_update a acc1 s1 s2 → account_update a acc2 s2 s3 → account_update a acc2 s1 s3.
Proof.
  intros (R1 & S1 & O1) (R2 & S2 & O2). split_and!.
  - intros b. rewrite R2, R1. by case_decide.
  - intros b k. by rewrite S2.
  - by rewrite O2.
Qed.

(** What the entries of account changes do to the account. *)
Definition undo_account (e : journalEntry) (acc : Account) : Account :=
  match e with
  | balanceChange _ prev => mkAccount (Nonce acc) prev (CodeHash acc)
  | nonceChange _ prev => mkAccount prev (Balance acc) (CodeHash acc)
  | codeChange _ prevHash _ => mkAccount (Nonce acc) (Balance acc) prevHash
  | _ => acc
  end.

Definition account_entry (e : journalEntry) : option Address :=
  match e with
  | balanceChange a _ | nonceChange a _ | codeChange a _ _ => Some a
  | _ => None
  end.

Lemma revert_account_entry e a s : account_entry e = Some a →
  account_update a (undo_account e (live_or_new s a)) s (revert_entry e s).
Proof.
  destruct e; cbn; intros [= ->]; destruct (GetOrNewAccount a s) as [s1 acc] eqn:Hg.
  - destruct (setter_update a s s1 s1 acc (mkAccount (Nonce acc) prev (CodeHash acc)) Hg) as [-> H]; done.
  - destruct (setter_update a s s1 s1 acc (mkAccount prev (Balance acc) (CodeHash acc)) Hg) as [-> H]; done.
  - destruct (setter_update a s s1
      (match prevCode with
       | Some c => if prevHash =? EmptyCodeHash then s1 else set_code (<[prevHash := c]> (code s1)) s1
       | None => s1
       end) acc (mkAccount (Nonce acc) (Balance acc) prevHash) Hg) as [-> H];
      [by repeat case_match|done].
Qed.

(** ** Undoing is monotone *)
Definition entry_ok (e : journalEntry) (s : StateDB) : Prop :=
  match e with
  | suicideChange a false _ => is_Some (raw_account s a)
  | _ => True
  end.

Lemma account_update_mono a acc s1 s2 s1' s2' :
  restored s1 s2 → account_update a acc s1 s1' → account_update a acc s2 s2' → restored s1' s2'.
Proof.
  intros [A B F W T W1 W2] (R1 & S1 & O1) (R2 & S2 & O2). unfold others in O1, O2.
  injection O1 as O11 O12 O13 O14 O15 O16. injection O2 as O21 O22 O23 O24 O25 O26.
  split; try congruence.
  - intros b. rewrite R1, R2. case_decide; [apply account_rel_refl|apply A].
Qed.

Lemma transient_get_set t a k v b j :
  transient_get (transient_set t a k v) b j = if decide ((a, k) = (b, j)) then v else transient_get t b j.
Proof.
  unfold transient_get, transient_set. destruct (decide (a = b)) as [<-|Hab].
  - rewrite lookup_insert_eq. destruct (decide (k = j)) as [<-|Hkj].
    + rewrite lookup_insert_eq, decide_True; done.
    + rewrite lookup_insert_ne, decide_False by congruence. by destruct (t !! a).
  - rewrite lookup_insert_ne, decide_False by congruence. done.
Qed.

Lemma storage_of_put a k v s b j :
  storage_of (put_storage a k v s) b j = if decide ((a, k) = (b, j)) then v else storage_of s b j.
Proof.
  unfold storage_of. cbn. case_decide as H; [rewrite H, lookup_insert_eq|rewrite lookup_insert_ne]; done.
Qed.

(** The account part of undoing a self-destruct. *)
Lemma revert_suicide a (p : bool) b s : (if p then True else is_Some (raw_account s a)) →
  let s' := revert_entry (suicideChange a p b) s in
  (∀ c, raw_account s' c =
     if p then raw_account s c else
     if decide (a = c) then (λ acc, mkAccount (Nonce acc) b (CodeHash acc)) <$> raw_account s a
     else raw_account s c) ∧
  (∀ c k, storage_of s' c k = storage_of s c k) ∧
  suicides s' = (if p then {[a]} ∪ suicides s else suicides s ∖ {[a]}) ∧
  (db s', refund s', logs s', accessList s', transient s') =
    (db s, refund s, logs s, accessList s, transient s) ∧
  revisions s' = revisions s ∧ jentries s' = jentries s.
Proof.
  intros Hok. cbn. set (s1 := set_suicides _ s).
  destruct (getAccount_spec a s1) as (H2 & [Hr Hs Hq] & _). destruct (getAccount a s1) as [s2 acc].
  cbn in H2, Hr, Hs, Hq. unfold rest in Hq. injection Hq as Hdb Hsu Hje Hvr Hnr Hrf Hlg Hal Htr.
  unfold account_of in H2. change (raw_account s1) with (raw_account s) in *.
  change (storage_of s1) with (storage_of s) in *. destruct p; cbn in Hsu, H2.
  - rewrite decide_True in H2 by set_solver. subst acc. unfold revisions. rewrite Hsu, Hdb, Hvr, Hnr. cbn. split_and!; congruence.
  - rewrite decide_False in H2 by set_solver. destruct Hok as [acc' Hok]. rewrite Hok in H2. subst acc. cbn.
    unfold revisions. cbn. rewrite Hsu, Hdb, Hvr, Hnr. split_and!; try congruence; [|exact Hs].
    intros c. rewrite raw_account_put, Hr, Hok. by case_decide.
Qed.

Lemma revert_entry_mono e s1 s2 : restored s1 s2 → entry_ok e s2 →
  entry_ok e s1 ∧ restored (revert_entry e s1) (revert_entry e s2).
Proof.
  intros Hr Hok. pose proof Hr as [A B F W T W1 W2]. injection F as Fd Fs Fr Fl.
  destruct (account_entry e) as [a|] eqn:He.
  { split; [by destruct e as [| | | | |? [] ?| | | | | |]|].
    eapply account_update_mono; [done|by apply revert_account_entry|].
    rewrite (account_rel_live s1 s2 a Fs (A a)). by apply revert_account_entry. }
  destruct e as [| | |a k v|a|a p b|g| |a|a k|a k v|a]; try done.
  - split; [done|]. cbn [revert_entry]. split; try done; [|by cbn; congruence]. intros b j. by rewrite !storage_of_put, B.
  - split; [done|]. split; try done; [|by cbn; congruence]. intros b. unfold raw_account. cbn.
    destruct (decide (a = b)) as [<-|Hab].
    + rewrite !lookup_delete_eq, Fd. apply account_rel_refl.
    + rewrite !lookup_delete_ne by done. apply A.
  - assert (Hok1 : entry_ok (suicideChange a p b) s1).
    { destruct p; [done|]. cbn in *. destruct (A a) as [->|[-> HN]]; [done|]. rewrite HN in Hok.
      by destruct Hok. }
    split; [done|].
    destruct (revert_suicide a p b s1) as (R1 & S1 & U1 & O1 & _); [by destruct p|].
    destruct (revert_suicide a p b s2) as (R2 & S2 & U2 & O2 & _); [by destruct p|].
    set (t1 := revert_entry _ s1) in *. set (t2 := revert_entry _ s2) in *. clearbody t1 t2.
    injection O1 as O11 O12 O13 O14 O15. injection O2 as O21 O22 O23 O24 O25.
    split; try congruence; [|by destruct p; congruence].
    intros c. rewrite R1, R2. destruct p; [apply A|]. case_decide as Hc; [|apply A].
    cbn in Hok. destruct (A a) as [->|[_ HN]]; [apply account_rel_refl|]. rewrite HN in Hok. by destruct Hok.
  - split; [done|]. split; try done. cbn. congruence.
  - split; [done|]. split; try done. cbn. congruence.
  - split; [done|]. split; try done; cbn; [congruence|..]; try by apply DeleteAddress_wf.
    intros b. rewrite !DeleteAddress_warm. by case_decide.
  - split; [done|]. split; try done; cbn; [congruence|..]; try by apply DeleteSlot_wf.
    intros b. rewrite !DeleteSlot_warm by done. case_decide; [by rewrite W|done].
  - split; [done|]. split; try done; cbn; [congruence|]. intros b j. by rewrite !transient_get_set, T.
Qed.

Lemma revert_entry_frame e s :
  jentries (revert_entry e s) = jentries s ∧ revisions (revert_entry e s) = revisions s.
Proof.
  destruct e as [a ?|a ?|a ? pc|a k v|a|a p b|g| |a|a k|a k v|a]; try done; cbn.
  1-3: pose proof (GetOrNewAccount_spec a s) as H; destruct (GetOrNewAccount a s) as [s1 acc];
    destruct H as (_ & _ & _ & Hq & _); destruct (rest_others _ _ Hq) as (_ & Hv & Hj);
    unfold revisions in *; repeat case_match; done.
  set (s1 := set_suicides _ s). destruct (getAccount_spec a s1) as (_ & [_ _ Hq] & _).
  destruct (rest_others _ _ Hq) as (_ & Hv & Hj). unfold revisions in *.
  destruct (getAccount a s1) as [s2 []]; done.
Qed.

(** ** The EVM's operations as a step relation

    Account changes act on addresses that have not self-destructed.  As in
    go-ethereum an account is created only where [Exist] reports none, and a
    revert goes to a snapshot newer than [m], as call frames nest. *)
Inductive evm_step (m : Z) (s : StateDB) : StateDB → Prop :=
| es_GetBalance a : evm_step m s (GetBalance a s).1
| es_GetNonce a : evm_step m s (GetNonce a s).1
| es_GetCodeHash a : evm_step m s (GetCodeHash a s).1
| es_GetCode a : evm_step m s (GetCode a s).1
| es_GetState a k : evm_step m s (GetState a k s).1
| es_Exist a : evm_step m s (ExistEVM a s).1
| es_Empty a : evm_step m s (Empty a s).1
| es_SubBalance a x : a ∉ suicides s → evm_step m s (SubBalance a x s).1
| es_AddBalance a x : a ∉ suicides s → evm_step m s (AddBalance a x s)
| es_SetBalance a x : a ∉ suicides s → evm_step m s (SetBalanceJournaled a x s)
| es_SetNonce a n : a ∉ suicides s → evm_step m s (SetNonceJournaled a n s)
| es_SetCode a c : a ∉ suicides s → evm_step m s (SetCodeJournaled a c s)
| es_SetState a k v : a ∉ suicides s → evm_step m s (SetStateJournaled a k v s).1
| es_CreateAccount a : (ExistEVM a s).2 = false → evm_step m s (CreateAccount a s)
| es_CreateContract a : evm_step m s (CreateContract a s)
| es_SelfDestruct a : evm_step m s (SelfDestruct a s).1
| es_SelfDestruct6780 a : evm_step m s (SelfDestruct6780 a s).1
| es_AddRefund g : evm_step m s (AddRefund g s)
| es_SubRefund g s' : SubRefund g s = Some s' → evm_step m s s'
| es_AddLog l : evm_step m s (AddLog l s)
| es_SetTransient a k v : evm_step m s (SetTransientState a k v s)
| es_AddAddress a : evm_step m s (AddAddressToAccessList a s)
| es_AddSlot a k : evm_step m s (AddSlotToAccessList a k s)
| es_Snapshot : evm_step m s (Snapshot s).1
| es_Revert id s' : m < id → RevertToSnapshot id s = Some s' → evm_step m s s'.

(** ** One operation is undone by its journal entries *)
Fixpoint undo_ok (n : nat) (s : StateDB) : Prop :=
  match n with
  | O => True
  | S m =>
      match jentries s with
      | [] => False
      | e :: es => entry_ok e s ∧ undo_ok m (set_jentries es (revert_entry e s))
      end
  end.

Definition undoable (s s' : StateDB) : Prop :=
  acl_wf (accessList s') ∧ revisions s' = revisions s ∧
  ∃ es, jentries s' = es ++ jentries s ∧ undo_ok (length es) s' ∧
        restored (journal_revert (length es) s') s.

Lemma set_jentries_restored es s1 s2 : restored s1 s2 ↔ restored (set_jentries es s1) s2.
Proof. split; intros []; by split. Qed.

Lemma undoable_none s s' : acl_wf (accessList s) → same_view s' s → undoable s s'.
Proof.
  intros Hwf Hv. pose proof Hv as [_ _ Hq]. destruct (rest_others _ _ Hq) as (Ho & Hr & Hj).
  split; [by rewrite (others_accessList _ _ Ho)|]. split; [done|]. exists []. split_and!; [done|done|]. by apply same_view_restored.
Qed.

Lemma undoable_one e s s' :
  acl_wf (accessList s') → revisions s' = revisions s → jentries s' = e :: jentries s → entry_ok e s' →
  restored (revert_entry e s') s → undoable s s'.
Proof.
  intros Hwf Hr Hj Hok Hrs. split; [done|]. split; [done|]. exists [e]. cbn. rewrite Hj. split_and!; try done.
  by apply set_jentries_restored.
Qed.

(** Every account setter is of this form. *)
Lemma undoable_setter a e acc' s s1 s2 acc :
  a ∉ suicides s → acl_wf (accessList s) →
  GetOrNewAccount a (noteWrite (AccountKey a) s) = (s1, acc) →
  same_core s2 s1 → revisions s2 = revisions s1 → jentries s2 = e :: jentries s1 →
  account_entry e = Some a → undo_account e acc' = acc →
  undoable s (put_account a acc' s2).
Proof.
  intros Hd Hwf Hg Hc Hv Hj He Hu. pose proof (noteWrite_view (AccountKey a) s) as Hnw.
  set (s0 := noteWrite _ s) in *.
  destruct (setter_update a s0 s1 s2 acc acc' Hg Hc) as [Hacc Hup].
  pose proof (GetOrNewAccount_spec a s0) as Hspec. rewrite Hg in Hspec.
  destruct Hspec as (_ & _ & _ & Hq & _). destruct (rest_others _ _ Hq) as (_ & Hv1 & Hj1).
  destruct (rest_others _ _ (sm_rest _ _ Hnw)) as (_ & Hv0 & Hj0).
  apply (account_update_view a acc' s0 s) in Hup; [|done].
  apply (undoable_one e).
  - destruct Hup as (_ & _ & Hos). by rewrite (others_accessList _ _ Hos).
  - change (revisions s2 = revisions s). by rewrite Hv, Hv1.
  - change (jentries s2 = e :: jentries s). by rewrite Hj, Hj1, Hj0.
  - by destruct e as [| | | | |? [] ?| | | | | |].
  - apply (account_update_restored a); [done|done|].
    eapply account_update_trans; [exact Hup|].
    pose proof (revert_account_entry e a (put_account a acc' s2) He) as Hre.
    rewrite (account_update_live a acc' s _ Hd Hup), Hu, Hacc in Hre.
    by rewrite (live_or_new_view a _ _ Hnw) in Hre.
Qed.

Lemma undoable_change_balance a f s :
  a ∉ suicides s → acl_wf (accessList s) → undoable s (change_balance a f s).1.
Proof.
  intros Ha Hwf. unfold change_balance. destruct (GetOrNewAccount _ _) as [s1 acc] eqn:Hg.
  eapply (undoable_setter a (balanceChange a (Balance acc)));
    [done|done|exact Hg|apply journal_append_core|apply journal_append_id|apply journal_append_id|done|].
  by destruct acc.
Qed.

Lemma undoable_SetNonce a n s :
  a ∉ suicides s → acl_wf (accessList s) → undoable s (SetNonceJournaled a n s).
Proof.
  intros Ha Hwf. unfold SetNonceJournaled. destruct (GetOrNewAccount _ _) as [s1 acc] eqn:Hg.
  eapply (undoable_setter a (nonceChange a (Nonce acc)));
    [done|done|exact Hg|apply journal_append_core|apply journal_append_id|apply journal_append_id|done|].
  by destruct acc.
Qed.

Lemma GetCodeHash_view a s : same_view (GetCodeHash a s).1 s.
Proof.
  unfold GetCodeHash. pose proof (noteRead_view (AccountKey a) s) as Hn.
  destruct (getAccount_spec a (noteRead (AccountKey a) s)) as (_ & Hv & _).
  destruct (getAccount _ _) as [s1 acc]. cbn in *. by etrans.
Qed.

Lemma GetCode_view a s : same_view (GetCode a s).1 s.
Proof.
  unfold GetCode. pose proof (GetCodeHash_view a (noteRead (AccountKey a) s)) as Hv.
  pose proof (noteRead_view (AccountKey a) s) as Hn.
  destruct (GetCodeHash _ _) as [s1 h]. cbn in Hv. assert (same_view s1 s) as H1 by (by etrans).
  repeat case_match; cbn; try done. etrans; [|exact H1]. by apply same_view_intro.
Qed.

Lemma undoable_SetCode a c s :
  a ∉ suicides s → acl_wf (accessList s) → undoable s (SetCodeJournaled a c s).
Proof.
  intros Ha Hwf. unfold SetCodeJournaled. destruct (GetOrNewAccount _ _) as [s1 acc] eqn:Hg.
  assert (∃ s2 pc, same_view s2 s1 ∧
    (if CodeHash acc =? EmptyCodeHash then (s1, None) else GetCode a s1) = (s2, pc)) as (s2 & pc & Hv & ->).
  { destruct (CodeHash acc =? EmptyCodeHash); [by eexists s1, _|].
    pose proof (GetCode_view a s1) as Hv. destruct (GetCode a s1) as [s2 pc]. by eexists s2, _. }
  destruct (rest_others _ _ (sm_rest _ _ Hv)) as (_ & Hr & Hj).
  set (s3 := journal_append _ s2). destruct (journal_append_id (codeChange a (CodeHash acc) pc) s2)
    as (J1 & J2 & J3 & J4 & J5). fold s3 in J1, J2, J3, J4, J5.
  assert (same_core s3 s1) as H3.
  { eapply same_core_trans; [apply journal_append_core|by apply same_view_core]. }
  unfold put_code. destruct c as [|x c];
    eapply (undoable_setter a (codeChange a (CodeHash acc) pc)); try exact Hg; try done; try (by destruct acc);
    try (cbn; congruence); try (unfold revisions in *; cbn; congruence).
  eapply same_core_trans; [|exact H3]. by apply same_core_fields.
Qed.

(** A view of [s] with one storage slot replaced. *)
Lemma undoable_SetState a k v s :
  a ∉ suicides s → acl_wf (accessList s) → undoable s (SetStateJournaled a k v s).1.
Proof.
  intros Ha Hwf. unfold SetStateJournaled. destruct (GetState_spec a k s) as (Hp & Hv & Ho).
  destruct (GetState a k s) as [s1 prev]. cbn in Hp, Hv, Ho. destruct (prev =? v); [by apply undoable_none|].
  set (s2 := noteWrite _ s1). set (s3 := match storageOrigin s2 !! (a, k) with Some _ => s2 | None => _ end).
  assert (same_view s3 s) as H3.
  { etrans; [|exact Hv]. etrans; [|apply (noteWrite_view (StorageKeyAccess a k) s1)]. fold s2. subst s3.
    case_match; [done|]. by apply same_view_intro. }
  clearbody s3. clear s2. cbn [fst]. set (s4 := journal_append _ s3).
  destruct (journal_append_id (storageChange a k prev) s3) as (J1 & J2 & J3 & J4 & J5).
  fold s4 in J1, J2, J3, J4, J5. pose proof (journal_append_core (storageChange a k prev) s3) as [K1 K2 K3].
  fold s4 in K1, K2, K3. pose proof (GetOrNewAccount_spec a s4) as Hspec.
  destruct (GetOrNewAccount a s4) as [s5 acc]. destruct Hspec as (Hacc & Hr & Hst & Hq & _).
  destruct (rest_others _ _ Hq) as (O5 & V5 & E5). pose proof H3 as [Q1 Q2 Q3].
  destruct (rest_others _ _ Q3) as (O3 & V3 & E3). cbn.
  apply (undoable_one (storageChange a k prev));
    [cbn; rewrite (others_accessList s5 s) by congruence; done|unfold revisions in *; cbn; congruence|cbn; congruence|done|].
  cbn [revert_entry].
  apply restored_intro; [done|by transitivity (others s5); [|congruence]|..].
  - intros b. change (raw_account (put_storage a k prev (put_storage a k v s5)) b) with (raw_account s5 b).
    rewrite Hr, K1, Q1. case_decide as Hb; [subst b|apply account_rel_refl].
    assert (suicides s4 = suicides s) as Hs4 by (apply others_db; congruence).
    subst acc. unfold live_or_new, account_of. rewrite Hs4, decide_False, K1, Q1 by done.
    destruct (raw_account s a); [by left|by right].
  - intros b j. rewrite !storage_of_put. case_decide as Hbj; [injection Hbj as <- <-; done|].
    by rewrite Hst, K2, Q2.
Qed.

Lemma ExistEVM_none a s : (ExistEVM a s).2 = false → raw_account s a = None.
Proof.
  unfold ExistEVM, Exist. destruct (decide (a ∈ suicides s)) as [|Hns]; [by intros [=]|].
  pose proof (noteRead_view (AccountKey a) s) as [Hr _ Hq]. rewrite <-Hr. injection Hq as _ Hsu _ _ _ _ _ _ _.
  set (s1 := noteRead _ s) in *. clearbody s1. rewrite decide_False by (by rewrite Hsu).
  unfold raw_account, stored_account. destruct (accounts s1 !! a); [by intros [=]|]. cbn [snd].
  rewrite bool_decide_eq_false. intros Hn. destruct (db s1 !! accountKey a); [by destruct Hn|done].
Qed.

Lemma undoable_CreateAccount a s :
  raw_account s a = None → acl_wf (accessList s) → undoable s (CreateAccount a s).
Proof.
  intros Hn Hwf. unfold CreateAccount. pose proof (noteWrite_view (AccountKey a) s) as Hw.
  destruct (getAccount_spec a (noteWrite (AccountKey a) s)) as (_ & Hv & _).
  destruct (getAccount _ _) as [s1 p]. cbn in Hv. assert (same_view s1 s) as H1 by (by etrans). clear Hv Hw.
  destruct (journal_append_id (createObjectChange a) s1) as (J1 & J2 & J3 & J4 & J5).
  set (s2 := journal_append _ s1) in *. clearbody s2. pose proof H1 as [Q1 Q2 Q3].
  destruct (rest_others _ _ Q3) as (O3 & V3 & E3).
  apply (undoable_one (createObjectChange a));
    [cbn; rewrite (others_accessList s2 s) by congruence; done|unfold revisions in *; cbn; congruence|cbn; congruence|done|].
  apply restored_intro; [done|by transitivity (others s2); [|congruence]|..].
  - intros b. unfold raw_account at 1. cbn. rewrite delete_insert_eq, J1.
    destruct (decide (a = b)) as [<-|Hab].
    + rewrite lookup_delete_eq, Hn. unfold raw_account in Hn. destruct (accounts s !! a); [done|].
      rewrite (proj1 (others_db _ _ J3)), (proj1 (others_db _ _ O3)), Hn. apply account_rel_refl.
    + rewrite lookup_delete_ne, <-Q1 by done. left. unfold raw_account.
      by rewrite (proj1 (others_db _ _ J3)).
  - intros b j. rewrite <-Q2. unfold storage_of. cbn. rewrite J2.
    by rewrite (proj1 (others_db _ _ J3)).
Qed.

Lemma undoable_SelfDestruct a s : acl_wf (accessList s) → undoable s (SelfDestruct a s).1.
Proof.
  intros Hwf. unfold SelfDestruct. destruct (getAccount_spec a s) as (H2 & Hv & _).
  destruct (getAccount a s) as [s1 [acc|]]; cbn in H2, Hv; [|by apply undoable_none].
  unfold account_of in H2. case_decide as Hd; [done|]. symmetry in H2.
  pose proof Hv as [Q1 Q2 Q3]. destruct (rest_others _ _ Q3) as (O1 & V1 & E1).
  destruct (others_db _ _ O1) as [_ Hsu1]. rewrite (bool_decide_eq_false_2 (a ∈ suicides s1)) by (by rewrite Hsu1).
  set (e := suicideChange a false (Balance acc)).
  destruct (journal_append_id e s1) as (J1 & J2 & J3 & J4 & J5).
  pose proof (journal_append_core e s1) as [K1 K2 K3]. set (s2 := journal_append e s1) in *. clearbody s2.
  cbn [fst]. set (s3 := put_account _ _ _).
  assert (∀ b, raw_account s3 b = if decide (a = b) then Some (mkAccount (Nonce acc) 0 (CodeHash acc))
                                  else raw_account s b) as R3.
  { intros b. subst s3. rewrite raw_account_put. case_decide; [done|]. by rewrite <-Q1, <-K1. }
  apply (undoable_one e); [cbn; rewrite (others_accessList s2 s) by congruence; done|unfold revisions in *; cbn; congruence|cbn; congruence| |].
  { cbn. rewrite R3, decide_True by done. done. }
  assert (is_Some (raw_account s3 a)) as Hsome by (rewrite R3, decide_True; done).
  destruct (revert_suicide a false (Balance acc) s3 Hsome) as (R & S & U & O & _).
  fold e in R, S, U, O. set (t := revert_entry e s3) in *. clearbody t.
  assert (others t = others s) as Ho.
  { unfold others. injection O as -> -> -> -> ->. rewrite U. cbn.
    assert (others s2 = others s) as Hx by congruence. unfold others in Hx.
    injection Hx as -> -> -> -> -> ->. repeat f_equal. set_solver. }
  apply restored_intro; [done|exact Ho|..].
  - intros b. rewrite R, R3, (decide_True (P := a = a)) by done. case_decide as Hb; [subst b|rewrite R3, decide_False by done; apply account_rel_refl].
    rewrite H2. left. by destruct acc.
  - intros b k. rewrite S, <-Q2, <-K2. done.
Qed.

Lemma undoable_SelfDestruct6780 a s : acl_wf (accessList s) → undoable s (SelfDestruct6780 a s).1.
Proof.
  intros Hwf. unfold SelfDestruct6780. case_decide.
  { pose proof (undoable_SelfDestruct a s Hwf) as H1. by destruct (SelfDestruct a s). }
  destruct (getAccount_spec a s) as (H2 & Hv & _).
  destruct (getAccount a s) as [s1 [acc|]]; cbn in H2, Hv; [|by apply undoable_none].
  set (e := balanceChange a (Balance acc)). cbn [fst].
  pose proof Hv as [Q1 Q2 Q3]. destruct (rest_others _ _ Q3) as (O1 & V1 & E1).
  destruct (journal_append_id e s1) as (J1 & J2 & J3 & J4 & J5).
  pose proof (journal_append_core e s1) as [K1 K2 K3]. set (s2 := journal_append e s1) in *. clearbody s2.
  set (acc' := mkAccount (Nonce acc) 0 (CodeHash acc)).
  assert (a ∉ suicides s) as Hd by (unfold account_of in H2; by case_decide).
  assert (account_update a acc' s (put_account a acc' s2)) as Hup.
  { split_and!; [|intros b k; by rewrite <-Q2, <-K2|by transitivity (others s2); [|congruence]].
    intros b. rewrite raw_account_put, K1, Q1. done. }
  apply (undoable_one e); [cbn; rewrite (others_accessList s2 s) by congruence; done|unfold revisions in *; cbn; congruence|cbn; congruence|done|].
  apply (account_update_restored a); [done|done|]. eapply account_update_trans; [exact Hup|].
  pose proof (revert_account_entry e a (put_account a acc' s2) eq_refl) as Hre.
  rewrite (account_update_live a acc' s _ Hd Hup) in Hre. unfold live_or_new. rewrite <-H2. by destruct acc.
Qed.

(** Entries that touch neither accounts nor storage. *)
Lemma undoable_AddRefund g s : acl_wf (accessList s) →
  undoable s (set_refund g (journal_append (refundChange (refund s)) s)).
Proof.
  intros Hwf. apply (undoable_one (refundChange (refund s))); try done.
  apply restored_intro; try done. intros; apply account_rel_refl.
Qed.

Lemma undoable_AddLog l s : acl_wf (accessList s) → undoable s (AddLog l s).
Proof.
  intros Hwf. apply (undoable_one addLogChange); try done. apply restored_intro; try done.
  2: intros; apply account_rel_refl. unfold others. cbn. by rewrite removelast_last.
Qed.

Lemma undoable_SetTransient a k v s : acl_wf (accessList s) → undoable s (SetTransientState a k v s).
Proof.
  intros Hwf. set (p := transient_get (transient s) a k).
  apply (undoable_one (transientStorageChange a k p)); try done. split; try done.
  - intros; apply account_rel_refl.
  - intros b j. cbn. rewrite !transient_get_set. case_decide as H; [by injection H as <- <-|done].
Qed.

Lemma undoable_AddAddress a s : acl_wf (accessList s) → undoable s (AddAddressToAccessList a s).
Proof.
  intros Hwf. unfold AddAddressToAccessList.
  pose proof (AddAddress_warm (accessList s) a) as Hw. pose proof (AddAddress_wf (accessList s) a Hwf) as Hwf'.
  pose proof (AddAddress_changed (accessList s) a) as Hc.
  destruct (AddAddress (accessList s) a) as [al ch] eqn:Hal. cbn in Hw, Hwf', Hc. subst ch.
  case_bool_decide as Hn; [apply (undoable_one (accessListAddAccountChange a)); try done; split|];
    try done; try (intros; apply account_rel_refl); cbn.
  - intros b. rewrite DeleteAddress_warm, Hw. case_decide as H; [by subst b|done].
  - by apply DeleteAddress_wf.
  - apply undoable_none; [done|]. unfold AddAddress in Hal. unfold warm in Hn.
    destruct (addresses (accessList s) !! a); [|done]. injection Hal as <-. by apply same_view_intro.
Qed.

Lemma undoable_AddSlot a k s : acl_wf (accessList s) → undoable s (AddSlotToAccessList a k s).
Proof.
  intros Hwf. unfold AddSlotToAccessList.
  pose proof (λ b, AddSlot_warm (accessList s) a k b Hwf) as Hw. pose proof (AddSlot_wf (accessList s) a k Hwf) as Hwf'.
  pose proof (AddSlot_changed (accessList s) a k) as Hc.
  destruct (AddSlot (accessList s) a k) as [al ch] eqn:Hal. cbn in Hw, Hwf', Hc. subst ch.
  assert (∀ b, warm (DeleteSlot al a k) b =
    if decide (a = b) then Some (default ∅ (warm (accessList s) a) ∖ {[k]}) else warm (accessList s) b) as Hd.
  { intros b. rewrite DeleteSlot_warm, !Hw, (decide_True (P := a = a)) by done.
    destruct (decide (a = b)); [|done]. cbn. f_equal. generalize (default ∅ (warm (accessList s) a)).
    clear. intros S. set_solver. }
  pose proof (DeleteSlot_wf _ a k Hwf') as Hwf2.
  destruct (warm (accessList s) a) as [S|] eqn:HS; cbn in Hd.
  - rewrite (bool_decide_eq_false_2 (Some S = None)) by done. cbn. destruct (bool_decide_reflect (k ∉ S)) as [Hk|Hk].
    + apply (undoable_one (accessListAddSlotChange a k)); try done. split; try done.
      * intros; apply account_rel_refl.
      * intros b. cbn. rewrite Hd. destruct (decide (a = b)); [subst b; rewrite HS; f_equal; set_solver|done].
    + apply undoable_none; [done|]. apply same_view_intro; try done. unfold rest. cbn.
      unfold AddSlot, warm in Hal, HS. destruct (addresses (accessList s) !! a) as [i|]; [|done].
      destruct (i =? -1); [injection HS as <-; set_solver|]. injection HS as <-.
      rewrite (bool_decide_eq_true_2 (k ∈ slots_at (accessList s) i)) in Hal by (by apply dec_stable). by injection Hal as <-.
  - rewrite (bool_decide_eq_true_2 (None = None)) by done. rewrite bool_decide_eq_true_2 by set_solver.
    split; [done|]. split; [done|]. exists [accessListAddSlotChange a k; accessListAddAccountChange a]. cbn. split_and!; try done.
    split; try done; cbn; [intros; apply account_rel_refl| |by apply DeleteAddress_wf].
    intros b. rewrite DeleteAddress_warm, Hd. destruct (decide (a = b)); [by subst b|done].
Qed.

(** ** Sequences of undos *)
Lemma journal_revert_app m n s :
  (m ≤ length (jentries s))%nat →
  journal_revert (m + n) s = journal_revert n (journal_revert m s).
Proof.
  revert s. induction m as [|m IH]; intros s Hm; [done|]. cbn.
  destruct (jentries s) as [|e es] eqn:Hj; cbn in Hm; [lia|]. apply IH. cbn. lia.
Qed.

Lemma journal_revert_frame n s :
  (n ≤ length (jentries s))%nat →
  jentries (journal_revert n s) = drop n (jentries s) ∧ revisions (journal_revert n s) = revisions s.
Proof.
  revert s. induction n as [|n IH]; intros s Hn; [done|]. cbn.
  destruct (jentries s) as [|e es] eqn:Hj; cbn in Hn; [lia|].
  destruct (IH (set_jentries es (revert_entry e s))) as [H1 H2]; [cbn; lia|]. rewrite H1, H2. cbn.
  split; [done|]. apply (revert_entry_frame e s).
Qed.

Lemma undo_ok_app m n s :
  undo_ok m s → undo_ok n (journal_revert m s) → undo_ok (m + n) s.
Proof.
  revert s. induction m as [|m IH]; intros s Hm Hn; [done|]. cbn in *.
  destruct (jentries s); [done|]. destruct Hm. split; [done|]. by apply IH.
Qed.

Lemma undo_ok_drop m n s : undo_ok (m + n) s → undo_ok n (journal_revert m s).
Proof.
  revert s. induction m as [|m IH]; intros s H; [done|]. cbn in *.
  destruct (jentries s); [done|]. apply IH; tauto.
Qed.

(** A relation up to which the journal undoes operations: [restored], or a
    coarser one. *)
Class UndoRel (R : StateDB → StateDB → Prop) : Prop := {
  ur_trans : Transitive R;
  ur_restored : ∀ s1 s2, restored s1 s2 → R s1 s2;
  ur_mono : ∀ e s1 s2, R s1 s2 → entry_ok e s2 → entry_ok e s1 ∧ R (revert_entry e s1) (revert_entry e s2);
  ur_jentries : ∀ es s1 s2, R s1 s2 → R (set_jentries es s1) (set_jentries es s2);
}.

#[export] Instance restored_undo_rel : UndoRel restored.
Proof.
  split; [exact restored_trans|done|exact revert_entry_mono|]. intros es s1 s2 []. by split.
Qed.

Section UndoRel.
Context (R : StateDB → StateDB → Prop) {UR : UndoRel R}.

Lemma journal_revert_mono n s1 s2 :
  jentries s1 = jentries s2 → R s1 s2 → undo_ok n s2 →
  undo_ok n s1 ∧ R (journal_revert n s1) (journal_revert n s2).
Proof using UR.
  revert s1 s2. induction n as [|n IH]; intros s1 s2 Hj Hr Hok; [done|]. cbn in *. rewrite Hj.
  destruct (jentries s2) as [|e es]; [done|]. destruct Hok as [He Hok].
  destruct (ur_mono e s1 s2 Hr He) as [He1 Hr1].
  destruct (IH (set_jentries es (revert_entry e s1)) (set_jentries es (revert_entry e s2))) as [H1 H2];
    [done| |done|by split].
  by apply ur_jentries.
Qed.

(** Undoing reaches [s0] from [s]. *)
Definition undoes_to (s0 s : StateDB) : Prop :=
  ∃ es, jentries s = es ++ jentries s0 ∧ undo_ok (length es) s ∧ R (journal_revert (length es) s) s0.

Lemma undoes_to_trans s0 s s' : undoes_to s0 s → undoable s s' → undoes_to s0 s'.
Proof using UR.
  intros (es & Hj & Hok & Hr) (_ & _ & es' & Hj' & Hok' & Hr'). exists (es' ++ es).
  assert (length es' ≤ length (jentries s'))%nat as Hle by (rewrite Hj', length_app; lia).
  destruct (journal_revert_frame _ s' Hle) as [Hf _]. rewrite Hj', drop_app_length in Hf.
  destruct (journal_revert_mono (length es) _ s Hf (ur_restored _ _ Hr') Hok) as [H1 H2].
  rewrite length_app. split_and!; [by rewrite Hj', Hj, app_assoc|by apply undo_ok_app|].
  rewrite journal_revert_app by done. by eapply ur_trans.
Qed.
End UndoRel.

Lemma getAccount_view a s : same_view (getAccount a s).1 s.
Proof. apply getAccount_spec. Qed.

Lemma Empty_view a s : same_view (Empty a s).1 s.
Proof. unfold Empty. pose proof (getAccount_view a s). by destruct (getAccount a s). Qed.

Lemma ExistEVM_view a s : same_view (ExistEVM a s).1 s.
Proof.
  unfold ExistEVM, Exist. pose proof (noteRead_view (AccountKey a) s).
  repeat case_match; cbn; done.
Qed.

(** Every operation but the snapshot calls is undone by its entries. *)
Lemma evm_step_undoable m s s' : acl_wf (accessList s) → evm_step m s s' →
  undoable s s' ∨ s' = (Snapshot s).1 ∨ ∃ id, m < id ∧ RevertToSnapshot id s = Some s'.
Proof.
  intros Hwf [a|a|a|a|a k|a|a|a x Ha|a x Ha|a x Ha|a n Ha|a c Ha|a k v Ha|a Ha|a|a|a|g|g s1 Hg|l|a k v|a|a k| |id s1 Hm Hr];
    [left..|by right; left|right; right; by exists id].
  all: try by apply undoable_change_balance.
  - apply undoable_none, GetBalance_spec. done.
  - apply undoable_none, GetNonce_spec. done.
  - by apply undoable_none, GetCodeHash_view.
  - by apply undoable_none, GetCode_view.
  - apply undoable_none, GetState_spec. done.
  - by apply undoable_none, ExistEVM_view.
  - by apply undoable_none, Empty_view.
  - by apply undoable_SetNonce.
  - by apply undoable_SetCode.
  - by apply undoable_SetState.
  - by apply undoable_CreateAccount; [apply ExistEVM_none|].
  - apply undoable_none; [done|]. by apply same_view_intro.
  - by apply undoable_SelfDestruct.
  - by apply undoable_SelfDestruct6780.
  - by apply undoable_AddRefund.
  - unfold SubRefund in Hg. case_match; [done|]. injection Hg as <-. by apply undoable_AddRefund.
  - by apply undoable_AddLog.
  - by apply undoable_SetTransient.
  - by apply undoable_AddAddress.
  - by apply undoable_AddSlot.
Qed.

(** ** Snapshots across a run *)
Lemma find_revision_app l1 l2 id :
  find_revision (l1 ++ l2) id =
    match find_revision l2 id with
    | Some (before, i) => Some (l1 ++ before, i)
    | None => find_revision l1 id
    end.
Proof.
  induction l1 as [|[id1 i1] l1 IH]; cbn; [by destruct (find_revision l2 id) as [[]|]|].
  rewrite IH. by destruct (find_revision l2 id) as [[]|].
Qed.

Lemma find_revision_in l id before i :
  find_revision l id = Some (before, i) → (id, i) ∈ l ∧ ∀ r, r ∈ before → r ∈ l.
Proof.
  revert before i. induction l as [|[id1 i1] l IH]; intros before i; cbn; [done|].
  destruct (find_revision l id) as [[b' i']|] eqn:Hf.
  - intros [= <- <-]. destruct (IH _ _ eq_refl) as [H1 H2]. split; [set_solver|].
    intros r. rewrite !elem_of_cons. naive_solver.
  - destruct (Z.eqb_spec id1 id) as [->|]; [|done]. intros [= <- <-]. split; [set_solver|]. set_solver.
Qed.

Lemma find_revision_none l id : (∀ r, r ∈ l → r.1 ≠ id) → find_revision l id = None.
Proof.
  induction l as [|[id1 i1] l IH]; intros Hl; cbn; [done|].
  rewrite IH by (intros r Hr; apply Hl; set_solver). rewrite (proj2 (Z.eqb_neq _ _)); [done|].
  apply (Hl (id1, i1)). set_solver.
Qed.

Lemma revert_entry_wf e s : acl_wf (accessList s) → acl_wf (accessList (revert_entry e s)).
Proof.
  intros Hwf. destruct (account_entry e) as [a|] eqn:He.
  { destruct (revert_account_entry e a s He) as (_ & _ & Ho). by rewrite (others_accessList _ _ Ho). }
  destruct e as [| | |a k v|a|a p b|g| |a|a k|a k v|a]; cbn; try done.
  - set (s1 := set_suicides _ s). destruct (getAccount_view a s1) as [_ _ Hq].
    destruct (rest_others _ _ Hq) as (Ho & _ & _). apply others_accessList in Ho.
    destruct (getAccount a s1) as [s2 []]; cbn in *; by rewrite Ho.
  - by apply DeleteAddress_wf.
  - by apply DeleteSlot_wf.
Qed.

Lemma journal_revert_wf n s : acl_wf (accessList s) → acl_wf (accessList (journal_revert n s)).
Proof.
  revert s. induction n as [|n IH]; intros s Hwf; cbn; [done|]. destruct (jentries s); [done|].
  apply IH. by apply revert_entry_wf.
Qed.

Section Tracked.
Context (R : StateDB → StateDB → Prop) {UR : UndoRel R}.

(** The snapshot taken at [s0] is still among the revisions of [s]. *)
Record tracked (s0 s : StateDB) : Prop := {
  tk_wf : acl_wf (accessList s);
  tk_undo : undoes_to R s0 s;
  tk_next : nextRevisionID s0 < nextRevisionID s;
  tk_revs : ∃ Q, validRevisions s = validRevisions s0 ++ (nextRevisionID s0, length (jentries s0)) :: Q ∧
    ∀ r, r ∈ Q → nextRevisionID s0 < r.1 ∧ (length (jentries s0) ≤ r.2)%nat;
}.

Lemma tracked_snapshot s0 : acl_wf (accessList s0) → tracked s0 (Snapshot s0).1.
Proof using UR.
  intros Hwf. split; [done| |cbn; lia|exists []; split; [done|set_solver]].
  exists []. cbn. split_and!; [done..|]. apply ur_restored, restored_intro; [done|done| |done].
  intros; apply account_rel_refl.
Qed.

Lemma undoes_to_revert s0 s n :
  undoes_to R s0 s → (n ≤ length (jentries s) - length (jentries s0))%nat →
  undoes_to R s0 (journal_revert n s).
Proof using UR.
  intros (es & Hj & Hok & Hr) Hn. rewrite Hj, length_app in Hn. exists (drop n es).
  destruct (journal_revert_frame n s) as [Hf _]; [rewrite Hj, length_app; lia|].
  rewrite Hf, Hj, drop_app_le by lia. rewrite length_drop.
  replace (length es) with (n + (length es - n))%nat in Hok, Hr by lia.
  split_and!; [done|by apply undo_ok_drop|].
  rewrite journal_revert_app in Hr; [done|]. rewrite Hj, length_app. lia.
Qed.

Lemma undoes_to_ext s0 s t :
  undoes_to R s0 s → jentries t = jentries s → R t s → undoes_to R s0 t.
Proof using UR.
  intros (es & Hj & Hok & Hr) Ht Hts. destruct (journal_revert_mono R (length es) t s Ht Hts Hok) as [H1 H2].
  exists es. split_and!; [by rewrite Ht|done|]. by eapply ur_trans.
Qed.

Lemma restored_revisions s revs n : acl_wf (accessList s) →
  restored (set_validRevisions revs (set_nextRevisionID n s)) s ∧ restored (set_validRevisions revs s) s.
Proof. intros Hwf. split; apply restored_intro; try done; intros; apply account_rel_refl. Qed.

Lemma evm_step_tracked s0 s s' :
  (∀ r, r ∈ validRevisions s0 → r.1 < nextRevisionID s0) →
  tracked s0 s → evm_step (nextRevisionID s0) s s' → tracked s0 s'.
Proof using UR.
  intros Hids [Hwf Hu Hn (Q & HQ & Hlt)] Hst.
  destruct (evm_step_undoable _ s s' Hwf Hst) as [Hun|[->|(id & Hid & Hrev)]].
  - pose proof Hun as (Hwf' & Hrv & _). unfold revisions in Hrv. injection Hrv as Hv Hnx.
    split; [done|by eapply undoes_to_trans|by rewrite Hnx|]. exists Q. by rewrite Hv.
  - split; [done| |cbn; lia|].
    + eapply undoes_to_ext; [exact Hu|done|]. by apply ur_restored, restored_revisions.
    + exists (Q ++ [(nextRevisionID s, length (jentries s))]). cbn. rewrite HQ, <-app_assoc. split; [done|].
      intros r [Hr|Hr]%elem_of_app; [by apply Hlt|]. apply list_elem_of_singleton in Hr. subst r. cbn.
      destruct Hu as (es & -> & _). rewrite length_app. lia.
  - unfold RevertToSnapshot in Hrev. rewrite HQ, find_revision_app in Hrev. cbn in Hrev.
    rewrite (proj2 (Z.eqb_neq _ _)) in Hrev by lia.
    rewrite (find_revision_none (validRevisions s0)) in Hrev by (intros r Hr; specialize (Hids r Hr); lia).
    destruct (find_revision Q id) as [[before i]|] eqn:Hf; [|done].
    injection Hrev as <-. destruct (find_revision_in _ _ _ _ Hf) as [Hin Hsub].
    destruct (Hlt _ Hin) as [_ Hi]. cbn in Hi.
    destruct (journal_revert_frame (length (jentries s) - i) s) as [_ Hfr]; [lia|].
    unfold revisions in Hfr. injection Hfr as _ Hx.
    assert (acl_wf (accessList (journal_revert (length (jentries s) - i) s))) as Hwft by (by apply journal_revert_wf).
    split; [done| |cbn; by rewrite Hx|by exists before; split; [|intros r Hr; apply Hlt, Hsub]].
    eapply undoes_to_ext; [apply (undoes_to_revert s0 s (length (jentries s) - i)); [exact Hu|lia]|done|]. by apply ur_restored, (restored_revisions _ _ 0).
Qed.

Lemma evm_run_tracked s0 s : acl_wf (accessList s0) →
  (∀ r, r ∈ validRevisions s0 → r.1 < nextRevisionID s0) →
  rtc (evm_step (nextRevisionID s0)) (Snapshot s0).1 s → tracked s0 s.
Proof using UR.
  intros Hwf Hids. generalize (tracked_snapshot s0 Hwf). generalize (Snapshot s0).1.
  intros t Ht Hrun. induction Hrun as [|x y z Hxy _ IH]; [done|]. by eapply IH, evm_step_tracked.
Qed.

Lemma tracked_revert s0 s : (∀ r, r ∈ validRevisions s0 → r.1 < nextRevisionID s0) → tracked s0 s →
  ∃ s', RevertToSnapshot (nextRevisionID s0) s = Some s' ∧ R s' s0 ∧
        jentries s' = jentries s0 ∧ validRevisions s' = validRevisions s0.
Proof using UR.
  intros Hids [Hwf (es & Hj & Hok & Hr) Hn (Q & HQ & Hlt)]. unfold RevertToSnapshot.
  rewrite HQ, find_revision_app. cbn.
  rewrite (find_revision_none Q) by (intros r Hin; destruct (Hlt r Hin); lia). rewrite Z.eqb_refl.
  eexists. split; [done|]. rewrite Hj, length_app, Nat.add_sub.
  destruct (journal_revert_frame (length es) s) as [Hf _]; [rewrite Hj, length_app; lia|].
  split_and!; [|cbn; by rewrite Hf, Hj, drop_app_length|cbn; by rewrite app_nil_r].
  eapply ur_trans; [|exact Hr]. by apply ur_restored, (restored_revisions _ _ 0), journal_revert_wf.
Qed.
End Tracked.

Definition code_hash_of (s : StateDB) (a : Address) : Hash := CodeHash (live_or_new s a).

(** C4. Reverting to a snapshot is total and restores its contents.  Take any
    interleaving of the EVM's operations, nested snapshots and reverts to newer
    ones included, in which no account is written after it self-destructed and
    accounts are created where [Exist] reports none.  Then [RevertToSnapshot]
    does not panic, and the balance, nonce, code hash and storage of every
    address, the self-destruct set, the refund counter, the logs, the warm
    addresses and slots, the transient storage, the journal and the older
    revisions are those of the snapshot.  The account of an address is the one
    of the snapshot, except that an empty account may be left where there was
    none. *)
Theorem RevertToSnapshot_restores s0 s :
  acl_wf (accessList s0) →
  (∀ r, r ∈ validRevisions s0 → r.1 < nextRevisionID s0) →
  rtc (evm_step (nextRevisionID s0)) (Snapshot s0).1 s →
  ∃ s', RevertToSnapshot (Snapshot s0).2 s = Some s' ∧
    (∀ a, balance_of s' a = balance_of s0 a ∧ nonce_of s' a = nonce_of s0 a ∧
          code_hash_of s' a = code_hash_of s0 a ∧ warm (accessList s') a = warm (accessList s0) a) ∧
    (∀ a, raw_account s' a = raw_account s0 a ∨ (raw_account s' a = Some NewAccount ∧ raw_account s0 a = None)) ∧
    (∀ a k, storage_of s' a k = storage_of s0 a k ∧
            transient_get (transient s') a k = transient_get (transient s0) a k) ∧
    suicides s' = suicides s0 ∧ refund s' = refund s0 ∧ logs s' = logs s0 ∧
    jentries s' = jentries s0 ∧ validRevisions s' = validRevisions s0.
Proof.
  intros Hwf Hids Hrun.
  destruct (tracked_revert restored s0 s Hids) as (s' & Hs' & [A B F W T _ _] & Hj & Hv); [by apply evm_run_tracked; [apply _|..]|].
  exists s'. injection F as Fd Fs Fr Fl. split_and!; try done. intros a.
  pose proof (account_rel_live s' s0 a Fs (A a)) as Hl. split_and!; [..|by unfold code_hash_of; rewrite Hl|apply W].
  - unfold balance_of. unfold live_or_new in Hl.
    destruct (account_of s' a), (account_of s0 a); cbn in Hl; subst; done.
  - unfold nonce_of. unfold live_or_new in Hl.
    destruct (account_of s' a), (account_of s0 a); cbn in Hl; subst; done.
Qed.

Lemma SelfDestruct_marks a acc s : a ∉ suicides s → raw_account s a = Some acc →
  let s' := (SelfDestruct a s).1 in
  a ∈ suicides s' ∧ jentries s' = suicideChange a false (Balance acc) :: jentries s ∧ validRevisions s' = validRevisions s.
Proof.
  intros Ha Hacc. unfold SelfDestruct. destruct (getAccount_spec a s) as (H2 & [_ _ Hq] & _).
  destruct (getAccount a s) as [s1 o]. cbn [fst snd] in *. unfold account_of in H2. rewrite decide_False, Hacc in H2 by done.
  subst o. injection Hq as _ Hsu Hj Hv _ _ _ _ _. rewrite bool_decide_eq_false_2 by (by rewrite Hsu). cbn. rewrite Hj, Hv.
  split_and!; [set_solver|done..].
Qed.

Lemma AddBalance_dead a x s : a ∈ suicides s →
  let s' := AddBalance a x s in
  a ∈ suicides s' ∧ jentries s' = balanceChange a 0 :: jentries s ∧ validRevisions s' = validRevisions s.
Proof.
  intros Ha. unfold AddBalance, AddBalancePrev, change_balance.
  pose proof (GetOrNewAccount_spec a (noteWrite (AccountKey a) s)) as Hspec.
  destruct (GetOrNewAccount _ _) as [s1 acc]. destruct Hspec as (-> & _ & _ & Hq & _).
  pose proof (noteWrite_view (AccountKey a) s) as [_ _ Hn]. rewrite Hn in Hq. injection Hn as _ Hsn _ _ _ _ _ _ _.
  injection Hq as _ Hsu Hj Hv _ _ _ _ _. unfold live_or_new, account_of. rewrite decide_True by (by rewrite Hsn).
  cbn. rewrite Hsu, Hj, Hv. done.
Qed.

Lemma RevertToSnapshot_two s V id e1 e2 js : validRevisions s = V ++ [(id, length js)] → jentries s = e1 :: e2 :: js →
  RevertToSnapshot id s =
    Some (set_validRevisions V (set_jentries js (revert_entry e2 (set_jentries (e2 :: js) (revert_entry e1 s))))).
Proof.
  intros Hv Hj. unfold RevertToSnapshot. rewrite Hv, find_revision_app. cbn [find_revision]. rewrite Z.eqb_refl, Hj, app_nil_r.
  assert (length (e1 :: e2 :: js) - length js = 2)%nat as -> by (cbn; lia). cbn [journal_revert]. by rewrite Hj.
Qed.

(** Undoing a credit to a self-destructed account and then the
    self-destruction. *)
Lemma undo_dead_credit a b js s : a ∈ suicides s →
  let s' := set_jentries js (revert_entry (suicideChange a false b)
              (set_jentries (suicideChange a false b :: js) (revert_entry (balanceChange a 0) s))) in
  account_of s' a = Some (mkAccount 0 b EmptyCodeHash).
Proof.
  intros Hd. destruct (revert_account_entry (balanceChange a 0) a s eq_refl) as (Hr & _ & _).
  assert (live_or_new s a = NewAccount) as Hl by (unfold live_or_new, account_of; by rewrite decide_True).
  specialize (Hr a). rewrite decide_True, Hl in Hr by done. set (s4 := revert_entry (balanceChange a 0) s) in *. clearbody s4.
  destruct (revert_suicide a false b (set_jentries (suicideChange a false b :: js) s4)) as (Hr5 & _ & Hs5 & _).
  { exists (undo_account (balanceChange a 0) NewAccount). exact Hr. }
  cbv zeta in *. set (s5 := revert_entry _ (set_jentries _ s4)) in *. clearbody s5. specialize (Hr5 a).
  rewrite decide_True in Hr5 by done.
  change (raw_account (set_jentries (suicideChange a false b :: js) s4) a) with (raw_account s4 a) in Hr5. rewrite Hr in Hr5.
  unfold account_of. change (suicides (set_jentries js s5)) with (suicides s5). rewrite Hs5, decide_False by set_solver.
  exact Hr5.
Qed.

Lemma account_views v s a acc : account_of s a = Some acc →
  let s' := set_validRevisions v s in
  balance_of s' a = Balance acc ∧ nonce_of s' a = Nonce acc ∧ code_hash_of s' a = CodeHash acc.
Proof.
  intros H s'. unfold balance_of, nonce_of, code_hash_of, live_or_new. change (account_of s' a) with (account_of s a).
  by rewrite H.
Qed.

(** The restriction is needed: a contract that self-destructs and then receives
    money loses its nonce and its code when the frame is reverted, because the
    credit starts a fresh account and no journal entry holds the old one. *)
Theorem selfdestruct_revert_loses_code s0 a acc x :
  a ∉ suicides s0 → raw_account s0 a = Some acc →
  ∃ s', RevertToSnapshot (Snapshot s0).2 (AddBalance a x (SelfDestruct a (Snapshot s0).1).1) = Some s' ∧
    balance_of s' a = Balance acc ∧ nonce_of s' a = 0 ∧ code_hash_of s' a = EmptyCodeHash.
Proof.
  intros Ha Hacc. destruct (SelfDestruct_marks a acc (Snapshot s0).1 Ha Hacc) as (Hd & Hj1 & Hv1).
  set (s2 := (SelfDestruct a (Snapshot s0).1).1) in *. clearbody s2.
  destruct (AddBalance_dead a x s2 Hd) as (Hd2 & Hj2 & Hv2). set (s3 := AddBalance a x s2) in *. clearbody s3.
  rewrite Hj1 in Hj2. rewrite Hv1 in Hv2.
  change (Snapshot s0).2 with (nextRevisionID s0). rewrite (RevertToSnapshot_two s3 (validRevisions s0) (nextRevisionID s0) _ _ (jentries s0) Hv2 Hj2).
  exists (set_validRevisions (validRevisions s0) (set_jentries (jentries s0)
    (revert_entry (suicideChange a false (Balance acc)) (set_jentries (suicideChange a false (Balance acc) :: jentries s0)
       (revert_entry (balanceChange a 0) s3))))).
  split; [reflexivity|]. exact (account_views _ _ a _ (undo_dead_credit a (Balance acc) (jentries s0) s3 Hd2)).
Qed.
End Revert.

(** ** A run with a nested frame *)
Section Frame.
Context `{C : Crypto} `{D : AccountCodec}.

Lemma change_balance_suicides a f s : suicides (change_balance a f s).1 = suicides s.
Proof.
  unfold change_balance. destruct (GetOrNewAccount _ _) as [s1 acc] eqn:Hg.
  pose proof (setter_update a _ s1 (journal_append (balanceChange a (Balance acc)) s1) acc
    (mkAccount (Nonce acc) (f (Balance acc)) (CodeHash acc)) Hg (journal_append_core _ _)) as [_ (_ & _ & Ho)].
  destruct (others_db _ _ Ho) as [_ Hs]. cbn in Hs |- *. rewrite Hs.
  destruct (noteWrite_id (AccountKey a) s) as (_ & _ & Hr & _). by injection Hr as _ -> _.
Qed.

Lemma Snapshot_suicides s : suicides (Snapshot s).1 = suicides s.
Proof. done. Qed.

(** A transfer, a slot write and a nested frame that is reverted. *)
Lemma frame_run s0 s3 s5 s : suicides s0 = ∅ → nextRevisionID s0 = 0 →
  s3 = AddBalance 8 40 (SubBalance 7 40 (Snapshot s0).1).1 →
  s5 = (SetStateJournaled 8 1 9 (Snapshot s3).1).1 →
  RevertToSnapshot 1 s5 = Some s →
  rtc (evm_step (nextRevisionID s0)) (Snapshot s0).1 s.
Proof.
  intros H0 Hn Hs3 Hs5 Hf.
  assert (suicides (SubBalance 7 40 (Snapshot s0).1).1 = ∅) as H1.
  { unfold SubBalance. by rewrite change_balance_suicides. }
  assert (suicides s3 = ∅) as H3.
  { rewrite Hs3. unfold AddBalance, AddBalancePrev. by rewrite change_balance_suicides. }
  eapply rtc_l; [apply (es_SubBalance _ _ 7 40); rewrite Snapshot_suicides, H0; apply not_elem_of_empty|].
  apply (rtc_l _ _ s3); [rewrite Hs3; apply (es_AddBalance _ _ 8 40); rewrite H1; apply not_elem_of_empty|].
  clear Hs3. eapply rtc_l; [apply es_Snapshot|].
  apply (rtc_l _ _ s5); [rewrite Hs5; apply (es_SetState _ _ 8 1 9); rewrite Snapshot_suicides, H3; apply not_elem_of_empty|].
  eapply rtc_l; [eapply (es_Revert _ _ 1); [|exact Hf]|apply rtc_refl].
  rewrite Hn. reflexivity.
Qed.
End Frame.

(** ** Evaluation on a concrete instance *)
Section Witness.
Local Existing Instances toy_crypto toy_codec.

Lemma RevertToSnapshot_restores_witness :
  ∃ s3 s5 s s', s3 = AddBalance 8 40 (SubBalance 7 40 (Snapshot (New ∅)).1).1 ∧
    s5 = (SetStateJournaled 8 1 9 (Snapshot s3).1).1 ∧ RevertToSnapshot 1 s5 = Some s ∧
    RevertToSnapshot 0 s = Some s' ∧
    balance_of s' 7 = balance_of (New ∅) 7 ∧ storage_of s' 8 1 = storage_of (New ∅) 8 1 ∧
    jentries s' = [].
Proof.
  remember (AddBalance 8 40 (SubBalance 7 40 (Snapshot (New ∅)).1).1) as s3 eqn:H3.
  remember ((SetStateJournaled 8 1 9 (Snapshot s3).1).1) as s5 eqn:H5.
  destruct (RevertToSnapshot 1 s5) as [s|] eqn:Hf; [|exfalso; subst; vm_compute in Hf; discriminate Hf].
  destruct (RevertToSnapshot_restores (New ∅) s) as (s' & Hs' & Ha & _ & Hk & _ & _ & _ & Hj & _).
  - apply acl_wf_new.
  - intros r Hr. by apply elem_of_nil in Hr.
  - exact (frame_run (New ∅) s3 s5 s eq_refl eq_refl H3 H5 Hf).
  - exists s3, s5, s, s'. split; [reflexivity|]. split; [exact H5|]. split; [exact Hf|]. split; [exact Hs'|].
    split; [apply Ha|]. split; [apply Hk|exact Hj].
Defined.
End Witness.
