(* ===== verification/StateCommit.v ===== *)
(** * End of transaction, flush and state root

    Models the commit side of [core/state/statedb.go] ([Commit],
    [FlushDirtyTo], [IntermediateRoot], [collectLeaves]) and
    [core/state/copy.go], over the operations of [StateDB]. *)
From S2P Require Import Prelude Types Toy Smt StateDB StateRevert.

Section Commit.
Context `{C : Crypto} `{D : AccountCodec}.

(** ** The caches agree with the store where they are not dirty *)
Definition stored_slot (d : Database) (id : Address * Hash) : Hash :=
  match d !! storageKey id.1 id.2 with Some blob => BytesToHash blob | None => 0 end.

Record coherent (s : StateDB) : Prop := {
  co_account : ∀ a acc, accounts s !! a = Some acc → a ∉ accountDirty s → stored_account (db s) a = Some acc;
  co_storage : ∀ id v, storage s !! id = Some v → id ∉ storageDirty s → stored_slot (db s) id = v;
  co_slots : ∀ id, id ∈ storageDirty s → is_Some (storage s !! id);
}.

Definition cache (s : StateDB) := (db s, accounts s, accountDirty s, storage s, storageDirty s).

Lemma coherent_cache s1 s2 : cache s1 = cache s2 → coherent s2 → coherent s1.
Proof. intros [= H1 H2 H3 H4 H5] []. split; rewrite ?H1, ?H2, ?H3, ?H4, ?H5; done. Qed.

Lemma coherent_new d : coherent (New d).
Proof. split; cbn; set_solver. Qed.

Lemma noteRead_cache k s : cache (noteRead k s) = cache s.
Proof. unfold noteRead. by repeat case_match. Qed.
Lemma noteWrite_cache k s : cache (noteWrite k s) = cache s.
Proof. unfold noteWrite. by repeat case_match. Qed.
Lemma journal_append_cache e s : cache (journal_append e s) = cache s.
Proof. unfold journal_append. by case_match. Qed.

Lemma put_account_coherent a acc s : coherent s → coherent (put_account a acc s).
Proof.
  intros [Ha Hs Ht]. split; cbn; [|done|done]. intros b acc'. rewrite lookup_insert_Some. set_solver.
Qed.

Lemma put_storage_coherent a k v s : coherent s → coherent (put_storage a k v s).
Proof.
  intros [Ha Hs Ht]. split; cbn; [done| |].
  - intros id w. rewrite lookup_insert_Some. set_solver.
  - intros id Hid. destruct (decide ((a, k) = id)) as [<-|Hne]; [by rewrite lookup_insert_eq|].
    rewrite lookup_insert_ne by done. apply Ht. set_solver.
Qed.

Lemma getAccount_coherent a s : coherent s → coherent (getAccount a s).1.
Proof.
  intros Hc. unfold getAccount. case_decide; [done|]. destruct (accounts s !! a) eqn:Ha; [done|].
  destruct (db s !! accountKey a) as [blob|] eqn:Hb; [|done].
  destruct (decodeAccount blob) as [acc|] eqn:Hdec; [|done]. destruct Hc as [H1 H3 H4]. cbn.
  split; cbn; [|done|done].
  intros b acc'. rewrite lookup_insert_Some. intros [[<- <-]|[_ Hb']]; [|by apply H1].
  intros _. unfold stored_account. by rewrite Hb, Hdec.
Qed.

Lemma GetOrNewAccount_coherent a s : coherent s → coherent (GetOrNewAccount a s).1.
Proof.
  intros Hc. unfold GetOrNewAccount. pose proof (getAccount_coherent a s Hc) as H1.
  destruct (getAccount a s) as [s1 [acc|]]; [done|]. by apply put_account_coherent.
Qed.

Lemma GetState_coherent a k s : coherent s → coherent (GetState a k s).1.
Proof.
  intros Hc. unfold GetState. set (s1 := noteRead _ s).
  assert (coherent s1) as H1 by (eapply coherent_cache; [apply noteRead_cache|done]). clearbody s1.
  destruct (storage s1 !! (a, k)) eqn:Hs; [done|].
  destruct (db s1 !! storageKey a k) as [blob|] eqn:Hb; [|done]. destruct H1 as [P1 P3 P4].
  split; cbn; [done| |].
  - intros id w. rewrite lookup_insert_Some. intros [[<- <-]|[_ Hid]]; [|by apply P3].
    intros _. unfold stored_slot. cbn. by rewrite Hb.
  - intros id Hid. destruct (decide ((a, k) = id)) as [<-|Hne]; [by rewrite lookup_insert_eq|].
    rewrite lookup_insert_ne by done. by apply P4.
Qed.

(** The account setters: fetch, bookkeeping, store. *)
Lemma setter_coherent a k acc' s s2 :
  coherent s → cache s2 = cache (GetOrNewAccount a (noteWrite k s)).1 → coherent (put_account a acc' s2).
Proof.
  intros Hc H2. apply put_account_coherent. eapply coherent_cache; [exact H2|].
  apply GetOrNewAccount_coherent. eapply coherent_cache; [apply noteWrite_cache|done].
Qed.

Lemma change_balance_coherent a f s : coherent s → coherent (change_balance a f s).1.
Proof.
  intros Hc. unfold change_balance. destruct (GetOrNewAccount _ _) as [s1 acc] eqn:Hg. cbn [fst].
  eapply setter_coherent; [exact Hc|]. rewrite journal_append_cache, Hg. done.
Qed.

Lemma noteRead_coherent k s : coherent s → coherent (noteRead k s).
Proof. apply coherent_cache, noteRead_cache. Qed.
Lemma noteWrite_coherent k s : coherent s → coherent (noteWrite k s).
Proof. apply coherent_cache, noteWrite_cache. Qed.
Lemma journal_append_coherent e s : coherent s → coherent (journal_append e s).
Proof. apply coherent_cache, journal_append_cache. Qed.
End Commit.

Create HintDb coherence.
#[export] Hint Resolve noteRead_coherent noteWrite_coherent journal_append_coherent put_account_coherent
  put_storage_coherent getAccount_coherent GetOrNewAccount_coherent GetState_coherent
  change_balance_coherent : coherence.

(** Follow a [let '(s1, x) := op in ...] of a state operation. *)
Ltac coherent_let :=
  match goal with
  | |- context [let '(_, _) := ?op in _] =>
      let H := fresh "Hc" in
      assert (H : coherent op.1) by eauto with coherence;
      let s := fresh "s" in destruct op as [s ?]; cbn [fst] in H
  end.

Section Invariant.
Context `{C : Crypto} `{D : AccountCodec}.

Lemma GetBalance_coherent a s : coherent s → coherent (GetBalance a s).1.
Proof. intros Hc. unfold GetBalance. by coherent_let. Qed.

Lemma GetNonce_coherent a s : coherent s → coherent (GetNonce a s).1.
Proof. intros Hc. unfold GetNonce. by coherent_let. Qed.

Lemma GetCodeHash_coherent a s : coherent s → coherent (GetCodeHash a s).1.
Proof. intros Hc. unfold GetCodeHash. by coherent_let. Qed.

Lemma GetCode_coherent a s : coherent s → coherent (GetCode a s).1.
Proof.
  intros Hc. unfold GetCode.
  pose proof (GetCodeHash_coherent a _ (noteRead_coherent (AccountKey a) s Hc)) as H1.
  destruct (GetCodeHash _ _) as [s1 h]. cbn in H1. repeat case_match; cbn; try done.
  by apply (coherent_cache _ s1).
Qed.

Lemma Exist_coherent a s : coherent s → coherent (ExistEVM a s).1.
Proof.
  intros Hc. unfold ExistEVM, Exist. pose proof (noteRead_coherent (AccountKey a) s Hc).
  repeat case_match; cbn; done.
Qed.

Lemma Empty_coherent a s : coherent s → coherent (Empty a s).1.
Proof. intros Hc. unfold Empty. by coherent_let. Qed.

Lemma put_code_coherent a acc c s : coherent s → coherent (put_code a acc c s).
Proof.
  intros Hc. unfold put_code. destruct c; apply put_account_coherent; [done|]. by apply (coherent_cache _ s).
Qed.

Lemma SetNonceJournaled_coherent a n s : coherent s → coherent (SetNonceJournaled a n s).
Proof. intros Hc. unfold SetNonceJournaled. coherent_let. eauto with coherence. Qed.

Lemma SetCodeJournaled_coherent a c s : coherent s → coherent (SetCodeJournaled a c s).
Proof.
  intros Hc. unfold SetCodeJournaled. coherent_let. destruct (CodeHash a0 =? EmptyCodeHash).
  - apply put_code_coherent. eauto with coherence.
  - pose proof (GetCode_coherent a s0 Hc0). destruct (GetCode a s0). apply put_code_coherent.
    eauto with coherence.
Qed.

Lemma SetStateJournaled_coherent a k v s : coherent s → coherent (SetStateJournaled a k v s).1.
Proof.
  intros Hc. unfold SetStateJournaled. coherent_let. case_match; [done|]. cbn [fst].
  apply put_storage_coherent, GetOrNewAccount_coherent, journal_append_coherent.
  apply (coherent_cache _ (noteWrite (StorageKeyAccess a k) s0)); [by case_match|eauto with coherence].
Qed.

Lemma CreateAccount_coherent a s : coherent s → coherent (CreateAccount a s).
Proof. intros Hc. unfold CreateAccount. coherent_let. eauto with coherence. Qed.

Lemma SelfDestruct_coherent a s : coherent s → coherent (SelfDestruct a s).1.
Proof.
  intros Hc. unfold SelfDestruct. pose proof (getAccount_coherent a s Hc).
  destruct (getAccount a s) as [s1 [acc|]]; [|done]. cbn [fst]. apply put_account_coherent.
  apply (coherent_cache _ (journal_append (suicideChange a (bool_decide (a ∈ suicides s1)) (Balance acc)) s1));
    [done|eauto with coherence].
Qed.

Lemma SelfDestruct6780_coherent a s : coherent s → coherent (SelfDestruct6780 a s).1.
Proof.
  intros Hc. unfold SelfDestruct6780. case_decide.
  - pose proof (SelfDestruct_coherent a s Hc). by destruct (SelfDestruct a s).
  - pose proof (getAccount_coherent a s Hc). destruct (getAccount a s) as [s1 [acc|]]; [|done].
    cbn [fst]. eauto with coherence.
Qed.

Lemma revert_entry_coherent e s : coherent s → coherent (revert_entry e s).
Proof.
  intros Hc. destruct e as [a x|a x|a h pc|a k v|a|a p b|g| |a|a k|a k v|a]; cbn; try done;
    try (by apply (coherent_cache _ s)); try (coherent_let; eauto with coherence; fail).
  - coherent_let. apply put_account_coherent. apply (coherent_cache _ s0); [|done]. by repeat case_match.
  - eauto with coherence.
  - destruct Hc as [H1 H3 H4]. split; cbn; [|done|done].
    intros b acc. rewrite lookup_delete_Some. intros [? ?] ?. apply H1; set_solver.
  - set (s1 := set_suicides _ s). assert (coherent (getAccount a s1).1) as H1.
    { apply getAccount_coherent. by apply (coherent_cache _ s). }
    destruct (getAccount a s1) as [s2 [acc|]]; cbn in H1; eauto with coherence.
Qed.

Lemma journal_revert_coherent n s : coherent s → coherent (journal_revert n s).
Proof.
  revert s. induction n as [|n IH]; intros s Hc; cbn; [done|]. destruct (jentries s) as [|e es]; [done|].
  apply IH. apply (coherent_cache _ (revert_entry e s)); [done|]. by apply revert_entry_coherent.
Qed.

(** Every operation of the EVM interface, reverts included, keeps the caches
    coherent: an account or slot that is not marked dirty is the one the store
    holds. *)
Lemma evm_step_coherent m s s' : coherent s → evm_step m s s' → coherent s'.
Proof.
  intros Hc [a|a|a|a|a k|a|a|a x _|a x _|a x _|a n _|a c _|a k v _|a _|a|a|a|g|g s1 Hg|l|a k v|a|a k| |id s1 _ Hr].
  - by apply GetBalance_coherent.
  - by apply GetNonce_coherent.
  - by apply GetCodeHash_coherent.
  - by apply GetCode_coherent.
  - by apply GetState_coherent.
  - by apply Exist_coherent.
  - by apply Empty_coherent.
  - by apply change_balance_coherent.
  - by apply change_balance_coherent.
  - by apply change_balance_coherent.
  - by apply SetNonceJournaled_coherent.
  - by apply SetCodeJournaled_coherent.
  - by apply SetStateJournaled_coherent.
  - by apply CreateAccount_coherent.
  - by apply (coherent_cache _ s).
  - by apply SelfDestruct_coherent.
  - by apply SelfDestruct6780_coherent.
  - by apply (coherent_cache _ s).
  - unfold SubRefund in Hg. case_match; [done|]. injection Hg as <-. by apply (coherent_cache _ s).
  - by apply (coherent_cache _ s).
  - by apply (coherent_cache _ s).
  - apply (coherent_cache _ s); [|done]. unfold AddAddressToAccessList. by repeat case_match.
  - apply (coherent_cache _ s); [|done]. unfold AddSlotToAccessList. by repeat case_match.
  - by apply (coherent_cache _ s).
  - unfold RevertToSnapshot in Hr. destruct (find_revision _ _) as [[before i]|]; [|done]. injection Hr as <-.
    apply (coherent_cache _ (journal_revert (length (jentries s) - i) s)); [done|].
    by apply journal_revert_coherent.
Qed.

Lemma drop_if_empty_coherent a s : coherent s → coherent (drop_if_empty s a).
Proof.
  intros Hc. unfold drop_if_empty. pose proof (Empty_coherent a s Hc) as H. destruct (Empty a s) as [s1 []]; [|done].
  destruct H as [H1 H3 H4]. split; cbn; [|done|done].
  intros b acc. rewrite lookup_delete_Some. intros [? ?] ?. apply H1; set_solver.
Qed.

Lemma process_suicides_coherent s : coherent s → coherent (process_suicides s).
Proof.
  intros [H1 H3 H4]. split; cbn.
  - intros b acc. rewrite map_lookup_filter_Some. intros [Hb _] Hd. apply H1; set_solver.
  - intros id v. unfold zero_storage_of, storage_ids_of. rewrite map_lookup_imap.
    destruct (storage s !! id) as [w|] eqn:Hw; cbn; [|done]. intros Hv Hd.
    case_decide as Hdead; simplify_eq; [|apply H3; set_solver].
    exfalso. apply Hd, elem_of_union_l, elem_of_dom. exists w. by apply map_lookup_filter_Some.
  - intros id. unfold zero_storage_of, storage_ids_of. rewrite map_lookup_imap, elem_of_union.
    intros [[w Hw]%elem_of_dom|Hid].
    + apply map_lookup_filter_Some in Hw as [-> _]. cbn. by case_decide.
    + destruct (H4 _ Hid) as [w ->]. cbn. by case_decide.
Qed.

(** The end of a transaction keeps the caches coherent too. *)
Lemma Finalise_coherent del s : coherent s → coherent (Finalise del s).
Proof.
  intros Hc%process_suicides_coherent. unfold Finalise.
  set (t := if del then foldl drop_if_empty (process_suicides s) (map_to_list (dirties (process_suicides s))).*1
    else process_suicides s). apply (coherent_cache _ t); [done|]. subst t. destruct del; [|done].
  revert Hc. generalize (process_suicides s), (map_to_list (dirties (process_suicides s))).*1. intros t l. revert t.
  induction l as [|a l IH]; intros t Ht; [done|]. cbn [foldl]. by apply IH, drop_if_empty_coherent.
Qed.
End Invariant.

(** ** Flushing *)
Lemma accountKey_inj a b : is_addr a → is_addr b → accountKey a = accountKey b → a = b.
Proof. intros Ha Hb H. apply addr_bytes_inj; [done|done|exact (f_equal (@tail Z) H)]. Qed.

Lemma storageKey_inj id1 id2 : is_addr id1.1 → is_addr id2.1 → is_hash id1.2 → is_hash id2.2 →
  storageKey id1.1 id1.2 = storageKey id2.1 id2.2 → id1 = id2.
Proof.
  destruct id1 as [a k], id2 as [b j]. cbn [fst snd]. intros Ha Hb Hk Hj H.
  apply (f_equal (@tail Z)) in H. cbn [storageKey tail] in H. apply app_inj_1 in H as [H1 H2]; [|by rewrite !addr_bytes_length].
  f_equal; [by apply addr_bytes_inj|]. exact (be_bytes_inj 32 k j Hk Hj H2).
Qed.

(** The three kinds of keys have different first bytes. *)
Lemma keys_head : (∀ a, head (accountKey a) = Some 97) ∧ (∀ a k, head (storageKey a k) = Some 115) ∧
  (∀ h, head (codeKey h) = Some 99).
Proof. split_and!; reflexivity. Qed.

Lemma key_ne k1 k2 (h1 h2 : Z) : head k1 = Some h1 → head k2 = Some h2 → h1 ≠ h2 → k1 ≠ k2.
Proof. intros H1 H2 Hne ->. congruence. Qed.

Lemma account_storage_ne a b k : accountKey a ≠ storageKey b k.
Proof. apply (key_ne _ _ 97 115); [apply keys_head..|lia]. Qed.
Lemma account_code_ne a h : accountKey a ≠ codeKey h.
Proof. apply (key_ne _ _ 97 99); [apply keys_head..|lia]. Qed.
Lemma storage_code_ne a k h : storageKey a k ≠ codeKey h.
Proof. apply (key_ne _ _ 115 99); [apply keys_head..|lia]. Qed.

Ltac other_key := first [exact (not_eq_sym (account_storage_ne _ _ _)) | exact (account_storage_ne _ _ _)
  | exact (not_eq_sym (account_code_ne _ _)) | exact (not_eq_sym (storage_code_ne _ _ _))].

(** A left fold of writes, seen at one key: only the element that owns the
    key matters. *)
Lemma foldl_at {A} (step : Database → A → Database) (k : list Z) (x : A) (f : option (list Z) → option (list Z)) l w :
  NoDup l → (∀ w, step w x !! k = f (w !! k)) →
  (∀ w y, y ∈ l → y ≠ x → step w y !! k = w !! k) →
  (x ∈ l → foldl step w l !! k = f (w !! k)) ∧ (x ∉ l → foldl step w l !! k = w !! k).
Proof.
  intros Hnd Hx. revert w. induction Hnd as [|y l Hy Hnd IH]; intros w Ho; cbn; [set_solver|].
  destruct (IH (step w y)) as [I1 I2]; [intros; apply Ho; set_solver|]. split.
  - intros [->|Hin]%elem_of_cons.
    + by rewrite (I2 Hy), Hx.
    + rewrite (I1 Hin), Ho; [done|set_solver|]. by intros ->.
  - intros Hn. rewrite I2, Ho; [done|set_solver|set_solver|set_solver].
Qed.

Lemma foldl_frame {A} (step : Database → A → Database) (k : list Z) l w :
  (∀ w y, y ∈ l → step w y !! k = w !! k) → foldl step w l !! k = w !! k.
Proof.
  revert w. induction l as [|y l IH]; intros w Ho; cbn; [done|].
  rewrite IH, Ho; [done|set_solver|]. intros; apply Ho; set_solver.
Qed.

Section Flush.
Context `{C : Crypto} `{CL : !CryptoLaws C} `{D : AccountCodec} `{DL : !AccountCodecLaws C D}.

(** Cached values are in the range of their Go types. *)
Record in_range (s : StateDB) : Prop := {
  ir_account : ∀ a acc, accounts s !! a = Some acc →
    is_addr a ∧ is_u64 (Nonce acc) ∧ is_u256 (Balance acc) ∧ is_hash (CodeHash acc);
  ir_storage : ∀ id v, storage s !! id = Some v → is_addr id.1 ∧ is_hash id.2 ∧ is_hash v;
}.

Lemma decode_encode_roundtrip acc :
  is_u64 (Nonce acc) → is_u256 (Balance acc) → is_hash (CodeHash acc) →
  decodeAccount (encodeAccount acc) = Ok acc.
Proof.
  intros Hn Hb Hc. unfold decodeAccount, encodeAccount.
  rewrite decode_encode_account by (done || apply hash_bytes_length || apply be_bytes_ok).
  rewrite u256_id, BytesToHash_hash_bytes by done. by destruct acc.
Qed.

Lemma flush_at_account s a : coherent s → in_range s → suicides s = ∅ → is_addr a →
  FlushDirtyTo s (db s) !! accountKey a =
    match accounts s !! a with
    | Some acc => if decide (a ∈ accountDirty s) then Some (encodeAccount acc) else db s !! accountKey a
    | None => db s !! accountKey a
    end.
Proof.
  intros [H1 H3 H4] [R1 R2] Hsu Ha. unfold FlushDirtyTo. rewrite foldl_frame.
  2: { intros w id _. unfold flush_slot. cbv zeta; destruct (Hash_IsZero _); [rewrite lookup_delete_ne by other_key|rewrite lookup_insert_ne by other_key]; reflexivity. }
  destruct (foldl_at (flush_account s) (accountKey a) a
    (λ o, match accounts s !! a with Some acc => Some (encodeAccount acc) | None => o end)
    (elements (accountDirty s)) (db s)) as [Hin Hout].
  - apply NoDup_elements.
  - intros w. unfold flush_account. rewrite Hsu, decide_False by set_solver.
    destruct (accounts s !! a) as [acc|]; [|done]. repeat case_match;
      rewrite ?(lookup_insert_ne _ (codeKey _)) by other_key; rewrite lookup_insert_eq; reflexivity.
  - intros w y Hy Hne. unfold flush_account. rewrite Hsu, decide_False by set_solver.
    destruct (accounts s !! y) as [acc|] eqn:Hacc; [|done]. destruct (R1 _ _ Hacc) as [Hry _].
    assert (accountKey y ≠ accountKey a) as Hyk by (intros Hk; apply Hne; exact (accountKey_inj _ _ Hry Ha Hk)).
    repeat case_match; rewrite ?(lookup_insert_ne _ (codeKey _)) by other_key;
      rewrite lookup_insert_ne by exact Hyk; reflexivity.
  - destruct (decide (a ∈ accountDirty s)) as [Hd|Hd].
    + rewrite Hin by set_solver. by destruct (accounts s !! a).
    + rewrite Hout by set_solver. by destruct (accounts s !! a).
Qed.

Lemma flush_at_slot s a k : coherent s → in_range s → suicides s = ∅ → is_addr a → is_hash k →
  FlushDirtyTo s (db s) !! storageKey a k =
    if decide ((a, k) ∈ storageDirty s) then
      (let v := default 0 (storage s !! (a, k)) in if Hash_IsZero v then None else Some (hash_bytes v))
    else db s !! storageKey a k.
Proof.
  intros [H1 H3 H4] [R1 R2] Hsu Ha Hk. unfold FlushDirtyTo.
  set (w0 := foldl (flush_account s) _ _).
  assert (w0 !! storageKey a k = db s !! storageKey a k) as Hw0.
  { apply foldl_frame. intros w y _. unfold flush_account. rewrite Hsu, decide_False by set_solver.
    repeat case_match; rewrite ?lookup_insert_ne by other_key; reflexivity. }
  destruct (foldl_at (flush_slot s) (storageKey a k) (a, k)
    (λ _, let v := default 0 (storage s !! (a, k)) in if Hash_IsZero v then None else Some (hash_bytes v))
    (elements (storageDirty s)) w0) as [Hin Hout].
  - apply NoDup_elements.
  - intros w. unfold flush_slot. cbn. case_match; [by rewrite lookup_delete_eq|by rewrite lookup_insert_eq].
  - intros w id Hid Hne. unfold flush_slot. destruct (H4 id) as [v Hv]; [set_solver|].
    destruct (R2 _ _ Hv) as (? & ? & ?).
    assert (storageKey id.1 id.2 ≠ storageKey a k).
    { intros Heq. apply Hne. by apply (storageKey_inj id (a, k)). }
    case_match; [by rewrite lookup_delete_ne|by rewrite lookup_insert_ne].
  - case_decide; [by rewrite Hin by set_solver|]. by rewrite Hout by set_solver.
Qed.

(** Commit is durable: flushing the dirty entries of a coherent state to
    its store and reopening the store gives back every account and every
    storage slot. *)
Lemma flush_reopen_roundtrip s : coherent s → in_range s → suicides s = ∅ →
  let s' := New (FlushDirtyTo s (db s)) in
  (∀ a, is_addr a → account_of s' a = account_of s a) ∧
  (∀ a k, is_addr a → is_hash k → storage_of s' a k = storage_of s a k).
Proof.
  intros Hc Hr Hsu. pose proof Hc as [H1 H3 H4]. pose proof Hr as [R1 R2]. cbv zeta. split.
  - intros a Ha. unfold account_of. rewrite Hsu. rewrite !decide_False by apply not_elem_of_empty.
    unfold raw_account. change (accounts (New (FlushDirtyTo s (db s)))) with (∅ : gmap Address Account).
    change (db (New (FlushDirtyTo s (db s)))) with (FlushDirtyTo s (db s)). rewrite lookup_empty.
    unfold stored_account at 1. rewrite (flush_at_account s a Hc Hr Hsu Ha).
    destruct (accounts s !! a) as [acc|] eqn:Hacc; [|reflexivity]. case_decide as Hd.
    + destruct (R1 _ _ Hacc) as (_ & Hn & Hb & Hch). by rewrite decode_encode_roundtrip.
    + exact (H1 _ _ Hacc Hd).
  - intros a k Ha Hk. unfold storage_of.
    change (storage (New (FlushDirtyTo s (db s)))) with (∅ : gmap (Address * Hash) Hash).
    change (db (New (FlushDirtyTo s (db s)))) with (FlushDirtyTo s (db s)). rewrite lookup_empty.
    rewrite (flush_at_slot s a k Hc Hr Hsu Ha Hk). case_decide as Hd.
    + destruct (H4 _ Hd) as [v Hv]. rewrite Hv. change (default 0 (Some v)) with v. destruct (R2 _ _ Hv) as (_ & _ & Hvr).
      cbv zeta. unfold Hash_IsZero. destruct (Z.eqb_spec v 0) as [->|]; [reflexivity|]. exact (BytesToHash_hash_bytes v Hvr).
    + destruct (storage s !! (a, k)) as [v|] eqn:Hv; [|reflexivity]. exact (H3 (a, k) v Hv Hd).
Qed.
End Flush.

(** ** State root *)
Section Root.
Context `{C : Crypto} `{D : AccountCodec}.

(** Only keys of the three state prefixes enter the commitment. *)
Definition state_key (k : list Z) : bool :=
  match k with
  | [] => false
  | p :: _ => (p =? prefixAccount) || (p =? prefixStorage) || (p =? prefixCode)
  end.

(** One turn of the loop over the account cache; the pair is the code cache
    and the merged leaves. *)
Definition overlay_account (s : StateDB) (st : gmap Hash (list Z) * gmap (list Z) (list Z))
    (kv : Address * Account) : gmap Hash (list Z) * gmap (list Z) (list Z) :=
  let '(codes, merged) := st in
  let '(addr, acc) := kv in
  if decide (addr ∈ suicides s) then (codes, delete (accountKey addr) merged) else
  let merged := <[accountKey addr := encodeAccount acc]> merged in
  if CodeHash acc =? EmptyCodeHash then (codes, merged) else
  let '(codes, c) :=
    match codes !! CodeHash acc with
    | Some c => (codes, Some c)
    | None =>
        match db s !! codeKey (CodeHash acc) with
        | Some blob => (<[CodeHash acc := blob]> codes, Some blob)
        | None => (codes, None)
        end
    end in
  (codes, match c with Some c => <[codeKey (CodeHash acc) := c]> merged | None => merged end).

(** One turn of the loop over the storage cache. *)
Definition overlay_slot (s : StateDB) (merged : gmap (list Z) (list Z)) (kv : (Address * Hash) * Hash)
    : gmap (list Z) (list Z) :=
  let '(id, v) := kv in
  if bool_decide (id.1 ∈ suicides s) || Hash_IsZero v then delete (storageKey id.1 id.2) merged
  else <[storageKey id.1 id.2 := hash_bytes v]> merged.

Definition merged_leaves (s : StateDB) : gmap Hash (list Z) * gmap (list Z) (list Z) :=
  let merged := filter (λ kv, state_key kv.1) (db s) in
  let '(codes, merged) := foldl (overlay_account s) (code s, merged) (map_to_list (accounts s)) in
  (codes, foldl (overlay_slot s) merged (map_to_list (storage s))).

Definition leaf_le (x y : leaf) : Prop := bytesCompare (key x) (key y) <= 0.
#[export] Instance leaf_le_dec : RelDecision leaf_le.
Proof. intros x y. apply Z_le_dec. Defined.

Definition collectLeaves (s : StateDB) : StateDB * list leaf :=
  let '(codes, merged) := merged_leaves s in
  (set_code codes s, merge_sort leaf_le (map (λ kv, mkLeaf kv.1 kv.2) (map_to_list merged))).

Definition IntermediateRoot (s : StateDB) : StateDB * Hash :=
  let '(s1, leaves) := collectLeaves s in (s1, ComputeSMTRoot leaves).

Definition Commit (s : StateDB) : StateDB * Hash :=
  let s1 := set_db (FlushDirtyTo s (db s)) s in
  let '(s2, root) := IntermediateRoot s1 in
  (ClearDirty s2, root).

(** ** Copies for speculative execution *)
Definition Copy (s : StateDB) : StateDB :=
  mkStateDB (db s) (accounts s) (storage s) (code s) ∅ ∅ ∅ [] ∅ [] 0 0 [] newAccessList ∅ ∅ ∅ false None.

Definition zero_slots_of (addr : Address) (s : StateDB) : StateDB :=
  set_storageDirty (storage_ids_of {[addr]} (storage s) ∪ storageDirty s)
    (set_storage (zero_storage_of {[addr]} (storage s)) s).

Definition drop_account (addr : Address) (s : StateDB) : StateDB :=
  set_accountDirty ({[addr]} ∪ accountDirty s) (set_accounts (delete addr (accounts s)) s).

Definition overlay_dirty_account (src s : StateDB) (addr : Address) : StateDB :=
  if decide (addr ∈ suicides src) then zero_slots_of addr (drop_account addr s) else
  match accounts src !! addr with
  | None => drop_account addr s
  | Some acc =>
      let s1 := put_account addr acc s in
      if CodeHash acc =? EmptyCodeHash then s1 else
      match code src !! CodeHash acc with
      | Some c => set_code (<[CodeHash acc := c]> (code s1)) s1
      | None => s1
      end
  end.

Definition overlay_dirty_slot (src s : StateDB) (id : Address * Hash) : StateDB :=
  let gone := bool_decide (id.1 ∈ suicides src) ||
              (bool_decide (id.1 ∈ accountDirty src) && bool_decide (accounts src !! id.1 = None)) in
  put_storage id.1 id.2 (if gone then 0 else default 0 (storage src !! id)) s.

Definition overlay_slot_account (src s : StateDB) (id : Address * Hash) : StateDB :=
  match accounts src !! id.1, accounts s !! id.1 with
  | Some acc, None => put_account id.1 acc s
  | _, _ => s
  end.

Definition ApplyOverlay (src s : StateDB) : StateDB :=
  let s1 := foldl (overlay_dirty_account src) s (elements (accountDirty src)) in
  let s2 := foldl (overlay_dirty_slot src) s1 (elements (storageDirty src)) in
  foldl (overlay_slot_account src) s2 (elements (storageDirty src)).
End Root.

(** ** What [Finalise] forgets *)
Section Finalise.
Context `{C : Crypto} `{D : AccountCodec}.

Lemma Finalise_validRevisions b s : validRevisions (Finalise b s) = [].
Proof. reflexivity. Qed.

Lemma Finalise_invalidates_snapshots b s id : RevertToSnapshot id (Finalise b s) = None.
Proof. unfold RevertToSnapshot. by rewrite Finalise_validRevisions. Qed.

Definition is_empty_account (acc : Account) : Prop :=
  Nonce acc = 0 ∧ Balance acc = 0 ∧ CodeHash acc = EmptyCodeHash.

Lemma drop_if_empty_other s a b : a ≠ b →
  raw_account (drop_if_empty s b) a = raw_account s a ∧ db (drop_if_empty s b) = db s ∧
  suicides (drop_if_empty s b) = suicides s.
Proof.
  intros Hab. unfold drop_if_empty. pose proof (Empty_view b s) as [Hr _ Hq].
  destruct (Empty b s) as [s1 e]. cbn in Hr, Hq. unfold rest in Hq. injection Hq as Hdb Hsu _ _ _ _ _ _ _.
  destruct e; [|by rewrite Hr]. cbn. split_and!; [|done|done]. rewrite <-Hr. unfold raw_account. cbn.
  by rewrite lookup_delete_ne.
Qed.

(** A turn on [a] itself drops the cached account when it is empty. *)
Lemma drop_if_empty_same s a :
  (raw_account (drop_if_empty s a) a = stored_account (db s) a ∨
   raw_account (drop_if_empty s a) a = raw_account s a ∧
   ¬ (∀ c, account_of s a = Some c → is_empty_account c)) ∧
  db (drop_if_empty s a) = db s ∧ suicides (drop_if_empty s a) = suicides s.
Proof.
  unfold drop_if_empty, Empty. pose proof (getAccount_spec a s) as (H2 & [Hr _ Hq] & _).
  destruct (getAccount a s) as [s1 acc]. cbn in H2, Hr, Hq. unfold rest in Hq.
  injection Hq as Hdb Hsu _ _ _ _ _ _ _.
  destruct acc as [acc|]; [destruct (_ && _) eqn:He|].
  - cbn. split_and!; [|done|done]. left. unfold raw_account. cbn. by rewrite lookup_delete_eq, Hdb.
  - split_and!; [|done|done]. right. split; [apply Hr|]. intros Hall.
    destruct (Hall acc (eq_sym H2)) as (? & ? & ?). by rewrite !andb_false_iff, !Z.eqb_neq in He; naive_solver.
  - cbn. split_and!; [|done|done]. left. unfold raw_account. cbn. by rewrite lookup_delete_eq, Hdb.
Qed.

Lemma drop_loop_stored l s a : raw_account s a = stored_account (db s) a →
  raw_account (foldl drop_if_empty s l) a = stored_account (db s) a.
Proof.
  revert s. induction l as [|b l IH]; intros s Hs; [done|]. cbn.
  destruct (decide (a = b)) as [<-|Hab].
  - destruct (drop_if_empty_same s a) as ([H|[H _]] & Hdb & _); rewrite IH; rewrite ?H, ?Hdb; done.
  - destruct (drop_if_empty_other s a b Hab) as (H & Hdb & _). rewrite IH; rewrite ?H, ?Hdb; done.
Qed.

Lemma drop_loop_empty l s a : a ∈ l → (∀ c, account_of s a = Some c → is_empty_account c) →
  raw_account (foldl drop_if_empty s l) a = stored_account (db s) a.
Proof.
  revert s. induction l as [|b l IH]; intros s Hin He; [by apply elem_of_nil in Hin|]. cbn.
  destruct (decide (a = b)) as [<-|Hab].
  - destruct (drop_if_empty_same s a) as ([H|[_ []]] & Hdb & _); [|done]. rewrite <-Hdb.
    apply drop_loop_stored. by rewrite Hdb.
  - destruct (drop_if_empty_other s a b Hab) as (H & Hdb & Hsu). rewrite <-Hdb. apply IH; [set_solver|].
    intros c. unfold account_of. rewrite Hsu, H. apply He.
Qed.

(** Removing an account is not durable: after [Finalise] a self-destructed
    account, or one that the transaction left empty, is again the account
    the store holds, with its stored nonce, balance and code. *)
Theorem Finalise_resurrects s a acc :
  stored_account (db s) a = Some acc →
  a ∈ suicides s ∨ (is_Some (dirties s !! a) ∧ ∀ c, account_of s a = Some c → is_empty_account c) →
  account_of (Finalise true s) a = Some acc.
Proof.
  intros Hst Hcase. unfold account_of. change (suicides (Finalise true s)) with (∅ : gset Address).
  rewrite decide_False by apply not_elem_of_empty.
  set (s2 := process_suicides s).
  change (raw_account (Finalise true s) a) with
    (raw_account (foldl drop_if_empty s2 (map_to_list (dirties s)).*1) a).
  assert (raw_account s2 a = if decide (a ∈ suicides s) then stored_account (db s) a else raw_account s a) as Hraw.
  { unfold raw_account. cbn. destruct (decide (a ∈ suicides s)) as [Hd|Hd].
    - rewrite (proj2 (map_lookup_filter_None _ _ _)); [done|]. right. cbn. tauto.
    - destruct (accounts s !! a) as [c|] eqn:Hc.
      + by rewrite (proj2 (map_lookup_filter_Some _ _ _ _) (conj Hc Hd)).
      + rewrite (proj2 (map_lookup_filter_None _ _ _)); [done|by left]. }
  destruct Hcase as [Hd|[[n Hn] He]].
  - rewrite drop_loop_stored; [exact Hst|]. by rewrite Hraw, decide_True.
  - rewrite drop_loop_empty; [exact Hst| |].
    + apply list_elem_of_fmap. exists (a, n). split; [done|]. by apply elem_of_map_to_list.
    + intros c. unfold account_of. change (suicides s2) with (suicides s). rewrite Hraw.
      case_decide as Hd; [done|]. intros Hc. apply He. unfold account_of. by rewrite decide_False.
Qed.
End Finalise.

(** ** What a revert leaves in the commitment *)
Section Residue.
Context `{C : Crypto} `{D : AccountCodec}.

Definition addresses_ok (s : StateDB) : Prop := ∀ a, is_Some (accounts s !! a) → is_addr a.

Lemma overlay_slots_at_account s l m a :
  foldl (overlay_slot s) m l !! accountKey a = m !! accountKey a.
Proof.
  apply foldl_frame. intros w [id v] _. unfold overlay_slot.
  destruct (_ || _); [rewrite lookup_delete_ne|rewrite lookup_insert_ne]; try done; apply not_eq_sym, account_storage_ne.
Qed.

Lemma overlay_accounts_at s l st a : is_addr a → suicides s = ∅ → NoDup l.*1 → (∀ kv, kv ∈ l → is_addr kv.1) →
  (foldl (overlay_account s) st l).2 !! accountKey a =
    match (list_to_map l : gmap Address Account) !! a with Some acc => Some (encodeAccount acc) | None => st.2 !! accountKey a end.
Proof.
  intros Ha Hsu. revert st. induction l as [|[b acc] l IH]; intros st Hnd Hl; [done|]. cbn [foldl].
  apply NoDup_cons in Hnd as [Hni Hnd]. rewrite IH; [|done|intros; apply Hl; set_solver].
  assert ((overlay_account s st (b, acc)).2 !! accountKey a =
    if decide (b = a) then Some (encodeAccount acc) else st.2 !! accountKey a) as Hstep.
  { destruct st as [codes merged]. unfold overlay_account. rewrite Hsu, decide_False by set_solver.
    assert (<[accountKey b := encodeAccount acc]> merged !! accountKey a =
      if decide (b = a) then Some (encodeAccount acc) else merged !! accountKey a) as Hm.
    { destruct (decide (b = a)) as [->|Hne]; [by rewrite lookup_insert_eq|]. rewrite lookup_insert_ne; [done|].
      intros Heq. apply Hne. apply (accountKey_inj b a); [|done|done]. apply (Hl (b, acc)). set_solver. }
    repeat case_match; cbn [snd]; rewrite ?(lookup_insert_ne _ (codeKey _)) by apply not_eq_sym, account_code_ne; exact Hm. }
  rewrite Hstep. cbn. destruct (decide (b = a)) as [->|Hne].
  - rewrite lookup_insert_eq. rewrite (not_elem_of_list_to_map_1 l a) by done. done.
  - by rewrite lookup_insert_ne.
Qed.

Lemma merged_at_account s a : addresses_ok s → suicides s = ∅ → is_addr a →
  (merged_leaves s).2 !! accountKey a =
    match accounts s !! a with Some acc => Some (encodeAccount acc) | None => db s !! accountKey a end.
Proof.
  intros Hok Hsu Ha. unfold merged_leaves. set (m0 := filter _ (db s)).
  pose proof (overlay_accounts_at s (map_to_list (accounts s)) (code s, m0) a Ha Hsu) as H.
  destruct (foldl (overlay_account s) _ _) as [codes merged]. cbn [snd] in *.
  rewrite overlay_slots_at_account, H, list_to_map_to_list.
  - destruct (accounts s !! a); [done|]. subst m0. destruct (db s !! accountKey a) as [v|] eqn:Hv.
    + apply map_lookup_filter_Some. done.
    + apply map_lookup_filter_None. by left.
  - apply NoDup_fst_map_to_list.
  - intros [b acc] Hin. apply elem_of_map_to_list in Hin. apply Hok. by eexists.
Qed.

Lemma elem_of_leaves s k : (∃ l, l ∈ (collectLeaves s).2 ∧ key l = k) ↔ is_Some ((merged_leaves s).2 !! k).
Proof.
  unfold collectLeaves. destruct (merged_leaves s) as [codes merged]. cbn [snd]. split.
  - intros (l & Hl & <-). rewrite merge_sort_Permutation, list_elem_of_fmap in Hl.
    destruct Hl as ([p v] & -> & Hin). apply elem_of_map_to_list in Hin. by eexists.
  - intros [v Hv]. exists (mkLeaf k v). split; [|done]. rewrite merge_sort_Permutation, list_elem_of_fmap.
    exists (k, v). split; [done|]. by apply elem_of_map_to_list.
Qed.

Lemma change_balance_frame a f s :
  (∃ prev, jentries (change_balance a f s).1 = balanceChange a prev :: jentries s) ∧
  revisions (change_balance a f s).1 = revisions s.
Proof.
  unfold change_balance. pose proof (GetOrNewAccount_spec a (noteWrite (AccountKey a) s)) as Hg.
  destruct (GetOrNewAccount _ _) as [s1 acc]. destruct Hg as (_ & _ & _ & Hq & _).
  destruct (rest_others _ _ Hq) as (_ & Hr & Hj).
  destruct (rest_others _ _ (sm_rest _ _ (noteWrite_view (AccountKey a) s))) as (_ & Hr0 & Hj0).
  destruct (journal_append_id (balanceChange a (Balance acc)) s1) as (_ & _ & _ & Hr1 & Hj1). cbn [fst].
  split; [exists (Balance acc)|].
  - change (jentries (journal_append (balanceChange a (Balance acc)) s1) = balanceChange a (Balance acc) :: jentries s).
    by rewrite Hj1, Hj, Hj0.
  - change (revisions (journal_append (balanceChange a (Balance acc)) s1) = revisions s). by rewrite Hr1, Hr, Hr0.
Qed.

Lemma revert_balance_cached a prev s : is_Some (accounts (revert_entry (balanceChange a prev) s) !! a).
Proof. cbn. destruct (GetOrNewAccount a s). cbn. by rewrite lookup_insert_eq. Qed.

Lemma RevertToSnapshot_one e s s1 : jentries s1 = e :: jentries s → revisions s1 = revisions (Snapshot s).1 →
  RevertToSnapshot (Snapshot s).2 s1 =
    Some (set_validRevisions (validRevisions s) (set_jentries (jentries s) (revert_entry e s1))).
Proof.
  intros Hj Hr. unfold RevertToSnapshot. unfold revisions in Hr. injection Hr as Hv _.
  rewrite Hv. cbn [Snapshot fst snd]. rewrite find_revision_app. cbn [find_revision].
  rewrite Z.eqb_refl, Hj, app_nil_r. cbn [length]. rewrite Nat.sub_succ_l, Nat.sub_diag by lia. cbn [journal_revert].
  by rewrite Hj.
Qed.

Lemma put_account_addresses a acc s : is_addr a → addresses_ok s → addresses_ok (put_account a acc s).
Proof.
  intros Ha Hok b. cbn. rewrite lookup_insert_is_Some. intros [<-|[_ Hb]]; [exact Ha|by apply Hok].
Qed.

Lemma GetOrNewAccount_addresses a s : is_addr a → addresses_ok s → addresses_ok (GetOrNewAccount a s).1.
Proof.
  intros Ha Hok. unfold GetOrNewAccount, getAccount. case_decide; [by apply put_account_addresses|].
  repeat case_match; simplify_eq; try done; try (by apply put_account_addresses).
Qed.

Lemma change_balance_addresses a f s : is_addr a → addresses_ok s → addresses_ok (change_balance a f s).1.
Proof.
  intros Ha Hok. unfold change_balance.
  assert (addresses_ok (noteWrite (AccountKey a) s)) as Hn.
  { unfold addresses_ok. destruct (noteWrite_id (AccountKey a) s) as (-> & _). exact Hok. }
  pose proof (GetOrNewAccount_addresses a _ Ha Hn) as Hg. destruct (GetOrNewAccount _ _) as [s1 acc].
  apply put_account_addresses; [exact Ha|]. unfold addresses_ok.
  destruct (journal_append_id (balanceChange a (Balance acc)) s1) as (-> & _). exact Hg.
Qed.

Lemma revert_balance_addresses a prev s : is_addr a → addresses_ok s →
  addresses_ok (revert_entry (balanceChange a prev) s).
Proof.
  intros Ha Hok. cbn. pose proof (GetOrNewAccount_addresses a s Ha Hok) as Hg.
  destruct (GetOrNewAccount a s). by apply put_account_addresses.
Qed.

(** A reverted credit to a fresh address is not invisible: the account it
    created stays in the cache and enters the commitment, so the state root
    computed after the revert has a leaf the one before had not. *)
Theorem reverted_credit_adds_leaf s a x :
  addresses_ok s → suicides s = ∅ → is_addr a → accounts s !! a = None → db s !! accountKey a = None →
  ∃ s2, RevertToSnapshot (Snapshot s).2 (AddBalance a x (Snapshot s).1) = Some s2 ∧
    (¬ ∃ l, l ∈ (collectLeaves s).2 ∧ key l = accountKey a) ∧
    (∃ l, l ∈ (collectLeaves s2).2 ∧ key l = accountKey a).
Proof.
  intros Hok Hsu Ha Hacc Hdb. unfold AddBalance, AddBalancePrev.
  destruct (change_balance_frame a (λ prev, prev +₂₅₆ x) (Snapshot s).1) as [[prev Hj] Hr].
  pose proof (change_balance_suicides a (λ prev, prev +₂₅₆ x) (Snapshot s).1) as Hs1.
  pose proof (change_balance_addresses a (λ prev, prev +₂₅₆ x) (Snapshot s).1 Ha Hok) as Ho1.
  set (s1 := (change_balance a _ (Snapshot s).1).1) in *. clearbody s1.
  eexists. split; [exact (RevertToSnapshot_one _ s s1 Hj Hr)|]. rewrite !elem_of_leaves. split.
  - rewrite merged_at_account, Hacc, Hdb by done. by intros [].
  - set (t := revert_entry (balanceChange a prev) s1).
    destruct (revert_account_entry (balanceChange a prev) a s1 eq_refl) as (_ & _ & Ho). fold t in Ho.
    destruct (others_db _ _ Ho) as [_ Hst]. rewrite merged_at_account; [|exact (revert_balance_addresses a prev s1 Ha Ho1)| |done].
    + destruct (revert_balance_cached a prev s1) as [acc Hc].
      change (accounts (set_validRevisions (validRevisions s) (set_jentries (jentries s) t))) with (accounts t).
      subst t. rewrite Hc. by eexists.
    + change (suicides t = ∅). rewrite Hst, Hs1. exact Hsu.
Qed.
End Residue.

(** ** Evaluation on concrete states *)
Section Witness.
Local Existing Instances toy_crypto toy_crypto_laws toy_codec toy_codec_laws.

Definition sample_account : Account := mkAccount 1 100 5.
Definition sample_state : StateDB := put_storage 7 1 9 (put_account 7 sample_account (New ∅)).

Lemma sample_in_range : in_range sample_state.
Proof.
  split.
  - intros a acc. change (accounts sample_state) with (<[7 := sample_account]> (∅ : gmap Address Account)).
    rewrite lookup_insert_Some, lookup_empty. intros [[<- <-]|[_ H]]; [|discriminate H].
    split_and!; split; reflexivity || discriminate.
  - intros id v. change (storage sample_state) with (<[(7, 1) := 9]> (∅ : gmap (Address * Hash) Hash)).
    rewrite lookup_insert_Some, lookup_empty. intros [[<- <-]|[_ H]]; [|discriminate H].
    split_and!; split; reflexivity || discriminate.
Qed.

Definition destroyed : StateDB :=
  set_suicides {[7]} (New {[accountKey 7 := encodeAccount sample_account]}).

Lemma Finalise_resurrects_witness : account_of (Finalise true destroyed) 7 = Some sample_account.
Proof.
  apply (Finalise_resurrects destroyed 7 sample_account).
  - vm_compute. reflexivity.
  - left. change (suicides destroyed) with ({[7]} : gset Address). set_solver.
Defined.

Lemma reverted_credit_adds_leaf_witness :
  ∃ s2, RevertToSnapshot (Snapshot (New ∅)).2 (AddBalance 7 1 (Snapshot (New ∅)).1) = Some s2 ∧
    (¬ ∃ l, l ∈ (collectLeaves (New ∅)).2 ∧ key l = accountKey 7) ∧
    (∃ l, l ∈ (collectLeaves s2).2 ∧ key l = accountKey 7).
Proof.
  apply (reverted_credit_adds_leaf (New ∅) 7 1).
  - intros a [acc Ha]. change (accounts (New ∅)) with (∅ : gmap Address Account) in Ha.
    rewrite lookup_empty in Ha. discriminate Ha.
  - reflexivity.
  - split; reflexivity || discriminate.
  - reflexivity.
  - reflexivity.
Defined.
End Witness.
