(* ===== verification/NativeState.v ===== *)
(** * What the native modules use of the state

    The staking module, the order book and the native executor
    ([core/native/]) read and write storage slots, balances and nonces of a
    [*state.StateDB].  This file states that interface as a class with its
    laws, and discharges it with the flat state database: reads return the
    view and leave it unchanged, so they are pure here. *)
From S2P Require Import Prelude Types Toy StateDB StateRevert.

Class NativeState (S : Type) : Type := {
  ns_GetState : Address → Hash → S → Hash;
  ns_SetState : Address → Hash → Hash → S → S;
  ns_GetBalance : Address → S → Z;
  ns_AddBalance : Address → Z → S → S;
  ns_SubBalance : Address → Z → S → S;
  ns_GetNonce : Address → S → Z;
  ns_SetNonce : Address → Z → S → S;
}.

(** The laws hold of the states with [ns_ok], which every operation keeps. *)
Class NativeStateLaws (S : Type) {N : NativeState S} : Type := {
  ns_ok : S → Prop;
  ok_set : ∀ a k v s, ns_ok s → ns_ok (ns_SetState a k v s);
  ok_add : ∀ a x s, ns_ok s → ns_ok (ns_AddBalance a x s);
  ok_sub : ∀ a x s, ns_ok s → ns_ok (ns_SubBalance a x s);
  ok_nonce : ∀ a n s, ns_ok s → ns_ok (ns_SetNonce a n s);
  get_set : ∀ a k v s b j, ns_GetState b j (ns_SetState a k v s) =
    if decide ((a, k) = (b, j)) then v else ns_GetState b j s;
  get_add : ∀ a x s b j, ns_ok s → ns_GetState b j (ns_AddBalance a x s) = ns_GetState b j s;
  get_sub : ∀ a x s b j, ns_ok s → ns_GetState b j (ns_SubBalance a x s) = ns_GetState b j s;
  get_nonce : ∀ a n s b j, ns_ok s → ns_GetState b j (ns_SetNonce a n s) = ns_GetState b j s;
  balance_set : ∀ a k v s b, ns_ok s → ns_GetBalance b (ns_SetState a k v s) = ns_GetBalance b s;
  balance_add : ∀ a x s b, ns_ok s → ns_GetBalance b (ns_AddBalance a x s) =
    if decide (a = b) then ns_GetBalance b s +₂₅₆ x else ns_GetBalance b s;
  balance_sub : ∀ a x s b, ns_ok s → ns_GetBalance b (ns_SubBalance a x s) =
    if decide (a = b) then ns_GetBalance b s -₂₅₆ x else ns_GetBalance b s;
  balance_nonce : ∀ a n s b, ns_ok s → ns_GetBalance b (ns_SetNonce a n s) = ns_GetBalance b s;
  nonce_set : ∀ a k v s b, ns_ok s → ns_GetNonce b (ns_SetState a k v s) = ns_GetNonce b s;
  nonce_add : ∀ a x s b, ns_ok s → ns_GetNonce b (ns_AddBalance a x s) = ns_GetNonce b s;
  nonce_sub : ∀ a x s b, ns_ok s → ns_GetNonce b (ns_SubBalance a x s) = ns_GetNonce b s;
  nonce_nonce : ∀ a n s b, ns_ok s → ns_GetNonce b (ns_SetNonce a n s) =
    if decide (a = b) then n else ns_GetNonce b s;
}.

Create HintDb native.
#[export] Hint Resolve ok_set ok_add ok_sub ok_nonce : native.

(** ** The flat state database implements the interface *)
Section Instance.
Context `{C : Crypto} `{D : AccountCodec}.

#[export] Instance StateDB_native : NativeState StateDB := {|
  ns_GetState a k s := (GetState a k s).2;
  ns_SetState := SetState;
  ns_GetBalance a s := (GetBalance a s).2;
  ns_AddBalance a x s := (AddBalancePrev a x s).1;
  ns_SubBalance a x s := (SubBalance a x s).1;
  ns_GetNonce a s := (GetNonce a s).2;
  ns_SetNonce := SetNonceJournaled;
|}.

(** No account is marked self-destructed: true between transactions. *)
Definition no_suicides (s : StateDB) : Prop := suicides s = ∅.

Lemma account_update_balance a acc s s' b : no_suicides s → account_update a acc s s' →
  balance_of s' b = if decide (a = b) then Balance acc else balance_of s b.
Proof.
  intros Hs (Hr & _ & Ho). destruct (others_db _ _ Ho) as [_ Hsu]. unfold balance_of, account_of.
  rewrite Hsu, Hs, decide_False, Hr by set_solver. by case_decide.
Qed.

Lemma account_update_nonce a acc s s' b : no_suicides s → account_update a acc s s' →
  nonce_of s' b = if decide (a = b) then Nonce acc else nonce_of s b.
Proof.
  intros Hs (Hr & _ & Ho). destruct (others_db _ _ Ho) as [_ Hsu]. unfold nonce_of, account_of.
  rewrite Hsu, Hs, decide_False, Hr by set_solver. by case_decide.
Qed.

Lemma account_update_suicides a acc s s' : no_suicides s → account_update a acc s s' → no_suicides s'.
Proof. intros Hs (_ & _ & Ho). destruct (others_db _ _ Ho) as [_ Hsu]. unfold no_suicides. by rewrite Hsu. Qed.

Lemma live_balance s a : Balance (live_or_new s a) = balance_of s a.
Proof. unfold live_or_new, balance_of. by destruct (account_of s a). Qed.

Lemma live_nonce s a : Nonce (live_or_new s a) = nonce_of s a.
Proof. unfold live_or_new, nonce_of. by destruct (account_of s a). Qed.

Lemma change_balance_update a f s :
  account_update a (mkAccount (nonce_of s a) (f (balance_of s a)) (CodeHash (live_or_new s a))) s
    (change_balance a f s).1.
Proof.
  unfold change_balance. destruct (GetOrNewAccount _ _) as [s1 acc] eqn:Hg. cbn [fst].
  pose proof (noteWrite_view (AccountKey a) s) as Hv.
  destruct (setter_update a _ s1 (journal_append (balanceChange a (Balance acc)) s1) acc
    (mkAccount (Nonce acc) (f (Balance acc)) (CodeHash acc)) Hg (journal_append_core _ _)) as [Hacc Hup].
  rewrite (live_or_new_view a _ _ Hv) in Hacc. subst acc. rewrite <-!live_balance, <-!live_nonce.
  exact (account_update_view _ _ _ _ _ Hv Hup).
Qed.

Lemma SetNonceJournaled_update a n s :
  account_update a (mkAccount n (balance_of s a) (CodeHash (live_or_new s a))) s (SetNonceJournaled a n s).
Proof.
  unfold SetNonceJournaled. destruct (GetOrNewAccount _ _) as [s1 acc] eqn:Hg.
  pose proof (noteWrite_view (AccountKey a) s) as Hv.
  destruct (setter_update a _ s1 (journal_append (nonceChange a (Nonce acc)) s1) acc
    (mkAccount n (Balance acc) (CodeHash acc)) Hg (journal_append_core _ _)) as [Hacc Hup].
  rewrite (live_or_new_view a _ _ Hv) in Hacc. subst acc. rewrite <-!live_balance.
  exact (account_update_view _ _ _ _ _ Hv Hup).
Qed.

(** [SetState] creates the account when it is missing and sets one slot. *)
Lemma SetState_spec a k v s : no_suicides s →
  (∀ b j, storage_of (SetState a k v s) b j = if decide ((a, k) = (b, j)) then v else storage_of s b j) ∧
  (∀ b, live_or_new (SetState a k v s) b = live_or_new s b) ∧ no_suicides (SetState a k v s).
Proof.
  intros Hs. unfold SetState. set (s0 := noteWrite _ s).
  pose proof (noteWrite_view (StorageKeyAccess a k) s) as Hv. fold s0 in Hv. pose proof Hv as [Hr0 Hs0 Hq0].
  pose proof (GetOrNewAccount_spec a s0) as Hg. destruct (GetOrNewAccount a s0) as [s1 acc]. cbn [fst].
  destruct Hg as (Hacc & Hr & Hst & Hq & _). unfold rest in Hq, Hq0.
  assert (suicides s0 = ∅) as Hsu0 by (injection Hq0 as _ H0 _; by rewrite H0).
  assert (suicides s1 = ∅) as Hsu1 by (injection Hq as _ H1 _; by rewrite H1).
  split_and!; [| |exact Hsu1].
  - intros b j. rewrite storage_of_put, Hst, Hs0. done.
  - intros b. unfold live_or_new, account_of. change (suicides (put_storage a k v s1)) with (suicides s1).
    change (raw_account (put_storage a k v s1) b) with (raw_account s1 b).
    rewrite Hsu1, Hs, !decide_False, Hr by set_solver. case_decide as Hab; [subst b|by rewrite Hr0].
    rewrite Hacc. unfold live_or_new, account_of. by rewrite Hsu0, decide_False, Hr0 by set_solver.
Qed.

Lemma SetState_other_suicides a k v s b j :
  storage_of (SetState a k v s) b j = if decide ((a, k) = (b, j)) then v else storage_of s b j.
Proof.
  unfold SetState. set (s0 := noteWrite _ s).
  destruct (noteWrite_view (StorageKeyAccess a k) s) as [_ Hs0 _]. fold s0 in Hs0.
  pose proof (GetOrNewAccount_spec a s0) as Hg. destruct (GetOrNewAccount a s0) as [s1 acc]. cbn [fst].
  destruct Hg as (_ & _ & Hst & _). by rewrite storage_of_put, Hst, Hs0.
Qed.

#[export] Instance StateDB_native_laws : NativeStateLaws StateDB.
Proof.
  refine {| ns_ok := no_suicides |}; cbn.
  - intros a k v s Hs. by apply SetState_spec.
  - intros a x s Hs. eapply account_update_suicides; [exact Hs|apply change_balance_update].
  - intros a x s Hs. eapply account_update_suicides; [exact Hs|apply change_balance_update].
  - intros a n s Hs. eapply account_update_suicides; [exact Hs|apply SetNonceJournaled_update].
  - intros a k v s b j. rewrite !(proj1 (GetState_spec _ _ _)). apply SetState_other_suicides.
  - intros a x s b j _. rewrite !(proj1 (GetState_spec _ _ _)). apply change_balance_update.
  - intros a x s b j _. rewrite !(proj1 (GetState_spec _ _ _)). apply change_balance_update.
  - intros a n s b j _. rewrite !(proj1 (GetState_spec _ _ _)). apply SetNonceJournaled_update.
  - intros a k v s b Hs. rewrite !(proj1 (GetBalance_spec _ _)), <-!live_balance.
    by rewrite (proj1 (proj2 (SetState_spec a k v s Hs))).
  - intros a x s b Hs. rewrite !(proj1 (GetBalance_spec _ _)).
    unfold AddBalancePrev, SubBalance.
    rewrite (account_update_balance _ _ _ _ b Hs (change_balance_update a _ s)). cbn. by case_decide; subst.
  - intros a x s b Hs. rewrite !(proj1 (GetBalance_spec _ _)).
    unfold AddBalancePrev, SubBalance.
    rewrite (account_update_balance _ _ _ _ b Hs (change_balance_update a _ s)). cbn. by case_decide; subst.
  - intros a n s b Hs. rewrite !(proj1 (GetBalance_spec _ _)).
    rewrite (account_update_balance _ _ _ _ b Hs (SetNonceJournaled_update a n s)). cbn. by case_decide; subst.
  - intros a k v s b Hs. rewrite !(proj1 (GetNonce_spec _ _)), <-!live_nonce.
    by rewrite (proj1 (proj2 (SetState_spec a k v s Hs))).
  - intros a x s b Hs. rewrite !(proj1 (GetNonce_spec _ _)).
    unfold AddBalancePrev, SubBalance.
    rewrite (account_update_nonce _ _ _ _ b Hs (change_balance_update a _ s)). cbn. by case_decide; subst.
  - intros a x s b Hs. rewrite !(proj1 (GetNonce_spec _ _)).
    unfold AddBalancePrev, SubBalance.
    rewrite (account_update_nonce _ _ _ _ b Hs (change_balance_update a _ s)). cbn. by case_decide; subst.
  - intros a n s b Hs. rewrite !(proj1 (GetNonce_spec _ _)).
    by rewrite (account_update_nonce _ _ _ _ b Hs (SetNonceJournaled_update a n s)).
Defined.
End Instance.
