(* ===== verification/Staking.v ===== *)
(** * The staking module

    Models [core/native/staking.go] and the staking constants of
    [params/staking.go], over the [NativeState] interface.  A storage word
    and a [uint256.Int] are both 256-bit numbers, so [u256ToHash] is the
    identity here and [hashToU256] takes the low 256 bits; uint256 arithmetic
    wraps and division by zero gives zero. *)
From S2P Require Import Prelude Types Toy Smt ValidatorSet NativeState.

(** ** Parameters *)
Definition DefaultEpochLengthBlocks : Z := 86400.
Definition DefaultActiveValidatorCap : Z := 100.
Definition DefaultUnbondingPeriodSeconds : Z := 604800.
Definition DoubleSignSelfBurnBps : Z := 10000.
Definition DoubleSignDelegatorBurnBps : Z := 500.
Definition StakeRatePrecision : Z := 1000000000000000000.
Definition MaxCommissionBps : Z := 10000.

Definition StakingModuleAddr : Address := 258.

(** The [db] field is the state the operations pass along. *)
Record StakingConfig : Type := mkStakingConfig {
  MinSelfStake : option Z;
  ActiveCap : Z;
  EpochLength : Z;
  UnbondSeconds : Z;
}.

Definition DefaultStakingConfig : StakingConfig :=
  mkStakingConfig (Some MinValidatorStakeWei) DefaultActiveValidatorCap DefaultEpochLengthBlocks
    DefaultUnbondingPeriodSeconds.

(** [NewStakingModule] fills in the defaults. *)
Record StakingModule : Type := mkStakingModule {
  cfg_min : Z;
  cfg_cap : Z;
  cfg_epoch : Z;
  cfg_unbond : Z;
}.

Definition NewStakingModule (cfg : StakingConfig) : StakingModule :=
  mkStakingModule (default MinValidatorStakeWei (MinSelfStake cfg))
    (if ActiveCap cfg =? 0 then DefaultActiveValidatorCap else ActiveCap cfg)
    (EpochLength cfg) (UnbondSeconds cfg).

(** ** Storage layout *)
Inductive slot : Type :=
| selfSlot (addr : Address)
| jailedSlot (addr : Address)
| candSlot (addr : Address)
| lenSlot
| idxSlot (i : Z)
| unbondAmtSlot (addr : Address)
| unbondAtSlot (addr : Address)
| delSlot (val del : Address)
| delTotSlot (val : Address)
| commSlot (val : Address)
| delUnbondAmtSlot (val del : Address)
| delUnbondAtSlot (val del : Address)
| delRateSlot (val : Address)
| rewIdxSlot (val : Address)
| rewDebtSlot (val del : Address)
| rewPendSlot (val del : Address).

#[export] Instance slot_eq_dec : EqDecision slot.
Proof. solve_decision. Defined.

(** The domain string of a slot and its arguments. *)
Definition slot_domain (x : slot) : string :=
  match x with
  | selfSlot _ => "dew/stake/v1/self"
  | jailedSlot _ => "dew/stake/v1/jailed"
  | candSlot _ => "dew/stake/v1/cand"
  | lenSlot => "dew/stake/v1/candlen"
  | idxSlot _ => "dew/stake/v1/candi"
  | unbondAmtSlot _ => "dew/stake/v1/unbondAmt"
  | unbondAtSlot _ => "dew/stake/v1/unbondAt"
  | delSlot _ _ => "dew/stake/v1/del"
  | delTotSlot _ => "dew/stake/v1/delTot"
  | commSlot _ => "dew/stake/v1/comm"
  | delUnbondAmtSlot _ _ => "dew/stake/v1/delUnbondAmt"
  | delUnbondAtSlot _ _ => "dew/stake/v1/delUnbondAt"
  | delRateSlot _ => "dew/stake/v1/delRate"
  | rewIdxSlot _ => "dew/stake/v1/rewIdx"
  | rewDebtSlot _ _ => "dew/stake/v1/rewDebt"
  | rewPendSlot _ _ => "dew/stake/v1/rewPend"
  end.

Definition slot_args (x : slot) : list Z :=
  match x with
  | selfSlot a | jailedSlot a | candSlot a | unbondAmtSlot a | unbondAtSlot a | delTotSlot a
  | commSlot a | delRateSlot a | rewIdxSlot a => addr_bytes a
  | lenSlot => []
  | idxSlot i => be_bytes 8 i
  | delSlot v d | delUnbondAmtSlot v d | delUnbondAtSlot v d | rewDebtSlot v d | rewPendSlot v d =>
      addr_bytes v ++ addr_bytes d
  end.

Definition slot_preimage (x : slot) : list Z := str_bytes (slot_domain x) ++ slot_args x.

Definition hashToU256 (h : Hash) : Z := u256 h.
Definition u256ToHash (v : Z) : Hash := v.

Fixpoint bytesLess (a b : list Z) : bool :=
  match a, b with
  | x :: a', y :: b' => if x =? y then bytesLess a' b' else x <? y
  | [], _ :: _ => true
  | _, [] => false
  end.

(** The order of the ranking: higher power first, then the lower address. *)
Definition rank_le (x y : Candidate) : Prop :=
  if c_votingPower x =? c_votingPower y
  then bytesLess (addr_bytes (c_addr y)) (addr_bytes (c_addr x)) = false
  else c_votingPower y < c_votingPower x.
#[export] Instance rank_le_dec : RelDecision rank_le.
Proof. intros x y. unfold rank_le. case_match; apply _. Defined.

Section Staking.
Context `{C : Crypto} {S : Type} `{N : !NativeState S}.

Definition slotHash (x : slot) : Hash := BytesToHash (Keccak256 (slot_preimage x)).

(** [m.db.GetState] and [m.db.SetState] at the module's address. *)
Definition sget (x : slot) (s : S) : Hash := ns_GetState StakingModuleAddr (slotHash x) s.
Definition sset (x : slot) (v : Hash) (s : S) : S := ns_SetState StakingModuleAddr (slotHash x) v s.

(** ** Reads *)
Definition SelfStake (addr : Address) (s : S) : Z := hashToU256 (sget (selfSlot addr) s).
Definition IsJailed (addr : Address) (s : S) : bool := negb (Hash_IsZero (sget (jailedSlot addr) s)).
Definition IsCandidate (addr : Address) (s : S) : bool := negb (Hash_IsZero (sget (candSlot addr) s)).

Definition DelRate (validator : Address) (s : S) : Z :=
  let r := hashToU256 (sget (delRateSlot validator) s) in
  if r =? 0 then StakeRatePrecision else r.

Definition DelegationShares (validator delegator : Address) (s : S) : Z :=
  hashToU256 (sget (delSlot validator delegator) s).
Definition DelegatedTotalShares (validator : Address) (s : S) : Z :=
  hashToU256 (sget (delTotSlot validator) s).

Definition sharesToWei (validator : Address) (shares : Z) (s : S) : Z :=
  if shares =? 0 then 0 else div256 (shares *₂₅₆ DelRate validator s) StakeRatePrecision.
Definition weiToShares (validator : Address) (wei : Z) (s : S) : Z :=
  if wei =? 0 then 0 else div256 (wei *₂₅₆ StakeRatePrecision) (DelRate validator s).

Definition Delegation (validator delegator : Address) (s : S) : Z :=
  sharesToWei validator (DelegationShares validator delegator s) s.
Definition DelegatedTotal (validator : Address) (s : S) : Z :=
  sharesToWei validator (DelegatedTotalShares validator s) s.
Definition CommissionBps (validator : Address) (s : S) : Z := u64 (hashToU256 (sget (commSlot validator) s)).

Definition PendingUndelegation (validator delegator : Address) (s : S) : Z * Z :=
  (hashToU256 (sget (delUnbondAmtSlot validator delegator) s),
   u64 (hashToU256 (sget (delUnbondAtSlot validator delegator) s))).
Definition PendingUnbond (addr : Address) (s : S) : Z * Z :=
  (hashToU256 (sget (unbondAmtSlot addr) s), u64 (hashToU256 (sget (unbondAtSlot addr) s))).

Definition VotingPower (addr : Address) (s : S) : Z :=
  if IsJailed addr s || negb (IsCandidate addr s) then 0
  else SelfStake addr s +₂₅₆ DelegatedTotal addr s.

(** ** Self-stake *)
Definition registerCandidate (addr : Address) (s : S) : S :=
  if IsCandidate addr s then s else
  let s1 := sset (candSlot addr) 1 s in
  let n := u64 (hashToU256 (sget lenSlot s1)) in
  let s2 := sset (idxSlot n) addr s1 in
  sset lenSlot (u256ToHash (n +₆₄ 1)) s2.

Definition Bond (m : StakingModule) (addr : Address) (amount : Z) (s : S) : S * res unit :=
  if amount =? 0 then (s, Err "staking: zero bond") else
  let next := SelfStake addr s +₂₅₆ amount in
  let s1 := sset (selfSlot addr) (u256ToHash next) s in
  if (cfg_min m <=? next) && negb (IsCandidate addr s1)
  then (registerCandidate addr s1, Ok tt) else (s1, Ok tt).

Definition Unbond (m : StakingModule) (addr : Address) (amount now : Z) (s : S) : S * res unit :=
  if amount =? 0 then (s, Err "staking: zero unbond") else
  if IsJailed addr s then (s, Err "staking: jailed") else
  let cur := SelfStake addr s in
  if cur <? amount then (s, Err "staking: insufficient stake") else
  let next := cur -₂₅₆ amount in
  let s1 := sset (selfSlot addr) (u256ToHash next) s in
  let s2 := if next <? cfg_min m then sset (candSlot addr) 0 s1 else s1 in
  let unlock := now +₆₄ cfg_unbond m in
  let '(pending, oldUnlock) := PendingUnbond addr s2 in
  let pending' := pending +₂₅₆ amount in
  let unlock' := if unlock <? oldUnlock then oldUnlock else unlock in
  let s3 := sset (unbondAmtSlot addr) (u256ToHash pending') s2 in
  (sset (unbondAtSlot addr) (u256ToHash unlock') s3, Ok tt).

Definition Withdraw (addr : Address) (now : Z) (s : S) : S * res Z :=
  let '(pending, unlockAt) := PendingUnbond addr s in
  if pending =? 0 then (s, Err "staking: no pending unbond") else
  if now <? unlockAt then (s, Err "staking: unbonding period not elapsed") else
  (sset (unbondAtSlot addr) 0 (sset (unbondAmtSlot addr) 0 s), Ok pending).

Definition Jail (addr : Address) (s : S) : S := sset (candSlot addr) 0 (sset (jailedSlot addr) 1 s).

(** ** Slashing *)
Definition slash_self (addr : Address) (s : S) : S * Z :=
  let selfBps := Z.min DoubleSignSelfBurnBps MaxCommissionBps in
  let self := SelfStake addr s in
  let selfBurn := div256 (self *₂₅₆ selfBps) MaxCommissionBps in
  if selfBurn =? 0 then (s, selfBurn)
  else (sset (selfSlot addr) (u256ToHash (self -₂₅₆ selfBurn)) s, selfBurn).

Definition slash_delegated (addr : Address) (s : S) : S * Z :=
  let delBps := Z.min DoubleSignDelegatorBurnBps MaxCommissionBps in
  let delEff := DelegatedTotal addr s in
  let delBurn := div256 (delEff *₂₅₆ delBps) MaxCommissionBps in
  if negb (delBurn =? 0) && negb (delEff =? 0) then
    let remainBps := MaxCommissionBps - delBps in
    let newRate := div256 (DelRate addr s *₂₅₆ remainBps) MaxCommissionBps in
    let newRate := if (newRate =? 0) && (0 <? remainBps) then 1 else newRate in
    (sset (delRateSlot addr) (u256ToHash newRate) s, delBurn)
  else (s, delBurn).

Definition SlashAndJail (addr : Address) (s : S) : S * Z :=
  if IsJailed addr s then (s, 0) else
  let '(s1, selfBurn) := slash_self addr s in
  let '(s2, delBurn) := slash_delegated addr s1 in
  let totalBurn := selfBurn +₂₅₆ delBurn in
  let '(s3, totalBurn) :=
    if totalBurn =? 0 then (s2, totalBurn) else
    let bal := ns_GetBalance StakingModuleAddr s2 in
    let totalBurn := if bal <? totalBurn then bal else totalBurn in
    if totalBurn =? 0 then (s2, totalBurn)
    else (ns_SubBalance StakingModuleAddr totalBurn s2, totalBurn) in
  (Jail addr s3, totalBurn).

(** ** Rewards *)
Definition RewardIndex (validator : Address) (s : S) : Z := hashToU256 (sget (rewIdxSlot validator) s).
Definition rewardDebt (validator delegator : Address) (s : S) : Z :=
  hashToU256 (sget (rewDebtSlot validator delegator) s).
Definition setRewardDebt (validator delegator : Address) (debt : Z) (s : S) : S :=
  sset (rewDebtSlot validator delegator) (u256ToHash debt) s.
Definition pendingStored (validator delegator : Address) (s : S) : Z :=
  hashToU256 (sget (rewPendSlot validator delegator) s).
Definition setPendingStored (validator delegator : Address) (v : Z) (s : S) : S :=
  sset (rewPendSlot validator delegator) (u256ToHash v) s.

Definition rewardDebtForShares (validator : Address) (shares : Z) (s : S) : Z :=
  if shares =? 0 then 0 else div256 (shares *₂₅₆ RewardIndex validator s) StakeRatePrecision.

Definition settleRewards (validator delegator : Address) (s : S) : S :=
  let owed := rewardDebtForShares validator (DelegationShares validator delegator s) s in
  let debt := rewardDebt validator delegator s in
  let s1 := if debt <? owed
            then setPendingStored validator delegator (pendingStored validator delegator s +₂₅₆ (owed -₂₅₆ debt)) s
            else s in
  setRewardDebt validator delegator owed s1.

Definition PendingRewards (validator delegator : Address) (s : S) : S * Z :=
  let s1 := settleRewards validator delegator s in (s1, pendingStored validator delegator s1).

Definition ClaimRewards (validator delegator : Address) (s : S) : S * res Z :=
  let s1 := settleRewards validator delegator s in
  let pend := pendingStored validator delegator s1 in
  if pend =? 0 then (s1, Err "staking: no rewards")
  else (setPendingStored validator delegator 0 s1, Ok pend).

Definition IncreaseRewardIndex (validator : Address) (delPart shares : Z) (s : S) : S :=
  if (delPart =? 0) || (shares =? 0) then s else
  let inc := div256 (delPart *₂₅₆ StakeRatePrecision) shares in
  if inc =? 0 then s else
  sset (rewIdxSlot validator) (u256ToHash (RewardIndex validator s +₂₅₆ inc)) s.

(** ** Delegation *)
Definition Delegate (validator delegator : Address) (amount : Z) (s : S) : S * res unit :=
  if amount =? 0 then (s, Err "staking: zero delegate") else
  if validator =? delegator then (s, Err "staking: self-delegate forbidden (use bond)") else
  let s1 := settleRewards validator delegator s in
  let sharesAdd := weiToShares validator amount s1 in
  if sharesAdd =? 0 then (s1, Err "staking: delegate amount too small for rate") else
  let next := DelegationShares validator delegator s1 +₂₅₆ sharesAdd in
  let s2 := sset (delSlot validator delegator) (u256ToHash next) s1 in
  let tot := DelegatedTotalShares validator s2 +₂₅₆ sharesAdd in
  let s3 := sset (delTotSlot validator) (u256ToHash tot) s2 in
  (setRewardDebt validator delegator (rewardDebtForShares validator next s3) s3, Ok tt).

Definition Undelegate (m : StakingModule) (validator delegator : Address) (amount now : Z) (s : S)
    : S * res unit :=
  if amount =? 0 then (s, Err "staking: zero undelegate") else
  let s1 := settleRewards validator delegator s in
  let curEff := Delegation validator delegator s1 in
  if curEff <? amount then (s1, Err "staking: insufficient delegation") else
  let sharesSub := weiToShares validator amount s1 in
  if sharesSub =? 0 then (s1, Err "staking: undelegate amount too small for rate") else
  let curShares := DelegationShares validator delegator s1 in
  let sharesSub := if curShares <? sharesSub then curShares else sharesSub in
  let nextShares := curShares -₂₅₆ sharesSub in
  let s2 := sset (delSlot validator delegator) (u256ToHash nextShares) s1 in
  let totShares := DelegatedTotalShares validator s2 in
  if totShares <? sharesSub then (s2, Err "staking: delegated total underflow") else
  let s3 := sset (delTotSlot validator) (u256ToHash (totShares -₂₅₆ sharesSub)) s2 in
  let s4 := setRewardDebt validator delegator (rewardDebtForShares validator nextShares s3) s3 in
  let unlock := now +₆₄ cfg_unbond m in
  let '(pending, oldUnlock) := PendingUndelegation validator delegator s4 in
  let unlock' := if unlock <? oldUnlock then oldUnlock else unlock in
  let s5 := sset (delUnbondAmtSlot validator delegator) (u256ToHash (pending +₂₅₆ amount)) s4 in
  (sset (delUnbondAtSlot validator delegator) (u256ToHash unlock') s5, Ok tt).

Definition WithdrawDelegation (validator delegator : Address) (now : Z) (s : S) : S * res Z :=
  let '(pending, unlockAt) := PendingUndelegation validator delegator s in
  if pending =? 0 then (s, Err "staking: no pending undelegation") else
  if now <? unlockAt then (s, Err "staking: undelegation period not elapsed") else
  (sset (delUnbondAtSlot validator delegator) 0 (sset (delUnbondAmtSlot validator delegator) 0 s), Ok pending).

Definition SetCommission (validator : Address) (bps : Z) (s : S) : S * res unit :=
  if MaxCommissionBps <? bps then (s, Err "staking: commission bps > 10000")
  else (sset (commSlot validator) (u256ToHash bps) s, Ok tt).

(** ** Income of a proposer *)
Definition split_income (amount S D c : Z) : Z :=
  let num := (S *₂₅₆ MaxCommissionBps) +₂₅₆ (D *₂₅₆ c) in
  let den := (S +₂₅₆ D) *₂₅₆ MaxCommissionBps in
  let valGets := div256 (amount *₂₅₆ num) den in
  if amount <? valGets then amount else valGets.

Definition DistributeProposerIncome (proposer : Address) (amount : Z) (stakingEnabled : bool) (s : S) : S :=
  if amount =? 0 then s else
  if negb stakingEnabled then ns_AddBalance proposer amount s else
  let S := SelfStake proposer s in
  let D := DelegatedTotal proposer s in
  if S +₂₅₆ D =? 0 then ns_AddBalance proposer amount s else
  let valGets := split_income amount S D (CommissionBps proposer s) in
  let delPart := amount -₂₅₆ valGets in
  let s1 := if valGets =? 0 then s else ns_AddBalance proposer valGets s in
  if delPart =? 0 then s1 else
  let shares := DelegatedTotalShares proposer s1 in
  if shares =? 0 then ns_AddBalance proposer delPart s1 else
  IncreaseRewardIndex proposer delPart shares (ns_AddBalance StakingModuleAddr delPart s1).

(** ** The active set *)
Definition eligible (m : StakingModule) (s : S) (addr : Address) : option Candidate :=
  if addr =? 0 then None else
  if negb (IsCandidate addr s) || IsJailed addr s then None else
  if SelfStake addr s <? cfg_min m then None else
  let vp := VotingPower addr s in
  if vp =? 0 then None else Some (mkCandidate addr vp).

(** The loop over the candidate indices; [addr] is the low 20 bytes of the word. *)
Definition candidate_list (m : StakingModule) (s : S) : list Candidate :=
  let n := u64 (hashToU256 (sget lenSlot s)) in
  omap (λ i, eligible m s (sget (idxSlot (Z.of_nat i)) s mod 2 ^ 160)) (seq 0 (Z.to_nat n)).

Definition ActiveSet (m : StakingModule) (s : S) : list Candidate :=
  take (Z.to_nat (cfg_cap m)) (merge_sort rank_le (candidate_list m s)).
End Staking.
