(* ===== verification/StakingProps.v ===== *)
(** * Properties of the staking module *)
From S2P Require Import Prelude Types Toy Smt StateDB ValidatorSet NativeState Staking.

(** ** The storage layout *)
Section Layout.
Context `{C : Crypto} `{CL : !CryptoLaws C}.

(** Arguments in the range of their Go types. *)
Definition slot_valid (x : slot) : Prop :=
  match x with
  | selfSlot a | jailedSlot a | candSlot a | unbondAmtSlot a | unbondAtSlot a | delTotSlot a
  | commSlot a | delRateSlot a | rewIdxSlot a => is_addr a
  | lenSlot => True
  | idxSlot i => is_u64 i
  | delSlot v d | delUnbondAmtSlot v d | delUnbondAtSlot v d | rewDebtSlot v d | rewPendSlot v d =>
      is_addr v ∧ is_addr d
  end.

Lemma slot_args_length x : length (slot_args x) =
  match x with
  | lenSlot => 0%nat
  | idxSlot _ => 8%nat
  | delSlot _ _ | delUnbondAmtSlot _ _ | delUnbondAtSlot _ _ | rewDebtSlot _ _ | rewPendSlot _ _ => 40%nat
  | _ => 20%nat
  end.
Proof. destruct x; cbn [slot_args]; rewrite ?length_app; unfold addr_bytes; rewrite ?be_bytes_length; reflexivity. Qed.

(** The domain is determined by the preimage: where one domain is a prefix of
    another the total lengths differ. *)
Lemma slot_preimage_domain x y : slot_preimage x = slot_preimage y → slot_domain x = slot_domain y.
Proof.
  intros H. pose proof (f_equal length H) as Hl. unfold slot_preimage in *.
  rewrite !length_app, !slot_args_length in Hl.
  destruct x, y; try reflexivity; exfalso; cbn in Hl; try discriminate Hl;
    apply (f_equal (take 17)) in H; cbn in H; discriminate H.
Qed.

Lemma slot_preimage_inj x y : slot_valid x → slot_valid y → slot_preimage x = slot_preimage y → x = y.
Proof.
  intros Hx Hy H. pose proof (slot_preimage_domain x y H) as Hd. unfold slot_preimage in H. rewrite Hd in H.
  apply app_inv_head in H.
  destruct x, y; try discriminate Hd; cbn [slot_args slot_valid] in *; try reflexivity;
    try (f_equal; by apply addr_bytes_inj); try (f_equal; by apply (be_bytes_inj 8));
    (apply app_inj_1 in H as [H1 H2]; [destruct Hx, Hy; f_equal; by apply addr_bytes_inj|by rewrite !addr_bytes_length]).
Qed.
End Layout.

(** ** Reading after writing

    The laws hold for the slots in play: those of the participants [A] and of
    the candidate indices below [n]. *)
Definition in_play (A : list Address) (n : Z) (x : slot) : Prop :=
  match x with
  | selfSlot a | jailedSlot a | candSlot a | unbondAmtSlot a | unbondAtSlot a | delTotSlot a
  | commSlot a | delRateSlot a | rewIdxSlot a => a ∈ A
  | lenSlot => True
  | idxSlot i => 0 <= i < n
  | delSlot v d | delUnbondAmtSlot v d | delUnbondAtSlot v d | rewDebtSlot v d | rewPendSlot v d =>
      v ∈ A ∧ d ∈ A
  end.

Definition slots_distinct `{C : Crypto} (P : slot → Prop) : Prop :=
  ∀ x y, P x → P y → slotHash x = slotHash y → x = y.

Lemma slots_distinct_mono `{C : Crypto} (P Q : slot → Prop) : (∀ x, P x → Q x) → slots_distinct Q → slots_distinct P.
Proof. intros HPQ HQ x y Hx Hy. apply HQ; auto. Qed.

Lemma in_play_mono A B n x : A ⊆ B → in_play A n x → in_play B n x.
Proof. intros H. destruct x; cbn; set_solver. Qed.

(** The storage layout separates the module's fields: as long as Keccak-256
    does not collide on the preimages of a set of slots, no two of them share
    a storage key. *)
Theorem staking_slots_separated `{C : Crypto} `{CL : !CryptoLaws C} (P : slot → Prop) :
  (∀ x, P x → slot_valid x) → collision_free (λ b, ∃ x, P x ∧ b = slot_preimage x) → slots_distinct P.
Proof.
  intros Hv HP x y Hx Hy H. apply slot_preimage_inj; [auto..|].
  by apply (keccak_hash_inj _ _ _ HP) in H; [|eauto..].
Qed.

Section Reads.
Context `{C : Crypto} {S : Type} `{N : !NativeState S} `{L : !NativeStateLaws S}.

Lemma sset_ok x v s : ns_ok s → ns_ok (sset x v s).
Proof. apply ok_set. Qed.

Lemma sget_sset A n x y v s : slots_distinct (in_play A n) → in_play A n x → in_play A n y →
  sget y (sset x v s) = if decide (x = y) then v else sget y s.
Proof.
  intros Hd Hx Hy. unfold sget, sset. rewrite get_set. destruct (decide (x = y)) as [->|Hne].
  - by rewrite decide_True.
  - rewrite decide_False; [done|]. intros [= Heq]. apply Hne. by apply Hd.
Qed.

Lemma sget_add a v s x : ns_ok s → sget x (ns_AddBalance a v s) = sget x s.
Proof. apply get_add. Qed.
Lemma sget_sub a v s x : ns_ok s → sget x (ns_SubBalance a v s) = sget x s.
Proof. apply get_sub. Qed.
Lemma balance_sset x v s b : ns_ok s → ns_GetBalance b (sset x v s) = ns_GetBalance b s.
Proof. apply balance_set. Qed.
End Reads.

#[export] Hint Resolve sset_ok : native.

(** Side conditions of [sget_sset]. *)
Ltac play := cbn [in_play]; first [exact I | assumption | split; assumption | lia].

(** Push every read through the writes before it. *)
Ltac reads Hd :=
  repeat first
    [ rewrite (sget_sset _ _ _ _ _ _ Hd) by play
    | rewrite sget_add by eauto with native
    | rewrite sget_sub by eauto with native
    | rewrite decide_True by reflexivity
    | rewrite decide_False by congruence ].

(** Decide every address comparison of the goal from the hypotheses. *)
Ltac decides := repeat (case_decide; try congruence).

Section Laws.
Context `{C : Crypto} {S : Type} `{N : !NativeState S} `{L : !NativeStateLaws S}.

(** *** Proposer income *)
Lemma IncreaseRewardIndex_balance v d sh s b : ns_ok s →
  ns_GetBalance b (IncreaseRewardIndex v d sh s) = ns_GetBalance b s.
Proof. intros Hs. unfold IncreaseRewardIndex. repeat case_match; try done. by apply balance_sset. Qed.

Lemma split_income_le amount St D c : 0 <= amount → 0 <= split_income amount St D c <= amount.
Proof.
  intros Ha. unfold split_income. set (v := div256 _ _).
  assert (0 <= v) as Hv.
  { apply div256_range; [apply u256_range|]. destruct (u256_range ((St +₂₅₆ D) * MaxCommissionBps)). done. }
  destruct (Z.ltb_spec amount v); lia.
Qed.

(** A proposer's income is neither minted nor lost: it is split between the
    proposer and the module's escrow, the escrow receives a part only when
    there are delegation shares to claim it, and no other balance moves. *)
Theorem income_conserved proposer amount enabled s :
  ns_ok s → is_u256 amount → proposer ≠ StakingModuleAddr →
  is_u256 (ns_GetBalance proposer s) → is_u256 (ns_GetBalance StakingModuleAddr s) →
  ns_GetBalance proposer s + amount < 2 ^ 256 → ns_GetBalance StakingModuleAddr s + amount < 2 ^ 256 →
  let s' := DistributeProposerIncome proposer amount enabled s in
  ∃ pool, 0 <= pool <= amount ∧
    ns_GetBalance proposer s' = ns_GetBalance proposer s + (amount - pool) ∧
    ns_GetBalance StakingModuleAddr s' = ns_GetBalance StakingModuleAddr s + pool ∧
    (∀ b, b ≠ proposer → b ≠ StakingModuleAddr → ns_GetBalance b s' = ns_GetBalance b s) ∧
    (0 < pool → DelegatedTotalShares proposer s ≠ 0).
Proof.
  intros Hs [Ha0 Ha1] Hne [Hp0 Hp1] [Hm0 Hm1] Hp Hm. cbv zeta. unfold DistributeProposerIncome.
  assert (∀ x t b, ns_ok t → (∀ b, ns_GetBalance b t = ns_GetBalance b s) → 0 <= x <= amount →
    ns_GetBalance b (ns_AddBalance proposer x t) =
      if decide (proposer = b) then ns_GetBalance b s + x else ns_GetBalance b s) as Hadd.
  { intros x t b Ht Hb Hx. rewrite balance_add, Hb by done. destruct (decide (proposer = b)) as [<-|]; [|done].
    apply u256_add; lia. }
  assert (∃ pool, 0 <= pool <= amount ∧
    ns_GetBalance proposer (ns_AddBalance proposer amount s) = ns_GetBalance proposer s + (amount - pool) ∧
    ns_GetBalance StakingModuleAddr (ns_AddBalance proposer amount s) = ns_GetBalance StakingModuleAddr s + pool ∧
    (∀ b, b ≠ proposer → b ≠ StakingModuleAddr → ns_GetBalance b (ns_AddBalance proposer amount s) = ns_GetBalance b s) ∧
    (0 < pool → DelegatedTotalShares proposer s ≠ 0)) as Hall.
  { exists 0. rewrite !Hadd by (done || lia). decides.
    split_and!; try lia. intros b Hb _. rewrite Hadd by (done || lia). by decides. }
  destruct (Z.eqb_spec amount 0) as [->|Hnz]; [exists 0; split_and!; try lia; done|].
  destruct enabled; [|exact Hall]. cbn [negb]. destruct (_ =? 0); [exact Hall|]. clear Hall.
  set (v := split_income _ _ _ _). pose proof (split_income_le amount (SelfStake proposer s) (DelegatedTotal proposer s)
    (CommissionBps proposer s) Ha0) as Hv. fold v in Hv.
  set (s1 := if v =? 0 then s else ns_AddBalance proposer v s).
  assert (ns_ok s1) as Hs1 by (subst s1; case_match; eauto with native).
  assert (∀ b, ns_GetBalance b s1 = if decide (proposer = b) then ns_GetBalance b s + v else ns_GetBalance b s) as Hb1.
  { intros b. subst s1. destruct (Z.eqb_spec v 0) as [->|_]; [case_decide; lia|]. by apply Hadd. }
  assert (DelegatedTotalShares proposer s1 = DelegatedTotalShares proposer s) as Hsh.
  { subst s1. unfold DelegatedTotalShares. case_match; [done|]. by rewrite sget_add. }
  rewrite u256_sub by (split; lia || done). rewrite Hsh.
  destruct (Z.eqb_spec (amount - v) 0) as [Hd|Hd].
  { exists 0. rewrite !Hb1. decides. split_and!; try lia.
    intros b Hb _. rewrite Hb1. by decides. }
  destruct (Z.eqb_spec (DelegatedTotalShares proposer s) 0) as [Hz|Hz].
  - exists 0. rewrite !balance_add, !Hb1 by done. decides.
    rewrite u256_add by lia. split_and!; try lia. intros b Hb _. rewrite balance_add, Hb1 by done.
    by decides.
  - exists (amount - v). rewrite !IncreaseRewardIndex_balance, !balance_add, !Hb1 by eauto with native.
    decides. rewrite u256_add by lia.
    split_and!; try lia. intros b Hb Hbm.
    rewrite IncreaseRewardIndex_balance, balance_add, Hb1 by eauto with native. by decides.
Qed.

(** *** Unbonding *)
Section Play.
Context (A : list Address) (n : Z) (Hd : slots_distinct (in_play A n)).

(** C35. Unbonding is time-locked and then released in full: the stake moves to
    escrow, whatever is withdrawn before the unlock time is refused, and from
    the unlock time on [Withdraw] pays the whole escrow once. *)
Theorem Unbond_Withdraw m a amount now s :
  a ∈ A → IsJailed a s = false → 0 < amount <= SelfStake a s →
  (PendingUnbond a s).1 + amount < 2 ^ 256 →
  0 <= now → 0 <= cfg_unbond m → now + cfg_unbond m < 2 ^ 64 →
  let '(s1, r) := Unbond m a amount now s in
  let unlock := Z.max (PendingUnbond a s).2 (now + cfg_unbond m) in
  r = Ok tt ∧ SelfStake a s1 = SelfStake a s - amount ∧
  PendingUnbond a s1 = ((PendingUnbond a s).1 + amount, unlock) ∧
  (∀ t, t < unlock → is_ok (Withdraw a t s1).2 = false ∧ (Withdraw a t s1).1 = s1) ∧
  (∀ t, unlock <= t → (Withdraw a t s1).2 = Ok ((PendingUnbond a s).1 + amount) ∧
     is_ok (Withdraw a t (Withdraw a t s1).1).2 = false ∧ SelfStake a (Withdraw a t s1).1 = SelfStake a s1).
Proof.
  intros Ha Hj [Ham0 Ham1] Hpo Hnow Hper Hlock. unfold Unbond.
  pose proof (u256_range (sget (selfSlot a) s) : is_u256 (SelfStake a s)) as Hu.
  rewrite (proj2 (Z.eqb_neq amount 0)), Hj, (proj2 (Z.ltb_ge _ _)) by lia. rewrite u256_sub by (done || lia).
  unfold u256ToHash. set (next := SelfStake a s - amount).
  set (s1 := if next <? cfg_min m then _ else _).
  assert (∀ x, in_play A n x → x ≠ selfSlot a → x ≠ candSlot a → sget x s1 = sget x s) as Hfr.
  { intros x Hx Hn1 Hn2. subst s1. case_match; reads Hd; done. }
  assert (sget (selfSlot a) s1 = next) as Hself by (subst s1; case_match; reads Hd; done).
  clearbody s1. assert (PendingUnbond a s1 = PendingUnbond a s) as -> by (unfold PendingUnbond; rewrite !Hfr by (play || done); done).
  destruct (PendingUnbond a s) as [p u] eqn:Hpu. cbn [fst snd] in *.
  assert (is_u64 u) as Hu64 by (injection Hpu as _ <-; apply u64_range).
  assert (0 <= p) as Hp0 by (injection Hpu as <- _; apply u256_range).
  rewrite (u64_id (now + cfg_unbond m)) by (split; lia). rewrite u256_add by lia.
  set (unlock := if now + cfg_unbond m <? u then u else now + cfg_unbond m).
  assert (unlock = Z.max u (now + cfg_unbond m)) as Hul by (subst unlock; destruct (Z.ltb_spec (now + cfg_unbond m) u); lia).
  assert (is_u64 unlock) as Hulr by (rewrite Hul; unfold is_u64 in *; lia).
  set (s2 := sset (unbondAtSlot a) unlock _).
  assert (PendingUnbond a s2 = (p + amount, unlock)) as Hp2.
  { unfold PendingUnbond, hashToU256. subst s2. reads Hd. unfold is_u64, is_u256 in *.
    by rewrite !u256_id, u64_id by (split; lia). }
  assert (SelfStake a s2 = next) as Hs2.
  { unfold SelfStake, hashToU256. subst s2. reads Hd. rewrite Hself. apply u256_id. subst next. unfold is_u256 in *. lia. }
  rewrite <-Hul. split_and!; [done|done|done|..].
  - intros t Ht. unfold Withdraw. rewrite Hp2, (proj2 (Z.eqb_neq _ _)), (proj2 (Z.ltb_lt _ _)) by lia. done.
  - intros t Ht. unfold Withdraw at 1 2 3. rewrite Hp2, (proj2 (Z.eqb_neq _ _)), (proj2 (Z.ltb_ge _ _)) by lia.
    cbn [fst snd]. split_and!; [done| |].
    + unfold Withdraw, PendingUnbond, hashToU256. reads Hd. done.
    + unfold Withdraw. rewrite Hp2, (proj2 (Z.eqb_neq _ _)), (proj2 (Z.ltb_ge _ _)) by lia. cbn [fst].
      unfold SelfStake, hashToU256. reads Hd. done.
Qed.

(** *** Slashing *)
Lemma slash_self_spec a s : a ∈ A → SelfStake a s * 10000 < 2 ^ 256 → ns_ok s →
  let '(s1, burn) := slash_self a s in
  burn = SelfStake a s ∧ SelfStake a s1 = 0 ∧ ns_ok s1 ∧
  (∀ b, ns_GetBalance b s1 = ns_GetBalance b s) ∧
  (∀ x, in_play A n x → x ≠ selfSlot a → sget x s1 = sget x s).
Proof.
  intros Ha H1 Hs. unfold slash_self.
  assert (0 <= SelfStake a s) as H0 by apply u256_range. change (Z.min DoubleSignSelfBurnBps MaxCommissionBps) with 10000.
  change MaxCommissionBps with 10000.
  assert (div256 (SelfStake a s *₂₅₆ 10000) 10000 = SelfStake a s) as ->.
  { rewrite u256_id by (split; lia). unfold div256. cbn [Z.eqb]. by rewrite Z.div_mul. }
  destruct (Z.eqb_spec (SelfStake a s) 0) as [Hz|Hz]; [done|].
  split_and!; [done| |by apply sset_ok|by intros; apply balance_sset|].
  - unfold SelfStake at 1, hashToU256, u256ToHash. reads Hd. rewrite Z.sub_diag. reflexivity.
  - intros x Hx Hne. reads Hd. done.
Qed.

Lemma slash_delegated_spec a s : a ∈ A → ns_ok s →
  let '(s1, burn) := slash_delegated a s in
  ns_ok s1 ∧ 0 <= burn ∧ (∀ b, ns_GetBalance b s1 = ns_GetBalance b s) ∧
  (∀ x, in_play A n x → x ≠ delRateSlot a → sget x s1 = sget x s).
Proof.
  intros Ha Hs. unfold slash_delegated. change MaxCommissionBps with 10000.
  assert (0 <= div256 (DelegatedTotal a s *₂₅₆ Z.min DoubleSignDelegatorBurnBps 10000) 10000) as Hb.
  { apply div256_range; [apply u256_range|lia]. }
  destruct (negb _ && negb _); split_and!; try done.
  - by apply sset_ok.
  - by intros; apply balance_sset.
  - intros x Hx Hne. reads Hd. done.
Qed.

(** Slashing a double signer burns its whole self-stake, jails it and takes
    its voting power; what is burned leaves the module's escrow and never
    exceeds it; a second slash changes nothing; other validators keep their
    stake and power.  Pending unbonds are not reached by the burn. *)
Theorem SlashAndJail_spec a s :
  a ∈ A → IsJailed a s = false → SelfStake a s * 10000 < 2 ^ 256 → ns_ok s →
  is_u256 (ns_GetBalance StakingModuleAddr s) →
  let '(s', burn) := SlashAndJail a s in
  IsJailed a s' = true ∧ IsCandidate a s' = false ∧ VotingPower a s' = 0 ∧ SelfStake a s' = 0 ∧
  0 <= burn <= ns_GetBalance StakingModuleAddr s ∧
  ns_GetBalance StakingModuleAddr s' = ns_GetBalance StakingModuleAddr s - burn ∧
  SlashAndJail a s' = (s', 0) ∧
  (∀ b, b ∈ A → b ≠ a → SelfStake b s' = SelfStake b s ∧ VotingPower b s' = VotingPower b s) ∧
  (∀ b, b ∈ A → PendingUnbond b s' = PendingUnbond b s).
Proof.
  intros Ha Hj H1 Hs [Hb0 Hb1]. unfold SlashAndJail. rewrite Hj.
  pose proof (slash_self_spec a s Ha H1 Hs) as Hself. destruct (slash_self a s) as [s1 sb].
  destruct Hself as (Hsb & Hs1 & Hok1 & Hbal1 & Hfr1).
  pose proof (slash_delegated_spec a s1 Ha Hok1) as Hdel. destruct (slash_delegated a s1) as [s2 db].
  destruct Hdel as (Hok2 & Hdb & Hbal2 & Hfr2). rewrite Hbal2, Hbal1.
  set (tot := sb +₂₅₆ db). assert (0 <= tot) as Htot by apply u256_range.
  set (bal := ns_GetBalance StakingModuleAddr s) in *.
  set (r := if tot =? 0 then (s2, tot) else _).
  assert (∃ s3, r = (s3, Z.min bal tot) ∧ ns_ok s3 ∧ (∀ x, sget x s3 = sget x s2) ∧
    ns_GetBalance StakingModuleAddr s3 = bal - Z.min bal tot) as (s3 & -> & Hok3 & Hfr3 & Hbal3).
  { subst r. destruct (Z.eqb_spec tot 0) as [Hz|Hz].
    - exists s2. split_and!; try done; [f_equal; lia|]. rewrite Hbal2, Hbal1. fold bal. lia.
    - destruct (Z.ltb_spec bal tot) as [Hlt|Hge]; [rewrite (Z.min_l bal tot) by lia|rewrite (Z.min_r bal tot) by lia];
      destruct (Z.eqb_spec bal 0), (Z.eqb_spec tot 0); try lia; eexists; (split; [done|]);
        split_and!; try done; try (apply ok_sub; done); try (intros; apply sget_sub; done);
        rewrite ?balance_sub, Hbal2, Hbal1 by done; fold bal; rewrite ?decide_True by done; try lia;
        apply u256_sub; lia || done. }
  assert (∀ x, in_play A n x → x ≠ selfSlot a → x ≠ delRateSlot a → x ≠ jailedSlot a → x ≠ candSlot a →
    sget x (Jail a s3) = sget x s) as Hfr.
  { intros x Hx N1 N2 N3 N4. unfold Jail. reads Hd. rewrite Hfr3, Hfr2, Hfr1 by done. done. }
  assert (IsJailed a (Jail a s3) = true) as Hjail by (unfold IsJailed, Jail; reads Hd; done).
  split_and!; try done; try lia.
  - unfold IsCandidate, Jail. reads Hd. done.
  - unfold VotingPower. by rewrite Hjail.
  - unfold SelfStake, Jail. reads Hd. rewrite Hfr3, Hfr2 by (play || done). exact Hs1.
  - unfold Jail. rewrite !balance_sset, Hbal3 by eauto with native. lia.
  - by rewrite Hjail.
  - intros b Hb Hne. unfold VotingPower, IsJailed, IsCandidate, SelfStake, DelegatedTotal, DelegatedTotalShares, sharesToWei, DelRate.
    rewrite !Hfr by (play || congruence). done.
  - intros b Hb. unfold PendingUnbond. rewrite !Hfr by (play || congruence). done.
Qed.
(** *** Delegation shares *)
Definition shares_of (v : Address) (s : S) (d : Address) : Z := DelegationShares v d s.

(** The recorded total of every participant is the sum of the shares. *)
Definition shares_inv (s : S) : Prop :=
  ns_ok s ∧ ∀ v, v ∈ A → DelegatedTotalShares v s = sumZ (map (shares_of v s) A).

Lemma settleRewards_ok v d s : ns_ok s → ns_ok (settleRewards v d s).
Proof. intros Hs. unfold settleRewards, setRewardDebt, setPendingStored. case_match; eauto with native. Qed.

Lemma settleRewards_frame v d s x : v ∈ A → d ∈ A → in_play A n x →
  x ≠ rewDebtSlot v d → x ≠ rewPendSlot v d → sget x (settleRewards v d s) = sget x s.
Proof.
  intros Hv Hdl Hx N1 N2. unfold settleRewards, setRewardDebt, setPendingStored.
  case_match; reads Hd; done.
Qed.

(** The slots of the share accounting. *)
Definition share_slot (x : slot) : bool :=
  match x with delSlot _ _ | delTotSlot _ => true | _ => false end.

(** A step that leaves those slots alone keeps the invariant. *)
Definition keeps_shares (s s' : S) : Prop :=
  ns_ok s → ns_ok s' ∧ ∀ x, in_play A n x → share_slot x = true → sget x s' = sget x s.

Lemma keeps_shares_inv s s' : keeps_shares s s' → shares_inv s → shares_inv s'.
Proof.
  intros Hk [Hs Hinv]. destruct (Hk Hs) as [Hok Hfr]. split; [done|]. intros v Hv.
  assert (DelegatedTotalShares v s' = DelegatedTotalShares v s) as ->
    by (unfold DelegatedTotalShares; rewrite Hfr; [done|play|done]).
  rewrite (Hinv v Hv). f_equal. apply list_fmap_ext. intros i d Hi. apply list_elem_of_lookup_2 in Hi.
  unfold shares_of, DelegationShares. rewrite Hfr; [done|play|done].
Qed.

Lemma keeps_shares_refl s : keeps_shares s s.
Proof. done. Qed.

Lemma keeps_shares_trans s1 s2 s3 : keeps_shares s1 s2 → keeps_shares s2 s3 → keeps_shares s1 s3.
Proof.
  intros K1 K2 Hs. destruct (K1 Hs) as [O1 F1]. destruct (K2 O1) as [O2 F2].
  split; [done|]. intros x Hx Hn. by rewrite F2, F1.
Qed.

Lemma keeps_shares_sset x v s : in_play A n x → share_slot x = false → keeps_shares s (sset x v s).
Proof.
  intros Hx Hf Hs. split; [by apply sset_ok|]. intros y Hy Hn. rewrite (sget_sset A n) by done.
  rewrite decide_False; [done|]. intros ->. congruence.
Qed.

Lemma sumZ_map_update (f g : Address → Z) (l : list Address) d δ : NoDup l → d ∈ l →
  (∀ x, x ∈ l → g x = if decide (d = x) then f x + δ else f x) → sumZ (map g l) = sumZ (map f l) + δ.
Proof.
  intros Hnd. induction Hnd as [|x l Hx Hnd IH]; intros Hin Hg; [by apply elem_of_nil in Hin|]. cbn [map].
  rewrite !sumZ_cons. rewrite (Hg x) by set_solver. destruct (decide (d = x)) as [->|Hne].
  - assert (map g l = map f l) as ->; [|lia].
    apply list_fmap_ext. intros i y Hy. apply list_elem_of_lookup_2 in Hy. rewrite Hg by set_solver.
    rewrite decide_False; [done|]. by intros ->.
  - rewrite IH; [lia|set_solver|]. intros y Hy. apply Hg. set_solver.
Qed.

Lemma sumZ_map_ge (f : Address → Z) (l : list Address) d :
  d ∈ l → (∀ x, x ∈ l → 0 <= f x) → f d <= sumZ (map f l).
Proof.
  induction l as [|x l IH]; intros Hin Hf; [by apply elem_of_nil in Hin|]. cbn [map]. rewrite sumZ_cons.
  assert (0 <= sumZ (map f l)) as H0.
  { apply sumZ_nonneg, Forall_forall. intros y (z & -> & Hz)%list_elem_of_fmap. apply Hf. set_solver. }
  assert (0 <= f x) by (apply Hf; set_solver).
  apply elem_of_cons in Hin as [->|Hin]; [lia|]. specialize (IH Hin (λ y Hy, Hf y (list_elem_of_further _ _ _ Hy))). lia.
Qed.
Context (HA : NoDup A).

(** Moving [δ] shares of one delegator and in the total keeps the invariant. *)
Lemma shares_inv_move s s' v d δ : v ∈ A → d ∈ A → shares_inv s → ns_ok s' →
  (∀ x, in_play A n x → share_slot x = true → x ≠ delSlot v d → x ≠ delTotSlot v → sget x s' = sget x s) →
  DelegationShares v d s' = DelegationShares v d s + δ →
  DelegatedTotalShares v s' = DelegatedTotalShares v s + δ → shares_inv s'.
Proof.
  intros Hv Hdl [Hs Hinv] Hs' Hfr Hd' Ht'. split; [done|]. intros w Hw. destruct (decide (w = v)) as [->|Hne].
  - rewrite Ht', (Hinv v Hv). symmetry. apply (sumZ_map_update _ _ _ d); [done|done|].
    intros e He. unfold shares_of. case_decide as Hde; [subst e; done|].
    unfold DelegationShares. rewrite Hfr; [done|play|done|congruence|congruence].
  - assert (DelegatedTotalShares w s' = DelegatedTotalShares w s) as ->.
    { unfold DelegatedTotalShares. rewrite Hfr; [done|play|done|congruence|congruence]. }
    rewrite (Hinv w Hw). f_equal. apply list_fmap_ext. intros i e Hi. apply list_elem_of_lookup_2 in Hi.
    unfold shares_of, DelegationShares. rewrite Hfr; [done|play|done|congruence|congruence].
Qed.

Lemma settle_keeps v d s : v ∈ A → d ∈ A → keeps_shares s (settleRewards v d s).
Proof.
  intros Hv Hdl Hs. split; [by apply settleRewards_ok|]. intros x Hx Hn.
  apply settleRewards_frame; try done; intros ->; done.
Qed.

Lemma shares_le_total s v d : shares_inv s → v ∈ A → d ∈ A → DelegationShares v d s <= DelegatedTotalShares v s.
Proof.
  intros [_ Hinv] Hv Hdl. rewrite (Hinv v Hv). apply (sumZ_map_ge (shares_of v s)); [done|].
  intros e _. apply u256_range.
Qed.

Lemma weiToShares_settled v d x s : v ∈ A → d ∈ A → weiToShares v x (settleRewards v d s) = weiToShares v x s.
Proof.
  intros Hv Hdl. unfold weiToShares, DelRate. rewrite settleRewards_frame by (play || done). done.
Qed.

Lemma weiToShares_nonneg v x s : 0 <= weiToShares v x s.
Proof.
  unfold weiToShares. case_match; [lia|]. apply div256_range; [apply u256_range|].
  unfold DelRate, StakeRatePrecision. case_match; [lia|]. apply u256_range.
Qed.

Lemma Delegate_inv v d x s : v ∈ A → d ∈ A → shares_inv s →
  DelegatedTotalShares v s + weiToShares v x s < 2 ^ 256 → shares_inv (Delegate v d x s).1.
Proof.
  intros Hv Hdl Hinv Hov. unfold Delegate. destruct (x =? 0); [done|]. destruct (v =? d); [done|].
  set (s1 := settleRewards v d s). assert (shares_inv s1) as H1 by (by eapply keeps_shares_inv, Hinv; apply settle_keeps).
  assert (weiToShares v x s1 = weiToShares v x s) as -> by (by apply weiToShares_settled).
  assert (DelegatedTotalShares v s1 = DelegatedTotalShares v s) as Ht.
  { unfold DelegatedTotalShares. subst s1. rewrite settleRewards_frame by (play || done). done. }
  rewrite <-Ht in Hov. clearbody s1. destruct (Z.eqb_spec (weiToShares v x s) 0); [done|].
  pose proof (weiToShares_nonneg v x s) as Hx0. set (add := weiToShares v x s) in *.
  pose proof (shares_le_total s1 v d H1 Hv Hdl) as Hle. pose proof H1 as [Hok1 _].
  pose proof (u256_range (sget (delSlot v d) s1)) as [Hr0 _]. pose proof (u256_range (sget (delTotSlot v) s1)) as [Hr1 _].
  cbn [fst]. unfold setRewardDebt, u256ToHash, DelegatedTotalShares, DelegationShares, hashToU256 in *.
  apply (shares_inv_move s1 _ v d add); try done.
  - eauto with native.
  - intros y Hy Hshare N1 N2. destruct y; try discriminate Hshare; reads Hd; done.
  - unfold DelegationShares, hashToU256. reads Hd. by rewrite !(u256_id (u256 (sget (delSlot v d) s1) + add)) by (split; lia).
  - unfold DelegatedTotalShares, hashToU256. reads Hd. by rewrite !(u256_id (u256 (sget (delTotSlot v) s1) + add)) by (split; lia).
Qed.
Lemma Undelegate_inv m v d x now s : v ∈ A → d ∈ A → shares_inv s →
  shares_inv (Undelegate m v d x now s).1 ∧
  (Undelegate m v d x now s).2 ≠ Err "staking: delegated total underflow".
Proof.
  intros Hv Hdl Hinv. unfold Undelegate. destruct (x =? 0); [done|].
  set (s1 := settleRewards v d s). assert (shares_inv s1) as H1 by (by eapply keeps_shares_inv, Hinv; apply settle_keeps).
  clearbody s1. clear Hinv. destruct (_ <? x); [done|]. destruct (_ =? 0); [done|].
  pose proof (weiToShares_nonneg v x s1) as Hx0. set (cur := DelegationShares v d s1).
  set (sub := if cur <? weiToShares v x s1 then cur else weiToShares v x s1).
  pose proof (shares_le_total s1 v d H1 Hv Hdl) as Hle. fold cur in Hle. pose proof H1 as [Hok1 _].
  pose proof (u256_range (sget (delSlot v d) s1) : is_u256 cur) as [Hc0 Hc1].
  pose proof (u256_range (sget (delTotSlot v) s1) : is_u256 (DelegatedTotalShares v s1)) as [Ht0 Ht1].
  assert (0 <= sub <= cur) as Hsub by (subst sub; destruct (Z.ltb_spec cur (weiToShares v x s1)); lia).
  unfold u256ToHash. set (s2 := sset (delSlot v d) _ s1).
  assert (DelegatedTotalShares v s2 = DelegatedTotalShares v s1) as ->.
  { unfold DelegatedTotalShares. subst s2. reads Hd. done. }
  rewrite (proj2 (Z.ltb_ge _ _)) by lia. unfold PendingUndelegation. split; [|done].
  unfold setRewardDebt, u256ToHash, PendingUndelegation. cbn [fst].
  apply (shares_inv_move s1 _ v d (- sub)); try done.
  - subst s2. eauto 8 with native.
  - intros y Hy Hshare N1 N2. subst s2. destruct y; try discriminate Hshare; reads Hd; done.
  - subst s2. unfold DelegationShares at 1, hashToU256. reads Hd. rewrite !(u256_id (cur - sub)) by (split; lia). fold cur. lia.
  - unfold DelegatedTotalShares at 1, hashToU256. reads Hd. rewrite !(u256_id (DelegatedTotalShares v s1 - sub)) by (split; lia). lia.
Qed.

(** Operations that leave the share accounting alone. *)
Lemma Bond_keeps m a x s : a ∈ A → u64 (hashToU256 (sget lenSlot s)) < n → keeps_shares s (Bond m a x s).1.
Proof.
  intros Ha Hlen. unfold Bond. destruct (x =? 0); [apply keeps_shares_refl|].
  set (s1 := sset (selfSlot a) _ s). assert (keeps_shares s s1) as H1 by (by apply keeps_shares_sset).
  assert (sget lenSlot s1 = sget lenSlot s) as Hl1 by (subst s1; reads Hd; done). clearbody s1.
  destruct (_ && _); [|done]. cbn [fst]. unfold registerCandidate. destruct (IsCandidate a s1); [done|].
  eapply keeps_shares_trans; [exact H1|].
  assert (sget lenSlot (sset (candSlot a) 1 s1) = sget lenSlot s) as -> by (reads Hd; done).
  pose proof (u64_range (hashToU256 (sget lenSlot s))) as [Hu0 _].
  eapply keeps_shares_trans; [|by apply keeps_shares_sset].
  eapply keeps_shares_trans; [|by apply keeps_shares_sset; [cbn; lia|]]. by apply keeps_shares_sset.
Qed.

Lemma Unbond_keeps m a x now s : a ∈ A → keeps_shares s (Unbond m a x now s).1.
Proof.
  intros Ha. unfold Unbond. repeat (destruct (_ : bool); [apply keeps_shares_refl|]).
  unfold PendingUnbond. cbn [fst].
  eapply keeps_shares_trans; [|by apply keeps_shares_sset].
  eapply keeps_shares_trans; [|by apply keeps_shares_sset].
  case_match; [eapply keeps_shares_trans; [|by apply keeps_shares_sset]|]; by apply keeps_shares_sset.
Qed.

Lemma Withdraw_keeps a now s : a ∈ A → keeps_shares s (Withdraw a now s).1.
Proof.
  intros Ha. unfold Withdraw, PendingUnbond. repeat (destruct (_ : bool); [apply keeps_shares_refl|]). cbn [fst].
  eapply keeps_shares_trans; by apply keeps_shares_sset.
Qed.

Lemma WithdrawDelegation_keeps v d now s : v ∈ A → d ∈ A → keeps_shares s (WithdrawDelegation v d now s).1.
Proof.
  intros Hv Hdl. unfold WithdrawDelegation, PendingUndelegation.
  repeat (destruct (_ : bool); [apply keeps_shares_refl|]). cbn [fst].
  eapply keeps_shares_trans; by apply keeps_shares_sset.
Qed.

Lemma SetCommission_keeps v b s : v ∈ A → keeps_shares s (SetCommission v b s).1.
Proof. intros Hv. unfold SetCommission. case_match; [apply keeps_shares_refl|by apply keeps_shares_sset]. Qed.

Lemma ClaimRewards_keeps v d s : v ∈ A → d ∈ A → keeps_shares s (ClaimRewards v d s).1.
Proof.
  intros Hv Hdl. unfold ClaimRewards. case_match; cbn [fst]; [by apply settle_keeps|].
  apply (keeps_shares_trans _ (settleRewards v d s)); [by apply settle_keeps|by apply keeps_shares_sset].
Qed.

Lemma Jail_keeps a s : a ∈ A → keeps_shares s (Jail a s).
Proof. intros Ha. unfold Jail. eapply keeps_shares_trans; by apply keeps_shares_sset. Qed.

Lemma SlashAndJail_keeps a s : a ∈ A → keeps_shares s (SlashAndJail a s).1.
Proof.
  intros Ha. unfold SlashAndJail. destruct (IsJailed a s); [apply keeps_shares_refl|].
  assert (keeps_shares s (slash_self a s).1) as H1.
  { unfold slash_self. case_match; [apply keeps_shares_refl|by apply keeps_shares_sset]. }
  destruct (slash_self a s) as [s1 b1]. cbn [fst] in H1.
  assert (keeps_shares s1 (slash_delegated a s1).1) as H2.
  { unfold slash_delegated. destruct (negb _ && negb _); [by apply keeps_shares_sset|apply keeps_shares_refl]. }
  destruct (slash_delegated a s1) as [s2 b2]. cbn [fst] in H2.
  set (r := if b1 +₂₅₆ b2 =? 0 then _ else _).
  assert (keeps_shares s r.1) as H3.
  { eapply keeps_shares_trans; [exact H1|]. eapply keeps_shares_trans; [exact H2|]. subst r.
    repeat (destruct (_ =? 0); [apply keeps_shares_refl|]). cbn [fst]. intros Hs2.
    split; [by apply ok_sub|]. intros x _ _. by apply sget_sub. }
  destruct r as [s3 b3]. cbn [fst] in *. eapply keeps_shares_trans; [exact H3|by apply Jail_keeps].
Qed.
Lemma Income_keeps p x en s : p ∈ A → keeps_shares s (DistributeProposerIncome p x en s).
Proof.
  intros Hp. assert (∀ t a y, keeps_shares t (ns_AddBalance a y t)) as Hadd.
  { intros t a y Ht. split; [by apply ok_add|]. intros z _ _. by apply sget_add. }
  unfold DistributeProposerIncome. destruct (x =? 0); [apply keeps_shares_refl|].
  destruct en; cbn [negb]; [|apply Hadd]. destruct (_ =? 0); [apply Hadd|].
  set (v := split_income _ _ _ _). set (s1 := if v =? 0 then s else _).
  assert (keeps_shares s s1) as H1 by (subst s1; case_match; [apply keeps_shares_refl|apply Hadd]).
  clearbody s1. destruct (_ =? 0); [done|]. destruct (_ =? 0); [by eapply keeps_shares_trans|].
  eapply keeps_shares_trans; [exact H1|]. eapply keeps_shares_trans; [apply Hadd|].
  unfold IncreaseRewardIndex. destruct (_ || _); [apply keeps_shares_refl|].
  destruct (_ =? 0); [apply keeps_shares_refl|by apply keeps_shares_sset].
Qed.

(** Every operation of the module that writes, called for participants.  A
    delegation does not exceed the 256-bit total, and the candidate index is in
    play. *)
Inductive stake_step (m : StakingModule) (s : S) : S → Prop :=
| st_Bond a x : a ∈ A → u64 (hashToU256 (sget lenSlot s)) < n → stake_step m s (Bond m a x s).1
| st_Unbond a x now : a ∈ A → stake_step m s (Unbond m a x now s).1
| st_Withdraw a now : a ∈ A → stake_step m s (Withdraw a now s).1
| st_Slash a : a ∈ A → stake_step m s (SlashAndJail a s).1
| st_Jail a : a ∈ A → stake_step m s (Jail a s)
| st_PendingRewards v d : v ∈ A → d ∈ A → stake_step m s (PendingRewards v d s).1
| st_Delegate v d x : v ∈ A → d ∈ A →
    DelegatedTotalShares v s + weiToShares v x s < 2 ^ 256 → stake_step m s (Delegate v d x s).1
| st_Undelegate v d x now : v ∈ A → d ∈ A → stake_step m s (Undelegate m v d x now s).1
| st_WithdrawDelegation v d now : v ∈ A → d ∈ A → stake_step m s (WithdrawDelegation v d now s).1
| st_SetCommission v b : v ∈ A → stake_step m s (SetCommission v b s).1
| st_ClaimRewards v d : v ∈ A → d ∈ A → stake_step m s (ClaimRewards v d s).1
| st_Income p x en : p ∈ A → stake_step m s (DistributeProposerIncome p x en s).

(** C20. Share accounting: after any sequence of calls the total recorded for a
    validator is the sum of its delegators' shares, so the branch of
    [Undelegate] that fails after it has already reduced the shares ("delegated
    total underflow") is never taken. *)
Theorem delegation_shares_invariant m s s' :
  shares_inv s → rtc (stake_step m) s s' →
  shares_inv s' ∧
  ∀ v d x now, v ∈ A → d ∈ A → (Undelegate m v d x now s').2 ≠ Err "staking: delegated total underflow".
Proof.
  intros Hinv Hrun. assert (shares_inv s') as Hinv'.
  { induction Hrun as [|s1 s2 s3 Hst _ IH]; [done|]. apply IH. clear IH.
    destruct Hst; [..|by apply Delegate_inv|by apply Undelegate_inv| | | |]; (eapply keeps_shares_inv; [|exact Hinv]).
    - by apply Bond_keeps.
    - by apply Unbond_keeps.
    - by apply Withdraw_keeps.
    - by apply SlashAndJail_keeps.
    - by apply Jail_keeps.
    - by apply settle_keeps.
    - by apply WithdrawDelegation_keeps.
    - by apply SetCommission_keeps.
    - by apply ClaimRewards_keeps.
    - by apply Income_keeps. }
  split; [done|]. intros v d x now Hv Hdl. by apply Undelegate_inv.
Qed.
End Play.

(** *** The active set *)
Lemma bytesLess_compare a b : bytesLess a b = (bytesCompare a b =? -1).
Proof.
  revert b. induction a as [|x a IH]; intros [|y b]; cbn; try done.
  destruct (Z.eqb_spec x y) as [->|Hne].
  - rewrite Z.ltb_irrefl. apply IH.
  - destruct (Z.ltb_spec x y); [done|]. by rewrite (proj2 (Z.ltb_lt y x)) by lia.
Qed.

(** The number the 20 bytes of an address spell. *)
Definition addr_num (a : Address) : Z := of_be (addr_bytes a).

Lemma addr_num_id a : is_addr a → addr_num a = a.
Proof. apply addr_bytes_roundtrip. Qed.

Lemma addr_bytesLess a b : bytesLess (addr_bytes a) (addr_bytes b) = (addr_num a <? addr_num b).
Proof.
  rewrite bytesLess_compare, bytesCompare_spec by (try apply be_bytes_ok; by rewrite !addr_bytes_length).
  unfold addr_num. by destruct (Z.compare_spec (of_be (addr_bytes a)) (of_be (addr_bytes b))),
    (Z.ltb_spec (of_be (addr_bytes a)) (of_be (addr_bytes b))); try lia.
Qed.

(** At least as good in the ranking. *)
Definition outranks (x y : Candidate) : Prop :=
  c_votingPower y < c_votingPower x ∨
  (c_votingPower x = c_votingPower y ∧ addr_num (c_addr x) <= addr_num (c_addr y)).

Lemma rank_le_outranks x y : rank_le x y ↔ outranks x y.
Proof.
  unfold rank_le, outranks. rewrite addr_bytesLess.
  destruct (Z.eqb_spec (c_votingPower x) (c_votingPower y)); [rewrite Z.ltb_ge|]; lia.
Qed.

#[export] Instance rank_le_total : Total rank_le.
Proof. intros x y. rewrite !rank_le_outranks. unfold outranks. lia. Qed.
#[export] Instance rank_le_trans : Transitive rank_le.
Proof. intros x y z. rewrite !rank_le_outranks. unfold outranks. lia. Qed.

Lemma eligible_spec m s a c : eligible m s a = Some c →
  c_addr c = a ∧ a ≠ 0 ∧ IsCandidate a s = true ∧ IsJailed a s = false ∧ cfg_min m <= SelfStake a s ∧
  c_votingPower c = SelfStake a s +₂₅₆ DelegatedTotal a s ∧ 0 < c_votingPower c.
Proof.
  unfold eligible. destruct (Z.eqb_spec a 0); [done|]. destruct (IsCandidate a s) eqn:Hc, (IsJailed a s) eqn:Hj; try done.
  cbn [negb orb]. destruct (Z.ltb_spec (SelfStake a s) (cfg_min m)); [done|].
  unfold VotingPower. rewrite Hc, Hj. cbn [negb orb]. pose proof (u256_range (SelfStake a s + DelegatedTotal a s)) as [H0 _].
  destruct (Z.eqb_spec (SelfStake a s +₂₅₆ DelegatedTotal a s) 0); [done|]. intros [= <-]. cbn. split_and!; try done. lia.
Qed.

(** The active set is the top of the ranking: at most the cap, every member
    an unjailed candidate with the minimum self-stake and its recorded voting
    power, in order of power with the lower address first on ties, and no
    eligible candidate left out outranks a member. *)
Theorem ActiveSet_top m s :
  (length (ActiveSet m s) ≤ Z.to_nat (cfg_cap m))%nat ∧
  StronglySorted outranks (ActiveSet m s) ∧
  (∀ c, c ∈ ActiveSet m s →
     c_addr c ≠ 0 ∧ IsCandidate (c_addr c) s = true ∧ IsJailed (c_addr c) s = false ∧
     cfg_min m <= SelfStake (c_addr c) s ∧
     c_votingPower c = SelfStake (c_addr c) s +₂₅₆ DelegatedTotal (c_addr c) s ∧ 0 < c_votingPower c) ∧
  (∃ rest, ActiveSet m s ++ rest ≡ₚ candidate_list m s ∧
     ∀ c x, c ∈ ActiveSet m s → x ∈ rest → outranks c x).
Proof.
  set (l := merge_sort rank_le (candidate_list m s)).
  assert (StronglySorted outranks l) as Hs.
  { assert (StronglySorted rank_le l) as H by apply (StronglySorted_merge_sort rank_le).
    clearbody l. induction H as [|x l' _ IH Hx]; constructor; [done|].
    eapply Forall_impl; [exact Hx|]. intros y. apply rank_le_outranks. }
  change (ActiveSet m s) with (take (Z.to_nat (cfg_cap m)) l).
  assert (StronglySorted outranks (take (Z.to_nat (cfg_cap m)) l ++ drop (Z.to_nat (cfg_cap m)) l)) as Happ
    by (by rewrite take_drop).
  apply StronglySorted_app in Happ as (Hcross & Hst & _).
  split_and!; [rewrite length_take; lia|exact Hst| |].
  - intros c Hc. apply elem_of_take in Hc as (i & Hi & _). apply list_elem_of_lookup_2 in Hi.
    unfold l in Hi. rewrite merge_sort_Permutation in Hi. unfold candidate_list in Hi.
    apply list_elem_of_omap in Hi as (j & _ & Hj). apply eligible_spec in Hj as (<- & Hj). exact Hj.
  - exists (drop (Z.to_nat (cfg_cap m)) l). split; [rewrite take_drop; apply merge_sort_Permutation|exact Hcross].
Qed.
End Laws.

(** ** Re-bonding *)
Section Rebond.
Context `{C : Crypto} {S : Type} `{N : !NativeState S} `{L : !NativeStateLaws S}.
Context (A : list Address) (n : Z) (Hd : slots_distinct (in_play A n)).

Lemma Bond_registers m a x k s : a ∈ A → 0 <= k < n → n < 2 ^ 64 → x ≠ 0 → cfg_min m <= SelfStake a s +₂₅₆ x →
  IsCandidate a s = false → sget lenSlot s = k →
  let s' := (Bond m a x s).1 in
  SelfStake a s' = SelfStake a s +₂₅₆ x ∧ IsCandidate a s' = true ∧ sget lenSlot s' = k + 1 ∧ sget (idxSlot k) s' = a ∧
  (∀ y, in_play A n y → y ≠ selfSlot a → y ≠ candSlot a → y ≠ lenSlot → y ≠ idxSlot k → sget y s' = sget y s).
Proof.
  intros Ha Hk Hn Hx Hmin Hc Hlen. unfold Bond. rewrite (proj2 (Z.eqb_neq x 0)), (proj2 (Z.leb_le _ _)) by done.
  assert (∀ v, IsCandidate a (sset (selfSlot a) v s) = false) as Hc1.
  { intros v. unfold IsCandidate in *. reads Hd. done. }
  rewrite Hc1. cbn [negb andb fst]. unfold registerCandidate. rewrite Hc1, (sget_sset A n) by (done || play).
  rewrite decide_False, (sget_sset A n), decide_False, Hlen by (done || play). unfold hashToU256, u256ToHash.
  rewrite (u256_id k), (u64_id k), (u64_id (k + 1)) by (split; lia).
  assert (in_play A n (idxSlot k)) as Hidx by (cbn; lia).
  split_and!.
  - unfold SelfStake at 1, hashToU256. reads Hd. apply u256_id, u256_range.
  - unfold IsCandidate. reads Hd. done.
  - reads Hd. done.
  - reads Hd. done.
  - intros y Hy N1 N2 N3 N4. reads Hd. done.
Qed.

Lemma Unbond_all m a now s : a ∈ A → IsJailed a s = false → SelfStake a s ≠ 0 → 0 < cfg_min m →
  let s' := (Unbond m a (SelfStake a s) now s).1 in
  SelfStake a s' = 0 ∧ IsCandidate a s' = false ∧
  (∀ y, in_play A n y → y ≠ selfSlot a → y ≠ candSlot a → y ≠ unbondAmtSlot a → y ≠ unbondAtSlot a →
     sget y s' = sget y s).
Proof.
  intros Ha Hj Hnz Hmin. unfold Unbond. rewrite (proj2 (Z.eqb_neq _ _)), Hj, Z.ltb_irrefl, Z.sub_diag by done.
  change (u256 0) with 0. rewrite (proj2 (Z.ltb_lt 0 _)) by done. unfold PendingUnbond, u256ToHash. cbn [fst].
  split_and!.
  - unfold SelfStake at 1, hashToU256. reads Hd. done.
  - unfold IsCandidate. reads Hd. done.
  - intros y Hy N1 N2 N3 N4. reads Hd. done.
Qed.

(** Re-bonding breaks the validator set: a validator that bonds, unbonds
    everything and bonds again is listed twice in the candidate index, so the
    active set names it twice and the conversion to a consensus validator set
    is refused. *)
Theorem rebond_duplicates m a x now s :
  a ∈ A → is_addr a → a ≠ 0 → 2 < n < 2 ^ 64 → 0 < cfg_min m → cfg_min m <= x < 2 ^ 256 → 2 <= cfg_cap m →
  IsJailed a s = false → IsCandidate a s = false → SelfStake a s = 0 → DelegatedTotalShares a s = 0 →
  sget lenSlot s = 0 →
  let s1 := (Bond m a x s).1 in
  let s2 := (Unbond m a x now s1).1 in
  let s3 := (Bond m a x s2).1 in
  ActiveSet m s3 = [mkCandidate a x; mkCandidate a x] ∧
  is_ok (ActiveSetToValidatorSet (ActiveSet m s3)) = false.
Proof.
  intros Ha Hra Ha0 Hn Hmin Hx Hcap Hj Hc Hself Hsh Hlen. cbv zeta.
  destruct (Bond_registers m a x 0 s) as (B1 & B2 & B3 & B4 & B5); try done; try lia.
  { rewrite Hself, u256_id by (split; lia). lia. }
  rewrite Hself, Z.add_0_l, u256_id in B1 by (split; lia). set (s1 := (Bond m a x s).1) in *. clearbody s1.
  destruct (Unbond_all m a now s1) as (U1 & U2 & U3); try done; try lia.
  { unfold IsJailed in *. rewrite B5 by (play || done). done. }
  rewrite B1 in U1, U2, U3. set (s2 := (Unbond m a x now s1).1) in *. clearbody s2.
  destruct (Bond_registers m a x 1 s2) as (R1 & R2 & R3 & R4 & R5); try done; try lia.
  { rewrite U1, u256_id by (split; lia). lia. }
  { rewrite U3 by (play || done). exact B3. }
  rewrite U1, Z.add_0_l, u256_id in R1 by (split; lia). set (s3 := (Bond m a x s2).1) in *. clearbody s3.
  assert (sget (idxSlot 0) s3 = a) as I0.
  { rewrite R5, U3, ?B4 by (play || (intros [=])). done. }
  assert (IsJailed a s3 = false) as Hj3.
  { unfold IsJailed in *. rewrite R5, U3, B5 by (play || done). done. }
  assert (VotingPower a s3 = x) as Hvp.
  { unfold VotingPower, DelegatedTotal, sharesToWei. rewrite Hj3, R2. cbn [negb orb].
    assert (DelegatedTotalShares a s3 = 0) as ->.
    { unfold DelegatedTotalShares in *. rewrite R5, U3, B5 by (play || done). done. }
    cbn [Z.eqb]. rewrite R1, Z.add_0_r. apply u256_id. split; lia. }
  assert (eligible m s3 a = Some (mkCandidate a x)) as He.
  { unfold eligible. rewrite (proj2 (Z.eqb_neq a 0)), R2, Hj3, R1, (proj2 (Z.ltb_ge _ _)), Hvp by lia. cbn [negb orb].
    by rewrite (proj2 (Z.eqb_neq x 0)) by lia. }
  assert (candidate_list m s3 = [mkCandidate a x; mkCandidate a x]) as Hl.
  { unfold candidate_list. rewrite R3. change (Z.to_nat (u64 (hashToU256 (1 + 1)))) with 2%nat. cbn [seq omap list_omap].
    change (Z.of_nat 0) with 0. change (Z.of_nat 1) with 1. rewrite I0, R4, Z.mod_small by exact Hra. by rewrite He. }
  assert (ActiveSet m s3 = [mkCandidate a x; mkCandidate a x]) as Has.
  { unfold ActiveSet. rewrite Hl. rewrite take_ge.
    - by destruct (Permutation_length_2_inv (symmetry (merge_sort_Permutation rank_le [mkCandidate a x; mkCandidate a x]))).
    - rewrite (Permutation_length (merge_sort_Permutation _ _)). cbn. lia. }
  split; [exact Has|]. rewrite Has. destruct (ActiveSetToValidatorSet _) as [vs|] eqn:Hvs; [|done]. exfalso.
  apply ActiveSetToValidatorSet_wf in Hvs as [(_ & _ & Hnd & _) _]. revert Hnd.
  unfold candidate_validator, powerFromU256. cbn [map concat c_addr c_votingPower].
  rewrite (proj2 (Z.eqb_neq a 0)), (proj2 (Z.eqb_neq x 0)), (proj2 (Z.leb_gt x 0)) by lia.
  assert (((if x <? 2 ^ 64 then x else 2 ^ 64 - 1) =? 0) = false) as -> by (apply Z.eqb_neq; case_match; lia).
  cbn. rewrite NoDup_cons. set_solver.
Qed.
End Rebond.

(** ** Evaluation on concrete states *)
Section Enumeration.
Context `{C : Crypto}.

Definition slots_of (A : list Address) (n : nat) : list slot :=
  lenSlot :: map (λ i, idxSlot (Z.of_nat i)) (seq 0 n)
  ++ concat (map (λ a, [selfSlot a; jailedSlot a; candSlot a; unbondAmtSlot a; unbondAtSlot a; delTotSlot a;
                        commSlot a; delRateSlot a; rewIdxSlot a]) A)
  ++ concat (map (λ v, concat (map (λ d, [delSlot v d; delUnbondAmtSlot v d; delUnbondAtSlot v d;
                                          rewDebtSlot v d; rewPendSlot v d]) A)) A).

Lemma elem_of_concat_map {X Y} (f : X → list Y) (l : list X) x y : x ∈ l → y ∈ f x → y ∈ concat (map f l).
Proof.
  induction l as [|z l IH]; intros Hx Hy; [by apply elem_of_nil in Hx|]. cbn. rewrite elem_of_app.
  apply elem_of_cons in Hx as [->|Hx]; [by left|right; by apply IH].
Qed.

Lemma slots_of_complete A n x : in_play A (Z.of_nat n) x → x ∈ slots_of A n.
Proof.
  unfold slots_of. rewrite elem_of_cons, !elem_of_app. destruct x; cbn [in_play]; intros H;
    try (right; right; left; eapply elem_of_concat_map; [exact H|set_solver]);
    try (lazymatch type of H with _ ∈ _ ∧ _ ∈ _ =>
           right; right; right; destruct H as [H1 H2]; eapply elem_of_concat_map; [exact H1|];
           eapply elem_of_concat_map; [exact H2|set_solver] end).
  - by left.
  - right. left. apply list_elem_of_fmap. exists (Z.to_nat i). split; [f_equal; lia|]. apply elem_of_seq. lia.
Qed.

(** Distinct hashes over the enumeration are distinct slots in play. *)
Lemma slots_distinct_enum A n : NoDup (map slotHash (slots_of A n)) → slots_distinct (in_play A (Z.of_nat n)).
Proof.
  intros Hnd x y Hx%slots_of_complete Hy%slots_of_complete Heq.
  apply list_elem_of_lookup in Hx as [i Hi], Hy as [j Hj].
  assert (i = j) as ->; [|congruence]. eapply NoDup_lookup; [exact Hnd| |].
  - rewrite list_lookup_fmap, Hi. reflexivity.
  - rewrite list_lookup_fmap, Hj. apply (f_equal Some). symmetry. exact Heq.
Qed.
End Enumeration.

Section Witness.
Local Existing Instances toy_crypto toy_crypto_laws toy_codec.

Lemma toy_slots_distinct : slots_distinct (in_play [5; 6] (Z.of_nat 3)).
Proof. apply slots_distinct_enum. apply (bool_decide_unpack _). vm_compute. exact I. Qed.

Definition sample_module : StakingModule := mkStakingModule 10 100 1000 60.
Definition empty_state : StateDB := New ∅.

Lemma empty_ok : ns_ok empty_state.
Proof. reflexivity. Qed.

Lemma empty_sget x : sget x empty_state = 0.
Proof. unfold sget. cbn [ns_GetState StateDB_native]. rewrite (proj1 (GetState_spec _ _ _)). reflexivity. Qed.

(** 100 wei of self-stake, 50 shares delegated by 6. *)
Definition staked_state : StateDB :=
  sset (delTotSlot 5) 50 (sset (delSlot 5 6) 50 (sset (selfSlot 5) 100 empty_state)).

Lemma staked_ok : ns_ok staked_state.
Proof. unfold staked_state. apply sset_ok, sset_ok, sset_ok, empty_ok. Qed.

Lemma staked_balance a : ns_GetBalance a staked_state = 0.
Proof.
  unfold staked_state. rewrite !balance_sset by auto using sset_ok, empty_ok.
  cbn [ns_GetBalance StateDB_native]. rewrite (proj1 (GetBalance_spec _ _)). reflexivity.
Qed.

Lemma staked_self : SelfStake 5 staked_state = 100.
Proof.
  unfold SelfStake, staked_state. rewrite !(sget_sset _ _ _ _ _ _ toy_slots_distinct) by (cbn; set_solver).
  reflexivity.
Qed.

Lemma staked_unjailed : IsJailed 5 staked_state = false.
Proof.
  unfold IsJailed, staked_state. rewrite !(sget_sset _ _ _ _ _ _ toy_slots_distinct) by (cbn; set_solver).
  rewrite empty_sget. reflexivity.
Qed.

Lemma income_conserved_witness :
  ∃ pool, 0 <= pool <= 7 ∧
    ns_GetBalance 5 (DistributeProposerIncome 5 7 true staked_state) = 7 - pool ∧
    ns_GetBalance StakingModuleAddr (DistributeProposerIncome 5 7 true staked_state) = pool.
Proof.
  destruct (income_conserved 5 7 true staked_state) as (pool & H1 & H2 & H3 & _ & _);
    [apply staked_ok|split; [discriminate|reflexivity]|discriminate
    |rewrite staked_balance; split; [discriminate|reflexivity]|rewrite staked_balance; split; [discriminate|reflexivity]
    |rewrite staked_balance; reflexivity|rewrite staked_balance; reflexivity|].
  rewrite staked_balance in H2, H3. exists pool. split; [exact H1|]. split; [exact H2|exact H3].
Defined.

Lemma staked_pending : PendingUnbond 5 staked_state = (0, 0).
Proof.
  unfold PendingUnbond, staked_state. rewrite !(sget_sset _ _ _ _ _ _ toy_slots_distinct) by (cbn; set_solver).
  rewrite !empty_sget. reflexivity.
Qed.

Lemma Unbond_Withdraw_witness :
  (Unbond sample_module 5 40 1000 staked_state).2 = Ok tt ∧
  (Withdraw 5 1060 (Unbond sample_module 5 40 1000 staked_state).1).2 = Ok 40.
Proof.
  pose proof (Unbond_Withdraw [5; 6] (Z.of_nat 3) toy_slots_distinct sample_module 5 40 1000 staked_state) as H.
  rewrite staked_pending, staked_self, staked_unjailed in H.
  destruct (Unbond sample_module 5 40 1000 staked_state) as [s1 r].
  destruct H as (H1 & _ & _ & _ & H5); [set_solver|reflexivity|split; [reflexivity|discriminate]|reflexivity
    |discriminate|discriminate|reflexivity|].
  split; [exact H1|]. apply (H5 1060). discriminate.
Defined.

Lemma SlashAndJail_spec_witness :
  SelfStake 5 (SlashAndJail 5 staked_state).1 = 0 ∧ VotingPower 5 (SlashAndJail 5 staked_state).1 = 0.
Proof.
  pose proof (SlashAndJail_spec [5; 6] (Z.of_nat 3) toy_slots_distinct 5 staked_state) as H.
  rewrite staked_self, staked_unjailed, staked_balance in H.
  destruct (SlashAndJail 5 staked_state) as [s1 r].
  destruct H as (_ & _ & H3 & H4 & _); [set_solver|reflexivity|reflexivity|apply staked_ok|split; [discriminate|reflexivity]|].
  split; [exact H4|exact H3].
Defined.

Lemma empty_shares_inv : shares_inv [5; 6] empty_state.
Proof.
  split; [apply empty_ok|]. intros v _. unfold DelegatedTotalShares, shares_of, DelegationShares. cbn [map].
  rewrite !empty_sget. reflexivity.
Qed.

Lemma toy_members : 5 ∈ [5; 6] ∧ 6 ∈ [5; 6] ∧ NoDup [5; 6].
Proof. split_and!; [set_solver|set_solver|]. repeat constructor; set_solver. Qed.

Lemma empty_delegation : DelegatedTotalShares 5 empty_state + weiToShares 5 40 empty_state < 2 ^ 256.
Proof. unfold DelegatedTotalShares, weiToShares, DelRate. rewrite !empty_sget. reflexivity. Qed.

Lemma delegation_shares_invariant_witness :
  shares_inv [5; 6] (Delegate 5 6 40 empty_state).1 ∧
  (Undelegate sample_module 5 6 40 0 (Delegate 5 6 40 empty_state).1).2 ≠ Err "staking: delegated total underflow".
Proof.
  destruct toy_members as (M5 & M6 & Hnd).
  destruct (delegation_shares_invariant [5; 6] (Z.of_nat 3) toy_slots_distinct Hnd
    sample_module empty_state (Delegate 5 6 40 empty_state).1 empty_shares_inv
    (rtc_once _ _ (st_Delegate [5; 6] (Z.of_nat 3) sample_module empty_state 5 6 40 M5 M6 empty_delegation)))
    as [H1 H2].
  exact (conj H1 (H2 5 6 40 0 M5 M6)).
Defined.

Lemma rebond_duplicates_witness :
  is_ok (ActiveSetToValidatorSet (ActiveSet sample_module
    (Bond sample_module 5 20 (Unbond sample_module 5 20 0 (Bond sample_module 5 20 empty_state).1).1).1)) = false.
Proof.
  apply (rebond_duplicates [5; 6] (Z.of_nat 3) toy_slots_distinct sample_module 5 20 0 empty_state);
    unfold IsJailed, IsCandidate, SelfStake, DelegatedTotalShares; rewrite ?empty_sget; try reflexivity; try discriminate;
    try set_solver; split; reflexivity || discriminate.
Defined.
End Witness.
