(* ===== verification/StakingRevert.v ===== *)
(** * Staking calls inside reverted frames

    The module writes its storage with [StateDB.SetState], which keeps no
    journal entry, while the value of the call is moved with journaled
    balance changes.  A call frame that bonds and then reverts therefore gets
    its money back and keeps the stake. *)
From S2P Require Import Prelude Types Toy Smt StateDB StateRevert StateCommit ValidatorSet NativeState Staking StakingProps.

Section Frames.
Context `{C : Crypto} `{D : AccountCodec}.

Lemma change_balance_journal a f s :
  jentries (change_balance a f s).1 = balanceChange a (balance_of s a) :: jentries s ∧
  revisions (change_balance a f s).1 = revisions s.
Proof.
  unfold change_balance. pose proof (noteWrite_view (AccountKey a) s) as Hv.
  pose proof (GetOrNewAccount_spec a (noteWrite (AccountKey a) s)) as Hg.
  destruct (GetOrNewAccount _ _) as [s1 acc]. destruct Hg as (Hacc & _ & _ & Hq & _).
  rewrite (live_or_new_view a _ _ Hv) in Hacc. rewrite <-live_balance, <-Hacc.
  destruct (rest_others _ _ Hq) as (_ & Hr & Hj). destruct (rest_others _ _ (sm_rest _ _ Hv)) as (_ & Hr0 & Hj0).
  destruct (journal_append_id (balanceChange a (Balance acc)) s1) as (_ & _ & _ & Hr1 & Hj1). cbn [fst].
  split.
  - change (jentries (journal_append (balanceChange a (Balance acc)) s1) = balanceChange a (Balance acc) :: jentries s).
    by rewrite Hj1, Hj, Hj0.
  - change (revisions (journal_append (balanceChange a (Balance acc)) s1) = revisions s). by rewrite Hr1, Hr, Hr0.
Qed.

Lemma SetState_rest a k v s : rest (SetState a k v s) = rest s.
Proof.
  unfold SetState. pose proof (sm_rest _ _ (noteWrite_view (StorageKeyAccess a k) s)) as Hn.
  pose proof (GetOrNewAccount_spec a (noteWrite (StorageKeyAccess a k) s)) as Hg.
  destruct (GetOrNewAccount _ _) as [s1 acc]. destruct Hg as (_ & _ & _ & Hq & _). cbn [fst].
  change (rest (put_storage a k v s1)) with (rest s1). by rewrite Hq.
Qed.

Lemma Bond_rest m a x (s : StateDB) : rest (Bond m a x s).1 = rest s.
Proof.
  unfold Bond, registerCandidate, sset. cbn [ns_SetState StateDB_native]. repeat case_match; cbn [fst];
    rewrite ?SetState_rest; reflexivity.
Qed.

Lemma RevertToSnapshot_frame es s s1 :
  jentries s1 = es ++ jentries s → revisions s1 = revisions (Snapshot s).1 →
  RevertToSnapshot (Snapshot s).2 s1 =
    Some (set_validRevisions (validRevisions s) (journal_revert (length es) s1)).
Proof.
  intros Hj Hr. unfold RevertToSnapshot. unfold revisions in Hr. injection Hr as Hv _.
  rewrite Hv. cbn [Snapshot fst snd]. rewrite find_revision_app. cbn [find_revision].
  rewrite Z.eqb_refl, Hj, app_nil_r, length_app, Nat.add_sub. done.
Qed.

Lemma storage_GetState (s : StateDB) a k : ns_GetState a k s = storage_of s a k.
Proof. apply GetState_spec. Qed.

Lemma balance_GetBalance (s : StateDB) a : ns_GetBalance a s = balance_of s a.
Proof. apply GetBalance_spec. Qed.

(** Undoing a balance change restores the balance and touches no storage. *)
Lemma revert_balance_spec a p s : no_suicides s →
  let s' := revert_entry (balanceChange a p) s in
  no_suicides s' ∧ (∀ b, balance_of s' b = if decide (a = b) then p else balance_of s b) ∧
  (∀ b k, storage_of s' b k = storage_of s b k).
Proof.
  intros Hs. pose proof (revert_account_entry (balanceChange a p) a s eq_refl) as Hup. cbv zeta. split_and!.
  - by eapply account_update_suicides.
  - intros b. rewrite (account_update_balance _ _ _ _ b Hs Hup). done.
  - apply Hup.
Qed.

(** A transfer from [a] to [b] inside a fresh frame, whatever storage is
    written after it without a journal entry: the revert of the frame gives
    both balances back and keeps the storage. *)
Lemma transfer_then_revert a b x s t : no_suicides s → a ≠ b →
  rest t = rest (AddBalancePrev b x (SubBalance a x (Snapshot s).1).1).1 →
  ∃ s', RevertToSnapshot (Snapshot s).2 t = Some s' ∧ no_suicides s' ∧
    balance_of s' a = balance_of s a ∧ balance_of s' b = balance_of s b ∧
    (∀ c, c ≠ a → c ≠ b → balance_of s' c = balance_of t c) ∧ (∀ c k, storage_of s' c k = storage_of t c k).
Proof.
  intros Hs Hne Hrest. unfold AddBalancePrev, SubBalance in Hrest. set (s1 := (Snapshot s).1) in Hrest.
  destruct (change_balance_journal a (λ p, p -₂₅₆ x) s1) as [Hj2 Hr2].
  pose proof (change_balance_update a (λ p, p -₂₅₆ x) s1) as Hu2.
  set (s2 := (change_balance a _ s1).1) in *. clearbody s2.
  destruct (change_balance_journal b (λ p, p +₂₅₆ x) s2) as [Hj3 Hr3].
  pose proof (change_balance_update b (λ p, p +₂₅₆ x) s2) as Hu3.
  set (s3 := (change_balance b _ s2).1) in *. clearbody s3.
  assert (no_suicides s2) as Hs2 by (eapply account_update_suicides; [exact Hs|exact Hu2]).
  assert (no_suicides s3) as Hs3 by (by eapply account_update_suicides).
  destruct (rest_others _ _ Hrest) as (Ho4 & Hr4 & Hj4).
  assert (no_suicides t) as Hs4 by (unfold no_suicides; by rewrite (proj2 (others_db _ _ Ho4))).
  eexists. split.
  { apply (RevertToSnapshot_frame [balanceChange b (balance_of s2 b); balanceChange a (balance_of s1 a)]).
    - by rewrite Hj4, Hj3, Hj2.
    - by rewrite Hr4, Hr3, Hr2. }
  cbn [length journal_revert]. rewrite Hj4, Hj3. cbn [jentries set_jentries]. rewrite Hj2.
  set (t1 := revert_entry (balanceChange b _) t).
  destruct (revert_balance_spec b (balance_of s2 b) t Hs4) as (T1 & B1 & St1). fold t1 in T1, B1, St1.
  set (t1' := set_jentries _ t1).
  destruct (revert_balance_spec a (balance_of s1 a) t1' T1) as (T2 & B2 & St2).
  set (t2 := revert_entry (balanceChange a _) t1') in *.
  match goal with |- no_suicides ?u ∧ _ =>
    change (storage_of u) with (storage_of t2); change (balance_of u) with (balance_of t2);
    change (no_suicides u) with (no_suicides t2) end.
  change (storage_of t1') with (storage_of t1) in St2. change (balance_of t1') with (balance_of t1) in B2.
  split_and!; [done|by rewrite B2, decide_True| | |intros; by rewrite St2, St1].
  - rewrite B2, decide_False, B1, decide_True by done.
    by rewrite (account_update_balance _ _ s1 s2 b Hs Hu2), decide_False by done.
  - intros c Hca Hcb. by rewrite B2, decide_False, B1, decide_False by done.
Qed.

(** What a bond adds to the stake. *)
Lemma Bond_stake m a x n (s : StateDB) :
  slots_distinct (in_play [a] n) → u64 (hashToU256 (sget lenSlot s)) < n → x ≠ 0 → 0 <= x → SelfStake a s + x < 2 ^ 256 →
  (Bond m a x s).2 = Ok tt ∧ SelfStake a (Bond m a x s).1 = SelfStake a s + x.
Proof.
  intros Hd Hlen Hx0 Hx Hov.
  pose proof (u256_range (sget (selfSlot a) s)) as [H0 _]. change (u256 (sget (selfSlot a) s)) with (SelfStake a s) in H0.
  unfold Bond. rewrite (proj2 (Z.eqb_neq x 0)) by done. rewrite u256_id by (split; lia).
  unfold u256ToHash. set (s4 := sset (selfSlot a) _ s).
  assert (SelfStake a s4 = SelfStake a s + x) as H4.
  { unfold SelfStake at 1, hashToU256. subst s4. rewrite (sget_sset [a] n) by (done || cbn; set_solver).
    rewrite decide_True by done. apply u256_id. split; lia. }
  assert (sget lenSlot s4 = sget lenSlot s) as Hl4.
  { subst s4. rewrite (sget_sset [a] n) by (done || cbn; set_solver). by rewrite decide_False. }
  clearbody s4. destruct (_ && _); [|done]. cbn [fst snd]. split; [done|]. unfold registerCandidate.
  destruct (IsCandidate a s4); [exact H4|].
  assert (a ∈ [a]) as Ha by set_solver. pose proof (u64_range (hashToU256 (sget lenSlot s))) as [Hu0 _].
  assert (sget lenSlot (sset (candSlot a) 1 s4) = sget lenSlot s) as Hl5 by (reads Hd; exact Hl4).
  rewrite Hl5. unfold SelfStake. reads Hd. exact H4.
Qed.

(** A transfer moves no storage. *)
Lemma transfer_slots a b x s y : sget y (AddBalancePrev b x (SubBalance a x s).1).1 = sget y s.
Proof.
  unfold sget. rewrite !storage_GetState. unfold AddBalancePrev, SubBalance.
  destruct (change_balance_update a (λ p, p -₂₅₆ x) s) as (_ & S2 & _).
  set (s2 := (change_balance a _ s).1) in *. clearbody s2.
  destruct (change_balance_update b (λ p, p +₂₅₆ x) s2) as (_ & S3 & _). by rewrite S3, S2.
Qed.

(** C38. A bond survives the revert of its call frame: the caller's and the
    module's balances are restored, the self-stake is not. *)
Theorem bond_survives_revert m a x n s :
  no_suicides s → a ≠ StakingModuleAddr → slots_distinct (in_play [a] n) →
  u64 (hashToU256 (sget lenSlot s)) < n → x ≠ 0 → 0 <= x → SelfStake a s + x < 2 ^ 256 →
  let s3 := (AddBalancePrev StakingModuleAddr x (SubBalance a x (Snapshot s).1).1).1 in
  ∃ s', RevertToSnapshot (Snapshot s).2 (Bond m a x s3).1 = Some s' ∧
    balance_of s' a = balance_of s a ∧ balance_of s' StakingModuleAddr = balance_of s StakingModuleAddr ∧
    SelfStake a s' = SelfStake a s + x.
Proof.
  intros Hs Hne Hd Hlen Hx0 Hx Hov. cbv zeta. set (s3 := (AddBalancePrev _ _ _).1).
  assert (∀ y, sget y s3 = sget y s) as Hsl
    by (intros y; subst s3; rewrite transfer_slots; unfold sget; by rewrite !storage_GetState).
  assert (SelfStake a s3 = SelfStake a s) as Hss by (unfold SelfStake; by rewrite Hsl).
  destruct (Bond_stake m a x n s3) as [_ Hself]; [done|by rewrite Hsl|done..|by rewrite Hss|].
  destruct (transfer_then_revert a StakingModuleAddr x s (Bond m a x s3).1 Hs Hne (Bond_rest _ _ _ _))
    as (s' & Hrev & _ & Ha & Hm & _ & Hst).
  exists s'. split_and!; [done..|]. rewrite <-Hss, <-Hself. unfold SelfStake, sget. by rewrite !storage_GetState, Hst.
Qed.
End Frames.

(** ** Evaluation on a concrete state *)
Section Witness.
Local Existing Instances toy_crypto toy_codec.

Lemma toy_slots_of_one : slots_distinct (in_play [5] (Z.of_nat 1)).
Proof. apply slots_distinct_enum. apply (bool_decide_unpack _). vm_compute. exact I. Qed.

Lemma bond_survives_revert_witness :
  ∃ s', RevertToSnapshot 0 (Bond sample_module 5 20
      (AddBalancePrev StakingModuleAddr 20 (SubBalance 5 20 (Snapshot empty_state).1).1).1).1 = Some s' ∧
    balance_of s' 5 = 0 ∧ SelfStake 5 s' = 20.
Proof.
  destruct (bond_survives_revert sample_module 5 20 (Z.of_nat 1) empty_state) as (s' & H1 & H2 & _ & H3);
    [reflexivity|discriminate|exact toy_slots_of_one|rewrite empty_sget; reflexivity|discriminate|discriminate
    |unfold SelfStake; rewrite empty_sget; reflexivity|].
  exists s'. split; [exact H1|]. split; [exact H2|]. rewrite H3. unfold SelfStake. rewrite empty_sget. reflexivity.
Defined.
End Witness.
