(* ===== verification/NativeExec.v ===== *)
(** * Native transaction execution

    Models [core/native/executor.go]: [ApplyDewTx] over the state interface of
    [NativeState], with the module payload, the access-list test, the flat fee
    and the proposer's income.  [Finalise] ends every successful transaction
    and is part of the interface here. *)
From S2P Require Import Prelude Types Toy DewTx StateDB StateRevert StateCommit NativeState Staking StakingProps.

Definition PayloadEmpty : Z := 0x00.
Definition PayloadCredit : Z := 0x01.

Record Result : Type := mkResult {
  FeePaid : Z;
  Failed : bool;
  ResultErr : option string;
  Touched : list Address;
}.

Record Executor : Type := mkExecutor { feeSink : Address; stakingEnabled : bool }.

Definition NewExecutor (sink : Address) : Executor := mkExecutor sink false.
Definition EnableStaking (v : bool) (e : Executor) : Executor := mkExecutor (feeSink e) v.

Definition failResult (err : string) : Result := mkResult 0 true (Some err) [].

(** [StateDB.Finalise(true)] as the executor uses it. *)
Class NativeFinal (S : Type) : Type := { ns_Finalise : S → S }.

Class NativeFinalLaws (S : Type) `{N : !NativeState S} `{L : !NativeStateLaws S} `{F : !NativeFinal S} : Prop := {
  final_ok : ∀ s, ns_ok s → ns_ok (ns_Finalise s);
  final_keeps : ∀ s b, ns_ok s → ns_GetBalance b s ≠ 0 ∨ ns_GetNonce b s ≠ 0 →
    ns_GetBalance b (ns_Finalise s) = ns_GetBalance b s
    ∧ ns_GetNonce b (ns_Finalise s) = ns_GetNonce b s;
}.

(** The [allowed] set and its test [require]. *)
Definition allowed (e : Executor) (tx : DewTx) : list Address :=
  dtx_Sender tx :: dtx_Receiver tx :: dtx_AccessList tx ++ [feeSink e].

Definition require (e : Executor) (tx : DewTx) (addr : Address) : res unit :=
  throw_if (negb (bool_decide (addr ∈ allowed e tx))) "native: access list incomplete".

(** The optional module: the secondary credit of the payload. *)
Definition parse_payload (e : Executor) (tx : DewTx) : res (option (Address * Z)) :=
  match dtx_Payload tx with
  | [] => Ok None
  | tag :: _ =>
      if tag =? PayloadCredit then
        if negb (length (dtx_Payload tx) =? 1 + 20 + 32)%nat then
          Err "native: invalid credit payload length"
        else
          let a := of_be (slice 1 21 (dtx_Payload tx)) in
          let amt := of_be (slice 21 53 (dtx_Payload tx)) in
          let? _ := require e tx a in Ok (Some (a, amt))
      else Err "native: unknown payload module"
  end.

(** The module, then the sender and the receiver. *)
Definition check_access (e : Executor) (tx : DewTx) : res (option (Address * Z)) :=
  let? extra := parse_payload e tx in
  let? _ := require e tx (dtx_Sender tx) in
  let? _ := require e tx (dtx_Receiver tx) in
  Ok extra.

(** Amount + extra + fee, each [uint256.Int.Add] modulo 2^256. *)
Definition total_debit (amount : Z) (extra : option (Address * Z)) (fee : Z) : Z :=
  let need := match extra with Some (_, x) => amount +₂₅₆ x | None => amount end in
  need +₂₅₆ fee.

Definition effective_fee (tx : DewTx) : Z :=
  if dtx_Fee tx =? 0 then DefaultDewTxFeeWei else dtx_Fee tx.

Definition MinDewTxFeeWei : Z := DefaultDewTxFeeWei.

Section Exec.
Context `{C : Crypto} {S : Type} `{N : !NativeState S} `{F : !NativeFinal S}.

(** The writes of a transaction, up to [Finalise]. *)
Definition mutate (e : Executor) (tx : DewTx) (amount : Z) (extra : option (Address * Z)) (fee : Z)
    (s : S) : S :=
  let s := ns_SubBalance (dtx_Sender tx) (total_debit amount extra fee) s in
  let s := if amount =? 0 then s else ns_AddBalance (dtx_Receiver tx) amount s in
  let s := match extra with
           | Some (a, x) => if x =? 0 then s else ns_AddBalance a x s
           | None => s
           end in
  let s := if 0 <? fee then DistributeProposerIncome (feeSink e) fee (stakingEnabled e) s else s in
  ns_SetNonce (dtx_Sender tx) (dtx_Nonce tx +₆₄ 1) s.

Definition ApplyDewTx (e : Executor) (tx : option DewTx) (s : S) : S * res Result :=
  match tx with
  | None => (s, Err "native: nil tx")
  | Some tx =>
      if negb (dtx_Version tx =? DewTxVersion) then (s, Err "native: unsupported version") else
      let amount := default 0 (dtx_Amount tx) in
      let fee := effective_fee tx in
      if fee <? MinDewTxFeeWei then (s, Err "native: fee below minimum") else
      if negb (ns_GetNonce (dtx_Sender tx) s =? dtx_Nonce tx) then (s, Err "native: bad nonce") else
      match check_access e tx with
      | Err err => (s, Ok (failResult err))
      | Ok extra =>
          if ns_GetBalance (dtx_Sender tx) s <? total_debit amount extra fee then
            (s, Err "native: insufficient balance")
          else
            (ns_Finalise (mutate e tx amount extra fee s),
             Ok (mkResult fee false None
                   (dtx_Sender tx :: dtx_Receiver tx :: feeSink e
                      :: match extra with Some (a, _) => [a] | None => [] end)))
      end
  end.
End Exec.

(** ** Supply

    The wei held by a set of accounts. *)
Section Supply.
Context `{C : Crypto} {S : Type} `{N : !NativeState S} `{L : !NativeStateLaws S}.

Definition supply (A : list Address) (s : S) : Z := sumZ (map (λ b, ns_GetBalance b s) A).
Definition balances_ok (A : list Address) (s : S) : Prop := ∀ b, b ∈ A → 0 <= ns_GetBalance b s.

Lemma supply_ext A s s' : (∀ b, b ∈ A → ns_GetBalance b s' = ns_GetBalance b s) → supply A s' = supply A s.
Proof using.
  clear. intros H. unfold supply. f_equal. apply map_ext_in. intros b Hb. apply H. by apply list_elem_of_In.
Qed.

Lemma supply_update A a s s' : NoDup A → a ∈ A →
  (∀ b, b ≠ a → ns_GetBalance b s' = ns_GetBalance b s) →
  supply A s' = supply A s - ns_GetBalance a s + ns_GetBalance a s'.
Proof using.
  clear. intros Hnd Ha H. destruct (list_elem_of_split _ _ Ha) as (l1 & l2 & ->).
  apply NoDup_app in Hnd as (_ & Hd & Hnd). apply NoDup_cons in Hnd as [Hn2 _].
  unfold supply. rewrite !map_app, !sumZ_app. cbn [map]. rewrite !sumZ_cons.
  fold (supply l1 s) (supply l1 s') (supply l2 s) (supply l2 s').
  rewrite (supply_ext l1 s s'), (supply_ext l2 s s'); [lia|..]; intros b Hb; apply H.
  - intros ->. contradiction.
  - intros ->. apply (Hd a Hb). left.
Qed.

Lemma balance_le_supply A s a : balances_ok A s → a ∈ A → ns_GetBalance a s <= supply A s.
Proof using.
  clear. intros Hok Ha. destruct (list_elem_of_split _ _ Ha) as (l1 & l2 & ->).
  unfold supply. rewrite map_app, sumZ_app. cbn [map]. rewrite sumZ_cons.
  assert (∀ l, (∀ b, b ∈ l → b ∈ l1 ++ a :: l2) → 0 <= sumZ (map (λ b, ns_GetBalance b s) l)) as Hpos.
  { intros l Hl. apply sumZ_nonneg, Forall_forall. intros x. rewrite list_elem_of_fmap.
    intros (b & -> & Hb). by apply Hok, Hl. }
  pose proof (Hpos l1) as H1. pose proof (Hpos l2) as H2.
  assert (0 <= sumZ (map (λ b, ns_GetBalance b s) l1)) by (apply H1; set_solver).
  assert (0 <= sumZ (map (λ b, ns_GetBalance b s) l2)) by (apply H2; set_solver). lia.
Qed.

(** Two states with the same balances outside [A], both sane on [A], that
    differ by [d] in supply. *)
Definition moves (A : list Address) (d : Z) (s s' : S) : Prop :=
  ns_ok s' ∧ balances_ok A s' ∧ supply A s' = supply A s + d
  ∧ ∀ b, b ∉ A → ns_GetBalance b s' = ns_GetBalance b s.

Lemma moves_refl A s : ns_ok s → balances_ok A s → moves A 0 s s.
Proof using. intros. split_and!; [done|done|lia|done]. Qed.

Lemma moves_trans A d e s1 s2 s3 : moves A d s1 s2 → moves A e s2 s3 → moves A (d + e) s1 s3.
Proof using.
  intros (_ & _ & E1 & F1) (Hok & Hb & E2 & F2). split_and!; [done|done|lia|].
  intros b Hn. by rewrite F2, F1.
Qed.

Lemma moves_add A a x s : NoDup A → a ∈ A → ns_ok s → balances_ok A s → 0 <= x →
  supply A s + x < 2 ^ 256 → moves A x s (ns_AddBalance a x s).
Proof using L.
  intros Hnd Ha Hs Hb Hx Hlt. pose proof (balance_le_supply A s a Hb Ha) as Hle. pose proof (Hb a Ha) as H0.
  assert (ns_GetBalance a (ns_AddBalance a x s) = ns_GetBalance a s + x) as Ea.
  { rewrite balance_add, decide_True by done. apply u256_add; lia. }
  assert (∀ b, b ≠ a → ns_GetBalance b (ns_AddBalance a x s) = ns_GetBalance b s) as Hf.
  { intros b Hne. by rewrite balance_add, decide_False by done. }
  split_and!; [by apply ok_add| | |].
  - intros b Hin. destruct (decide (b = a)) as [->|Hne]; [lia|]. rewrite Hf by done. by apply Hb.
  - rewrite (supply_update A a s _ Hnd Ha Hf). lia.
  - intros b Hn. apply Hf. by intros ->.
Qed.

Lemma moves_sub A a x s : NoDup A → a ∈ A → ns_ok s → balances_ok A s → 
  0 <= x <= ns_GetBalance a s → supply A s < 2 ^ 256 → moves A (- x) s (ns_SubBalance a x s).
Proof using L.
  intros Hnd Ha Hs Hb Hx Hlt. pose proof (balance_le_supply A s a Hb Ha) as Hle.
  assert (ns_GetBalance a (ns_SubBalance a x s) = ns_GetBalance a s - x) as Ea.
  { rewrite balance_sub, decide_True by done. apply u256_sub; [unfold is_u256|]; lia. }
  assert (∀ b, b ≠ a → ns_GetBalance b (ns_SubBalance a x s) = ns_GetBalance b s) as Hf.
  { intros b Hne. by rewrite balance_sub, decide_False by done. }
  split_and!; [by apply ok_sub| | |].
  - intros b Hin. destruct (decide (b = a)) as [->|Hne]; [lia|]. rewrite Hf by done. by apply Hb.
  - rewrite (supply_update A a s _ Hnd Ha Hf). lia.
  - intros b Hn. apply Hf. by intros ->.
Qed.

Lemma moves_same_balance A s s' : ns_ok s' → balances_ok A s →
  (∀ b, ns_GetBalance b s' = ns_GetBalance b s) → moves A 0 s s'.
Proof using.
  intros Hs Hb H. split_and!; [done| | |done].
  - intros b Hin. rewrite H. by apply Hb.
  - rewrite (supply_ext A s s'); [lia|done].
Qed.

Lemma IncreaseRewardIndex_ok v d sh s : ns_ok s → ns_ok (IncreaseRewardIndex v d sh s).
Proof using. intros Hs. unfold IncreaseRewardIndex. repeat case_match; eauto with native. Qed.

(** The proposer's income enters the supply in full. *)
Lemma moves_income A proposer amount enabled s : NoDup A → proposer ∈ A → StakingModuleAddr ∈ A →
  ns_ok s → balances_ok A s → is_u256 amount → supply A s + amount < 2 ^ 256 →
  moves A amount s (DistributeProposerIncome proposer amount enabled s).
Proof using L.
  intros Hnd Hp Hm Hs Hb Ha Hlt. assert (0 <= amount) as H0 by apply Ha.
  assert (moves A amount s (ns_AddBalance proposer amount s)) as Hall by by apply moves_add.
  unfold DistributeProposerIncome. destruct (Z.eqb_spec amount 0) as [->|Hnz]; [by apply moves_refl|].
  destruct enabled; [|exact Hall]. cbn [negb]. destruct (_ =? 0); [exact Hall|]. clear Hall.
  set (v := split_income _ _ _ _). pose proof (split_income_le amount (SelfStake proposer s)
    (DelegatedTotal proposer s) (CommissionBps proposer s) H0) as Hv. fold v in Hv. clearbody v.
  rewrite u256_sub by done. set (s1 := if v =? 0 then s else ns_AddBalance proposer v s).
  assert (moves A v s s1) as Hs1.
  { subst s1. destruct (Z.eqb_spec v 0) as [->|_]; [by apply moves_refl|]. apply moves_add; try done; lia. }
  clearbody s1. assert (supply A s1 = supply A s + v) as Esup by apply Hs1.
  assert (∀ a, a ∈ A → moves A (amount - v) s1 (ns_AddBalance a (amount - v) s1)) as Hadd.
  { intros a Hin. destruct Hs1 as (? & ? & _). apply moves_add; try done; lia. }
  destruct (Z.eqb_spec (amount - v) 0) as [Hd|Hd]; [by replace amount with v by lia|].
  replace amount with (v + (amount - v)) at 1 by lia. apply (moves_trans A _ _ _ _ _ Hs1).
  destruct (_ =? 0); [by apply Hadd|].
  replace (amount - v) with ((amount - v) + 0) at 1 by lia.
  apply (moves_trans A _ _ _ _ _ (Hadd _ Hm)). destruct (Hadd _ Hm) as (Hok & Hbal & _).
  apply moves_same_balance; [by apply IncreaseRewardIndex_ok|done|].
  intros b. by apply IncreaseRewardIndex_balance.
Qed.
End Supply.

(** ** Frame *)
Section Frame.
Context `{C : Crypto} {S : Type} `{N : !NativeState S} `{L : !NativeStateLaws S}.

Definition untouched (b : Address) (s s' : S) : Prop :=
  ns_ok s' ∧ ns_GetBalance b s' = ns_GetBalance b s ∧ ns_GetNonce b s' = ns_GetNonce b s
  ∧ ∀ k, ns_GetState b k s' = ns_GetState b k s.

Lemma untouched_refl b s : ns_ok s → untouched b s s.
Proof using. intros. by split_and!. Qed.

Lemma untouched_trans b s1 s2 s3 : untouched b s1 s2 → untouched b s2 s3 → untouched b s1 s3.
Proof using.
  intros (_ & B1 & N1 & S1) (Hok & B2 & N2 & S2). split_and!; [done|congruence|congruence|].
  intros k. by rewrite S2.
Qed.

Lemma untouched_add a b x s : a ≠ b → ns_ok s → untouched b s (ns_AddBalance a x s).
Proof using L.
  intros Hne Hs. split_and!; [by apply ok_add|by rewrite balance_add, decide_False|by apply nonce_add|].
  intros k. by apply get_add.
Qed.

Lemma untouched_sub a b x s : a ≠ b → ns_ok s → untouched b s (ns_SubBalance a x s).
Proof using L.
  intros Hne Hs. split_and!; [by apply ok_sub|by rewrite balance_sub, decide_False|by apply nonce_sub|].
  intros k. by apply get_sub.
Qed.

Lemma untouched_nonce a b x s : a ≠ b → ns_ok s → untouched b s (ns_SetNonce a x s).
Proof using L.
  intros Hne Hs. split_and!; [by apply ok_nonce|by apply balance_nonce|by rewrite nonce_nonce, decide_False|].
  intros k. by apply get_nonce.
Qed.

Lemma untouched_set a b k v s : a ≠ b → ns_ok s → untouched b s (ns_SetState a k v s).
Proof using L.
  intros Hne Hs. split_and!; [by apply ok_set|by apply balance_set|by apply nonce_set|].
  intros j. rewrite get_set, decide_False; [done|]. congruence.
Qed.

Lemma untouched_if (c : bool) b s s' : ns_ok s → (c = true → untouched b s s') →
  untouched b s (if c then s' else s).
Proof using. intros Hs H. destruct c; [by apply H|by apply untouched_refl]. Qed.

Lemma untouched_income proposer amount enabled b s : proposer ≠ b →
  (enabled = true → b ≠ StakingModuleAddr) → ns_ok s →
  untouched b s (DistributeProposerIncome proposer amount enabled s).
Proof using L.
  intros Hp Hm Hs. unfold DistributeProposerIncome. cbv zeta.
  destruct (amount =? 0); [by apply untouched_refl|].
  destruct enabled; cbn [negb]; [|by apply untouched_add].
  destruct (_ =? 0); [by apply untouched_add|]. set (v := split_income _ _ _ _).
  set (s1 := if v =? 0 then s else ns_AddBalance proposer v s).
  assert (untouched b s s1) as H1.
  { unfold s1. destruct (v =? 0); [by apply untouched_refl|by apply untouched_add]. }
  clearbody s1 v.
  destruct (_ =? 0); [done|]. pose proof (proj1 H1) as Hs1. apply (untouched_trans _ _ _ _ H1).
  destruct (_ =? 0); [by apply untouched_add|].
  assert (untouched b s1 (ns_AddBalance StakingModuleAddr (amount -₂₅₆ v) s1)) as H2.
  { apply untouched_add; [|done]. intros E. by destruct (Hm eq_refl). }
  apply (untouched_trans _ _ _ _ H2). unfold IncreaseRewardIndex.
  destruct (_ || _); [apply untouched_refl, H2|]. destruct (_ =? 0); [apply untouched_refl, H2|].
  apply untouched_set; [|apply H2]. intros E. by destruct (Hm eq_refl).
Qed.

(** The accounts a transaction may change. *)
Definition extra_party (extra : option (Address * Z)) : list Address :=
  match extra with Some (a, _) => [a] | None => [] end.

Lemma mutate_frame e tx amount extra fee s b : ns_ok s →
  b ≠ dtx_Sender tx → b ≠ dtx_Receiver tx → b ∉ extra_party extra → b ≠ feeSink e →
  (stakingEnabled e = true → b ≠ StakingModuleAddr) →
  untouched b s (mutate e tx amount extra fee s).
Proof using L.
  intros Hs Hse Hre Hex Hsi Hst. unfold mutate.
  set (s1 := ns_SubBalance _ _ s). assert (untouched b s s1) as H1 by by apply untouched_sub.
  set (s2 := if amount =? 0 then s1 else _).
  assert (untouched b s s2) as H2.
  { apply (untouched_trans _ _ _ _ H1). unfold s2. destruct (amount =? 0); [apply untouched_refl, H1|].
    apply untouched_add; [done|apply H1]. }
  clearbody s2. set (s3 := match extra with Some _ => _ | None => _ end).
  assert (untouched b s s3) as H3.
  { apply (untouched_trans _ _ _ _ H2). unfold s3. destruct extra as [[a x]|]; [|apply untouched_refl, H2].
    destruct (x =? 0); [apply untouched_refl, H2|]. apply untouched_add; [|apply H2].
    cbn in Hex. set_solver. }
  clearbody s3. set (s4 := if 0 <? fee then _ else s3).
  assert (untouched b s s4) as H4.
  { apply (untouched_trans _ _ _ _ H3). unfold s4. apply untouched_if; [apply H3|]. intros _.
    apply untouched_income; [done|done|apply H3]. }
  apply (untouched_trans _ _ _ _ H4). apply untouched_nonce; [done|apply H4].
Qed.

Lemma mutate_moves A e tx amount extra fee s : NoDup A → ns_ok s → balances_ok A s →
  dtx_Sender tx ∈ A → dtx_Receiver tx ∈ A → (∀ b, b ∈ extra_party extra → b ∈ A) →
  feeSink e ∈ A → StakingModuleAddr ∈ A → supply A s < 2 ^ 256 →
  0 <= amount → (∀ a x, extra = Some (a, x) → 0 <= x) → is_u64 fee →
  amount + default 0 (snd <$> extra) + fee < 2 ^ 256 →
  total_debit amount extra fee <= ns_GetBalance (dtx_Sender tx) s →
  moves A 0 s (mutate e tx amount extra fee s).
Proof using L.
  intros Hnd Hs Hb Hse Hre Hex Hsi Hst Hlt Ham Hx Hfee Hsum Hbal. unfold mutate. cbv zeta.
  set (x := default 0 (snd <$> extra)) in *. assert (0 <= fee) as Hf0 by apply Hfee.
  assert (0 <= x) as Hx0 by (unfold x; destruct extra as [[a y]|]; cbn; [by apply (Hx a)|lia]).
  assert (total_debit amount extra fee = amount + x + fee) as Edebit.
  { unfold total_debit, x in *. destruct extra as [[a y]|]; cbn in *;
      rewrite ?(u256_add amount y), ?Z.add_0_r by lia; apply u256_add; lia. }
  rewrite Edebit in *.
  set (s1 := ns_SubBalance _ _ s).
  assert (moves A (- (amount + x + fee)) s s1) as M1 by (apply moves_sub; try done; lia). clearbody s1.
  set (s2 := if amount =? 0 then s1 else _).
  assert (moves A (- (x + fee)) s s2) as M2.
  { replace (- (x + fee)) with (- (amount + x + fee) + amount) by lia.
    apply (moves_trans A _ _ _ _ _ M1). destruct M1 as (? & ? & E1 & _).
    unfold s2. destruct (Z.eqb_spec amount 0) as [->|_]; [by apply moves_refl|]. apply moves_add; try done; lia. }
  clearbody s2. set (s3 := match extra with Some _ => _ | None => _ end).
  assert (moves A (- fee) s s3) as M3.
  { replace (- fee) with (- (x + fee) + x) by lia. apply (moves_trans A _ _ _ _ _ M2).
    destruct M2 as (? & ? & E2 & _). unfold s3, x in *. destruct extra as [[a y]|]; cbn in *; [|by apply moves_refl].
    destruct (Z.eqb_spec y 0) as [->|_]; [by apply moves_refl|].
    apply moves_add; try done; [|lia]. apply Hex. left. }
  clearbody s3. set (s4 := if 0 <? fee then _ else s3).
  assert (moves A 0 s s4) as M4.
  { replace 0 with (- fee + fee) by lia. apply (moves_trans A _ _ _ _ _ M3).
    destruct M3 as (? & ? & E3 & _). unfold s4. destruct (0 <? fee) eqn:Ef; zbool.
    - apply moves_income; try done; [|lia]. unfold is_u64, is_u256 in *. lia.
    - replace fee with 0 by lia. by apply moves_refl. }
  clearbody s4. replace 0 with (0 + 0) by lia. apply (moves_trans A _ _ _ _ _ M4).
  destruct M4 as (? & ? & _). apply moves_same_balance; [by apply ok_nonce|done|].
  intros b. by apply balance_nonce.
Qed.

(** A plain transfer between accounts of their own. *)
Lemma mutate_transfer e tx amount fee s : ns_ok s →
  dtx_Sender tx ≠ dtx_Receiver tx → dtx_Sender tx ≠ feeSink e → dtx_Sender tx ≠ StakingModuleAddr →
  dtx_Receiver tx ≠ feeSink e → dtx_Receiver tx ≠ StakingModuleAddr → amount ≠ 0 →
  let s1 := mutate e tx amount None fee s in
  ns_GetBalance (dtx_Sender tx) s1 = ns_GetBalance (dtx_Sender tx) s -₂₅₆ total_debit amount None fee
  ∧ ns_GetBalance (dtx_Receiver tx) s1 = ns_GetBalance (dtx_Receiver tx) s +₂₅₆ amount.
Proof using L.
  intros Hs H1 H2 H3 H4 H5 Hnz. unfold mutate. cbv zeta. apply Z.eqb_neq in Hnz. rewrite Hnz.
  set (s1 := ns_SubBalance _ _ s). assert (ns_ok s1) as Hs1 by by apply ok_sub.
  set (s2 := ns_AddBalance _ _ s1). assert (ns_ok s2) as Hs2 by by apply ok_add.
  set (s3 := if 0 <? fee then _ else s2).
  assert (∀ b, b ≠ feeSink e → b ≠ StakingModuleAddr → untouched b s2 s3) as H.
  { intros b Hb1 Hb2. unfold s3. apply untouched_if; [done|]. intros _. by apply untouched_income. }
  assert (ns_ok s3) as Hs3 by by apply (H (dtx_Sender tx)).
  rewrite !balance_nonce by done. split.
  - rewrite (proj1 (proj2 (H (dtx_Sender tx) H2 H3))). unfold s2, s1.
    by rewrite balance_add, decide_False, balance_sub, decide_True.
  - rewrite (proj1 (proj2 (H (dtx_Receiver tx) H4 H5))). unfold s2, s1.
    by rewrite balance_add, decide_True, balance_sub, decide_False.
Qed.
End Frame.

Lemma require_ok e tx a : require e tx a = Ok tt ↔ a ∈ allowed e tx.
Proof.
  unfold require, throw_if. destruct (bool_decide _) eqn:E; cbn [negb].
  - apply bool_decide_eq_true in E. done.
  - apply bool_decide_eq_false in E. split; [done|intros; contradiction].
Qed.

(** What a payload that passes the checks credits: an allowed account and an
    amount of one word. *)
Lemma check_access_spec e tx a x : bytes_ok (dtx_Payload tx) →
  check_access e tx = Ok (Some (a, x)) → a ∈ allowed e tx ∧ is_u256 x.
Proof.
  intros Hb. unfold check_access. destruct (parse_payload e tx) as [extra|] eqn:E; [|done]. cbn [rbind].
  destruct (require e tx (dtx_Sender tx)); [|done]. destruct (require e tx (dtx_Receiver tx)); [|done].
  cbn [rbind]. intros [= ->]. unfold parse_payload in E.
  destruct (dtx_Payload tx) as [|tag pl] eqn:Epl; [done|]. destruct (tag =? PayloadCredit); [|done].
  destruct (_ =? _)%nat eqn:El; [|done]. apply Nat.eqb_eq in El. cbn [negb] in E.
  destruct (require e tx _) as [[]|] eqn:Er; [|done]. cbn [rbind] in E. injection E as <- <-.
  split; [by apply require_ok|]. apply (slice_be32 21 (tag :: pl)); [lia|done].
Qed.

Section Theorems.
Context `{C : Crypto} {S : Type} `{N : !NativeState S} `{L : !NativeStateLaws S} `{F : !NativeFinal S}
  `{FL : !NativeFinalLaws S}.

(** The outcomes of [ApplyDewTx]. *)
Lemma ApplyDewTx_cases e tx s :
  (∃ err, ApplyDewTx e (Some tx) s = (s, Err err))
  ∨ (∃ err, ApplyDewTx e (Some tx) s = (s, Ok (failResult err)))
  ∨ (∃ extra r, check_access e tx = Ok extra
      ∧ total_debit (default 0 (dtx_Amount tx)) extra (effective_fee tx) <= ns_GetBalance (dtx_Sender tx) s
      ∧ ns_GetNonce (dtx_Sender tx) s = dtx_Nonce tx
      ∧ ApplyDewTx e (Some tx) s =
          (ns_Finalise (mutate e tx (default 0 (dtx_Amount tx)) extra (effective_fee tx) s), Ok r)
      ∧ FeePaid r = effective_fee tx ∧ Failed r = false).
Proof using.
  unfold ApplyDewTx. destruct (_ =? DewTxVersion); cbn [negb]; [|by eauto].
  destruct (_ <? MinDewTxFeeWei); [by eauto|].
  destruct (_ =? dtx_Nonce tx) eqn:En; cbn [negb]; [zbool|by eauto].
  destruct (check_access e tx) as [extra|err]; [|by eauto].
  destruct (_ <? _) eqn:Eb; zbool; [by eauto|]. right. right. eexists _, _. by split_and!.
Qed.

Lemma mutate_shape e tx amount extra fee s : ns_ok s →
  ∃ s4, ns_ok s4 ∧ mutate e tx amount extra fee s = ns_SetNonce (dtx_Sender tx) (dtx_Nonce tx +₆₄ 1) s4.
Proof using.
  intros Hs. eexists. split; [|reflexivity].
  set (s3 := match extra with Some _ => _ | None => _ end).
  assert (ns_ok s3) as H3.
  { unfold s3. destruct extra as [[a x]|]; repeat case_match; eauto with native. }
  clearbody s3. case_match; [|done]. unfold DistributeProposerIncome.
  repeat case_match; eauto using IncreaseRewardIndex_ok with native.
Qed.

Lemma mutate_ok e tx amount extra fee s : ns_ok s → ns_ok (mutate e tx amount extra fee s).
Proof using. intros Hs. destruct (mutate_shape e tx amount extra fee s Hs) as (s4 & H4 & ->). by apply ok_nonce. Qed.

Lemma mutate_nonce e tx amount extra fee s : ns_ok s →
  ns_GetNonce (dtx_Sender tx) (mutate e tx amount extra fee s) = dtx_Nonce tx +₆₄ 1.
Proof using.
  intros Hs. destruct (mutate_shape e tx amount extra fee s Hs) as (s4 & H4 & ->).
  by rewrite nonce_nonce, decide_True.
Qed.

(** C7. A native transaction conserves the supply.  When amount, module
    credit and fee fit 256 bits together, a refused or failed transaction
    leaves the state as it is, and a successful one moves wei only among the
    declared accounts, the fee sink and the staking escrow, with no wei
    created or lost, charges the flat fee and advances the sender's nonce.
    The supply is below 2^256, and it is that of the state before the closing
    [Finalise], which then keeps every balance that is not zero. *)
Theorem ApplyDewTx_conserves A e tx s :
  ns_ok s → dewtx_ok tx → NoDup A → balances_ok A s → supply A s < 2 ^ 256 →
  (∀ b, b ∈ allowed e tx → b ∈ A) → StakingModuleAddr ∈ A →
  (∀ extra, check_access e tx = Ok extra →
    default 0 (dtx_Amount tx) + default 0 (snd <$> extra) + effective_fee tx < 2 ^ 256) →
  match ApplyDewTx e (Some tx) s with
  | (s', Err _) => s' = s
  | (s', Ok r) =>
      if Failed r then s' = s else
      ∃ s1, s' = ns_Finalise s1 ∧ supply A s1 = supply A s
        ∧ (∀ b, b ∉ A → ns_GetBalance b s1 = ns_GetBalance b s)
        ∧ (∀ b, ns_GetBalance b s1 ≠ 0 → ns_GetBalance b s' = ns_GetBalance b s1)
        ∧ FeePaid r = effective_fee tx
        ∧ (dtx_Nonce tx + 1 < 2 ^ 64 → ns_GetNonce (dtx_Sender tx) s' = dtx_Nonce tx + 1)
  end.
Proof using L FL.
  intros Hs Hok Hnd Hb Hlt HA Hst Hfit.
  destruct (ApplyDewTx_cases e tx s) as [[err ->]|[[err ->]|(extra & r & Hacc & Hdeb & Hn & -> & Hfee & ->)]];
    [done|done|].
  destruct (dok_amount _ Hok) as (amount & Ha & Ham). rewrite Ha in *. cbn [default from_option id] in *.
  set (s1 := mutate _ _ _ _ _ s). assert (ns_ok s1) as Hs1 by by apply mutate_ok.
  assert (ns_GetNonce (dtx_Sender tx) s1 = dtx_Nonce tx +₆₄ 1) as Hn1 by by apply mutate_nonce.
  assert (∀ a x, extra = Some (a, x) → a ∈ allowed e tx ∧ is_u256 x) as Hex.
  { intros a x ->. apply check_access_spec; [apply Hok|done]. }
  assert (is_u64 (effective_fee tx)) as Hf.
  { unfold effective_fee. destruct (_ =? 0); [unfold is_u64, DefaultDewTxFeeWei; lia|apply Hok]. }
  assert (moves A 0 s s1) as (_ & _ & Esup & Hframe).
  { apply mutate_moves; try done.
    - apply HA. left.
    - apply HA. right. left.
    - intros b. destruct extra as [[a x]|]; cbn; [|by intros ?%elem_of_nil].
      intros ->%list_elem_of_singleton. by apply HA, (Hex a x).
    - apply HA. do 2 right. apply elem_of_app. right. left.
    - apply Ham.
    - intros a x E. apply (Hex a x E).
    - by apply Hfit. }
  exists s1. split_and!; [done|lia|done| |done|].
  - intros b Hne. by apply final_keeps; [|left].
  - intros Hmax. assert (dtx_Nonce tx +₆₄ 1 = dtx_Nonce tx + 1) as E.
    { apply u64_id. pose proof (dok_nonce _ Hok) as Hu. unfold is_u64 in *. lia. }
    rewrite E in Hn1. rewrite <- Hn1. apply final_keeps; [done|right].
    pose proof (dok_nonce _ Hok) as Hu. unfold is_u64 in Hu. lia.
Qed.

(** C40. The debit is computed modulo 2^256, so a native transaction can
    create wei: when amount and fee together reach 2^256 + k, the sender pays
    only k (possibly nothing) and the receiver is credited the whole amount. *)
Theorem ApplyDewTx_overflow_mints e tx s amount k :
  ns_ok s → dewtx_ok tx → dtx_Payload tx = [] → dtx_Amount tx = Some amount →
  DefaultDewTxFeeWei <= effective_fee tx → ns_GetNonce (dtx_Sender tx) s = dtx_Nonce tx →
  dtx_Nonce tx + 1 < 2 ^ 64 →
  amount + effective_fee tx = 2 ^ 256 + k → 0 <= k <= ns_GetBalance (dtx_Sender tx) s →
  is_u256 (ns_GetBalance (dtx_Sender tx) s) →
  NoDup [dtx_Sender tx; dtx_Receiver tx; feeSink e; StakingModuleAddr] →
  ns_GetBalance (dtx_Receiver tx) s = 0 →
  ∃ s' r, ApplyDewTx e (Some tx) s = (s', Ok r) ∧ Failed r = false
    ∧ ns_GetBalance (dtx_Sender tx) s' = ns_GetBalance (dtx_Sender tx) s - k
    ∧ ns_GetBalance (dtx_Receiver tx) s' = amount.
Proof using L FL.
  intros Hs Hok Hpl Ha Hfee Hn Hmax Hsum Hk Hbal Hnd Hr.
  rewrite !NoDup_cons, !not_elem_of_cons in Hnd. destruct Hnd as ((H1 & H2 & H3 & _) & (H4 & H5 & _) & _).
  destruct (dok_amount _ Hok) as (amount' & Ha' & Ham). assert (amount' = amount) as -> by congruence.
  assert (is_u64 (effective_fee tx)) as Hf.
  { unfold effective_fee. destruct (_ =? 0); [unfold is_u64, DefaultDewTxFeeWei; lia|apply Hok]. }
  assert (check_access e tx = Ok None) as Hacc.
  { unfold check_access, parse_payload. rewrite Hpl. cbn [rbind].
    rewrite (proj2 (require_ok e tx (dtx_Sender tx))) by (left; done).
    by rewrite (proj2 (require_ok e tx (dtx_Receiver tx))) by (right; left; done). }
  assert (total_debit amount None (effective_fee tx) = k) as Hdeb.
  { unfold total_debit. rewrite Hsum. unfold u256. unfold is_u256, is_u64 in *.
    rewrite <- (Z.mul_1_l (2 ^ 256)) at 1. rewrite Z.add_comm, Z.mod_add by lia. apply Z.mod_small. lia. }
  unfold ApplyDewTx. rewrite (dok_version _ Hok), Z.eqb_refl. cbn [negb]. rewrite Ha. cbn [default from_option id].
  cbv zeta. destruct (_ <? MinDewTxFeeWei) eqn:E; [zbool; unfold MinDewTxFeeWei in E; lia|clear E].
  rewrite Hn, Z.eqb_refl. cbn [negb]. rewrite Hacc, Hdeb.
  destruct (_ <? k) eqn:E; [zbool; lia|clear E]. eexists _, _. split; [done|]. split; [done|].
  set (s1 := mutate e tx amount None (effective_fee tx) s).
  assert (ns_ok s1) as Hs1 by by apply mutate_ok.
  assert (ns_GetNonce (dtx_Sender tx) s1 ≠ 0) as Hn1.
  { unfold s1. rewrite mutate_nonce by done. pose proof (dok_nonce _ Hok) as Hu. unfold is_u64 in Hu.
    rewrite u64_id by (unfold is_u64; lia). lia. }
  assert (amount ≠ 0) as Hnz by (intros ->; unfold is_u64 in Hf; lia).
  destruct (mutate_transfer e tx amount (effective_fee tx) s Hs H1 H2 H3 H4 H5 Hnz) as [Es Er].
  fold s1 in Es, Er. rewrite Hdeb, u256_sub in Es by done. rewrite Hr, u256_add in Er by (unfold is_u256 in *; lia).
  split.
  - rewrite <- Es. apply final_keeps; [done|by right].
  - rewrite <- (Z.add_0_l amount), <- Er. apply final_keeps; [done|left]. lia.
Qed.

(** Access control is fail-closed: an account that is neither the
    sender, the receiver nor declared, and is not the fee sink or, with
    staking on, the staking escrow, keeps its balance and nonce (and, up to
    [Finalise], its storage) whatever the transaction does. *)
Theorem ApplyDewTx_access e tx s b :
  ns_ok s → bytes_ok (dtx_Payload tx) → ContainsAccess tx b = false → b ≠ feeSink e →
  (stakingEnabled e = true → b ≠ StakingModuleAddr) →
  ns_GetBalance b s ≠ 0 ∨ ns_GetNonce b s ≠ 0 →
  let s' := (ApplyDewTx e (Some tx) s).1 in
  ns_GetBalance b s' = ns_GetBalance b s ∧ ns_GetNonce b s' = ns_GetNonce b s
  ∧ (s' = s ∨ ∃ s1, s' = ns_Finalise s1 ∧ ∀ k, ns_GetState b k s1 = ns_GetState b k s).
Proof using L FL.
  intros Hs Hpl Hc Hsi Hst Hlive. cbv zeta.
  destruct (ApplyDewTx_cases e tx s) as [[err ->]|[[err ->]|(extra & r & Hacc & _ & _ & -> & _)]];
    [by auto|by auto|]. cbn [fst]. set (s1 := mutate _ _ _ _ _ s).
  unfold ContainsAccess in Hc. destruct (_ || _) eqn:E; [done|]. apply orb_false_iff in E as [E1 E2]. zbool.
  assert (b ∉ dtx_AccessList tx) as Hal.
  { intros Hin. apply list_elem_of_In in Hin. apply Bool.not_true_iff_false in Hc. apply Hc, existsb_exists.
    exists b. split; [done|apply Z.eqb_refl]. }
  assert (untouched b s s1) as (Hs1 & Hb & Hn & Hst1).
  { apply mutate_frame; try done. destruct extra as [[a x]|]; cbn; [|apply not_elem_of_nil].
    intros ->%list_elem_of_singleton. apply check_access_spec in Hacc as [Hin _]; [|done].
    unfold allowed in Hin. rewrite !elem_of_cons, elem_of_app, elem_of_cons, elem_of_nil in Hin. tauto. }
  destruct (final_keeps s1 b Hs1) as [Eb En]; [by rewrite Hb, Hn|].
  rewrite Eb, En. split_and!; [done|done|]. right. eauto.
Qed.
End Theorems.

(** ** The flat state database finalises as the executor expects *)
Section Instance.
Context `{C : Crypto} `{D : AccountCodec}.

#[export] Instance StateDB_final : NativeFinal StateDB := {| ns_Finalise := Finalise true |}.

Definition live_account (s : StateDB) (a : Address) : Prop :=
  ∃ c, account_of s a = Some c ∧ ¬ is_empty_account c.

Lemma drop_if_empty_keeps s a b : live_account s a →
  account_of (drop_if_empty s b) a = account_of s a.
Proof.
  intros (c & Hc & Hne). destruct (decide (a = b)) as [<-|Hab].
  - unfold drop_if_empty, Empty. destruct (getAccount_spec a s) as (H2 & Hv & _).
    destruct (getAccount a s) as [s1 acc]. cbn [fst snd] in *. rewrite H2, Hc.
    assert ((Nonce c =? 0) && (Balance c =? 0) && (CodeHash c =? EmptyCodeHash) = false) as ->.
    { apply Bool.not_true_iff_false. intros E. apply Hne. zbool. done. }
    rewrite (same_view_account _ _ a Hv). done.
  - destruct (drop_if_empty_other s a b Hab) as (Hr & _ & Hsu). unfold account_of. by rewrite Hsu, Hr.
Qed.

Lemma drop_loop_keeps l s a : live_account s a →
  account_of (foldl drop_if_empty s l) a = account_of s a.
Proof.
  revert s. induction l as [|b l IH]; intros s Hl; [done|]. cbn [foldl].
  pose proof (drop_if_empty_keeps s a b Hl) as E. rewrite IH, E; [done|].
  unfold live_account. by rewrite E.
Qed.

Lemma drop_loop_suicides l s : suicides (foldl drop_if_empty s l) = suicides s.
Proof.
  revert s. induction l as [|b l IH]; intros s; [done|]. cbn [foldl]. rewrite IH.
  apply (drop_if_empty_same s b).
Qed.

Lemma process_suicides_none s a : no_suicides s → account_of (process_suicides s) a = account_of s a.
Proof.
  intros Hs. unfold account_of. change (suicides (process_suicides s)) with (suicides s). rewrite Hs.
  rewrite !decide_False by apply not_elem_of_empty. unfold raw_account. cbn [process_suicides].
  change (db (process_suicides s)) with (db s).
  change (accounts (process_suicides s)) with (filter (λ kv, kv.1 ∉ suicides s) (accounts s)).
  rewrite Hs, map_filter_id; [done|]. intros i x _. apply not_elem_of_empty.
Qed.

Lemma Finalise_keeps s a : no_suicides s → live_account s a →
  account_of (Finalise true s) a = account_of s a.
Proof.
  intros Hs Hl. pose proof (process_suicides_none s a Hs) as Hp. unfold Finalise. cbv zeta.
  set (s2 := process_suicides s) in *. assert (suicides s2 = ∅) as Hsu by exact Hs. clearbody s2.
  assert (live_account s2 a) as Hl2 by (unfold live_account; by rewrite Hp).
  pose proof (drop_loop_keeps (map_to_list (dirties s2)).*1 s2 a Hl2) as Hk.
  pose proof (drop_loop_suicides (map_to_list (dirties s2)).*1 s2) as Hsu3.
  set (s3 := foldl _ s2 _) in *. clearbody s3. rewrite <- Hp, <- Hk.
  unfold account_of. rewrite Hsu3, Hsu. reflexivity.
Qed.

Lemma nonzero_live s a : balance_of s a ≠ 0 ∨ nonce_of s a ≠ 0 → live_account s a.
Proof.
  unfold balance_of, nonce_of, live_account. destruct (account_of s a) as [c|]; [|tauto].
  intros H. exists c. split; [done|]. unfold is_empty_account. tauto.
Qed.

#[export] Instance StateDB_final_laws : NativeFinalLaws StateDB.
Proof.
  split; cbn.
  - intros s _. reflexivity.
  - intros s b Hs. rewrite !(proj1 (GetBalance_spec _ _)), !(proj1 (GetNonce_spec _ _)).
    intros Hl%nonzero_live. unfold balance_of, nonce_of. by rewrite (Finalise_keeps s b Hs Hl).
Qed.
End Instance.

(** ** Evaluation *)
Section Witnesses.
Local Existing Instances toy_crypto toy_crypto_laws toy_codec toy_codec_laws.

(** Account 7 holds 10^13 wei; 9 proposes. *)
Definition funded_state : StateDB := (AddBalancePrev 7 (10 ^ 13) (New ∅)).1.
Definition sample_executor : Executor := mkExecutor 9 false.

Definition transfer_tx (amount : Z) : DewTx :=
  mkDewTx DewTxVersion (Some 1337) 0 7 8 (Some amount) DefaultDewTxFeeWei [] [] (Some 0) (Some 1) (Some 1) 0.

Lemma transfer_tx_ok amount : is_u256 amount → dewtx_ok (transfer_tx amount).
Proof.
  intros Ha. split; unfold is_addr, is_u64, is_u256 in *; cbn [transfer_tx dtx_Version
    dtx_ChainID dtx_Nonce dtx_Sender dtx_Receiver dtx_Amount dtx_Fee dtx_Payload dtx_AccessList
    dtx_V dtx_R dtx_S dtx_hash]; unfold DefaultDewTxFeeWei; try lia; try reflexivity; try constructor.
  - exists 1337. split; [reflexivity|lia].
  - exists amount. split; [reflexivity|exact Ha].
  - exists 0, 1, 1. split_and!; reflexivity || lia.
Qed.

Lemma funded_ok : no_suicides funded_state.
Proof. reflexivity. Qed.

Lemma ApplyDewTx_conserves_witness :
  supply [7; 8; 9; StakingModuleAddr] funded_state = 10 ^ 13
  ∧ match ApplyDewTx sample_executor (Some (transfer_tx 5)) funded_state with
    | (s', Err _) => s' = funded_state
    | (s', Ok r) =>
        if Failed r then s' = funded_state else
        ∃ s1, s' = ns_Finalise s1
          ∧ supply [7; 8; 9; StakingModuleAddr] s1 = supply [7; 8; 9; StakingModuleAddr] funded_state
          ∧ (∀ b, b ∉ [7; 8; 9; StakingModuleAddr] → ns_GetBalance b s1 = ns_GetBalance b funded_state)
          ∧ (∀ b, ns_GetBalance b s1 ≠ 0 → ns_GetBalance b s' = ns_GetBalance b s1)
          ∧ FeePaid r = DefaultDewTxFeeWei
          ∧ (0 + 1 < 2 ^ 64 → ns_GetNonce 7 s' = 0 + 1)
    end.
Proof.
  assert (supply [7; 8; 9; StakingModuleAddr] funded_state = 10 ^ 13) as E by (vm_compute; reflexivity).
  split; [exact E|].
  apply (ApplyDewTx_conserves [7; 8; 9; StakingModuleAddr] sample_executor (transfer_tx 5) funded_state).
  - exact funded_ok.
  - apply transfer_tx_ok. unfold is_u256. lia.
  - vm_decide.
  - intros b Hb. repeat (apply elem_of_cons in Hb as [->|Hb]; [vm_compute; discriminate|]). destruct (not_elem_of_nil _ Hb).
  - rewrite E. reflexivity.
  - intros b Hb. repeat (apply elem_of_cons in Hb as [->|Hb]; [vm_decide|]).
    destruct (not_elem_of_nil _ Hb).
  - vm_decide.
  - intros extra H. vm_compute in H. injection H as <-. vm_compute. reflexivity.
Defined.

Lemma ApplyDewTx_overflow_mints_witness :
  ∃ s' r, ApplyDewTx sample_executor (Some (transfer_tx (2 ^ 256 - DefaultDewTxFeeWei))) funded_state = (s', Ok r)
    ∧ Failed r = false
    ∧ ns_GetBalance 7 s' = ns_GetBalance 7 funded_state - 0
    ∧ ns_GetBalance 8 s' = 2 ^ 256 - DefaultDewTxFeeWei.
Proof.
  apply (ApplyDewTx_overflow_mints sample_executor (transfer_tx (2 ^ 256 - DefaultDewTxFeeWei)) funded_state
           (2 ^ 256 - DefaultDewTxFeeWei) 0).
  - exact funded_ok.
  - apply transfer_tx_ok. vm_compute. split; [discriminate|reflexivity].
  - reflexivity.
  - reflexivity.
  - vm_compute. discriminate.
  - vm_compute. reflexivity.
  - vm_compute. reflexivity.
  - vm_compute. reflexivity.
  - vm_compute. split; discriminate.
  - vm_compute. split; [discriminate|reflexivity].
  - vm_decide.
  - vm_compute. reflexivity.
Defined.

(** Account 7 is a bystander of a transfer between 5 and 6. *)
Definition bystander_tx : DewTx :=
  mkDewTx DewTxVersion (Some 1337) 0 5 6 (Some 0) DefaultDewTxFeeWei [] [] (Some 0) (Some 1) (Some 1) 0.

Lemma ApplyDewTx_access_witness :
  let s' := (ApplyDewTx sample_executor (Some bystander_tx) funded_state).1 in
  ns_GetBalance 7 s' = ns_GetBalance 7 funded_state ∧ ns_GetNonce 7 s' = ns_GetNonce 7 funded_state.
Proof.
  destruct (ApplyDewTx_access sample_executor bystander_tx funded_state 7) as (H1 & H2 & _).
  - exact funded_ok.
  - constructor.
  - reflexivity.
  - discriminate.
  - discriminate.
  - left. vm_compute. discriminate.
  - split; [exact H1|exact H2].
Defined.
End Witnesses.
