(* ===== verification/Vm.v ===== *)
(** * Message execution

    Models [core/vm/executor.go]: the purchase of gas, the preparation of the
    access list, the call into go-ethereum's interpreter, the refund, the
    proposer's tip and the end of the transaction.

    The interpreter is not part of the sources: it is the class [EVM], a
    function of the block and transaction context and of the state it is run
    on.  [core/vm/bridge.go] and [core/vm/convert.go] only rename the state
    database's operations and copy byte arrays, so the interpreter is given
    the state database itself. *)
From S2P Require Import Prelude Types Toy StateDB StateRevert StateCommit NativeState Staking.

Record BlockContext : Type := mkBlockContext {
  bc_Number : Z;
  bc_Time : Z;
  bc_GasLimit : Z;
  bc_BaseFee : option Z;
  bc_Coinbase : Address;
  bc_ChainID : option Z;
  bc_GetHashFn : option (Z → Hash);
}.

Record Message : Type := mkMessage {
  m_From : Address;
  m_To : option Address;
  m_Value : option Z;
  m_GasLimit : Z;
  m_GasPrice : option Z;
  m_Data : list Z;
  m_NoFinalise : bool;
}.

Record VmResult : Type := mkVmResult {
  r_UsedGas : Z;
  r_MaxUsedGas : Z;
  r_Err : option string;
  r_ReturnData : list Z;
  r_ContractAddress : option Address;
  r_Logs : list Log;
  r_Failed : bool;
}.

(** The statedb and bridge fields are the state the operations pass along. *)
Record VmExecutor : Type := mkVmExecutor {
  x_config : Z;
  x_block : BlockContext;
  x_dewPrecompiles : bool;
  x_stakingEnabled : bool;
  x_nativeSwapEnabled : bool;
  x_stakingCfg : StakingConfig;
}.

(** The chain id of [DefaultChainConfig]; its fork blocks are all zero. *)
Definition DefaultChainConfig (chainID : option Z) : Z := default 2205 chainID.

Definition NewVmExecutor (block : BlockContext) : VmExecutor :=
  let block := mkBlockContext (bc_Number block) (bc_Time block)
    (if bc_GasLimit block =? 0 then 30000000 else bc_GasLimit block)
    (Some (default 0 (bc_BaseFee block))) (bc_Coinbase block) (bc_ChainID block)
    (Some (default (λ _, 0) (bc_GetHashFn block))) in
  mkVmExecutor (DefaultChainConfig (bc_ChainID block)) block true false false DefaultStakingConfig.

Definition EnableDewPrecompiles (v : bool) (x : VmExecutor) : VmExecutor :=
  mkVmExecutor (x_config x) (x_block x) v (x_stakingEnabled x) (x_nativeSwapEnabled x) (x_stakingCfg x).
Definition EnableVmStaking (v : bool) (x : VmExecutor) : VmExecutor :=
  mkVmExecutor (x_config x) (x_block x) (x_dewPrecompiles x) v (x_nativeSwapEnabled x) (x_stakingCfg x).
Definition EnableNativeSwap (v : bool) (x : VmExecutor) : VmExecutor :=
  mkVmExecutor (x_config x) (x_block x) (x_dewPrecompiles x) (x_stakingEnabled x) v (x_stakingCfg x).
Definition SetStakingConfig (c : StakingConfig) (x : VmExecutor) : VmExecutor :=
  mkVmExecutor (x_config x) (x_block x) (x_dewPrecompiles x) (x_stakingEnabled x) (x_nativeSwapEnabled x) c.

(** What a run of the interpreter reports. *)
Record evm_out : Type := mkEvmOut { out_ret : list Z; out_used : Z; out_err : option string }.

(** [evm.Call] and [evm.Create] after [NewEVM], [SetTxContext] and
    [installDewPrecompiles]: the executor, the origin and the gas price are
    the context; then caller, destination, input, gas and value. *)
Class EVM : Type := {
  evm_Call : VmExecutor → Address → Z → Address → Address → list Z → Z → Z → StateDB → StateDB * evm_out;
  evm_Create : VmExecutor → Address → Z → Address → list Z → Z → Z → StateDB → StateDB * (evm_out * Address);
}.

(** The registry of the system precompiles. *)
Definition NativeTransferPrecompile : Address := 256.
Definition NativeSwapPrecompile : Address := 257.
Definition StakingPrecompile : Address := 258.

Inductive PrecompileSlotStatus : Type := SlotActive | SlotReserved | SlotFlagged.

Record DewPrecompileSlot : Type := mkSlot {
  ps_Address : Address;
  ps_Name : string;
  ps_Status : PrecompileSlotStatus;
  ps_LiveInMap : bool;
  ps_LowAddr : Z;
}.

Definition DewPrecompileSlots : list DewPrecompileSlot :=
  [mkSlot NativeTransferPrecompile "native_transfer" SlotActive true 256;
   mkSlot NativeSwapPrecompile "native_swap" SlotFlagged true 257;
   mkSlot StakingPrecompile "staking" SlotFlagged true 258].

Definition DewPrecompileAddresses : list Address := map ps_Address (List.filter ps_LiveInMap DewPrecompileSlots).

Definition warm_precompiles (x : VmExecutor) : list Address :=
  seqZ 1 10 ++ if x_dewPrecompiles x then DewPrecompileAddresses else [].

Section Apply.
Context `{C : Crypto} `{D : AccountCodec} `{V : EVM}.

(** The create or call of a message; a call increments the nonce first. *)
Definition run_message (x : VmExecutor) (msg : Message) (s : StateDB) : StateDB * (evm_out * option Address) :=
  let price := default 0 (m_GasPrice msg) in
  let value := default 0 (m_Value msg) in
  match m_To msg with
  | None =>
      let '(s, (out, addr)) := evm_Create x (m_From msg) (u256 price) (m_From msg) (m_Data msg) (m_GasLimit msg) value s in
      (s, (out, match out_err out with None => Some addr | Some _ => None end))
  | Some to =>
      let '(s, nonce) := GetNonce (m_From msg) s in
      let s := SetNonceJournaled (m_From msg) (nonce +₆₄ 1) s in
      let '(s, out) := evm_Call x (m_From msg) (u256 price) (m_From msg) to (m_Data msg) (m_GasLimit msg) value s in
      (s, (out, None))
  end.

(** The gas left after the refund, which is at most a fifth of the gas used. *)
Definition gas_left (limit used refund : Z) : Z :=
  let gasLeft := limit -₆₄ used in
  let refund := if used / 5 <? refund then used / 5 else refund in
  let gasLeft := gasLeft +₆₄ refund in
  if limit <? gasLeft then limit else gasLeft.

(** The gas money: what is left goes back to the sender, what was used to
    the proposer. *)
Definition settle_gas (x : VmExecutor) (from : Address) (price gasLeft used : Z) (s : StateDB) : StateDB :=
  let s := if (0 <? price) && (0 <? gasLeft) then (AddBalancePrev from (u256 (gasLeft * price)) s).1 else s in
  if (0 <? price) && (0 <? used)
  then DistributeProposerIncome (bc_Coinbase (x_block x)) (u256 (used * price)) (x_stakingEnabled x) s else s.

(** The state the interpreter starts from. *)
Definition prepare_message (x : VmExecutor) (msg : Message) (gasCost : Z) (s : StateDB) : StateDB :=
  let s := (SubBalance (m_From msg) gasCost s).1 in
  let s := ClearLogs s in
  Prepare (m_From msg) (bc_Coinbase (x_block x)) (m_To msg) (warm_precompiles x) s.

Definition ApplyMessage (x : VmExecutor) (msg : Message) (s : StateDB) : StateDB * res VmResult :=
  let value := default 0 (m_Value msg) in
  let price := default 0 (m_GasPrice msg) in
  let limit := m_GasLimit msg in
  if limit =? 0 then (s, Err "vm: gas limit is zero") else
  let gasCost := limit * price in
  if 2 ^ 256 <=? gasCost then (s, Err "vm: gas cost overflow") else
  let '(s, bal) := GetBalance (m_From msg) s in
  if bal <? gasCost then (s, Err "vm: insufficient balance for gas") else
  let need := gasCost +₂₅₆ value in
  let '(s, bal) := GetBalance (m_From msg) s in
  if bal <? need then (s, Err "vm: insufficient balance for gas + value") else
  let s := prepare_message x msg gasCost s in
  let '(s, (out, created)) := run_message x msg s in
  let gasLeft := gas_left limit (out_used out) (refund s) in
  let usedGas := limit -₆₄ gasLeft in
  let s := settle_gas x (m_From msg) price gasLeft usedGas s in
  let s := if m_NoFinalise msg then s else Finalise true s in
  let outLogs := logs s in
  (ClearLogs s,
   Ok (mkVmResult usedGas usedGas (out_err out) (out_ret out) created outLogs
         (bool_decide (out_err out ≠ None)))).
End Apply.
