(* ===== verification/VmIsolated.v ===== *)
(** * Simulated calls leave accounts and storage alone

    [eth_call] and [eth_estimateGas] run a message on the node's live state
    database between [Snapshot] and [RevertToSnapshot].  [ApplyMessage] resets
    the logs, the access list, the transient storage and the refund counter
    without journaling them, so the revert does not bring those back; it does
    bring back the accounts and the storage, but for empty accounts it may
    leave where there were none. *)
From S2P Require Import Prelude Types Toy StateDB StateRevert StateCommit NativeState Staking Vm.

Section Kept.
Context `{C : Crypto} `{D : AccountCodec}.

(** The accounts, the storage, the store and the self-destruct marks; an empty
    account may have come into being. *)
Record kept (s1 s2 : StateDB) : Prop := {
  kp_account : ∀ a, account_rel (raw_account s1 a) (raw_account s2 a);
  kp_storage : ∀ a k, storage_of s1 a k = storage_of s2 a k;
  kp_fields : (db s1, suicides s1) = (db s2, suicides s2);
}.

Lemma kept_trans : Transitive kept.
Proof.
  intros s1 s2 s3 [A1 B1 F1] [A2 B2 F2]. split; intros; try (etrans; eauto).
  destruct (A1 a) as [->|[-> H1]]; [done|]. destruct (A2 a) as [<-|[H2 ->]]; [by right|congruence].
Qed.

Lemma restored_kept s1 s2 : restored s1 s2 → kept s1 s2.
Proof. intros [A B F _ _ _ _]. injection F as Fd Fs _ _. split; [done|done|congruence]. Qed.

Lemma account_update_kept a acc s1 s2 s1' s2' :
  kept s1 s2 → account_update a acc s1 s1' → account_update a acc s2 s2' → kept s1' s2'.
Proof.
  intros [A B F] (R1 & S1 & O1) (R2 & S2 & O2).
  destruct (others_db _ _ O1) as [D1 U1], (others_db _ _ O2) as [D2 U2]. injection F as Fd Fs.
  split; [|congruence|congruence]. intros b. rewrite R1, R2. case_decide; [apply account_rel_refl|apply A].
Qed.

Lemma revert_entry_kept e s1 s2 : kept s1 s2 → entry_ok e s2 →
  entry_ok e s1 ∧ kept (revert_entry e s1) (revert_entry e s2).
Proof.
  intros Hk Hok. pose proof Hk as [A B F]. injection F as Fd Fs.
  destruct (account_entry e) as [a|] eqn:He.
  { split; [by destruct e as [| | | | |? [] ?| | | | | |]|].
    eapply account_update_kept; [done|by apply revert_account_entry|].
    rewrite (account_rel_live s1 s2 a Fs (A a)). by apply revert_account_entry. }
  destruct e as [| | |a k v|a|a p b|g| |a|a k|a k v|a]; try done;
    try (split; [done|]; split; [exact A|exact B|cbn; congruence]).
  - split; [done|]. cbn [revert_entry]. split; try done; [|by cbn; congruence]. intros b j. by rewrite !storage_of_put, B.
  - split; [done|]. split; try done; [|by cbn; congruence]. intros b. unfold raw_account. cbn.
    destruct (decide (a = b)) as [<-|Hab].
    + rewrite !lookup_delete_eq, Fd. apply account_rel_refl.
    + rewrite !lookup_delete_ne by done. apply A.
  - assert (Hok1 : entry_ok (suicideChange a p b) s1).
    { destruct p; [done|]. cbn in *. destruct (A a) as [->|[-> HN]]; [done|]. rewrite HN in Hok. by destruct Hok. }
    split; [done|].
    destruct (revert_suicide a p b s1) as (R1 & S1 & U1 & O1 & _); [by destruct p|].
    destruct (revert_suicide a p b s2) as (R2 & S2 & U2 & O2 & _); [by destruct p|].
    set (t1 := revert_entry _ s1) in *. set (t2 := revert_entry _ s2) in *. clearbody t1 t2.
    injection O1 as O11 _ _ _ _. injection O2 as O21 _ _ _ _.
    split; [|congruence|by destruct p; congruence].
    intros c. rewrite R1, R2. destruct p; [apply A|]. case_decide as Hc; [|apply A].
    cbn in Hok. destruct (A a) as [->|[_ HN]]; [apply account_rel_refl|]. rewrite HN in Hok. by destruct Hok.
Qed.

#[export] Instance kept_undo_rel : UndoRel kept.
Proof.
  split; [exact kept_trans|exact restored_kept|exact revert_entry_kept|]. intros es s1 s2 []. by split.
Qed.

(** Changes to fields that are neither journaled nor kept. *)
Definition bookkeeping (s s' : StateDB) : Prop :=
  (accounts s', storage s', db s', suicides s', jentries s', revisions s') =
  (accounts s, storage s, db s, suicides s, jentries s, revisions s) ∧ acl_wf (accessList s').

Lemma bookkeeping_kept s s' : bookkeeping s s' → kept s' s.
Proof.
  intros [[= Ha Hs Hd Hu _ _] _]. split; [|intros b k; unfold storage_of; by rewrite Hs, Hd|congruence].
  intros b. unfold raw_account. rewrite Ha, Hd. apply account_rel_refl.
Qed.

Lemma bookkeeping_tracked s0 s s' : bookkeeping s s' → tracked kept s0 s → tracked kept s0 s'.
Proof.
  intros Hb [Hwf Hu Hn Hr]. pose proof Hb as [[= _ _ _ _ Hj Hv Hx] Hwf']. split; [done| |by rewrite Hx|by rewrite Hv].
  eapply undoes_to_ext; [apply _|exact Hu|done|by apply bookkeeping_kept].
Qed.

Lemma steps_tracked s0 s s' :
  (∀ r, r ∈ validRevisions s0 → r.1 < nextRevisionID s0) →
  tracked kept s0 s → rtc (evm_step (nextRevisionID s0)) s s' → tracked kept s0 s'.
Proof.
  intros Hids Ht Hrun. induction Hrun as [|x y z Hxy _ IH]; [done|].
  apply IH. by eapply evm_step_tracked; [apply _|..].
Qed.

Lemma kept_balances s1 s2 a : kept s1 s2 →
  balance_of s1 a = balance_of s2 a ∧ nonce_of s1 a = nonce_of s2 a ∧ code_hash_of s1 a = code_hash_of s2 a.
Proof.
  intros [A B F]. injection F as Fd Fs. pose proof (account_rel_live s1 s2 a Fs (A a)) as Hl.
  split_and!; [..|unfold code_hash_of; by rewrite Hl]; rewrite <- ?live_balance, <- ?live_nonce; by rewrite Hl.
Qed.
End Kept.

Section Simulate.
Context `{C : Crypto} `{D : AccountCodec} `{V : EVM}.

Lemma evm_step_weaken m m' s s' : m' <= m → evm_step m s s' → evm_step m' s s'.
Proof. intros Hm []; try by econstructor. eapply es_Revert; [|done]. lia. Qed.

(** The revision ids are increasing, as [Snapshot] hands them out. *)
Definition ids_ok (s : StateDB) : Prop := ∀ r, r ∈ validRevisions s → r.1 < nextRevisionID s.

Lemma step_tracked s0 s s' : ids_ok s0 → tracked kept s0 s → evm_step (nextRevisionID s0) s s' → tracked kept s0 s'.
Proof. intros Hids Ht Hs. by eapply evm_step_tracked; [apply _|..]. Qed.

(** What holds across the EVM's operations and the bookkeeping holds across
    [Prepare]. *)
Lemma Prepare_closed (P : StateDB → Prop) m sender coinbase dest pre s :
  (∀ t t', P t → evm_step m t t' → P t') → (∀ t t', bookkeeping t t' → P t → P t') → (∀ t, P t → acl_wf (accessList t)) →
  P s → P (Prepare sender coinbase dest pre s).
Proof.
  intros Hstep Hbook Hwf Hs. unfold Prepare.
  assert (∀ t, P t → P (set_refund 0 (set_newContracts ∅ t))) as Hend.
  { intros t Ht. eapply Hbook; [|exact Ht]. split; [done|exact (Hwf t Ht)]. }
  assert (∀ a t, P t → P (AddAddressToAccessList a t)) as Hadd.
  { intros a t Ht. eapply Hstep; [exact Ht|apply es_AddAddress]. }
  apply Hend, Hadd. set (t0 := set_transient _ _).
  assert (P (AddAddressToAccessList sender t0)) as H1.
  { apply Hadd. eapply Hbook; [|exact Hs]. split; [done|apply acl_wf_new]. }
  assert (P (match dest with Some d => AddAddressToAccessList d (AddAddressToAccessList sender t0)
    | None => AddAddressToAccessList sender t0 end)) as H2 by (destruct dest; [by apply Hadd|done]).
  revert H2. generalize (match dest with Some d => AddAddressToAccessList d (AddAddressToAccessList sender t0)
    | None => AddAddressToAccessList sender t0 end). clear -Hadd.
  induction pre as [|a pre IH]; intros t Ht; [done|]. cbn [foldl]. apply IH. by apply Hadd.
Qed.

Lemma Prepare_tracked s0 sender coinbase dest pre s :
  ids_ok s0 → tracked kept s0 s → tracked kept s0 (Prepare sender coinbase dest pre s).
Proof.
  intros Hids. apply (Prepare_closed _ (nextRevisionID s0)).
  - intros t t' Ht Hst. by eapply step_tracked.
  - intros t t'. apply bookkeeping_tracked.
  - intros t Ht. apply Ht.
Qed.

Lemma prepare_tracked s0 x msg cost s :
  ids_ok s0 → tracked kept s0 s → m_From msg ∉ suicides s → tracked kept s0 (prepare_message x msg cost s).
Proof.
  intros Hids Ht Hs. unfold prepare_message. apply Prepare_tracked; [done|].
  assert (tracked kept s0 (SubBalance (m_From msg) cost s).1) as H1.
  { eapply step_tracked; [done|exact Ht|by apply es_SubBalance]. }
  eapply bookkeeping_tracked; [|exact H1]. split; [done|apply H1].
Qed.

(** The run of a message uses the state through the journaled operations of the
    EVM's interface, with its own snapshots nested, and writes to no account
    that has self-destructed. *)
Definition well_framed (x : VmExecutor) (msg : Message) (s : StateDB) : Prop :=
  rtc (evm_step (nextRevisionID s - 1)) s (run_message x msg s).1.

(** A message that is simulated: free gas and no [Finalise]. *)
Definition simulated (msg : Message) : Prop := m_NoFinalise msg = true ∧ m_GasPrice msg = Some 0.

Lemma ApplyMessage_tracked s0 x msg s :
  ids_ok s0 → tracked kept s0 s → simulated msg → m_From msg ∉ suicides s →
  (∀ t, same_view t s → well_framed x msg (prepare_message x msg 0 t)) →
  tracked kept s0 (ApplyMessage x msg s).1.
Proof.
  intros Hids Ht [Hnf Hp] Hfrom Hframe. unfold ApplyMessage. rewrite Hp, Hnf. cbn [default from_option id].
  rewrite Z.mul_0_r. destruct (_ =? 0); [done|]. change (2 ^ 256 <=? 0) with false. cbv iota.
  assert (∀ t, tracked kept s0 t → tracked kept s0 (GetBalance (m_From msg) t).1) as Hget.
  { intros t Ht'. eapply step_tracked; [done|exact Ht'|apply es_GetBalance]. }
  destruct (GetBalance_spec (m_From msg) s) as [_ Hv1]. pose proof (Hget s Ht) as H1.
  destruct (GetBalance (m_From msg) s) as [s1 b1]. cbn [fst] in H1, Hv1. destruct (b1 <? 0); [done|].
  destruct (GetBalance_spec (m_From msg) s1) as [_ Hv2]. pose proof (Hget s1 H1) as H2.
  destruct (GetBalance (m_From msg) s1) as [s2 b2]. cbn [fst] in H2, Hv2. destruct (b2 <? _); [done|].
  assert (same_view s2 s) as Hv by (by etrans).
  assert (m_From msg ∉ suicides s2) as Hs2.
  { destruct Hv as [_ _ Hq]. injection Hq as _ -> _ _ _ _ _ _ _. done. }
  pose proof (prepare_tracked s0 x msg 0 s2 Hids H2 Hs2) as H3. pose proof (Hframe s2 Hv) as Hf.
  unfold well_framed in Hf. set (s3 := prepare_message x msg 0 s2) in *. clearbody s3.
  assert (tracked kept s0 (run_message x msg s3).1) as H4.
  { apply (steps_tracked _ s3 _ Hids H3). eapply rtc_subrel; [|exact Hf].
    intros y z. apply evm_step_weaken. destruct H3 as [_ _ Hn _]. lia. }
  destruct (run_message x msg s3) as [s4 [out created]]. cbn [fst] in *. unfold settle_gas. rewrite Z.ltb_irrefl.
  cbn [andb]. eapply bookkeeping_tracked; [|exact H4]. split; [done|apply H4].
Qed.

(** Simulating a message on the live state and reverting to the snapshot
    taken before keeps the chain state. *)
Lemma simulate_reverts x msg s :
  acl_wf (accessList s) → ids_ok s → simulated msg → m_From msg ∉ suicides s →
  (∀ t, same_view t (Snapshot s).1 → well_framed x msg (prepare_message x msg 0 t)) →
  ∃ s', RevertToSnapshot (Snapshot s).2 (ApplyMessage x msg (Snapshot s).1).1 = Some s' ∧ kept s' s ∧
        jentries s' = jentries s ∧ validRevisions s' = validRevisions s.
Proof.
  intros Hwf Hids Hsim Hfrom Hframe.
  apply (tracked_revert kept s _ Hids). apply ApplyMessage_tracked; try done.
  by apply tracked_snapshot; [apply _|].
Qed.
End Simulate.
