(* ===== verification/Precompiles.v ===== *)
(** * The system precompiles 0x100 and 0x102

    Models [core/vm/precompiles.go]: the registry of system contracts, the
    native transfer (0x100), the staking entry point (0x102) and the transfer
    hook that tells a payable method who paid.  The interpreter calls [Run]
    after it has moved the value of the call.

    A [*stakeValueCtx] shared between the hook and a contract is a field of
    the world the contracts run in.  [RequiredGas] and [Run] take the input
    bytes; an error leaves the writes made before it, which the interpreter
    then undoes with [RevertToSnapshot]. *)
From S2P Require Import Prelude Types Toy Smt ValidatorSet Votes StateDB StateRevert StateCommit.
From S2P Require Import NativeState Staking StakingProps StakingRevert Vm.

(** ** Gas schedule and contracts *)
Definition NativeTransferGas : Z := 3000.
Definition StakingPrecompileGasBond : Z := 50000.
Definition StakingPrecompileGasQuery : Z := 2000.
Definition StakingPrecompileGasJail : Z := 30000.
Definition StakingPrecompileGasSetCommission : Z := 30000.
Definition StakingPrecompileGasClaimRewards : Z := 40000.

(** The system contracts that [installDewPrecompiles] adds to the fork's. *)
Inductive DewContract : Type := NativeTransfer | NativeSwap | StakingContract.

Definition dew_contract (enabled : bool) (addr : Address) : option DewContract :=
  if negb enabled then None else
  if addr =? NativeTransferPrecompile then Some NativeTransfer else
  if addr =? NativeSwapPrecompile then Some NativeSwap else
  if addr =? StakingPrecompile then Some StakingContract else None.

(** ** The methods of 0x102 *)
Definition StakeMethodBond : Z := 0.
Definition StakeMethodUnbond : Z := 1.
Definition StakeMethodGetSelfStake : Z := 2.
Definition StakeMethodGetVotingPower : Z := 3.
Definition StakeMethodActiveCount : Z := 4.
Definition StakeMethodActiveAt : Z := 5.
Definition StakeMethodJail : Z := 6.
Definition StakeMethodIsJailed : Z := 7.
Definition StakeMethodWithdraw : Z := 8.
Definition StakeMethodPendingUnbond : Z := 9.
Definition StakeMethodDelegate : Z := 10.
Definition StakeMethodUndelegate : Z := 11.
Definition StakeMethodWithdrawDelegation : Z := 12.
Definition StakeMethodSetCommission : Z := 13.
Definition StakeMethodGetDelegation : Z := 14.
Definition StakeMethodGetCommission : Z := 15.
Definition StakeMethodGetDelegatedTotal : Z := 16.
Definition StakeMethodPendingUndelegation : Z := 17.
Definition StakeMethodClaimRewards : Z := 18.
Definition StakeMethodPendingRewards : Z := 19.

Definition staking_RequiredGas (input : list Z) : Z :=
  match input with
  | [] => StakingPrecompileGasQuery
  | m :: _ =>
      if (m =? StakeMethodBond) || (m =? StakeMethodDelegate) then StakingPrecompileGasBond else
      if (m =? StakeMethodUnbond) || (m =? StakeMethodWithdraw) || (m =? StakeMethodUndelegate)
         || (m =? StakeMethodWithdrawDelegation) || (m =? StakeMethodClaimRewards)
      then StakingPrecompileGasClaimRewards else
      if m =? StakeMethodJail then StakingPrecompileGasJail else
      if m =? StakeMethodSetCommission then StakingPrecompileGasSetCommission else
      StakingPrecompileGasQuery
  end.

Definition u256Pad (v : Z) : list Z := be_bytes 32 v.

(** The [n] bytes from offset [i], as a number. *)
Definition arg (i n : nat) (input : list Z) : Z := of_be (slice i (i + n) input).

Definition readAddr (input : list Z) : res Address :=
  if negb (length input =? 21)%nat then Err "staking: need method + 20-byte address" else Ok (arg 1 20 input).

Definition readTwoAddr (input : list Z) : res (Address * Address) :=
  if negb (length input =? 41)%nat then Err "staking: need method + two 20-byte addresses"
  else Ok (arg 1 20 input, arg 21 20 input).

(** ** The world the contracts run in *)
Record stakeValueCtx : Type := mkValueCtx { vc_from : Address; vc_amount : option Z }.

Record world (S : Type) : Type := mkWorld {
  w_db : S;
  w_stakeVal : option stakeValueCtx;
  w_obVal : option stakeValueCtx;
}.
Arguments mkWorld {S}.
Arguments w_db {S}.
Arguments w_stakeVal {S}.
Arguments w_obVal {S}.

Definition with_db {S} (s : S) (w : world S) : world S := mkWorld s (w_stakeVal w) (w_obVal w).

(** [valueCtx.amount = 0] *)
Definition consumed (v : option stakeValueCtx) : option stakeValueCtx :=
  match v with None => None | Some c => Some (mkValueCtx (vc_from c) (Some 0)) end.

Definition consume_stake {S} (w : world S) : world S := mkWorld (w_db w) (consumed (w_stakeVal w)) (w_obVal w).

(** The world an [ApplyMessage] starts from. *)
Definition fresh_world {S} (s : S) : world S :=
  mkWorld s (Some (mkValueCtx 0 None)) (Some (mkValueCtx 0 None)).

Record stakingPrecompile : Type := mkStakingPrecompile {
  sp_self : Address;
  sp_origin : Address;
  sp_blockTime : Z;
  sp_enabled : bool;
  sp_cfg : StakingConfig;
}.

Definition bondCaller (v : option stakeValueCtx) : res (Address * Z) :=
  match v with
  | Some (mkValueCtx from (Some amount)) =>
      if amount =? 0 then Err "staking: bond requires non-zero value" else Ok (from, amount)
  | _ => Err "staking: bond requires non-zero value"
  end.

Section Contracts.
Context `{C : Crypto} {S : Type} `{N : !NativeState S}.

(** [core.Transfer] of go-ethereum. *)
Context (Transfer : Address → Address → Z → S → S).

Definition wrapDewPrecompileTransfer (from to : Address) (amount : Z) (w : world S) : world S :=
  let w := with_db (Transfer from to amount (w_db w)) w in
  if amount =? 0 then w else
  match (if to =? StakingPrecompile then w_stakeVal w else None) with
  | Some _ => mkWorld (w_db w) (Some (mkValueCtx from (Some amount))) (w_obVal w)
  | None =>
      match (if to =? NativeSwapPrecompile then w_obVal w else None) with
      | Some _ => mkWorld (w_db w) (w_stakeVal w) (Some (mkValueCtx from (Some amount)))
      | None => w
      end
  end.

Definition nativeTransfer_Run (self : Address) (input : list Z) (w : world S) : world S * res (list Z) :=
  if negb (length input =? 20)%nat
  then (w, Err "nativeTransfer: input must be exactly 20-byte recipient") else
  let to := of_be input in
  let bal := ns_GetBalance self (w_db w) in
  if bal =? 0 then (w, Ok (u256Pad 0)) else
  let s := ns_SubBalance self bal (w_db w) in
  (with_db (ns_AddBalance to bal s) w, Ok (u256Pad bal)).

(** The payout of a withdrawal: module escrow to the actor. *)
Definition pay_out (self actor : Address) (out : Z) (msg : string) (s : S) : S * res (list Z) :=
  if ns_GetBalance self s <? out then (s, Err msg)
  else (ns_AddBalance actor out (ns_SubBalance self out s), Ok (u256Pad out)).

Definition run_bond (m : StakingModule) (input : list Z) (w : world S) : world S * res (list Z) :=
  if negb (length input =? 1)%nat then (w, Err "staking: bond input must be single method byte") else
  match bondCaller (w_stakeVal w) with
  | Err e => (w, Err e)
  | Ok (bonder, amt) =>
      match Bond m bonder amt (w_db w) with
      | (s, Err e) => (with_db s w, Err e)
      | (s, Ok _) => (consume_stake (with_db s w), Ok (u256Pad amt))
      end
  end.

Definition run_delegate (input : list Z) (w : world S) : world S * res (list Z) :=
  if negb (length input =? 21)%nat then (w, Err "staking: delegate needs method + validator 20") else
  match bondCaller (w_stakeVal w) with
  | Err _ => (w, Err "staking: delegate requires non-zero value")
  | Ok (delegator, amt) =>
      match Delegate (arg 1 20 input) delegator amt (w_db w) with
      | (s, Err e) => (with_db s w, Err e)
      | (s, Ok _) => (consume_stake (with_db s w), Ok (u256Pad amt))
      end
  end.

(** The methods that change the ledger and take no value. *)
Definition run_unbond (p : stakingPrecompile) (input : list Z) (s : S) : S * res (list Z) :=
  if negb (length input =? 33)%nat then (s, Err "staking: unbond needs method + uint256 amount") else
  let amount := arg 1 32 input in
  match Unbond (NewStakingModule (sp_cfg p)) (sp_origin p) amount (sp_blockTime p) s with
  | (s, Err e) => (s, Err e)
  | (s, Ok _) => (s, Ok (u256Pad amount))
  end.

Definition run_withdraw (p : stakingPrecompile) (input : list Z) (s : S) : S * res (list Z) :=
  if negb (length input =? 1)%nat then (s, Err "staking: withdraw takes no args") else
  match Withdraw (sp_origin p) (sp_blockTime p) s with
  | (s, Err e) => (s, Err e)
  | (s, Ok out) => pay_out (sp_self p) (sp_origin p) out "staking: module escrow insolvent" s
  end.

Definition run_jail (input : list Z) (s : S) : S * res (list Z) :=
  if negb (length input =? 1 + 2 * VoteWireSize)%nat then (s, Err "staking: jail needs dual-vote evidence") else
  match DecodeDoubleSignEvidenceWire (drop 1 input) with
  | Err e => (s, Err e)
  | Ok ev =>
      match Evidence_Verify (Some ev) with
      | Err e => (s, Err e)
      | Ok _ => let '(s, burned) := SlashAndJail (Offender (Some ev)) s in (s, Ok (u256Pad burned))
      end
  end.

Definition run_undelegate (p : stakingPrecompile) (input : list Z) (s : S) : S * res (list Z) :=
  if negb (length input =? 53)%nat then (s, Err "staking: undelegate needs validator 20 + amount u256") else
  let amount := arg 21 32 input in
  match Undelegate (NewStakingModule (sp_cfg p)) (arg 1 20 input) (sp_origin p) amount (sp_blockTime p) s with
  | (s, Err e) => (s, Err e)
  | (s, Ok _) => (s, Ok (u256Pad amount))
  end.

Definition run_withdraw_delegation (p : stakingPrecompile) (input : list Z) (s : S) : S * res (list Z) :=
  if negb (length input =? 21)%nat then (s, Err "staking: withdrawDelegation needs validator 20") else
  match WithdrawDelegation (arg 1 20 input) (sp_origin p) (sp_blockTime p) s with
  | (s, Err e) => (s, Err e)
  | (s, Ok out) => pay_out (sp_self p) (sp_origin p) out "staking: module escrow insolvent" s
  end.

Definition run_set_commission (p : stakingPrecompile) (input : list Z) (s : S) : S * res (list Z) :=
  if negb (length input =? 33)%nat then (s, Err "staking: setCommission needs bps u256") else
  let bps := u64 (arg 1 32 input) in
  match SetCommission (sp_origin p) bps s with
  | (s, Err e) => (s, Err e)
  | (s, Ok _) => (s, Ok (u256Pad bps))
  end.

Definition run_claim (p : stakingPrecompile) (input : list Z) (s : S) : S * res (list Z) :=
  if negb (length input =? 21)%nat then (s, Err "staking: claimRewards needs method + validator 20") else
  match ClaimRewards (arg 1 20 input) (sp_origin p) s with
  | (s, Err e) => (s, Err e)
  | (s, Ok amt) => pay_out (sp_self p) (sp_origin p) amt "staking: module reward escrow insolvent" s
  end.

(** The methods that only look. *)
Definition query (p : stakingPrecompile) (input : list Z) (s : S) (method : Z) : res (list Z) :=
  let mod_ := NewStakingModule (sp_cfg p) in
  if method =? StakeMethodPendingUnbond then
    let? a := readAddr input in
    let '(amt, unlock) := PendingUnbond a s in Ok (u256Pad amt ++ u256Pad unlock) else
  if method =? StakeMethodGetSelfStake then
    let? a := readAddr input in Ok (u256Pad (SelfStake a s)) else
  if method =? StakeMethodGetVotingPower then
    let? a := readAddr input in Ok (u256Pad (VotingPower a s)) else
  if method =? StakeMethodActiveCount then
    if negb (length input =? 1)%nat then Err "staking: activeCount takes no args"
    else Ok (u256Pad (Z.of_nat (length (ActiveSet mod_ s)))) else
  if method =? StakeMethodActiveAt then
    if negb (length input =? 33)%nat then Err "staking: activeAt needs index" else
    match ActiveSet mod_ s !! Z.to_nat (u64 (arg 1 32 input)) with
    | None => Err "staking: activeAt out of range"
    | Some c => Ok (u256Pad (c_addr c))
    end else
  if method =? StakeMethodIsJailed then
    let? a := readAddr input in Ok (u256Pad (if IsJailed a s then 1 else 0)) else
  if method =? StakeMethodGetDelegation then
    let? vd := readTwoAddr input in Ok (u256Pad (Delegation vd.1 vd.2 s)) else
  if method =? StakeMethodGetCommission then
    let? a := readAddr input in Ok (u256Pad (CommissionBps a s)) else
  if method =? StakeMethodGetDelegatedTotal then
    let? a := readAddr input in Ok (u256Pad (DelegatedTotal a s)) else
  if method =? StakeMethodPendingUndelegation then
    let? vd := readTwoAddr input in
    let '(amt, unlock) := PendingUndelegation vd.1 vd.2 s in Ok (u256Pad amt ++ u256Pad unlock) else
  Err "staking: unknown method".

(** [PendingRewards] settles the position it reports. *)
Definition run_pending_rewards (input : list Z) (s : S) : S * res (list Z) :=
  match readTwoAddr input with
  | Err e => (s, Err e)
  | Ok vd => let '(s, r) := PendingRewards vd.1 vd.2 s in (s, Ok (u256Pad r))
  end.

Definition run_db (p : stakingPrecompile) (input : list Z) (s : S) (method : Z) : S * res (list Z) :=
  if method =? StakeMethodUnbond then run_unbond p input s else
  if method =? StakeMethodWithdraw then run_withdraw p input s else
  if method =? StakeMethodJail then run_jail input s else
  if method =? StakeMethodUndelegate then run_undelegate p input s else
  if method =? StakeMethodWithdrawDelegation then run_withdraw_delegation p input s else
  if method =? StakeMethodSetCommission then run_set_commission p input s else
  if method =? StakeMethodClaimRewards then run_claim p input s else
  if method =? StakeMethodPendingRewards then run_pending_rewards input s else
  (s, query p input s method).

Definition staking_Run (p : stakingPrecompile) (input : list Z) (w : world S) : world S * res (list Z) :=
  if negb (sp_enabled p) then (w, Err "staking precompile: not enabled (set EnableStaking)") else
  match input with
  | [] => (w, Err "staking: empty input")
  | method :: _ =>
      if method =? StakeMethodBond then run_bond (NewStakingModule (sp_cfg p)) input w else
      if method =? StakeMethodDelegate then run_delegate input w else
      let '(s, r) := run_db p input (w_db w) method in (with_db s w, r)
  end.
End Contracts.

(** ** Who may change what *)
Section Authority.
Context `{C : Crypto} {S : Type} `{N : !NativeState S} `{L : !NativeStateLaws S}.

(** The slots of the accounts [A] and of the candidate indices below [n] are
    kept apart by the hash. *)
Context (A : list Address) (n : Z) (Hd : slots_distinct (in_play A n)).

(** The slots a call made for [who] may write: its own position and the
    aggregates.  The reward index of a validator is not among them. *)
Definition mine (who : Address) (x : slot) : Prop :=
  match x with
  | selfSlot a | jailedSlot a | candSlot a | unbondAmtSlot a | unbondAtSlot a | commSlot a => a = who
  | delSlot _ d | delUnbondAmtSlot _ d | delUnbondAtSlot _ d | rewDebtSlot _ d | rewPendSlot _ d => d = who
  | lenSlot | idxSlot _ | delTotSlot _ | delRateSlot _ => True
  | rewIdxSlot _ => False
  end.

(** From [s] to [s'] nothing but the slots of [who] and the balances of [who]
    and of the module changes. *)
Record spares (who : Address) (s s' : S) : Prop := {
  spares_ok : ns_ok s';
  spares_slot : ∀ y, in_play A n y → ¬ mine who y → sget y s' = sget y s;
  spares_balance : ∀ b, b ≠ who → b ≠ StakingModuleAddr → ns_GetBalance b s' = ns_GetBalance b s;
}.

Lemma spares_refl who s : ns_ok s → spares who s s.
Proof using. clear. intros Hs. by split. Qed.

Lemma spares_sset who s t x v : spares who s t → in_play A n x → mine who x → spares who s (sset x v t).
Proof using L Hd.
  intros [Hok Hsl Hb] Hx Hm. split.
  - by apply sset_ok.
  - intros y Hy Hny. rewrite (sget_sset A n) by done. case_decide as He; [by subst y|by apply Hsl].
  - intros b H1 H2. rewrite balance_sset by done. by apply Hb.
Qed.

Lemma spares_add who s t a x : spares who s t → a = who ∨ a = StakingModuleAddr → spares who s (ns_AddBalance a x t).
Proof using.
  clear Hd. intros [Hok Hsl Hb] Ha. split.
  - eauto with native.
  - intros y Hy Hny. rewrite sget_add by done. by apply Hsl.
  - intros b H1 H2. rewrite balance_add, decide_False by (done || naive_solver). by apply Hb.
Qed.

Lemma spares_sub who s t a x : spares who s t → a = who ∨ a = StakingModuleAddr → spares who s (ns_SubBalance a x t).
Proof using.
  clear Hd. intros [Hok Hsl Hb] Ha. split.
  - eauto with native.
  - intros y Hy Hny. rewrite sget_sub by done. by apply Hsl.
  - intros b H1 H2. rewrite balance_sub, decide_False by (done || naive_solver). by apply Hb.
Qed.

(** One write after another. *)
Ltac spare := repeat first
  [ assumption
  | apply spares_sset; [|cbn [in_play]; first [exact I|assumption|by split]|reflexivity || exact I]
  | apply spares_add; [|by auto]
  | apply spares_sub; [|by auto] ].

Lemma settle_spares v d s : ns_ok s → v ∈ A → d ∈ A → spares d s (settleRewards v d s).
Proof using L Hd.
  intros Hs Hv Hda. pose proof (spares_refl d s Hs). unfold settleRewards, setRewardDebt, setPendingStored.
  case_match; spare.
Qed.

Lemma Bond_spares m a x s : ns_ok s → a ∈ A → u64 (hashToU256 (sget lenSlot s)) < n → spares a s (Bond m a x s).1.
Proof using L Hd.
  intros Hs Ha Hlen. pose proof (spares_refl a s Hs). unfold Bond. case_match; [done|]. cbv zeta.
  set (s1 := sset (selfSlot a) _ s). assert (spares a s s1) as H1 by (subst s1; spare).
  case_match; [|done]. cbn [fst]. unfold registerCandidate. case_match; [done|].
  assert (0 <= u64 (hashToU256 (sget lenSlot (sset (candSlot a) 1 s1))) < n) as Hidx.
  { split; [apply u64_range|]. subst s1. by rewrite !(sget_sset A n) by done. }
  spare.
Qed.

Lemma Delegate_spares v d x s : ns_ok s → v ∈ A → d ∈ A → spares d s (Delegate v d x s).1.
Proof using L Hd.
  intros Hs Hv Hda. pose proof (spares_refl d s Hs). pose proof (settle_spares v d s Hs Hv Hda).
  unfold Delegate, setRewardDebt. repeat case_match; cbn [fst]; spare.
Qed.

Lemma Unbond_spares m a x t s : ns_ok s → a ∈ A → spares a s (Unbond m a x t s).1.
Proof using L Hd.
  intros Hs Ha. pose proof (spares_refl a s Hs). unfold Unbond. repeat case_match; cbn [fst]; spare.
Qed.

Lemma Undelegate_spares m v d x t s : ns_ok s → v ∈ A → d ∈ A → spares d s (Undelegate m v d x t s).1.
Proof using L Hd.
  intros Hs Hv Hda. pose proof (spares_refl d s Hs). pose proof (settle_spares v d s Hs Hv Hda).
  unfold Undelegate, setRewardDebt. repeat case_match; cbn [fst]; spare.
Qed.

Lemma Withdraw_spares a t s : ns_ok s → a ∈ A → spares a s (Withdraw a t s).1.
Proof using L Hd.
  intros Hs Ha. pose proof (spares_refl a s Hs). unfold Withdraw. repeat case_match; cbn [fst]; spare.
Qed.

Lemma WithdrawDelegation_spares v d t s : ns_ok s → v ∈ A → d ∈ A → spares d s (WithdrawDelegation v d t s).1.
Proof using L Hd.
  intros Hs Hv Hda. pose proof (spares_refl d s Hs). unfold WithdrawDelegation. repeat case_match; cbn [fst]; spare.
Qed.

Lemma ClaimRewards_spares v d s : ns_ok s → v ∈ A → d ∈ A → spares d s (ClaimRewards v d s).1.
Proof using L Hd.
  intros Hs Hv Hda. pose proof (settle_spares v d s Hs Hv Hda). unfold ClaimRewards, setPendingStored.
  repeat case_match; cbn [fst]; spare.
Qed.

Lemma SetCommission_spares a b s : ns_ok s → a ∈ A → spares a s (SetCommission a b s).1.
Proof using L Hd.
  intros Hs Ha. pose proof (spares_refl a s Hs). unfold SetCommission. repeat case_match; cbn [fst]; spare.
Qed.

Lemma SlashAndJail_spares a s : ns_ok s → a ∈ A → spares a s (SlashAndJail a s).1.
Proof using L Hd.
  intros Hs Ha. pose proof (spares_refl a s Hs). unfold SlashAndJail. case_match; [done|].
  assert (spares a s (slash_self a s).1) as H1 by (unfold slash_self; case_match; cbn [fst]; spare).
  destruct (slash_self a s) as [s1 b1]. cbn [fst] in H1.
  assert (spares a s (slash_delegated a s1).1) as H2 by (unfold slash_delegated; repeat case_match; cbn [fst]; spare).
  destruct (slash_delegated a s1) as [s2 b2]. cbn [fst] in H2. unfold Jail.
  repeat case_match; simplify_eq; cbn [fst]; spare.
Qed.

Lemma pay_out_spares who self x msg s t : self = StakingModuleAddr → spares who s t →
  spares who s (pay_out self who x msg t).1.
Proof using L. clear Hd. intros -> Ht. unfold pay_out. case_match; cbn [fst]; spare. Qed.

(** ** The parties to a call *)
Definition payer (w : world S) : option Address := vc_from <$> w_stakeVal w.

(** The input carries two conflicting votes signed by [a]. *)
Definition convicts (input : list Z) (a : Address) : Prop :=
  ∃ ev, DecodeDoubleSignEvidenceWire (drop 1 input) = Ok ev ∧ Evidence_Verify (Some ev) = Ok tt
        ∧ Offender (Some ev) = a.

(** The accounts whose slots a call of 0x102 can reach. *)
Definition call_parties (p : stakingPrecompile) (input : list Z) (w : world S) : list Address :=
  [sp_origin p; arg 1 20 input; arg 21 20 input]
  ++ match payer w with Some b => [b] | None => [] end
  ++ match DecodeDoubleSignEvidenceWire (drop 1 input) with Ok ev => [Offender (Some ev)] | Err _ => [] end.

(** A call is made for one account: the origin, the payer of its value or a
    convicted validator; the query of pending rewards settles a position. *)
Lemma run_db_parties p input w : sp_self p = StakingModuleAddr → ns_ok (w_db w) → call_parties p input w ⊆ A →
  ∀ method, let s' := (run_db p input (w_db w) method).1 in
  (∃ who, spares who (w_db w) s' ∧ (who = sp_origin p ∨ convicts input who))
  ∨ (∃ v d, v ∈ A ∧ d ∈ A ∧ s' = settleRewards v d (w_db w)).
Proof using L Hd.
  intros Hself Hs HA method. cbv zeta. set (s := w_db w) in *. pose proof (spares_refl (sp_origin p) s Hs) as Hr.
  assert (sp_origin p ∈ A ∧ arg 1 20 input ∈ A ∧ arg 21 20 input ∈ A) as (Ho & Hv & Hv2)
    by (split_and!; apply HA; unfold call_parties; set_solver).
  assert (∀ s', spares (sp_origin p) s s' → ∃ who, spares who s s' ∧ (who = sp_origin p ∨ convicts input who)) as Horigin
    by eauto.
  unfold run_db. repeat (destruct (method =? _)); cbn [fst].
  - left. apply Horigin. unfold run_unbond. case_match; [done|].
    pose proof (Unbond_spares (NewStakingModule (sp_cfg p)) _ (arg 1 32 input) (sp_blockTime p) s Hs Ho) as H1.
    by destruct (Unbond _ _ _ _ s) as [? []].
  - left. apply Horigin. unfold run_withdraw. case_match; [done|].
    pose proof (Withdraw_spares _ (sp_blockTime p) s Hs Ho) as H1.
    destruct (Withdraw _ _ s) as [? []]; [by apply pay_out_spares|done].
  - left. unfold run_jail. case_match; [eauto|]. destruct (DecodeDoubleSignEvidenceWire _) as [ev|] eqn:Hev; [|eauto].
    destruct (Evidence_Verify _) as [[]|] eqn:Hvf; [|eauto].
    assert (Offender (Some ev) ∈ A) as Hoff by (apply HA; unfold call_parties; rewrite Hev; set_solver).
    pose proof (SlashAndJail_spares _ s Hs Hoff) as H1.
    destruct (SlashAndJail _ s) as [? ?]. exists (Offender (Some ev)). split; [exact H1|]. right. by exists ev.
  - left. apply Horigin. unfold run_undelegate. case_match; [done|].
    pose proof (Undelegate_spares (NewStakingModule (sp_cfg p)) _ _ (arg 21 32 input) (sp_blockTime p) s Hs Hv Ho) as H1.
    by destruct (Undelegate _ _ _ _ _ s) as [? []].
  - left. apply Horigin. unfold run_withdraw_delegation. case_match; [done|].
    pose proof (WithdrawDelegation_spares _ _ (sp_blockTime p) s Hs Hv Ho) as H1.
    destruct (WithdrawDelegation _ _ _ s) as [? []]; [by apply pay_out_spares|done].
  - left. apply Horigin. unfold run_set_commission. case_match; [done|].
    pose proof (SetCommission_spares _ (u64 (arg 1 32 input)) s Hs Ho) as H1.
    by destruct (SetCommission _ _ s) as [? []].
  - left. apply Horigin. unfold run_claim. case_match; [done|].
    pose proof (ClaimRewards_spares _ _ s Hs Hv Ho) as H1.
    destruct (ClaimRewards _ _ s) as [? []]; [by apply pay_out_spares|done].
  - unfold run_pending_rewards, readTwoAddr. destruct (negb _); [left; eauto|].
    right. by exists (arg 1 20 input), (arg 21 20 input).
  - left. eauto.
Qed.

(** ** What a call leaves alone *)
Lemma settle_slot v d s y : v ∈ A → d ∈ A → in_play A n y → y ≠ rewDebtSlot v d → y ≠ rewPendSlot v d →
  sget y (settleRewards v d s) = sget y s.
Proof using L Hd.
  intros Hv Hda Hy H1 H2. unfold settleRewards, setRewardDebt, setPendingStored.
  rewrite (sget_sset A n), decide_False by done. case_match; [|done]. by rewrite (sget_sset A n), decide_False by done.
Qed.

(** What the position can claim, in terms of its four slots. *)
Definition rewards_due (v d : Address) (s : S) : Z :=
  let owed := rewardDebtForShares v (DelegationShares v d s) s in
  if rewardDebt v d s <? owed then pendingStored v d s +₂₅₆ (owed -₂₅₆ rewardDebt v d s) else pendingStored v d s.

Lemma PendingRewards_due v d s : v ∈ A → d ∈ A → (PendingRewards v d s).2 = rewards_due v d s.
Proof using L Hd.
  intros Hv Hda. cbn [PendingRewards snd]. unfold settleRewards, setRewardDebt, rewards_due.
  set (owed := rewardDebtForShares _ _ s). set (s1 := if _ <? _ then _ else s). unfold pendingStored at 1.
  rewrite (sget_sset A n), decide_False by done. subst s1. case_match; [|done].
  unfold setPendingStored, hashToU256, u256ToHash. rewrite (sget_sset A n), decide_True by done. apply u256_id, u256_range.
Qed.

(** Settling twice pays once. *)
Lemma settle_rewards_same v d s : v ∈ A → d ∈ A →
  (PendingRewards v d (settleRewards v d s)).2 = (PendingRewards v d s).2.
Proof using L Hd.
  intros Hv Hda. rewrite PendingRewards_due by done. set (s1 := settleRewards v d s).
  pose proof (settle_slot v d s (delSlot v d) Hv Hda ltac:(done) ltac:(done) ltac:(done)) as E1.
  pose proof (settle_slot v d s (rewIdxSlot v) Hv Hda ltac:(done) ltac:(done) ltac:(done)) as E2. fold s1 in E1, E2.
  assert (rewardDebtForShares v (DelegationShares v d s1) s1 = rewardDebtForShares v (DelegationShares v d s) s) as E3
    by (unfold rewardDebtForShares, RewardIndex, DelegationShares; by rewrite E1, E2).
  assert (rewardDebt v d s1 = rewardDebtForShares v (DelegationShares v d s) s) as E4.
  { unfold s1, settleRewards, rewardDebt, setRewardDebt, hashToU256, u256ToHash.
    rewrite (sget_sset A n), decide_True by done. apply u256_id. unfold rewardDebtForShares. case_match; [split; lia|].
    apply div256_range; [apply u256_range|]. unfold StakeRatePrecision. lia. }
  unfold rewards_due. cbv zeta. by rewrite E3, E4, Z.ltb_irrefl.
Qed.

(** The position of [a], with [v] as the validator it may have delegated to. *)
Definition position (a v : Address) (s : S) :=
  (SelfStake a s, IsJailed a s, IsCandidate a s, CommissionBps a s, PendingUnbond a s,
   (DelegationShares v a s, PendingUndelegation v a s)).

Definition untouched (a v : Address) (s s' : S) : Prop :=
  position a v s' = position a v s ∧ (PendingRewards v a s').2 = (PendingRewards v a s).2
  ∧ (a ≠ StakingModuleAddr → ns_GetBalance a s' = ns_GetBalance a s).

Definition position_slots (a v : Address) : list slot :=
  [selfSlot a; jailedSlot a; candSlot a; commSlot a; unbondAmtSlot a; unbondAtSlot a;
   delSlot v a; delUnbondAmtSlot v a; delUnbondAtSlot v a].

Definition reward_slots (a v : Address) : list slot := [delSlot v a; rewIdxSlot v; rewDebtSlot v a; rewPendSlot v a].

Lemma position_same a v s s' : (∀ y, y ∈ position_slots a v → sget y s' = sget y s) → position a v s' = position a v s.
Proof using.
  clear. intros H.
  unfold position, SelfStake, IsJailed, IsCandidate, CommissionBps, PendingUnbond, DelegationShares, PendingUndelegation.
  rewrite !H; [done|unfold position_slots; set_solver..].
Qed.

Lemma rewards_same a v s s' : a ∈ A → v ∈ A → (∀ y, y ∈ reward_slots a v → sget y s' = sget y s) →
  (PendingRewards v a s').2 = (PendingRewards v a s).2.
Proof using L Hd.
  intros Ha Hv H. rewrite !PendingRewards_due by done.
  unfold rewards_due, rewardDebtForShares, RewardIndex, rewardDebt, pendingStored, DelegationShares.
  rewrite !H; [done|unfold reward_slots; set_solver..].
Qed.

Lemma slots_in_play a v y : a ∈ A → v ∈ A → y ∈ position_slots a v ++ reward_slots a v →
  in_play A n y ∧ (∀ who, who ≠ a → ¬ mine who y).
Proof using.
  clear. intros Ha Hv Hy. unfold position_slots, reward_slots in Hy. cbn [app] in Hy. rewrite !elem_of_cons in Hy.
  destruct_or! Hy; try subst y; [..|by apply elem_of_nil in Hy]; cbn; naive_solver.
Qed.

Lemma spares_untouched who a v s s' : a ∈ A → v ∈ A → who ≠ a → spares who s s' → untouched a v s s'.
Proof using L Hd.
  intros Ha Hv Hne [_ Hsl Hb].
  assert (∀ y, y ∈ position_slots a v ++ reward_slots a v → sget y s' = sget y s) as Hall.
  { intros y Hy. destruct (slots_in_play a v y Ha Hv Hy). by apply Hsl; auto. }
  split_and!; [apply position_same|apply rewards_same; [done..|]|intros; by apply Hb];
    intros y Hy; apply Hall, elem_of_app; auto.
Qed.

Lemma settle_untouched v' d a v s : ns_ok s → v' ∈ A → d ∈ A → a ∈ A → v ∈ A →
  untouched a v s (settleRewards v' d s).
Proof using L Hd.
  intros Hs Hv' Hda Ha Hv. destruct (decide (d = a)) as [->|Hne]; [|by eapply spares_untouched, settle_spares].
  split_and!.
  - apply position_same. intros y Hy. destruct (slots_in_play a v y Ha Hv) as [Hp _]; [apply elem_of_app; auto|].
    apply settle_slot; [done..| |]; unfold position_slots in Hy; intros ->;
      rewrite !elem_of_cons, elem_of_nil in Hy; destruct_or! Hy; done.
  - destruct (decide (v' = v)) as [->|Hvv]; [by apply settle_rewards_same|]. apply rewards_same; [done..|].
    intros y Hy. destruct (slots_in_play a v y Ha Hv) as [Hp _]; [apply elem_of_app; auto|].
    unfold reward_slots in Hy. rewrite !elem_of_cons, elem_of_nil in Hy.
    apply settle_slot; [done..| |]; intros ->; destruct_or! Hy; congruence.
  - intros Hm. unfold settleRewards, setRewardDebt, setPendingStored.
    case_match; rewrite !balance_sset by eauto with native; done.
Qed.

(** A call of 0x102 whose parties, with [a] and [v], are among [A]. *)
Lemma staking_Run_untouched p input w a v :
  sp_self p = StakingModuleAddr → ns_ok (w_db w) → u64 (hashToU256 (sget lenSlot (w_db w))) < n →
  a ∈ A → v ∈ A → call_parties p input w ⊆ A →
  a ≠ sp_origin p → payer w ≠ Some a → ¬ convicts input a →
  untouched a v (w_db w) (w_db (staking_Run p input w).1).
Proof using L Hd.
  intros Hself Hs Hlen Ha Hv HA Hno Hnp Hnc.
  assert (untouched a v (w_db w) (w_db w)) as Hrefl
    by (apply (spares_untouched (sp_origin p)); auto using spares_refl).
  assert (∀ c s', w_stakeVal w = Some c → spares (vc_from c) (w_db w) s' → untouched a v (w_db w) s') as Hpayer.
  { intros c s' Hc. apply spares_untouched; [done..|]. intros <-. apply Hnp. unfold payer. by rewrite Hc. }
  assert (∀ c, w_stakeVal w = Some c → vc_from c ∈ A) as Hpa.
  { intros c Hc. apply HA. unfold call_parties, payer. rewrite Hc. set_solver. }
  assert (arg 1 20 input ∈ A) as Harg by (apply HA; unfold call_parties; set_solver).
  unfold staking_Run. case_match; [done|]. destruct input as [|method rest] eqn:Hin; [done|]. rewrite <-Hin in *. clear Hin.
  case_match; [|case_match].
  - unfold run_bond. case_match; [done|]. unfold bondCaller. destruct (w_stakeVal w) as [[from [x|]]|] eqn:Hc; [|done..].
    destruct (x =? 0); [done|].
    pose proof (Bond_spares (NewStakingModule (sp_cfg p)) from x (w_db w) Hs (Hpa _ eq_refl) Hlen) as Hsp.
    destruct (Bond _ _ _ _) as [s' []]; by eapply Hpayer.
  - unfold run_delegate. destruct (Nat.eqb_spec (length input) 21); [|done].
    unfold bondCaller. destruct (w_stakeVal w) as [[from [x|]]|] eqn:Hc; [|done..].
    destruct (x =? 0); [done|]. pose proof (Delegate_spares (arg 1 20 input) from x (w_db w) Hs Harg (Hpa _ eq_refl)) as Hsp.
    destruct (Delegate _ _ _ _) as [s' []]; by eapply Hpayer.
  - pose proof (run_db_parties p input w Hself Hs HA method) as Hdb. cbv zeta in Hdb.
    destruct (run_db _ _ _ _) as [s' r]. cbn [fst] in *.
    destruct Hdb as [(who & Hsp & Hw)|(v' & d & Hv' & Hda & ->)]; [|by apply settle_untouched].
    apply (spares_untouched who); [done..| |done]. intros ->. naive_solver.
Qed.
End Authority.


(** ** Values of reverted calls *)
Section Stale.
Context `{C : Crypto} `{D : AccountCodec}.

Lemma Bond_balance m a x (s : StateDB) b : no_suicides s → ns_GetBalance b (Bond m a x s).1 = ns_GetBalance b s.
Proof.
  intros Hs. change (ns_ok s) in Hs. unfold Bond, registerCandidate.
  repeat case_match; cbn [fst]; rewrite ?balance_sset by eauto 10 with native; done.
Qed.

Context (Transfer : Address → Address → Z → StateDB → StateDB).

(** [core.Transfer] debits the sender and credits the recipient. *)
Hypothesis core_transfer : ∀ a b x s, Transfer a b x s = (AddBalancePrev b x (SubBalance a x s).1).1.

(** C39. The value of a reverted call can be spent: [a] pays [x] into 0x102
    with an input that is refused and gets the money back with the revert;
    a later call of 0x102 without any value then bonds [x] for [a], with no
    balance changed since before the first call. *)
Theorem stale_value_bonds p a x n c s :
  sp_enabled p = true → no_suicides s → a ≠ StakingModuleAddr →
  slots_distinct (in_play [a] n) → u64 (hashToU256 (sget lenSlot s)) < n →
  x ≠ 0 → 0 <= x → SelfStake a s + x < 2 ^ 256 →
  let '(w1, r1) := staking_Run p [StakeMethodBond; 0]
                     (wrapDewPrecompileTransfer Transfer a StakingPrecompile x (mkWorld (Snapshot s).1 (Some c) None)) in
  is_ok r1 = false ∧
  ∃ s2, RevertToSnapshot (Snapshot s).2 (w_db w1) = Some s2 ∧
    let '(w3, r3) := staking_Run p [StakeMethodBond] (with_db s2 w1) in
    r3 = Ok (u256Pad x) ∧ SelfStake a (w_db w3) = SelfStake a s + x ∧
    balance_of (w_db w3) a = balance_of s a ∧
    balance_of (w_db w3) StakingModuleAddr = balance_of s StakingModuleAddr.
Proof using core_transfer.
  intros Hen Hs Hne Hd Hlen Hx0 Hx Hov. unfold wrapDewPrecompileTransfer. cbn [w_db with_db w_stakeVal w_obVal].
  rewrite core_transfer, (proj2 (Z.eqb_neq x 0)) by done. cbn [Z.eqb StakingPrecompile Pos.eqb].
  set (s1 := (AddBalancePrev _ _ _).1). unfold staking_Run. rewrite Hen. cbn [negb].
  rewrite Z.eqb_refl. unfold run_bond. cbn [length Nat.eqb negb w_db].
  split; [done|].
  destruct (transfer_then_revert a StakingModuleAddr x s s1 Hs Hne eq_refl) as (s2 & Hrev & Hs2 & Ha & Hm & _ & Hst).
  exists s2. split; [exact Hrev|]. cbn [w_stakeVal with_db bondCaller]. rewrite (proj2 (Z.eqb_neq x 0)) by done.
  assert (∀ y, sget y s2 = sget y s) as Hsl.
  { intros y. pose proof (transfer_slots a StakingPrecompile x (Snapshot s).1 y) as Ht.
    unfold sget in *. rewrite !storage_GetState in *. by rewrite Hst. }
  assert (SelfStake a s2 = SelfStake a s) as Hss by (unfold SelfStake; by rewrite Hsl).
  cbn [w_db with_db]. destruct (Bond_stake (NewStakingModule (sp_cfg p)) a x n s2) as [Hok Hself];
    [done|by rewrite Hsl|done..|by rewrite Hss|].
  pose proof (λ b, Bond_balance (NewStakingModule (sp_cfg p)) a x s2 b Hs2) as Hbal.
  destruct (Bond _ a x s2) as [s3 r]. cbn [fst snd] in *. subst r. cbn [w_db with_db consume_stake].
  rewrite <-Hss, <-Ha, <-Hm, <-!balance_GetBalance, !Hbal. done.
Qed.
End Stale.

(** ** Evaluation on a concrete state *)
Section Witness.
Local Existing Instances toy_crypto toy_crypto_laws toy_codec.

Definition sample_staking : stakingPrecompile :=
  mkStakingPrecompile StakingPrecompile 5 1000 true (mkStakingConfig (Some 10) 100 1000 60).

Definition unbond_input : list Z := StakeMethodUnbond :: be_bytes 32 40.

Lemma toy_call_slots : slots_distinct (in_play
  (6 :: 5 :: call_parties sample_staking unbond_input (fresh_world staked_state))
  (u64 (hashToU256 (sget lenSlot staked_state)) + 1)).
Proof.
  assert (u64 (hashToU256 (sget lenSlot staked_state)) + 1 = Z.of_nat 1) as -> by (vm_compute; reflexivity).
  set (A := 6 :: _). apply (slots_distinct_mono _ (in_play (remove_dups A) (Z.of_nat 1))).
  - intros x. apply in_play_mono. intros a. by rewrite elem_of_remove_dups.
  - apply slots_distinct_enum. apply (bool_decide_unpack _). vm_compute. exact I.
Qed.


Lemma stale_value_bonds_witness :
  ∃ s2, RevertToSnapshot 0 (w_db (staking_Run sample_staking [StakeMethodBond; 0]
      (wrapDewPrecompileTransfer (λ a b x s, (AddBalancePrev b x (SubBalance a x s).1).1) 5 StakingPrecompile 20
         (mkWorld (Snapshot empty_state).1 (Some (mkValueCtx 0 None)) None))).1) = Some s2.
Proof.
  pose proof (stale_value_bonds (λ a b x s, (AddBalancePrev b x (SubBalance a x s).1).1) (λ _ _ _ _, eq_refl)
    sample_staking 5 20 (Z.of_nat 1) (mkValueCtx 0 None) empty_state eq_refl eq_refl ltac:(discriminate) toy_slots_of_one
    ltac:(rewrite empty_sget; reflexivity) ltac:(discriminate) ltac:(discriminate)
    ltac:(unfold SelfStake; rewrite empty_sget; reflexivity)) as H.
  destruct (staking_Run _ _ _) as [w1 r1]. destruct H as (_ & s2 & Hs2 & _). exists s2. exact Hs2.
Defined.
End Witness.
