(* ===== verification/ChainStore.v ===== *)
(** * Chain data on disk

    Models [node/store.go]: the keys under which headers, bodies, canonical
    hashes, receipts, transaction lookups, the log index and the chain's
    metadata are stored, and the encodings of the stored values.  The state
    database writes its own keys (prefixes a, s and c) into the same store.

    A go-ethereum transaction is given by its accessors, as in [Mempool];
    its decoder and signer are parameters. *)
From S2P Require Import Prelude Types Toy DewTx Mempool Rlp EvmTx StateDB.

(** ** Transactions, receipts and lookups *)

(** What execution reads of a go-ethereum transaction, beyond admission. *)
Record ExecTx : Type := mkExecTx {
  ex_tx : EthTx;
  ex_Gas : Z;
  ex_Value : Z;
  ex_To : option Address;
  ex_Data : list Z;
}.

(** [ethtypes.Transaction.UnmarshalBinary] and [ethtypes.Sender] for a chain id. *)
Class EthCodec : Type := {
  eth_UnmarshalBinary : list Z → res ExecTx;
  eth_Sender : Z → ExecTx → res Address;
}.

(** What decodes is what was encoded. *)
Class EthCodecLaws (K : EthCodec) : Prop := {
  eth_unmarshal_marshal : ∀ raw tx, eth_UnmarshalBinary raw = Ok tx → eth_MarshalBinary (ex_tx tx) = Ok raw;
}.

Record Receipt : Type := mkReceipt {
  rc_Type : Z;
  rc_Status : Z;
  rc_CumulativeGasUsed : Z;
  rc_GasUsed : Z;
  rc_EffectiveGasPrice : Z;
  rc_Logs : list Log;
  rc_ContractAddress : option Address;
  rc_TxHash : Hash;
  rc_BlockHash : Hash;
  rc_BlockNumber : Z;
  rc_TransactionIndex : Z;
}.

Record TxLookup : Type := mkTxLookup {
  tl_BlockHash : Hash;
  tl_BlockNumber : Z;
  tl_Index : Z;
  tl_Tx : option ExecTx;
  tl_DewTx : option DewTx;
  tl_From : Address;
  tl_TxHash : Hash;
}.

(** ** Keys *)
Definition chainSchemaVersion : Z := 1.
Definition logIndexSchemaVersion : Z := 1.

Definition prefixHeader : Z := 72.
Definition prefixBody : Z := 66.
Definition prefixCanonical : Z := 78.
Definition prefixReceipt : Z := 82.
Definition prefixTxLookup : Z := 84.
Definition prefixLogIndex : Z := 76.

Definition metaVersionKey : list Z := str_bytes "meta/version".
Definition metaChainIDKey : list Z := str_bytes "meta/chainId".
Definition metaGenesisHashKey : list Z := str_bytes "meta/genesisHash".
Definition metaTipKey : list Z := str_bytes "meta/tip".
Definition metaLogIndexVersionKey : list Z := str_bytes "meta/logIndexVersion".

Definition txKindEVM : Z := 0.
Definition txKindDew : Z := 1.

Definition headerKey (hash : Hash) : list Z := prefixHeader :: hash_bytes hash.
Definition bodyKey (hash : Hash) : list Z := prefixBody :: hash_bytes hash.
Definition canonicalKey (num : Z) : list Z := prefixCanonical :: be_bytes 8 num.
Definition receiptKey (txHash : Hash) : list Z := prefixReceipt :: hash_bytes txHash.
Definition txLookupKey (txHash : Hash) : list Z := prefixTxLookup :: hash_bytes txHash.

(** The indices are cut to 32 bits. *)
Definition logIndexKey (blockNum txIndex logIndex : Z) : list Z :=
  prefixLogIndex :: be_bytes 8 blockNum ++ be_bytes 4 txIndex ++ be_bytes 4 logIndex.

Definition logIndexBlockPrefix (blockNum : Z) : list Z := prefixLogIndex :: be_bytes 8 blockNum.

Definition parseLogIndexKey (key : list Z) : option (Z * Z * Z) :=
  if negb (length key =? 17)%nat || negb (bool_decide (head key = Some prefixLogIndex)) then None
  else Some (of_be (slice 1 9 key), of_be (slice 9 13 key), of_be (slice 13 17 key)).

(** ** Values *)
Definition log_item (l : Log) : rlp_item :=
  RList [RStr (addr_bytes (log_Address l)); RList (map (λ t, RStr (hash_bytes t)) (log_Topics l)); RStr (log_Data l)].

(** [copy(addr[:], b)]: the first 20 bytes, zero padded. *)
Definition copy_addr (b : list Z) : Address := of_be (take 20 (b ++ replicate 20 0)).

Definition dec_log (t : rlp_tree) : option Log :=
  match dec_fields t with
  | Some [a; ts; d] =>
      a ← dec_bytes a; ts ← dec_slice dec_bytes ts; d ← dec_bytes d;
      Some (mkLog (copy_addr a) (map BytesToHash ts) d)
  | _ => None
  end.

Section Values.
Context `{C : Crypto} `{R : RlpCodec} `{E : EthCodec} `{K : DewTxCodec}.

Definition encodeLogIndex (lg : Log) (txHash blockHash : Hash) : list Z :=
  rlp_encode (RList [RStr (addr_bytes (log_Address lg)); RList (map (λ t, RStr (hash_bytes t)) (log_Topics lg));
                     RStr (log_Data lg); RStr (hash_bytes txHash); RStr (hash_bytes blockHash)]).

Definition dec_log_index (t : rlp_tree) : option (Log * Hash * Hash) :=
  match dec_fields t with
  | Some [a; ts; d; th; bh] =>
      a ← dec_bytes a; ts ← dec_slice dec_bytes ts; d ← dec_bytes d; th ← dec_bytes th; bh ← dec_bytes bh;
      Some (mkLog (copy_addr a) (map BytesToHash ts) d, BytesToHash th, BytesToHash bh)
  | _ => None
  end.

Definition decodeLogIndex (blob : list Z) : res (Log * Hash * Hash) := rlp_into dec_log_index blob.

Definition encodeTip (height : Z) (hash : Hash) : list Z := rlp_encode (RList [RNum height; RStr (hash_bytes hash)]).

Definition dec_tip (t : rlp_tree) : option (Z * Hash) :=
  match dec_fields t with
  | Some [h; b] => h ← dec_uint 64 h; b ← dec_bytes b; Some (h, BytesToHash b)
  | _ => None
  end.

Definition decodeTip (blob : list Z) : res (Z * Hash) := rlp_into dec_tip blob.

Definition encodeHeader (h : Header) : list Z := Header_EncodeRLP h.
Definition decodeHeader (blob : list Z) : res Header := rlp_into decode_header blob.

Definition encodeBody (txs : list (list Z)) : list Z := rlp_encode (RList (map RStr txs)).

Definition decodeBody (blob : list Z) : res (list (list Z)) :=
  let? raws := rlp_into (dec_slice dec_bytes) blob in rewire_all raws.

Definition receipt_item (r : Receipt) : rlp_item :=
  RList [RNum (rc_Type r); RNum (rc_Status r); RNum (rc_CumulativeGasUsed r); RNum (rc_GasUsed r);
         RNum (rc_EffectiveGasPrice r); RList (map log_item (rc_Logs r)); RStr (addrBytes (rc_ContractAddress r));
         RStr (hash_bytes (rc_TxHash r)); RStr (hash_bytes (rc_BlockHash r)); RNum (rc_BlockNumber r);
         RNum (rc_TransactionIndex r)].

Definition encodeReceipt (r : Receipt) : list Z := rlp_encode (receipt_item r).

Definition dec_receipt (t : rlp_tree) : option Receipt :=
  match dec_fields t with
  | Some [ty; st; cg; gu; gp; ls; ca; th; bh; bn; ti] =>
      ty ← dec_uint 8 ty; st ← dec_uint 64 st; cg ← dec_uint 64 cg; gu ← dec_uint 64 gu; gp ← dec_big gp;
      ls ← dec_slice dec_log ls; ca ← dec_bytes ca; th ← dec_bytes th; bh ← dec_bytes bh;
      bn ← dec_uint 64 bn; ti ← dec_uint 64 ti;
      Some (mkReceipt ty st cg gu gp ls (bytesToAddr ca) (BytesToHash th) (BytesToHash bh) bn ti)
  | _ => None
  end.

Definition decodeReceipt (blob : list Z) : res Receipt := rlp_into dec_receipt blob.

(** The payload of a lookup: a native transaction, else an EVM one. *)
Definition lookup_payload (l : TxLookup) : res (Z * list Z) :=
  match tl_DewTx l, tl_Tx l with
  | Some d, _ => let? raw := DewTx_MarshalBinary d in Ok (txKindDew, raw)
  | None, Some t => let? raw := eth_MarshalBinary (ex_tx t) in Ok (txKindEVM, raw)
  | None, None => Err "node: tx lookup missing payload"
  end.

Definition lookup_item (l : TxLookup) (kind : Z) (raw : list Z) : rlp_item :=
  RList [RStr (hash_bytes (tl_BlockHash l)); RNum (tl_BlockNumber l); RNum (tl_Index l);
         RStr (addr_bytes (tl_From l)); RNum kind; RStr raw].

Definition encodeTxLookup (l : TxLookup) : res (list Z) :=
  let? p := lookup_payload l in Ok (rlp_encode (lookup_item l p.1 p.2)).

Definition dec_lookup (t : rlp_tree) : option (Hash * Z * Z * Address * Z * list Z) :=
  match dec_fields t with
  | Some [bh; bn; ix; fr; k; raw] =>
      bh ← dec_bytes bh; bn ← dec_uint 64 bn; ix ← dec_uint 64 ix; fr ← dec_bytes fr; k ← dec_uint 8 k;
      raw ← dec_bytes raw; Some (BytesToHash bh, bn, ix, copy_addr fr, k, raw)
  | _ => None
  end.

Definition decodeTxLookup (blob : list Z) (txHash : Hash) : res TxLookup :=
  let? p := rlp_into dec_lookup blob in
  let '(bh, bn, ix, fr, k, raw) := p in
  if k =? txKindDew then
    let? tx := DewTx_UnmarshalBinary raw in Ok (mkTxLookup bh bn ix None (Some tx) fr txHash)
  else if k =? txKindEVM then
    let? tx := eth_UnmarshalBinary raw in Ok (mkTxLookup bh bn ix (Some tx) None fr txHash)
  else Err "node: unknown tx kind".

(** ** Metadata *)
Definition put (w : Database) (k v : list Z) : Database := <[k := v]> w.

Definition putLogIndexVersion (w : Database) (ver : Z) : Database := put w metaLogIndexVersionKey (be_bytes 4 ver).

Definition read_version (what : string) (blob : option (list Z)) : res (option Z) :=
  match blob with
  | None => Ok None
  | Some b => if (length b <? 4)%nat then Err what else Ok (Some (of_be (take 4 b)))
  end.

Definition readLogIndexVersion (d : Database) : res (option Z) :=
  read_version "node: invalid meta/logIndexVersion" (d !! metaLogIndexVersionKey).

Definition putMeta (w : Database) (chainID : Z) (genesisHash : Hash) : Database :=
  let w := put w metaVersionKey (be_bytes 4 chainSchemaVersion) in
  let w := put w metaChainIDKey (rlp_encode (RNum chainID)) in
  put w metaGenesisHashKey (hash_bytes genesisHash).

Definition readMetaVersion (d : Database) : res (option Z) :=
  read_version "node: invalid meta/version" (d !! metaVersionKey).

Definition get (d : Database) (k : list Z) : res (list Z) :=
  match d !! k with Some v => Ok v | None => Err "db: not found" end.

Definition readMetaGenesisHash (d : Database) : res Hash := let? b := get d metaGenesisHashKey in Ok (BytesToHash b).
Definition readMetaChainID (d : Database) : res Z := let? b := get d metaChainIDKey in rlp_into dec_big b.
Definition readTip (d : Database) : res (Z * Hash) := let? b := get d metaTipKey in decodeTip b.
End Values.

(** ** Round trips *)
Record log_ok (l : Log) : Prop := {
  lok_addr : is_addr (log_Address l);
  lok_topics : Forall is_hash (log_Topics l);
  lok_data : bytes_ok (log_Data l);
}.

Record receipt_ok (r : Receipt) : Prop := {
  rok_type : 0 <= rc_Type r < 2 ^ 8;
  rok_nums : is_u64 (rc_Status r) ∧ is_u64 (rc_CumulativeGasUsed r) ∧ is_u64 (rc_GasUsed r)
             ∧ is_u64 (rc_BlockNumber r) ∧ is_u64 (rc_TransactionIndex r);
  rok_price : 0 <= rc_EffectiveGasPrice r;
  rok_logs : Forall log_ok (rc_Logs r);
  rok_contract : ∀ a, rc_ContractAddress r = Some a → is_addr a;
  rok_hashes : is_hash (rc_TxHash r) ∧ is_hash (rc_BlockHash r);
}.

Lemma copy_addr_bytes a : is_addr a → copy_addr (addr_bytes a) = a.
Proof.
  intros Ha. unfold copy_addr. rewrite take_app_le by by rewrite addr_bytes_length.
  rewrite take_ge by by rewrite addr_bytes_length. by apply addr_bytes_roundtrip.
Qed.

Lemma map_BytesToHash_bytes ts : Forall is_hash ts → map BytesToHash (map hash_bytes ts) = ts.
Proof. induction 1 as [|t ts Ht _ IH]; [done|]. cbn [map]. by rewrite IH, BytesToHash_hash_bytes. Qed.

Lemma dec_topics ts : dec_slice dec_bytes (TList (map item_tree (map (λ t, RStr (hash_bytes t)) ts))) = Some (map hash_bytes ts).
Proof.
  change (TList (map item_tree ?l)) with (item_tree (RList l)). rewrite <- (map_map hash_bytes RStr). apply dec_slice_bytes.
Qed.

Lemma dec_log_item l : log_ok l → dec_log (item_tree (log_item l)) = Some l.
Proof.
  intros [Ha Ht Hd]. unfold dec_log, log_item. cbn [item_tree map dec_fields dec_bytes mbind option_bind].
  rewrite dec_topics. cbn [mbind option_bind]. rewrite copy_addr_bytes, map_BytesToHash_bytes by done. by destruct l.
Qed.

Lemma topics_ok ts : item_ok (RList (map (λ t, RStr (hash_bytes t)) ts)).
Proof. apply item_ok_list, Forall_fmap, Forall_forall. intros t _. apply hash_bytes_ok. Qed.

Lemma log_item_ok l : log_ok l → item_ok (log_item l).
Proof.
  intros [_ _ Hd]. apply item_ok_list. apply Forall_cons_2; [apply addr_bytes_ok|].
  apply Forall_cons_2; [apply topics_ok|]. by apply Forall_singleton.
Qed.

(** Checks the fields of a structure one by one. *)
Ltac field_tac :=
  match goal with
  | |- item_ok (RStr (hash_bytes _)) => apply hash_bytes_ok
  | |- item_ok (RStr (addr_bytes _)) => apply addr_bytes_ok
  | |- item_ok (RStr (addrBytes _)) => apply addrBytes_ok
  | |- item_ok (RNum _) => cbn [item_ok]; lia
  | _ => idtac
  end.

Ltac fields_rec :=
  match goal with
  | |- Forall _ [] => apply Forall_nil_2
  | |- Forall _ (_ :: _) => apply Forall_cons_2; [field_tac|fields_rec]
  end.

Ltac fields_tac := apply item_ok_list; fields_rec.

Section RoundTrips.
Context `{C : Crypto} `{R : RlpCodec} {RL : RlpLaws C R} `{E : EthCodec} {EL : EthCodecLaws E}
  `{K : DewTxCodec} {KL : DewTxCodecLaws C K}.

Lemma tip_roundtrip height hash : is_u64 height → is_hash hash → decodeTip (encodeTip height hash) = Ok (height, hash).
Proof using RL.
  intros Hh Hb. apply rlp_into_encode; [unfold is_u64 in Hh; fields_tac|].
  unfold dec_tip. cbn [item_tree map dec_fields]. rewrite dec_uint_num by exact Hh. cbn [mbind option_bind dec_bytes].
  by rewrite BytesToHash_hash_bytes.
Qed.

Lemma header_roundtrip h : header_ok h → decodeHeader (encodeHeader h) = Ok h.
Proof using RL. intros Hh. apply (rlp_into_encode _ (header_item h)); [by apply header_item_ok|by apply decode_header_item]. Qed.

Lemma body_roundtrip txs :
  Forall (λ raw, bytes_ok raw ∧ ∃ tx, evmtx_ok tx ∧ EvmTx_MarshalBinary tx = Ok raw) txs →
  decodeBody (encodeBody txs) = Ok txs.
Proof using RL.
  intros Htx. unfold decodeBody, encodeBody. rewrite (rlp_into_encode _ _ txs).
  - cbn [rbind]. apply rewire_all_id. eapply Forall_impl; [exact Htx|]. by intros raw [_ ?].
  - apply item_ok_list, Forall_fmap. eapply Forall_impl; [exact Htx|]. by intros raw [? _].
  - apply dec_slice_bytes.
Qed.

Lemma log_index_roundtrip l th bh : log_ok l → is_hash th → is_hash bh →
  decodeLogIndex (encodeLogIndex l th bh) = Ok (l, th, bh).
Proof using RL.
  intros [Ha Ht Hd] Hth Hbh. apply rlp_into_encode; [fields_tac; [apply topics_ok|exact Hd]|].
  unfold dec_log_index. cbn [item_tree map dec_fields dec_bytes mbind option_bind]. rewrite dec_topics.
  cbn [mbind option_bind]. rewrite copy_addr_bytes, map_BytesToHash_bytes, !BytesToHash_hash_bytes by done. by destruct l.
Qed.

Lemma receipt_roundtrip r : receipt_ok r → decodeReceipt (encodeReceipt r) = Ok r.
Proof using RL.
  intros [Hty (? & ? & ? & ? & ?) Hp Hl Hc (? & ?)]. unfold is_u64 in *. apply rlp_into_encode.
  - unfold receipt_item. fields_tac. apply item_ok_list, Forall_fmap. eapply Forall_impl; [exact Hl|]. apply log_item_ok.
  - unfold dec_receipt, receipt_item. cbn [item_tree map dec_fields].
    change (TList (map item_tree (map log_item (rc_Logs r)))) with (item_tree (RList (map log_item (rc_Logs r)))).
    do 4 (rewrite dec_uint_num by lia; cbn [mbind option_bind]). rewrite dec_big_num by lia. cbn [mbind option_bind].
    rewrite dec_slice_map by (intros l Hin; apply dec_log_item; rewrite Forall_forall in Hl; by apply Hl).
    cbn [mbind option_bind dec_bytes]. do 2 (rewrite dec_uint_num by lia; cbn [mbind option_bind]).
    rewrite bytesToAddr_addrBytes, !BytesToHash_hash_bytes by done. by destruct r.
Qed.

Record lookup_ok (l : TxLookup) : Prop := {
  tok_hash : is_hash (tl_BlockHash l);
  tok_nums : is_u64 (tl_BlockNumber l) ∧ is_u64 (tl_Index l);
  tok_from : is_addr (tl_From l);
  tok_payload : (∃ d, tl_DewTx l = Some d ∧ tl_Tx l = None ∧ dewtx_ok d ∧ ∀ raw, DewTx_MarshalBinary d = Ok raw → bytes_ok raw)
    ∨ (∃ t raw, tl_DewTx l = None ∧ tl_Tx l = Some t ∧ eth_UnmarshalBinary raw = Ok t ∧ bytes_ok raw);
}.

Lemma lookup_fields l kind raw : lookup_ok l → 0 <= kind < 2 ^ 8 → bytes_ok raw →
  rlp_into dec_lookup (rlp_encode (lookup_item l kind raw)) = Ok (tl_BlockHash l, tl_BlockNumber l, tl_Index l, tl_From l, kind, raw).
Proof using RL.
  intros [Hh (? & ?) Hf _] Hk Hraw. unfold is_u64 in *. apply rlp_into_encode; [unfold lookup_item; fields_tac; exact Hraw|].
  unfold dec_lookup, lookup_item. cbn [item_tree map dec_fields dec_bytes mbind option_bind].
  do 2 (rewrite dec_uint_num by lia; cbn [mbind option_bind]). rewrite dec_uint_num by lia. cbn [mbind option_bind].
  by rewrite BytesToHash_hash_bytes, copy_addr_bytes.
Qed.

Lemma lookup_roundtrip l : lookup_ok l → ∃ b, encodeTxLookup l = Ok b ∧ decodeTxLookup b (tl_TxHash l) = Ok l.
Proof using RL EL KL.
  intros H. unfold encodeTxLookup, lookup_payload.
  destruct (tok_payload _ H) as [(d & Hd & Ht & Hok & Hb)|(t & raw & Hd & Ht & Hu & Hb)]; rewrite Hd, ?Ht.
  - destruct (marshal_unmarshal d Hok) as (raw & Hm & Hu). rewrite Hm. cbn [rbind fst snd]. eexists. split; [done|].
    unfold decodeTxLookup. rewrite lookup_fields by first [done | by apply Hb]. cbn [rbind]. cbn [Z.eqb txKindDew].
    rewrite Hu. cbn [rbind]. destruct l; cbn in *; congruence.
  - rewrite (eth_unmarshal_marshal raw t Hu). cbn [rbind fst snd]. eexists. split; [done|].
    unfold decodeTxLookup. rewrite lookup_fields by done. cbn [rbind]. change (txKindEVM =? txKindDew) with false.
    rewrite Z.eqb_refl, Hu. cbn [rbind]. destruct l; cbn in *; congruence.
Qed.
End RoundTrips.

(** ** The log index key *)
Lemma logIndexKey_parse blockNum txIndex logIndex :
  is_u64 blockNum → 0 <= txIndex < 2 ^ 32 → 0 <= logIndex < 2 ^ 32 →
  parseLogIndexKey (logIndexKey blockNum txIndex logIndex) = Some (blockNum, txIndex, logIndex).
Proof.
  intros Hb Ht Hl. unfold parseLogIndexKey, logIndexKey. cbn [length]. rewrite !length_app, !be_bytes_length.
  cbn [Nat.eqb Nat.add negb]. rewrite bool_decide_true by done. cbn [negb orb].
  set (A := be_bytes 8 blockNum). set (B := be_bytes 4 txIndex). set (D := be_bytes 4 logIndex).
  assert (length A = 8 ∧ length B = 4 ∧ length D = 4)%nat as (LA & LB & LD) by (unfold A, B, D; by rewrite !be_bytes_length).
  assert (slice 1 9 (prefixLogIndex :: A ++ B ++ D) = A) as ->.
  { unfold slice. rewrite skipn_cons, drop_0, take_app_le, take_ge by lia. done. }
  assert (slice 9 13 (prefixLogIndex :: A ++ B ++ D) = B) as ->.
  { unfold slice. rewrite skipn_cons, drop_app_ge, LA by lia. change (8 - 8)%nat with 0%nat. change (13 - 9)%nat with 4%nat.
    rewrite drop_0, take_app_le, take_ge by lia. done. }
  assert (slice 13 17 (prefixLogIndex :: A ++ B ++ D) = D) as ->.
  { unfold slice. rewrite skipn_cons, drop_app_ge, LA by lia. rewrite drop_app_ge by lia.
    rewrite LB. change (12 - 8 - 4)%nat with 0%nat. rewrite drop_0. by rewrite take_ge by lia. }
  unfold A, B, D, is_u64 in *. rewrite !of_be_be_bytes_id; [done|..]; (split; [lia|]); cbn; lia.
Qed.

(** ** Accounts *)
Definition dec_account (t : rlp_tree) : option (Z * Z * list Z) :=
  match dec_fields t with
  | Some [n; b; c] => n ← dec_uint 64 n; b ← dec_big b; c ← dec_bytes c; Some (n, b, c)
  | _ => None
  end.

(** The account codec of the state database, by RLP. *)
Definition rlp_accounts `{R : RlpCodec} : AccountCodec :=
  {| rlp_decode_account b := match rlp_into dec_account b with Ok x => Some x | Err _ => None end |}.

Lemma rlp_accounts_laws `{C : Crypto} `{R : RlpCodec} {RL : RlpLaws C R} : AccountCodecLaws C rlp_accounts.
Proof.
  split. intros nonce bal ch Hn Hb _ Hch. unfold is_u64, is_u256 in *. cbn [rlp_accounts rlp_decode_account].
  rewrite (rlp_into_encode dec_account _ (nonce, bal, ch)); [done|fields_tac; exact Hch|].
  unfold dec_account. cbn [item_tree map dec_fields]. rewrite dec_uint_num by lia. cbn [mbind option_bind].
  rewrite dec_big_num by lia. done.
Qed.

(** ** Evaluation
    A codec that reads the repository's own transaction format; every
    transaction is from the account 7. *)
Definition toy_eth : EthCodec := {|
  eth_UnmarshalBinary raw :=
    let? tx := @EvmTx_UnmarshalBinary spec_rlp raw in
    Ok (mkExecTx
      (mkEthTx (tx_Type tx) (tx_GasFeeCap tx) (tx_GasTipCap tx) (tx_GasFeeCap tx) (tx_ChainID tx) (tx_Nonce tx)
         (of_be (@Keccak256 spec_crypto raw)) (Ok raw))
      (tx_Gas tx) (default 0 (tx_Value tx)) (tx_To tx) (tx_Data tx));
  eth_Sender _ _ := Ok 7;
|}.

Lemma toy_eth_laws : EthCodecLaws toy_eth.
Proof.
  split. intros raw tx. cbn [toy_eth eth_UnmarshalBinary]. destruct (EvmTx_UnmarshalBinary raw); [|done].
  cbn [rbind]. by intros [= <-].
Qed.
