(* ===== verification/Select.v ===== *)
(** * Choosing the transactions of a block

    Models the selection half of [node/build.go]: the fee auction over the
    senders' nonce chains ([selectPendingTxsForBlockLocked] and its native
    twin).  Go's iteration order over the per-sender map is a parameter, and
    so is the account nonce of a sender ([statedb.GetNonce]).

    The loops of the source end when nothing is ready; here they carry fuel,
    and [select_fuel] is shown to be enough. *)
From S2P Require Import Prelude Types Toy DewTx Mempool Rlp EvmTx StateDB ChainStore.

Definition DefaultMaxTxsPerBlock : Z := 64.
Definition maxProposalSimAttempts : nat := 16.

(** The order in which Go ranges over the senders. *)
Class SenderOrder : Type := { range_senders : gmap Address (list Entry) → list (Address * list Entry) }.
Class SenderOrderLaws (O : SenderOrder) : Prop := { range_senders_ok : range_ok range_senders }.

Definition nonce_le (x y : Entry) : Prop := e_Nonce x <= e_Nonce y.
#[export] Instance nonce_le_dec : RelDecision nonce_le.
Proof. intros x y. apply Z_le_dec. Defined.

(** [groupPendingBySender]: the buckets, then each one sorted by nonce. *)
Definition add_pending (kind : Kind) (exclude : gset Hash) (m : gmap Address (list Entry)) (e : Entry)
    : gmap Address (list Entry) :=
  if bool_decide (e_Kind e = kind) && negb (bool_decide (e_Hash e ∈ exclude))
  then <[e_From e := default [] (m !! e_From e) ++ [e]]> m else m.

Definition groupPendingBySender (pending : list Entry) (kind : Kind) (exclude : gset Hash) : gmap Address (list Entry) :=
  merge_sort nonce_le <$> foldl (add_pending kind exclude) ∅ pending.

(** The inner scan of [pickBestReady]: the entry of nonce [want], if no gap
    comes first. *)
Fixpoint find_ready (want : Z) (l : list Entry) : option Entry :=
  match l with
  | [] => None
  | e :: l => if e_Nonce e <? want then find_ready want l else if want <? e_Nonce e then None else Some e
  end.

Definition pick_step (nextNonce : gmap Address Z) (best : option (Entry * Address)) (kv : Address * list Entry)
    : option (Entry * Address) :=
  match find_ready (default 0 (nextNonce !! kv.1)) kv.2 with
  | None => best
  | Some found =>
      match best with
      | None => Some (found, kv.1)
      | Some (b, _) => if e_Price b <? e_Price found then Some (found, kv.1) else best
      end
  end.

Definition pickBestReady `{SO : SenderOrder} (bySender : gmap Address (list Entry)) (nextNonce : gmap Address Z)
    : option (Entry * Address) :=
  foldl (pick_step nextNonce) None (range_senders bySender).

Definition filterEntry (l : list Entry) (h : Hash) : list Entry := filter (λ e, e_Hash e ≠ h) l.

(** [bySender[from] = filterEntry(bySender[from], hash)] *)
Definition drop_entry (bySender : gmap Address (list Entry)) (from : Address) (h : Hash) : gmap Address (list Entry) :=
  <[from := filterEntry (default [] (bySender !! from)) h]> bySender.

(** What a loop does with a candidate: drop it, give up on its sender, or
    take it into the block at some gas. *)
Inductive verdict (A : Type) : Type :=
| Unreadable
| TooBig
| Fits (tx : A) (gas : Z).
Arguments Unreadable {A}.
Arguments TooBig {A}.
Arguments Fits {A} tx gas.

Definition total_entries (bySender : gmap Address (list Entry)) : nat :=
  Z.to_nat (map_sum (λ _ l, Z.of_nat (length l)) bySender).

(** A turn takes a transaction, or drops an entry or a sender. *)
Definition select_fuel (maxTxs : nat) (bySender : gmap Address (list Entry)) : nat :=
  S (maxTxs + total_entries bySender).

Definition next_nonces (account_nonce : Address → Z) (bySender : gmap Address (list Entry)) : gmap Address Z :=
  map_imap (λ a _, Some (account_nonce a)) bySender.

Section Loop.
Context `{SO : SenderOrder} {A : Type} (judge : Z → Entry → verdict A).

(** The loop the two selections share; the result pairs each chosen entry
    with what goes into the block and with its gas. *)
Fixpoint select_loop (fuel : nat) (maxTxs : nat) (bySender : gmap Address (list Entry))
    (nextNonce : gmap Address Z) (out : list (Entry * A)) (totalGas : Z) : option (list (Entry * A)) :=
  match fuel with
  | O => None
  | S fuel =>
      if (maxTxs <=? length out)%nat then Some out else
      match pickBestReady bySender nextNonce with
      | None => Some out
      | Some (best, from) =>
          match judge totalGas best with
          | Unreadable => select_loop fuel maxTxs (drop_entry bySender from (e_Hash best)) nextNonce out totalGas
          | TooBig => select_loop fuel maxTxs (delete from bySender) nextNonce out totalGas
          | Fits tx gas =>
              select_loop fuel maxTxs bySender
                (<[from := default 0 (nextNonce !! from) +₆₄ 1]> nextNonce) (out ++ [(best, tx)]) (totalGas +₆₄ gas)
          end
      end
  end.

Definition select_entries (kind : Kind) (account_nonce : Address → Z) (pending : list Entry) (maxTxs : Z)
    (exclude : gset Hash) : option (list (Entry * A)) :=
  if maxTxs <=? 0 then Some [] else
  let bySender := groupPendingBySender pending kind exclude in
  select_loop (select_fuel (Z.to_nat maxTxs) bySender) (Z.to_nat maxTxs) bySender
    (next_nonces account_nonce bySender) [] 0.
End Loop.

Section Select.
Context `{C : Crypto} `{R : RlpCodec} `{E : EthCodec} `{K : DewTxCodec} `{SO : SenderOrder}.

(** [ethTxToDew], on the wire form of the transaction. *)
Definition ethTxToDew (tx : ExecTx) : res (list Z) := let? raw := eth_MarshalBinary (ex_tx tx) in rewire raw.

Definition judge_evm (gasLimit totalGas : Z) (e : Entry) : verdict (list Z) :=
  match eth_UnmarshalBinary (e_Raw e) with
  | Err _ => Unreadable
  | Ok tx =>
      if (0 <? gasLimit) && (gasLimit <? totalGas +₆₄ ex_Gas tx) then TooBig else
      match ethTxToDew tx with
      | Err _ => Unreadable
      | Ok wire => Fits wire (ex_Gas tx)
      end
  end.

Definition selectPendingTxsForBlockLocked (account_nonce : Address → Z) (pending : list Entry) (maxTxs gasLimit : Z)
    (exclude : gset Hash) : option (list (list Z)) :=
  map snd <$> select_entries (judge_evm gasLimit) KindEVM account_nonce pending maxTxs exclude.

(** The native loop reads no gas. *)
Definition judge_dew (_ : Z) (e : Entry) : verdict DewTx :=
  match DewTx_UnmarshalBinary (e_Raw e) with Err _ => Unreadable | Ok tx => Fits tx 0 end.

Definition selectPendingDewTxsForBlockLocked (account_nonce : Address → Z) (pending : list Entry) (maxTxs : Z)
    : option (list DewTx) :=
  map snd <$> select_entries judge_dew KindDew account_nonce pending maxTxs ∅.
End Select.

(** ** The buckets *)
Lemma find_ready_Some want l e : find_ready want l = Some e → e ∈ l ∧ e_Nonce e = want.
Proof.
  induction l as [|x l IH]; [done|]. cbn [find_ready]. destruct (e_Nonce x <? want) eqn:H1.
  - intros H. destruct (IH H). split; [by right|done].
  - destruct (want <? e_Nonce x) eqn:H2; [done|]. intros [= ->]. split; [by left|].
    apply Z.ltb_ge in H1, H2. lia.
Qed.

Lemma find_ready_sorted want l e : StronglySorted nonce_le l → e ∈ l → e_Nonce e = want → is_Some (find_ready want l).
Proof.
  induction 1 as [|x l _ IH Hx]; [by rewrite elem_of_nil|]. rewrite elem_of_cons. intros He Hw. cbn [find_ready].
  destruct (e_Nonce x <? want) eqn:H1.
  - destruct He as [->|He]; [apply Z.ltb_lt in H1; lia|]. by apply IH.
  - destruct (want <? e_Nonce x) eqn:H2; [|done]. apply Z.ltb_lt in H2. destruct He as [->|He]; [lia|].
    rewrite Forall_forall in Hx. specialize (Hx e He). unfold nonce_le in Hx. lia.
Qed.

Lemma filter_sorted l h : StronglySorted nonce_le l → StronglySorted nonce_le (filterEntry l h).
Proof.
  unfold filterEntry. induction 1 as [|x l _ IH Hx]; [constructor|]. rewrite filter_cons. case_decide; [|done].
  constructor; [done|]. apply Forall_forall. intros y [_ Hy]%list_elem_of_filter. rewrite Forall_forall in Hx. by apply Hx.
Qed.

Lemma filter_shorter l e : e ∈ l → (length (filterEntry l (e_Hash e)) < length l)%nat.
Proof.
  unfold filterEntry. induction l as [|x l IH]; [by rewrite elem_of_nil|]. rewrite elem_of_cons, filter_cons.
  pose proof (length_filter (λ y, e_Hash y ≠ e_Hash e) l) as Hl.
  intros [<-|He]; [rewrite decide_False by naive_solver; cbn; lia|]. specialize (IH He). case_decide; cbn; lia.
Qed.

(** The bucket of a sender holds its pending entries of the kind. *)
Definition candidate (kind : Kind) (exclude : gset Hash) (pending : list Entry) (e : Entry) : Prop :=
  e ∈ pending ∧ e_Kind e = kind ∧ e_Hash e ∉ exclude.

Definition bucket (m : gmap Address (list Entry)) (a : Address) : list Entry := default [] (m !! a).

Lemma bucket_fold kind exclude pending m a e :
  e ∈ bucket (foldl (add_pending kind exclude) m pending) a ↔
  e ∈ bucket m a ∨ (candidate kind exclude pending e ∧ e_From e = a).
Proof.
  unfold candidate. revert m. induction pending as [|x pending IH]; intros m; cbn [foldl].
  { rewrite elem_of_nil. naive_solver. }
  rewrite IH, elem_of_cons. unfold add_pending, bucket. case_bool_decide as Hk; cbn [andb]; [|naive_solver].
  case_bool_decide as Hx; cbn [negb]; [naive_solver|]. rewrite lookup_insert.
  case_decide as Ha; cbn [default from_option id]; [rewrite elem_of_app, list_elem_of_singleton|]; naive_solver.
Qed.

Lemma bucket_group kind exclude pending a e :
  e ∈ bucket (groupPendingBySender pending kind exclude) a ↔ candidate kind exclude pending e ∧ e_From e = a.
Proof.
  pose proof (bucket_fold kind exclude pending ∅ a e) as H. unfold bucket, groupPendingBySender in *.
  rewrite lookup_fmap. rewrite lookup_empty in H. cbn [default from_option id] in H. rewrite elem_of_nil in H.
  destruct (_ !! a) as [l|]; cbn [fmap option_fmap option_map default from_option id] in *.
  - rewrite merge_sort_Permutation. naive_solver.
  - rewrite elem_of_nil in *. naive_solver.
Qed.

Lemma group_sorted kind exclude pending a : StronglySorted nonce_le (bucket (groupPendingBySender pending kind exclude) a).
Proof.
  unfold bucket, groupPendingBySender. rewrite lookup_fmap. destruct (_ !! a) as [l|]; cbn; [|constructor].
  apply StronglySorted_merge_sort; unfold nonce_le; [intros ???; cbn; lia|intros ??; lia].
Qed.

(** ** The auction *)
Section Pick.
Context `{SO : SenderOrder} {SL : SenderOrderLaws SO}.

Definition next (nextNonce : gmap Address Z) (a : Address) : Z := default 0 (nextNonce !! a).

Definition pick_ok (nn : gmap Address Z) (l : list (Address * list Entry)) (r : option (Entry * Address)) : Prop :=
  match r with
  | None => ∀ kv, kv ∈ l → find_ready (next nn kv.1) kv.2 = None
  | Some (e, a) => (∃ b, (a, b) ∈ l ∧ find_ready (next nn a) b = Some e)
      ∧ ∀ kv x, kv ∈ l → find_ready (next nn kv.1) kv.2 = Some x → e_Price x <= e_Price e
  end.

Lemma pick_fold nn l : pick_ok nn l (foldl (pick_step nn) None l).
Proof.
  induction l as [|kv l IH] using rev_ind; [intros kv; by rewrite elem_of_nil|].
  rewrite foldl_app. cbn [foldl]. revert IH. generalize (foldl (pick_step nn) None l). intros r IH.
  unfold pick_step. fold (next nn kv.1). destruct kv as [a b]. cbn [fst snd].
  destruct (find_ready (next nn a) b) as [x|] eqn:Hf.
  - destruct r as [[e a']|]; cbn [pick_ok] in *.
    + destruct IH as [(b' & Hin & Hb') Hbest]. destruct (e_Price e <? e_Price x) eqn:Hp; cbn [pick_ok].
      * apply Z.ltb_lt in Hp. split; [exists b; rewrite elem_of_app, list_elem_of_singleton; tauto|].
        intros kv y [Hkv| ->%list_elem_of_singleton]%elem_of_app Hy; [specialize (Hbest _ _ Hkv Hy); lia|cbn in Hy; naive_solver lia].
      * apply Z.ltb_ge in Hp. split; [exists b'; rewrite elem_of_app; tauto|].
        intros kv y [Hkv| ->%list_elem_of_singleton]%elem_of_app Hy; [by eapply Hbest|cbn in Hy; naive_solver lia].
    + split; [exists b; rewrite elem_of_app, list_elem_of_singleton; tauto|].
      intros kv y [Hkv| ->%list_elem_of_singleton]%elem_of_app Hy; [by rewrite (IH _ Hkv) in Hy|cbn in Hy; naive_solver lia].
  - destruct r as [[e a']|]; cbn [pick_ok] in *.
    + destruct IH as [(b' & Hin & Hb') Hbest]. split; [exists b'; rewrite elem_of_app; tauto|].
      intros kv y [Hkv| ->%list_elem_of_singleton]%elem_of_app Hy; [by eapply Hbest|cbn in Hy; congruence].
    + intros kv [Hkv| ->%list_elem_of_singleton]%elem_of_app; [by apply IH|done].
Qed.

Lemma range_senders_elem m a l : (a, l) ∈ range_senders m ↔ m !! a = Some l.
Proof using SL. rewrite (range_senders_ok m). apply elem_of_map_to_list. Qed.

Lemma pickBestReady_None m nn a : pickBestReady m nn = None → find_ready (next nn a) (bucket m a) = None.
Proof using SL.
  unfold pickBestReady. intros H. pose proof (pick_fold nn (range_senders m)) as Hok. rewrite H in Hok.
  unfold bucket. destruct (m !! a) as [l|] eqn:Hl; [|done]. apply (Hok (a, l)). by apply range_senders_elem.
Qed.

Lemma pickBestReady_Some m nn e a : pickBestReady m nn = Some (e, a) →
  is_Some (m !! a) ∧ find_ready (next nn a) (bucket m a) = Some e
  ∧ ∀ a' x, find_ready (next nn a') (bucket m a') = Some x → e_Price x <= e_Price e.
Proof using SL.
  unfold pickBestReady. intros H. pose proof (pick_fold nn (range_senders m)) as Hok. rewrite H in Hok.
  destruct Hok as [(b & Hb & Hf) Hbest]. apply range_senders_elem in Hb. unfold bucket. rewrite Hb.
  split_and!; [by eexists|done|]. intros a' x Hx. destruct (m !! a') as [l|] eqn:Hl; [|done].
  apply (Hbest (a', l) x); [by apply range_senders_elem|done].
Qed.
End Pick.

Section Auction.
Context `{SO : SenderOrder} {SL : SenderOrderLaws SO} {A : Type} (judge : Z → Entry → verdict A).
Context (kind : Kind) (exclude : gset Hash) (pending : list Entry) (account_nonce : Address → Z).

(** The chosen entries of a sender, and the gas of the choice. *)
Definition chosen_of (a : Address) (out : list (Entry * A)) : list Entry := filter (λ e, e_From e = a) out.*1.

(** The entry that would extend the choice for its sender. *)
Definition ready_after (out : list (Entry * A)) (e : Entry) : Prop :=
  candidate kind exclude pending e
  ∧ e_Nonce e = u64 (account_nonce (e_From e) + Z.of_nat (length (chosen_of (e_From e) out))).

(** The gas counter after a choice, wrapping at 64 bits. *)
Inductive charged : list (Entry * A) → Z → Prop :=
| charged_nil : charged [] 0
| charged_snoc out g e tx gas : charged out g → judge g e = Fits tx gas → charged (out ++ [(e, tx)]) (g +₆₄ gas).

(** The judge turned the entry down at some point of the choice. *)
Definition turned_down (out : list (Entry * A)) (e : Entry) : Prop :=
  ∃ k g, charged (take k out) g ∧ ∀ tx gas, judge g e ≠ Fits tx gas.

(** What the selection promises of the chosen list. *)
Record auction (maxTxs : nat) (out : list (Entry * A)) : Prop := {
  au_length : (length out <= maxTxs)%nat;
  au_charged : ∃ g, charged out g;
  au_ready : ∀ i e tx, out !! i = Some (e, tx) → ready_after (take i out) e;
  au_best : ∀ i e tx x, out !! i = Some (e, tx) → ready_after (take i out) x →
    e_Price x <= e_Price e ∨ turned_down (take i out) x;
  au_full : ∀ x, (length out < maxTxs)%nat → ready_after out x → turned_down out x;
}.

(** One entry per sender and nonce, as the pool keeps them. *)
Definition nonces_distinct : Prop :=
  ∀ e1 e2, e1 ∈ pending → e2 ∈ pending → e_From e1 = e_From e2 → e_Nonce e1 = e_Nonce e2 → e1 = e2.

Hypothesis Hdistinct : nonces_distinct.
Hypothesis Hnonce : ∀ a, is_u64 (account_nonce a).

Definition B0 : gmap Address (list Entry) := groupPendingBySender pending kind exclude.

Record sel_inv (m : gmap Address (list Entry)) (nn : gmap Address Z) (out : list (Entry * A)) (g : Z) : Prop := {
  si_next : ∀ a, is_Some (B0 !! a) → next nn a = u64 (account_nonce a + Z.of_nat (length (chosen_of a out)));
  si_sub : ∀ a, bucket m a ⊆ bucket B0 a;
  si_sorted : ∀ a, StronglySorted nonce_le (bucket m a);
  si_charged : charged out g;
  si_bucket : ∀ a, (bucket B0 a ⊆ bucket m a) ∨
    ∃ b, b ∈ bucket B0 a ∧ ¬ (b ∈ bucket m a) ∧ e_Nonce b = next nn a ∧ turned_down out b;
  si_ready : ∀ i e tx, out !! i = Some (e, tx) → ready_after (take i out) e;
  si_best : ∀ i e tx x, out !! i = Some (e, tx) → ready_after (take i out) x →
    e_Price x <= e_Price e ∨ turned_down (take i out) x;
}.

Lemma bucket_B0 a e : e ∈ bucket B0 a ↔ candidate kind exclude pending e ∧ e_From e = a.
Proof. apply bucket_group. Qed.

Lemma B0_some a e : e ∈ bucket B0 a → is_Some (B0 !! a).
Proof. unfold bucket. destruct (B0 !! a); [done|]. cbn. by rewrite elem_of_nil. Qed.

Lemma B0_unique a e1 e2 : e1 ∈ bucket B0 a → e2 ∈ bucket B0 a → e_Nonce e1 = e_Nonce e2 → e1 = e2.
Proof using Hdistinct. rewrite !bucket_B0. intros [[? _] ?] [[? _] ?] ?. apply Hdistinct; congruence. Qed.

(** A ready entry is found in its bucket, unless it was turned down. *)
Lemma ready_found m nn out g x : sel_inv m nn out g → ready_after out x →
  find_ready (next nn (e_From x)) (bucket m (e_From x)) = Some x ∨ turned_down out x.
Proof using Hdistinct.
  intros I [Hc Hn]. assert (x ∈ bucket B0 (e_From x)) as Hx by (by apply bucket_B0).
  rewrite <- (si_next _ _ _ _ I _ (B0_some _ _ Hx)) in Hn.
  destruct (si_bucket _ _ _ _ I (e_From x)) as [Hall|(b & Hb & _ & Hbn & Ht)].
  - left. destruct (find_ready_sorted _ _ _ (si_sorted _ _ _ _ I (e_From x)) (Hall _ Hx) Hn) as [y Hy].
    rewrite Hy. apply find_ready_Some in Hy as [Hy1 Hy2]. f_equal.
    apply (B0_unique (e_From x)); [by eapply si_sub|done|congruence].
  - right. by rewrite (B0_unique (e_From x) x b Hx Hb) by congruence.
Qed.

Lemma picked_ready m nn out g e a : sel_inv m nn out g → pickBestReady m nn = Some (e, a) →
  e ∈ bucket m a ∧ e ∈ bucket B0 a ∧ e_From e = a ∧ e_Nonce e = next nn a ∧ ready_after out e.
Proof using SL.
  intros I (_ & Hf & _)%pickBestReady_Some. apply find_ready_Some in Hf as [Hin Hn].
  pose proof (si_sub _ _ _ _ I a _ Hin) as HB. pose proof (B0_some _ _ HB) as HS.
  pose proof (proj1 (bucket_B0 _ _) HB) as [Hc Ha]. split_and!; [done..|]. split; [done|].
  rewrite Ha, Hn. by apply (si_next _ _ _ _ I).
Qed.

Lemma inv_init : sel_inv B0 (next_nonces account_nonce B0) [] 0.
Proof using Hnonce.
  split.
  - intros a [l Hl]. unfold next, next_nonces. rewrite map_lookup_imap, Hl. cbn. specialize (Hnonce a).
    unfold is_u64 in Hnonce. unfold u64. rewrite Z.mod_small; lia.
  - done.
  - intros a. apply group_sorted.
  - constructor.
  - intros a. by left.
  - intros i e tx. by rewrite lookup_nil.
  - intros i e tx x. by rewrite lookup_nil.
Qed.

Lemma turned_down_snoc out y x : turned_down out x → turned_down (out ++ [y]) x.
Proof.
  intros (k & g & Hc & Hj). exists (Nat.min k (length out)), g. split; [|done].
  rewrite take_app_le by lia. destruct (decide (k <= length out)%nat); [by rewrite Nat.min_l by lia|].
  by rewrite Nat.min_r, take_ge by lia; rewrite take_ge in Hc by lia.
Qed.

Lemma turned_down_now m nn out g x : sel_inv m nn out g → (∀ tx gas, judge g x ≠ Fits tx gas) → turned_down out x.
Proof. intros I Hj. exists (length out), g. rewrite take_ge by lia. split; [apply I|done]. Qed.

(** Taking entries of one sender away when its ready entry is turned down. *)
Lemma inv_shrink m m' nn out g e a : sel_inv m nn out g → pickBestReady m nn = Some (e, a) →
  (∀ tx gas, judge g e ≠ Fits tx gas) → (∀ b, b ≠ a → m' !! b = m !! b) →
  bucket m' a ⊆ bucket m a → e ∉ bucket m' a → StronglySorted nonce_le (bucket m' a) → sel_inv m' nn out g.
Proof using SL.
  intros I Hp Hj Hne Hsub He Hs. destruct (picked_ready _ _ _ _ _ _ I Hp) as (_ & HB & _ & Hn & _).
  assert (∀ b, b ≠ a → bucket m' b = bucket m b) as Hb by (intros b Hba; unfold bucket; by rewrite Hne).
  split; try apply I.
  - intros b. destruct (decide (b = a)) as [->|Hba]; [by etrans; [|apply (si_sub _ _ _ _ I)]|].
    rewrite Hb by done. apply I.
  - intros b. destruct (decide (b = a)) as [->|Hba]; [done|]. rewrite Hb by done. apply I.
  - intros b. destruct (decide (b = a)) as [->|Hba]; [|rewrite Hb by done; apply (si_bucket _ _ _ _ I)].
    right. exists e. split_and!; try done. by eapply turned_down_now.
Qed.

Lemma chosen_snoc a out e tx : chosen_of a (out ++ [(e, tx)]) = chosen_of a out ++ if decide (e_From e = a) then [e] else [].
Proof. unfold chosen_of. rewrite fmap_app, filter_app. cbn [fmap list_fmap fst]. f_equal. Qed.

Lemma inv_take m nn out g e a tx gas : sel_inv m nn out g → pickBestReady m nn = Some (e, a) → judge g e = Fits tx gas →
  sel_inv m (<[a := default 0 (nn !! a) +₆₄ 1]> nn) (out ++ [(e, tx)]) (g +₆₄ gas).
Proof using SL Hdistinct.
  intros I Hp Hj. destruct (picked_ready _ _ _ _ _ _ I Hp) as (Hin & HB & Ha & Hn & Hr).
  apply pickBestReady_Some in Hp as (_ & _ & Hbest). split; try apply I.
  - intros b HS. unfold next. rewrite chosen_snoc, lookup_insert. case_decide as Hb.
    + subst b. cbn [default from_option id]. fold (next nn a). rewrite (si_next _ _ _ _ I a HS), decide_True, length_app by done.
      cbn [length]. unfold u64. rewrite Zplus_mod_idemp_l. f_equal. lia.
    + rewrite decide_False, app_nil_r by congruence. by apply (si_next _ _ _ _ I).
  - constructor; [apply I|done].
  - intros b. destruct (si_bucket _ _ _ _ I b) as [Hall|(y & Hy & Hy' & Hyn & Ht)]; [by left|]. right. exists y.
    destruct (decide (b = a)) as [->|Hba].
    + exfalso. apply Hy'. by rewrite (B0_unique a y e Hy HB) by congruence.
    + split_and!; [done..| |by apply turned_down_snoc]. unfold next. by rewrite lookup_insert_ne.
  - intros i x tx'. rewrite lookup_app_Some. intros [Hi|[Hi Hx]].
    + rewrite take_app_le by (apply lookup_lt_Some in Hi; lia). by apply (si_ready _ _ _ _ I _ _ _ Hi).
    + assert (i = length out) as -> by (apply list_lookup_singleton_Some in Hx as [? _]; lia).
      rewrite Nat.sub_diag in Hx. injection Hx as <- <-. by rewrite take_app_length.
  - intros i x tx' y. rewrite lookup_app_Some. intros [Hi|[Hi Hx]].
    + rewrite take_app_le by (apply lookup_lt_Some in Hi; lia). by apply (si_best _ _ _ _ I _ _ _ _ Hi).
    + assert (i = length out) as -> by (apply list_lookup_singleton_Some in Hx as [? _]; lia).
      rewrite Nat.sub_diag in Hx. injection Hx as <- <-. rewrite take_app_length. intros Hy.
      destruct (ready_found _ _ _ _ _ I Hy) as [Hf|Ht]; [left; by apply Hbest in Hf|by right].
Qed.

Lemma entries_insert m a l l' : m !! a = Some l → (length l' < length l)%nat →
  (total_entries (<[a := l']> m) < total_entries m)%nat.
Proof.
  intros Hl Hlt. unfold total_entries. rewrite (map_sum_update _ m a l l' Hl).
  rewrite (map_sum_delete _ m a l Hl).
  pose proof (map_sum_nonneg (λ _ (l : list Entry), Z.of_nat (length l)) (delete a m)) as Hnn.
  specialize (Hnn ltac:(intros; cbv beta; lia)). cbv beta in *. lia.
Qed.

Lemma entries_delete m a l : m !! a = Some l → l ≠ [] → (total_entries (delete a m) < total_entries m)%nat.
Proof.
  intros Hl Hne. unfold total_entries. rewrite (map_sum_delete _ m a l Hl).
  pose proof (map_sum_nonneg (λ _ (l : list Entry), Z.of_nat (length l)) (delete a m)) as Hnn.
  specialize (Hnn ltac:(intros; cbv beta; lia)). destruct l; [done|]. cbv beta in *. cbn [length]. lia.
Qed.

(** The loop ends within its fuel, in an auction's outcome. *)
Lemma select_loop_auction fuel maxTxs m nn out g : sel_inv m nn out g → (length out <= maxTxs)%nat →
  (maxTxs - length out + total_entries m < fuel)%nat →
  ∃ out', select_loop judge fuel maxTxs m nn out g = Some out' ∧ auction maxTxs out'.
Proof using SL Hdistinct.
  revert m nn out g. induction fuel as [|fuel IH]; intros m nn out g I Hlen Hfuel; [lia|]. cbn [select_loop].
  destruct (maxTxs <=? length out)%nat eqn:Hmax.
  { apply Nat.leb_le in Hmax. eexists. split; [done|]. split; [done|by exists g; apply I|apply I|apply I|lia]. }
  apply Nat.leb_gt in Hmax. destruct (pickBestReady m nn) as [[e a]|] eqn:Hp.
  - destruct (picked_ready _ _ _ _ _ _ I Hp) as (Hin & _). destruct (pickBestReady_Some _ _ _ _ Hp) as ([l Hl] & _).
    assert (bucket m a = l) as Hbl by (unfold bucket; by rewrite Hl). rewrite Hbl in Hin.
    destruct (judge g e) as [| |tx gas] eqn:Hj.
    + apply IH; [|done|].
      * assert (bucket (drop_entry m a (e_Hash e)) a = filterEntry l (e_Hash e)) as Hb.
        { unfold bucket, drop_entry. by rewrite lookup_insert_eq, Hl. }
        eapply inv_shrink; [done|done|congruence|intros b Hb'; unfold drop_entry; by rewrite lookup_insert_ne| | |];
          rewrite Hb, ?Hbl.
        -- intros x [_ Hx]%list_elem_of_filter. done.
        -- intros [Hx _]%list_elem_of_filter. by apply Hx.
        -- apply filter_sorted. rewrite <- Hbl. apply I.
      * unfold drop_entry. rewrite Hl. cbn [default from_option id].
        pose proof (entries_insert _ _ _ _ Hl (filter_shorter _ _ Hin)). unfold id in *. lia.
    + apply IH; [|done|].
      * assert (bucket (delete a m) a = []) as Hb by (unfold bucket; by rewrite lookup_delete_eq).
        eapply inv_shrink; [done|done|congruence|intros b Hb'; by rewrite lookup_delete_ne| | |]; rewrite Hb.
        -- intros x. by rewrite elem_of_nil.
        -- apply not_elem_of_nil.
        -- constructor.
      * assert (l ≠ []) as Hne by (intros ->; by apply elem_of_nil in Hin).
        pose proof (entries_delete _ _ _ Hl Hne). lia.
    + apply IH; [by eapply inv_take|rewrite length_app; cbn; lia|rewrite length_app; cbn; lia].
  - eexists. split; [done|]. split; [lia|by exists g; apply I|apply I|apply I|]. intros x _ Hx.
    destruct (ready_found _ _ _ _ _ I Hx) as [Hf|Ht]; [|done].
    by rewrite (pickBestReady_None _ _ (e_From x) Hp) in Hf.
Qed.

Lemma select_entries_auction maxTxs : ∃ out,
  select_entries judge kind account_nonce pending maxTxs exclude = Some out ∧ auction (Z.to_nat maxTxs) out.
Proof using SL Hdistinct Hnonce.
  unfold select_entries. destruct (maxTxs <=? 0) eqn:Hm.
  - apply Z.leb_le in Hm. replace (Z.to_nat maxTxs) with 0%nat by lia. exists []. split; [done|].
    split; cbn [length]; [lia|exists 0; constructor|..|lia]; intros i; by rewrite ?lookup_nil.
  - apply select_loop_auction; [apply inv_init|cbn; lia|]. unfold select_fuel. cbn [length]. fold B0. lia.
Qed.
End Auction.

(** ** Selection from the pool *)
Section FromPool.
Context `{C : Crypto} `{R : RlpCodec} `{E : EthCodec} `{K : DewTxCodec} `{SO : SenderOrder} {SL : SenderOrderLaws SO}
  `{O : PoolOrder} {OL : PoolOrderLaws O}.

Lemma pending_distinct p : pool_wf p → nonces_distinct (Pending p).
Proof using OL.
  intros [Hc _ _ _] e1 e2 H1 H2 Hf Hn. unfold Pending in *.
  apply list_elem_of_fmap in H1 as ([h1 x1] & -> & H1). apply list_elem_of_fmap in H2 as ([h2 x2] & -> & H2).
  rewrite (range_entries_ok (byHash p)), elem_of_map_to_list in H1, H2. cbn [snd] in *.
  destruct (core_hash _ Hc _ _ H1) as [_ S1], (core_hash _ Hc _ _ H2) as [_ S2]. congruence.
Qed.

Definition entry_gas (e : Entry) : Z := match eth_UnmarshalBinary (e_Raw e) with Ok tx => ex_Gas tx | Err _ => 0 end.

(** The counter is the true sum as long as no addition wraps. *)
Lemma charged_gas gasLimit out g : 0 < gasLimit →
  (∀ x, x ∈ out → 0 <= entry_gas x.1 ∧ entry_gas x.1 + gasLimit < 2 ^ 64) →
  charged (judge_evm gasLimit) out g → sumZ (map (λ x, entry_gas x.1) out) = g ∧ 0 <= g <= gasLimit.
Proof.
  intros Hg Hsmall Hc. induction Hc as [|out g e tx gas Hc IH Hj]; [cbn; lia|].
  destruct IH as [IH Hb]; [intros x Hx; apply Hsmall, elem_of_app; by left|].
  destruct (Hsmall (e, tx)) as [Hs0 Hs]; [apply elem_of_app; right; by left|]. rewrite map_app, sumZ_app, IH.
  cbn [map sumZ fst] in *. unfold judge_evm in Hj. unfold entry_gas in *.
  destruct (eth_UnmarshalBinary (e_Raw e)) as [t|]; [|done]. assert ((0 <? gasLimit) = true) as H0 by (by apply Z.ltb_lt).
  rewrite H0 in Hj. cbn [andb] in Hj. destruct (gasLimit <? _) eqn:Hl; [done|]. apply Z.ltb_ge in Hl.
  destruct (ethTxToDew t); [|done]. injection Hj as _ <-.
  unfold u64 in *. rewrite Z.mod_small in Hl by lia. rewrite Z.mod_small by lia. unfold sumZ at 1. cbn [foldr]. lia.
Qed.

(** The sum the loop compares with the limit is kept modulo 2^64. *)
Lemma charged_wrapped gasLimit out g : 0 < gasLimit → charged (judge_evm gasLimit) out g →
  u64 (sumZ (map (λ x, entry_gas x.1) out)) = g ∧ g <= gasLimit.
Proof.
  intros Hg Hc. induction Hc as [|out g e tx gas Hc [IH Hb] Hj]; [split; [done|lia]|]. rewrite map_app, sumZ_app.
  change (sumZ (map _ [(e, tx)])) with (entry_gas e + 0). rewrite Z.add_0_r. unfold judge_evm in Hj. unfold entry_gas at 2.
  destruct (eth_UnmarshalBinary (e_Raw e)) as [t|]; [|done]. rewrite (proj2 (Z.ltb_lt 0 gasLimit)) in Hj by done.
  cbn [andb] in Hj. destruct (Z.ltb_spec gasLimit (g +₆₄ ex_Gas t)); [done|]. destruct (ethTxToDew t); [|done]. injection Hj as _ <-.
  rewrite <-IH in *. unfold u64 in *. rewrite Z.add_mod_idemp_l in * by done. by split.
Qed.

(** C12. Block building is a fee auction over the senders' nonce chains that
    always ends.  From any well-formed pool both selections return (the loop
    never outruns [maxTxs] plus the pending entries); at most [maxTxs]
    transactions are taken; each one carries exactly the next nonce of its
    sender; no ready transaction of a higher price was passed over unless it
    was unreadable or did not fit; and the choice stops short of [maxTxs] only
    when every ready transaction left was turned down.  The gas of the EVM
    choice, added modulo 2^64, is within the block's gas limit, and so is the
    true sum when each gas amount in the pool stays below 2^64 with the limit
    added. *)
Theorem selection_auction p account_nonce maxTxs gasLimit exclude :
  pool_wf p → (∀ a, is_u64 (account_nonce a)) →
  (∃ out, selectPendingTxsForBlockLocked account_nonce (Pending p) maxTxs gasLimit exclude = Some (map snd out)
     ∧ auction (judge_evm gasLimit) KindEVM exclude (Pending p) account_nonce (Z.to_nat maxTxs) out
     ∧ (0 < gasLimit →
          u64 (sumZ (map (λ x, entry_gas x.1) out)) <= gasLimit
          ∧ ((∀ e, e ∈ Pending p → 0 <= entry_gas e ∧ entry_gas e + gasLimit < 2 ^ 64) →
               sumZ (map (λ x, entry_gas x.1) out) <= gasLimit)))
  ∧ (∃ out, selectPendingDewTxsForBlockLocked account_nonce (Pending p) maxTxs = Some (map snd out)
     ∧ auction judge_dew KindDew ∅ (Pending p) account_nonce (Z.to_nat maxTxs) out).
Proof using SL OL.
  intros Hp Hn. pose proof (pending_distinct p Hp) as Hd. split.
  - destruct (select_entries_auction (judge_evm gasLimit) KindEVM exclude (Pending p) account_nonce Hd Hn maxTxs)
      as (out & He & Ha). exists out. unfold selectPendingTxsForBlockLocked. rewrite He. split_and!; [done..|].
    intros Hg. destruct (au_charged _ _ _ _ _ _ _ Ha) as [g Hc]. split.
    { by destruct (charged_wrapped gasLimit out g Hg Hc) as [-> ?]. }
    intros Hsmall.
    apply (charged_gas gasLimit) in Hc as [-> ?]; [lia|done|]. intros [e tx] [i Hi]%list_elem_of_lookup.
    apply Hsmall, (au_ready _ _ _ _ _ _ _ Ha _ _ _ Hi).
  - destruct (select_entries_auction judge_dew KindDew ∅ (Pending p) account_nonce Hd Hn maxTxs) as (out & He & Ha).
    exists out. unfold selectPendingDewTxsForBlockLocked. by rewrite He.
Qed.
End FromPool.

(** ** Evaluation *)
Definition listed_senders : SenderOrder := {| range_senders := map_to_list |}.

Lemma listed_senders_laws : SenderOrderLaws listed_senders.
Proof. split. intros m. reflexivity. Qed.

Section Witness.
Local Existing Instances spec_crypto spec_crypto_laws spec_rlp spec_rlp_laws toy_eth toy_eth_laws toy_dewtx_codec
  listed_order listed_order_laws listed_senders listed_senders_laws.

(** A transaction of account 7. *)
Definition wire_at (nonce gas : Z) : list Z :=
  match EvmTx_MarshalBinary (mkEvmTx DynamicFeeType (Some 2205) nonce (Some 1) (Some 2000000000) gas (Some 9) (Some 5)
    [] [] (Some 1) (Some 12) (Some 13)) with Ok b => b | Err _ => [] end.

Definition admit_wire (nonce gas : Z) (p : Pool) : Pool :=
  match eth_UnmarshalBinary (wire_at nonce gas) with
  | Ok tx => default p (fst <$> AddEVM (Some (ex_tx tx)) 7 (wire_at nonce gas) (Some 2205) 0 p)
  | Err _ => p
  end.

(** The second leaves a gap. *)
Definition two_pending : Pool := admit_wire 5 21000 (admit_wire 3 21000 (NewPool DefaultConfig)).

(** Admission does not bound the gas of a transaction, and the sum of the block
    is compared with the limit modulo 2^64: here a limit of 30 million lets a
    choice of 2^64 gas pass. *)
Lemma selection_gas_wraps :
  let p := admit_wire 4 (2 ^ 64 - 21000) (admit_wire 3 21000 (NewPool DefaultConfig)) in
  selectPendingTxsForBlockLocked (λ _, 3) (Pending p) 64 30000000 ∅ = Some [wire_at 3 21000; wire_at 4 (2 ^ 64 - 21000)]
  ∧ sumZ (map entry_gas (Pending p)) = 2 ^ 64.
Proof. vm_compute. split; reflexivity. Qed.

Lemma admit_wire_reachable nonce gas p : reachable DefaultConfig p → reachable DefaultConfig (admit_wire nonce gas p).
Proof.
  intros Hp. unfold admit_wire. destruct (eth_UnmarshalBinary _) as [tx|]; [|done].
  destruct (AddEVM _ _ _ _ _ _) as [[p' r]|] eqn:Ha; [|done]. cbn [fmap option_fmap option_map fst default from_option id].
  eapply rtc_r; [exact Hp|]. by eapply call_AddEVM.
Qed.

Lemma two_pending_wf : pool_wf two_pending.
Proof. apply (reachable_inv DefaultConfig). do 2 apply admit_wire_reachable. apply rtc_refl. Qed.

Lemma selection_auction_witness :
  (∃ out : list (Entry * list Z), Some [wire_at 3 21000] = Some (map snd out)
     ∧ auction (judge_evm 30000000) KindEVM ∅ (Pending two_pending) (λ _, 3) 64 out)
  ∧ Len two_pending = 2.
Proof.
  split; [|vm_compute; reflexivity].
  destruct (selection_auction two_pending (λ _, 3) 64 30000000 ∅) as [(out & He & Ha & _) _].
  - exact two_pending_wf.
  - intros a. unfold is_u64. lia.
  - exists out. split; [|exact Ha]. rewrite <- He. vm_compute. reflexivity.
Defined.
End Witness.
