(* ===== verification/Chain.v ===== *)
(** * The chain node

    Models the [Node] of [node/node.go] with [node/import.go],
    [node/persist.go] and [node/build.go]: execution of a block's
    transactions, import of a committed block, the durable write, sealing
    from the pool, proposals and their validation, [eth_call] and
    [eth_estimateGas].

    An operation that can panic returns an option, [None] being the panic;
    the node and the error travel inside.  Every operation holds the node's
    lock for its whole run, so operations are functions of the node.  The
    clock ([time.Now]) is an argument. *)
From S2P Require Import Prelude Types Toy DewTx Mempool ValidatorSet Rlp EvmTx StateDB.
From S2P Require Import StateRevert StateCommit NativeState Staking NativeExec Vm ChainStore.
From S2P Require Import Select.

(** The consensus section of the genesis file; [MinValidatorStake] is the
    integer it spells, if any. *)
Record ConsensusConfig : Type := mkConsensusConfig {
  cc_EpochLength : Z;
  cc_UnbondingPeriodSeconds : Z;
  cc_MinValidatorStake : option Z;
  cc_ActiveValidatorCap : Z;
}.

Record IndexedLog : Type := mkIndexedLog {
  il_Log : Log;
  il_BlockNumber : Z;
  il_BlockHash : Hash;
  il_TxHash : Hash;
  il_TxIndex : Z;
  il_Index : Z;
}.

Record ChainEvent : Type := mkChainEvent { ev_Header : Header; ev_Hash : Hash; ev_Logs : list IndexedLog }.

(** The node's database is the one its state database reads.  [n_events] is
    what has been handed to the subscribers. *)
Record ChainNode : Type := mkChainNode {
  n_consensus : option ConsensusConfig;
  n_chainID : Z;
  n_statedb : StateDB;
  n_header : Header;
  n_blocks : gmap Hash Block;
  n_blockNum : gmap Z Hash;
  n_txIndex : gmap Hash TxLookup;
  n_receipts : gmap Hash Receipt;
  n_allLogs : list IndexedLog;
  n_gasPrice : Z;
  n_baseFee : Z;
  n_enableNative : bool;
  n_enablePrecompiles : bool;
  n_enableStaking : bool;
  n_enableNativeSwap : bool;
  n_pool : Pool;
  n_autoMine : bool;
  n_events : list ChainEvent;
}.

Definition with_statedb (s : StateDB) (n : ChainNode) : ChainNode :=
  mkChainNode (n_consensus n) (n_chainID n) s (n_header n) (n_blocks n) (n_blockNum n) (n_txIndex n) (n_receipts n)
    (n_allLogs n) (n_gasPrice n) (n_baseFee n) (n_enableNative n) (n_enablePrecompiles n) (n_enableStaking n)
    (n_enableNativeSwap n) (n_pool n) (n_autoMine n) (n_events n).

Definition with_pool (p : Pool) (n : ChainNode) : ChainNode :=
  mkChainNode (n_consensus n) (n_chainID n) (n_statedb n) (n_header n) (n_blocks n) (n_blockNum n) (n_txIndex n)
    (n_receipts n) (n_allLogs n) (n_gasPrice n) (n_baseFee n) (n_enableNative n) (n_enablePrecompiles n)
    (n_enableStaking n) (n_enableNativeSwap n) p (n_autoMine n) (n_events n).

(** [txExecResult] *)
Record ExecResult : Type := mkExecResult {
  xr_txHash : Hash;
  xr_ethTx : option ExecTx;
  xr_dewTx : option DewTx;
  xr_from : Address;
  xr_receipt : Receipt;
  xr_logs : list Log;
}.

Definition stakingConfigFromGenesis (n : ChainNode) : StakingConfig :=
  let cfg := DefaultStakingConfig in
  match n_consensus n with
  | None => cfg
  | Some c =>
      mkStakingConfig
        (match cc_MinValidatorStake c with
         | Some v => if 0 <? v then Some v else MinSelfStake cfg
         | None => MinSelfStake cfg
         end)
        (if 0 <? cc_ActiveValidatorCap c then cc_ActiveValidatorCap c else ActiveCap cfg)
        (if 0 <? cc_EpochLength c then cc_EpochLength c else EpochLength cfg)
        (if 0 <? cc_UnbondingPeriodSeconds c then cc_UnbondingPeriodSeconds c else UnbondSeconds cfg)
  end.

Definition configureExecutor (n : ChainNode) (x : VmExecutor) : VmExecutor :=
  SetStakingConfig (stakingConfigFromGenesis n)
    (EnableNativeSwap (n_enableNativeSwap n)
      (EnableVmStaking (n_enableStaking n) (EnableDewPrecompiles (n_enablePrecompiles n) x))).

(** The executor of a block. *)
Definition block_executor (n : ChainNode) (hdr : Header) (baseFee : Z) : VmExecutor :=
  configureExecutor n (NewVmExecutor
    (mkBlockContext (Number hdr) (Timestamp hdr) (GasLimit hdr) (Some baseFee) (Proposer hdr) (Some (n_chainID n)) None)).

(** The price paid: [None] is a nil fee field, [Some None] a fee cap below the
    base fee. *)
Definition effectiveGasPrice (tx : EthTx) (baseFee : Z) : option (option Z) :=
  if eth_Type tx =? DynamicFeeTxType then
    tip ← eth_GasTipCap tx; feeCap ← eth_GasFeeCap tx;
    Some (if feeCap <? baseFee then None else Some (Z.min (baseFee + tip) feeCap))
  else p ← eth_GasPrice tx; Some (Some p).

(** [uint256.MustFromBig] panics on a value of more than 256 bits. *)
Definition MustFromBig (x : Z) : option Z := if x <? 2 ^ 256 then Some x else None.

(** How a bounded computation can end. *)
Inductive outcome (A : Type) : Type :=
| Returns (a : A)
| Panics
| OutOfFuel.
Arguments Returns {A} a.
Arguments Panics {A}.
Arguments OutOfFuel {A}.

Section Chain.
Context `{C : Crypto} `{D : AccountCodec} `{R : RlpCodec} `{E : EthCodec} `{K : DewTxCodec} `{V : EVM}
  `{SO : SenderOrder} `{PO : PoolOrder}.

(** ** Execution *)
Definition wrong_chain (chainID : Z) (tx : EthTx) : bool :=
  match eth_ChainId tx with Some c => negb (c =? 0) && negb (c =? chainID) | None => false end.

Definition evm_message (tx : ExecTx) (from : Address) (value gasPrice : Z) : Message :=
  mkMessage from (ex_To tx) (Some value) (ex_Gas tx) (Some gasPrice) (ex_Data tx) false.

Definition evm_receipt (tx : ExecTx) (hdr : Header) (txIndex cumulative gasPrice : Z) (r : VmResult) : Receipt :=
  mkReceipt (eth_Type (ex_tx tx)) (if r_Failed r then 0 else 1) cumulative (r_UsedGas r) gasPrice (r_Logs r)
    (r_ContractAddress r) (eth_Hash (ex_tx tx)) 0 (Number hdr) txIndex.

Definition executeEVMTxLocked (n : ChainNode) (hdr : Header) (dewTx : list Z) (txIndex cumulative : Z) (s : StateDB)
    : option (StateDB * res (ExecResult * Z)) :=
  match (let? tx := eth_UnmarshalBinary dewTx in let? from := eth_Sender (n_chainID n) tx in Ok (tx, from)) with
  | Err e => Some (s, Err e)
  | Ok (tx, from) =>
      if wrong_chain (n_chainID n) (ex_tx tx) then Some (s, Err "wrong chain id") else
      let '(s, nonce) := GetNonce from s in
      if negb (eth_Nonce (ex_tx tx) =? nonce) then Some (s, Err "nonce too low/high") else
      let baseFee := default (n_baseFee n) (BaseFee hdr) in
      price ← effectiveGasPrice (ex_tx tx) baseFee;
      match price with
      | None => Some (s, Err "gas price too low for base fee")
      | Some gasPrice =>
          value ← MustFromBig (ex_Value tx);
          let '(s, r) := ApplyMessage (block_executor n hdr baseFee) (evm_message tx from value gasPrice) s in
          Some (s,
            let? result := r in
            let cum := cumulative +₆₄ r_UsedGas result in
            Ok (mkExecResult (eth_Hash (ex_tx tx)) (Some tx) None from
                  (evm_receipt tx hdr txIndex cum gasPrice result) (r_Logs result), cum))
      end
  end.

Fixpoint execute_txs (n : ChainNode) (hdr : Header) (i : Z) (cumulative : Z) (txs : list (list Z)) (s : StateDB)
    : option (StateDB * res (list ExecResult * Z)) :=
  match txs with
  | [] => Some (s, Ok ([], cumulative))
  | tx :: txs =>
      '(s, r) ← executeEVMTxLocked n hdr tx i cumulative s;
      match r with
      | Err e => Some (s, Err e)
      | Ok (x, used) =>
          '(s, rs) ← execute_txs n hdr (i + 1) used txs s;
          Some (s, let? p := rs in Ok (x :: p.1, p.2))
      end
  end.

Definition executeBlockTxsLocked (n : ChainNode) (hdr : Header) (txs : list (list Z)) (s : StateDB)
    : option (StateDB * res (list ExecResult * Z)) :=
  execute_txs n hdr 0 0 txs s.

Definition dew_receipt (txHash : Hash) (hdr : Header) (txIndex : Z) : Receipt :=
  mkReceipt DewTxType 1 0 0 0 [] None txHash 0 (Number hdr) txIndex.

Definition executeDewTxLocked (n : ChainNode) (hdr : Header) (tx : DewTx) (txIndex : Z) (s : StateDB)
    : option (StateDB * res ExecResult) :=
  if negb (bool_decide (dtx_ChainID tx = Some (n_chainID n))) then Some (s, Err "wrong chain id") else
  sender ← RecoverSender tx;
  match sender with
  | Err e => Some (s, Err e)
  | Ok _ =>
      let exec := EnableStaking (n_enableStaking n) (NewExecutor (Proposer hdr)) in
      let '(s, r) := ApplyDewTx exec (Some tx) s in
      match r with
      | Err e => Some (s, Err e)
      | Ok result =>
          if Failed result then Some (s, Err (default "" (ResultErr result))) else
          txHash ← DewTx_Hash tx;
          Some (s, Ok (mkExecResult txHash None (Some tx) (dtx_Sender tx) (dew_receipt txHash hdr txIndex) []))
      end
  end.

Fixpoint execute_dew_txs (n : ChainNode) (hdr : Header) (i : Z) (txs : list DewTx) (s : StateDB)
    : option (StateDB * res (list ExecResult)) :=
  match txs with
  | [] => Some (s, Ok [])
  | tx :: txs =>
      '(s, r) ← executeDewTxLocked n hdr tx i s;
      match r with
      | Err e => Some (s, Err e)
      | Ok x => '(s, rs) ← execute_dew_txs n hdr (i + 1) txs s; Some (s, let? xs := rs in Ok (x :: xs))
      end
  end.

(** ** Persistence *)
Definition lookup_of (hdr : Header) (bh : Hash) (i : Z) (x : ExecResult) : TxLookup :=
  mkTxLookup bh (Number hdr) i (xr_ethTx x) (xr_dewTx x) (xr_from x) (xr_txHash x).

(** A receipt learns its block once the block is sealed. *)
Definition stamp (bh : Hash) (i : Z) (x : ExecResult) : ExecResult :=
  let r := xr_receipt x in
  mkExecResult (xr_txHash x) (xr_ethTx x) (xr_dewTx x) (xr_from x)
    (mkReceipt (rc_Type r) (rc_Status r) (rc_CumulativeGasUsed r) (rc_GasUsed r) (rc_EffectiveGasPrice r) (rc_Logs r)
       (rc_ContractAddress r) (rc_TxHash r) bh (rc_BlockNumber r) i) (xr_logs x).

Definition indexed {A} (l : list A) : list (Z * A) := imap (λ i x, (Z.of_nat i, x)) l.

Definition write_log (num txIndex : Z) (txHash bh : Hash) (w : Database) (jl : Z * Log) : Database :=
  put w (logIndexKey num txIndex jl.1) (encodeLogIndex jl.2 txHash bh).

Definition write_result (hdr : Header) (bh : Hash) (w : Database) (ix : Z * ExecResult) : res Database :=
  let '(i, x) := ix in
  let w := put w (receiptKey (xr_txHash x)) (encodeReceipt (xr_receipt x)) in
  let w := foldl (write_log (Number hdr) i (xr_txHash x) bh) w (indexed (rc_Logs (xr_receipt x))) in
  let? tb := encodeTxLookup (lookup_of hdr bh i x) in
  Ok (put w (txLookupKey (xr_txHash x)) tb).

Fixpoint write_results (hdr : Header) (bh : Hash) (w : Database) (xs : list (Z * ExecResult)) : res Database :=
  match xs with [] => Ok w | x :: xs => let? w := write_result hdr bh w x in write_results hdr bh w xs end.

Definition writeChainKeys (w : Database) (block : Block) (results : list ExecResult) : res Database :=
  let hdr := header block in
  let bh := Block_Hash block in
  let w := put w (headerKey bh) (encodeHeader hdr) in
  let w := put w (bodyKey bh) (encodeBody (transactions block)) in
  let w := put w (canonicalKey (Number hdr)) (hash_bytes bh) in
  let? w := write_results hdr bh w (indexed results) in
  let w := put w metaTipKey (encodeTip (Number hdr) bh) in
  Ok (putLogIndexVersion w logIndexSchemaVersion).

Definition result_logs (hdr : Header) (bh : Hash) (ix : Z * ExecResult) : list IndexedLog :=
  map (λ jl : Z * Log, mkIndexedLog jl.2 (Number hdr) bh (xr_txHash ix.2) ix.1 jl.1) (indexed (xr_logs ix.2)).

Definition commit_result (hdr : Header) (bh : Hash) (n : ChainNode) (ix : Z * ExecResult) : ChainNode :=
  let '(i, x) := ix in
  mkChainNode (n_consensus n) (n_chainID n) (n_statedb n) (n_header n) (n_blocks n) (n_blockNum n)
    (<[xr_txHash x := lookup_of hdr bh i x]> (n_txIndex n))
    (<[xr_txHash x := xr_receipt (stamp bh i x)]> (n_receipts n))
    (n_allLogs n ++ result_logs hdr bh ix) (n_gasPrice n) (n_baseFee n) (n_enableNative n) (n_enablePrecompiles n)
    (n_enableStaking n) (n_enableNativeSwap n) (Remove (xr_txHash x) (n_pool n)) (n_autoMine n) (n_events n).

Definition set_head (block : Block) (n : ChainNode) : ChainNode :=
  let hdr := header block in
  let bh := Block_Hash block in
  mkChainNode (n_consensus n) (n_chainID n) (n_statedb n) hdr (<[bh := block]> (n_blocks n))
    (<[Number hdr := bh]> (n_blockNum n)) (n_txIndex n) (n_receipts n) (n_allLogs n) (n_gasPrice n)
    (default (n_baseFee n) (BaseFee hdr)) (n_enableNative n) (n_enablePrecompiles n) (n_enableStaking n)
    (n_enableNativeSwap n) (n_pool n) (n_autoMine n) (n_events n).

Definition emit (ev : ChainEvent) (n : ChainNode) : ChainNode :=
  mkChainNode (n_consensus n) (n_chainID n) (n_statedb n) (n_header n) (n_blocks n) (n_blockNum n) (n_txIndex n)
    (n_receipts n) (n_allLogs n) (n_gasPrice n) (n_baseFee n) (n_enableNative n) (n_enablePrecompiles n)
    (n_enableStaking n) (n_enableNativeSwap n) (n_pool n) (n_autoMine n) (n_events n ++ [ev]).

Definition commitBlockLocked (block : Block) (results : list ExecResult) (n : ChainNode) : ChainNode :=
  let hdr := header block in
  let bh := Block_Hash block in
  let n := foldl (commit_result hdr bh) (set_head block n) (indexed results) in
  emit (mkChainEvent hdr bh (concat (map (result_logs hdr bh) (indexed results)))) n.

(** One batch: state, chain keys and tip reach the store together. *)
Definition persistBlockLocked (block : Block) (results : list ExecResult) (n : ChainNode) : ChainNode * res unit :=
  let results := imap (λ i x, stamp (Block_Hash block) (Z.of_nat i) x) results in
  let s := n_statedb n in
  match writeChainKeys (FlushDirtyTo s (db s)) block results with
  | Err e => (n, Err e)
  | Ok w => (commitBlockLocked block results (with_statedb (ClearDirty (set_db w s)) n), Ok tt)
  end.

(** ** Import *)

(** [n.statedb.RevertToSnapshot(snap); return err] *)
Definition roll_back (snap : Z) (err : string) (n : ChainNode) : option (ChainNode * res unit) :=
  s ← RevertToSnapshot snap (n_statedb n); Some (with_statedb s n, Err err).

(** The write at the end of a block, undone on an error. *)
Definition persist_or_roll_back (snap : Z) (block : Block) (results : list ExecResult) (n : ChainNode)
    : option (ChainNode * res unit) :=
  match persistBlockLocked block results n with
  | (n, Err e) => roll_back snap e n
  | (n, Ok _) => Some (n, Ok tt)
  end.

Definition importCommittedBlockLocked (block : option Block) (n : ChainNode) : option (ChainNode * res unit) :=
  match block with
  | None => Some (n, Err "node: nil block")
  | Some block =>
      let h := header block in
      match n_blockNum n !! Number h with
      | Some existing =>
          Some (n, if existing =? Block_Hash block then Ok tt else Err "node: conflict at height")
      | None =>
          if negb (Number h =? Number (n_header n) +₆₄ 1) then Some (n, Err "node: block not parent+1 of head") else
          if negb (ParentHash h =? Header_Hash (n_header n)) then Some (n, Err "node: parent hash mismatch") else
          let '(s, snap) := Snapshot (n_statedb n) in
          '(s, r) ← executeBlockTxsLocked n h (transactions block) s;
          let n := with_statedb s n in
          match r with
          | Err e => roll_back snap e n
          | Ok (results, totalGas) =>
              if negb (totalGas =? GasUsed h) then roll_back snap "node: gas used mismatch" n else
              let '(s, root) := IntermediateRoot s in
              let n := with_statedb s n in
              if negb (root =? StateRoot h) then roll_back snap "node: state root mismatch" n else
              persist_or_roll_back snap block results n
          end
      end
  end.

(** ** Sealing from the pool *)

(** The head of the block being built on [parent]. *)
Definition next_header (n : ChainNode) (parent : Header) (now : Z) (proposer : Address) (root : Hash) : Header :=
  mkHeader (Header_Hash parent) root EmptyTxRoot EmptyReceiptRoot (Number parent +₆₄ 1)
    (if u64 now <=? Timestamp parent then Timestamp parent +₆₄ 1 else u64 now)
    (GasLimit parent) 0 (Some (n_baseFee n)) (ExtraData parent) proposer.

Definition with_outcome (h : Header) (root : Hash) (gasUsed : Z) (txRoot : Hash) : Header :=
  mkHeader (ParentHash h) root txRoot (ReceiptRoot h) (Number h) (Timestamp h) (GasLimit h) gasUsed (BaseFee h)
    (ExtraData h) (Proposer h).

(** Reading the senders' nonces fills the account cache. *)
Definition read_nonces (kind : Kind) (exclude : gset Hash) (n : ChainNode) : StateDB :=
  foldl (λ s kv, (GetNonce kv.1 s).1) (n_statedb n)
    (range_senders (groupPendingBySender (Pending (n_pool n)) kind exclude)).

Definition account_nonce (n : ChainNode) (a : Address) : Z := (GetNonce a (n_statedb n)).2.

Definition select_txs (n : ChainNode) (maxTxs gasLimit : Z) (exclude : gset Hash) : option (StateDB * list (list Z)) :=
  txs ← selectPendingTxsForBlockLocked (account_nonce n) (Pending (n_pool n)) maxTxs gasLimit exclude;
  Some (read_nonces KindEVM exclude n, txs).

Definition select_dew_txs (n : ChainNode) (maxTxs : Z) : option (StateDB * list DewTx) :=
  txs ← selectPendingDewTxsForBlockLocked (account_nonce n) (Pending (n_pool n)) maxTxs;
  Some (read_nonces KindDew ∅ n, txs).

Definition sealReadyFromPoolLocked (now : Z) (n : ChainNode) : option (ChainNode * res unit) :=
  let parent := n_header n in
  '(s, txs) ← select_txs n DefaultMaxTxsPerBlock (GasLimit parent) ∅;
  let n := with_statedb s n in
  if bool_decide (txs = []) then Some (n, Ok tt) else
  let h := next_header n parent now (Proposer parent) 0 in
  let '(s, snap) := Snapshot (n_statedb n) in
  '(s, r) ← executeBlockTxsLocked n h txs s;
  let n := with_statedb s n in
  match r with
  | Err e => roll_back snap e n
  | Ok (results, gasUsed) =>
      let '(s, root) := IntermediateRoot s in
      let n := with_statedb s n in
      let block := NewBlock (with_outcome h root gasUsed (TxRootOf txs)) txs in
      '(n, r) ← persist_or_roll_back snap block results n;
      Some (if is_ok r then with_pool (foldl (λ p x, Remove (xr_txHash x) p) (n_pool n) results) n else n, r)
  end.

Definition dewHashListRoot (results : list ExecResult) : Hash :=
  match results with
  | [] => EmptyTxRoot
  | _ => Keccak256Hash (rlp_encode (RList (map (λ x, RStr (hash_bytes (xr_txHash x))) results)))
  end.

Definition sealReadyDewFromPoolLocked (now : Z) (n : ChainNode) : option (ChainNode * res unit) :=
  let parent := n_header n in
  '(s, dtxs) ← select_dew_txs n DefaultMaxTxsPerBlock;
  let n := with_statedb s n in
  if bool_decide (length dtxs = 0%nat) then Some (n, Ok tt) else
  let h := next_header n parent now (Proposer parent) 0 in
  let '(s, snap) := Snapshot (n_statedb n) in
  '(s, r) ← execute_dew_txs n h 0 dtxs s;
  let n := with_statedb s n in
  match r with
  | Err e => roll_back snap e n
  | Ok results =>
      let '(s, root) := IntermediateRoot s in
      let n := with_statedb s n in
      persist_or_roll_back snap (NewBlock (with_outcome h root 0 (dewHashListRoot results)) []) results n
  end.

(** ** Submission *)

(** A submission's error comes from the node or from the pool. *)
Definition SendError : Type := (string + PoolError)%type.

Definition sealed (hash onError : Hash) (r : ChainNode * res unit) : ChainNode * (Hash * option SendError) :=
  let '(n, r) := r in
  match r with Ok _ => (n, (hash, None)) | Err e => (n, (onError, Some (inl e))) end.

(** What [SendRawTransaction] does once the pool has admitted the transaction:
    with auto-mining, a transaction of the account's next nonce is sealed. *)
Definition SendRawTransaction (raw : list Z) (now : Z) (n : ChainNode)
    : option (ChainNode * (Hash * option SendError)) :=
  match (let? tx := eth_UnmarshalBinary raw in let? from := eth_Sender (n_chainID n) tx in Ok (tx, from)) with
  | Err e => Some (n, (0, Some (inl e)))
  | Ok (tx, from) =>
      let etx := ex_tx tx in
      if wrong_chain (n_chainID n) etx then Some (n, (0, Some (inl "wrong chain id"))) else
      let '(s, accountNonce) := GetNonce from (n_statedb n) in
      let n := with_statedb s n in
      if eth_Nonce etx <? accountNonce then Some (n, (0, Some (inl "nonce too low"))) else
      '(p, (_, err)) ← AddEVM (Some etx) from raw (Some (n_chainID n)) now (n_pool n);
      let n := with_pool p n in
      match err with
      | Some e => Some (n, (0, Some (inr e)))
      | None =>
          if negb (n_autoMine n) || (accountNonce <? eth_Nonce etx) then Some (n, (eth_Hash etx, None)) else
          r ← sealReadyFromPoolLocked now n; Some (sealed (eth_Hash etx) 0 r)
      end
  end.

Definition SendDewRawTransaction (raw : list Z) (now : Z) (n : ChainNode)
    : option (ChainNode * (Hash * option SendError)) :=
  if negb (n_enableNative n) then Some (n, (0, Some (inl "native path disabled"))) else
  match DewTx_UnmarshalBinary raw with
  | Err e => Some (n, (0, Some (inl e)))
  | Ok tx =>
      if negb (bool_decide (dtx_ChainID tx = Some (n_chainID n))) then Some (n, (0, Some (inl "wrong chain id"))) else
      sender ← RecoverSender tx;
      match sender with
      | Err e => Some (n, (0, Some (inl e)))
      | Ok _ =>
          let '(s, accountNonce) := GetNonce (dtx_Sender tx) (n_statedb n) in
          let n := with_statedb s n in
          if dtx_Nonce tx <? accountNonce then Some (n, (0, Some (inl "nonce too low"))) else
          '(p, (hash, err)) ← AddDew (Some tx) raw (Some (n_chainID n)) now (n_pool n);
          let n := with_pool p n in
          match err with
          | Some e => Some (n, (0, Some (inr e)))
          | None =>
              if negb (n_autoMine n) || (accountNonce <? dtx_Nonce tx) then Some (n, (hash, None)) else
              r ← sealReadyDewFromPoolLocked now n; Some (sealed hash hash r)
          end
      end
  end.

(** ** Proposals *)

(** [simulateBlockExecutionLocked]: on a copy of the state, all or nothing. *)
Definition simulateBlockExecutionLocked (n : ChainNode) (hdr : Header) (txs : list (list Z)) : option (res (Hash * Z)) :=
  '(s, r) ← executeBlockTxsLocked n hdr txs (Copy (n_statedb n));
  Some (let? p := r in Ok ((IntermediateRoot s).2, p.2)).

(** The loop of [simulateAndFilterLocked]: failing transactions are skipped. *)
Fixpoint simulate_filter (n : ChainNode) (hdr : Header) (txs kept : list (list Z)) (cumulative : Z) (failed : gset Hash)
    (s : StateDB) : option (StateDB * (list (list Z) * Z * gset Hash)) :=
  match txs with
  | [] => Some (s, (kept, cumulative, failed))
  | tx :: txs =>
      '(s, r) ← executeEVMTxLocked n hdr tx (Z.of_nat (length kept)) cumulative s;
      match r with
      | Err _ => simulate_filter n hdr txs kept cumulative ({[Transaction_Hash tx]} ∪ failed) s
      | Ok (_, used) => simulate_filter n hdr txs (kept ++ [tx]) used failed s
      end
  end.

Definition simulateAndFilterLocked (n : ChainNode) (hdr : Header) (txs : list (list Z))
    : option (list (list Z) * Hash * Z * gset Hash) :=
  if bool_decide (txs = []) then Some ([], 0, 0, ∅) else
  '(s, (kept, cumulative, failed)) ← simulate_filter n hdr txs [] 0 ∅ (Copy (n_statedb n));
  Some (if bool_decide (kept = []) then ([], 0, 0, failed) else (kept, (IntermediateRoot s).2, cumulative, failed)).

(** The select, simulate, exclude loop: the filled header and its
    transactions, or none. *)
Fixpoint propose_loop (attempts : nat) (n : ChainNode) (h : Header) (maxTxs gasLimit : Z) (exclude : gset Hash)
    : option (StateDB * option (Header * list (list Z))) :=
  match attempts with
  | O => Some (n_statedb n, None)
  | S attempts =>
      '(s, cand) ← select_txs n maxTxs gasLimit exclude;
      let n := with_statedb s n in
      if bool_decide (cand = []) then Some (s, None) else
      '(kept, root, totalGas, failed) ← simulateAndFilterLocked n h cand;
      if negb (bool_decide (kept = [])) then Some (s, Some (with_outcome h root totalGas (TxRootOf kept), kept))
      else if bool_decide (failed = ∅) then Some (s, None)
      else propose_loop attempts n h maxTxs gasLimit (failed ∪ exclude)
  end.

Definition same_head (h1 h2 : Header) : bool := (Number h1 =? Number h2) && (Header_Hash h1 =? Header_Hash h2).

Definition BuildBlockFromPool (height : Z) (parent : option Header) (proposer : Address) (maxTxs now : Z) (n : ChainNode)
    : option (ChainNode * res Block) :=
  let maxTxs := if maxTxs <=? 0 then DefaultMaxTxsPerBlock else maxTxs in
  match parent with
  | None => Some (n, Err "node: nil parent")
  | Some parent =>
      if negb (height =? Number parent +₆₄ 1) then Some (n, Err "node: invalid height") else
      let h := next_header n parent now proposer (StateRoot parent) in
      '(s, picked) ← propose_loop maxProposalSimAttempts n h maxTxs (GasLimit parent) ∅;
      let n := with_statedb s n in
      match picked with
      | Some (h, txs) => Some (n, Ok (NewBlock h txs))
      | None =>
          if same_head (n_header n) parent then Some (n, Ok (NewBlock (with_outcome h (StateRoot (n_header n)) 0 EmptyTxRoot) []))
          else let '(s, root) := IntermediateRoot s in
               Some (with_statedb s n, Ok (NewBlock (with_outcome h root 0 EmptyTxRoot) []))
      end
  end.

Definition ValidateAndExecuteBlock (parent : option Header) (block : option Block) (n : ChainNode)
    : option (ChainNode * res Hash) :=
  match parent, block with
  | Some parent, Some block =>
      if negb (same_head (n_header n) parent) then Some (n, Err "node: head does not match parent") else
      let hdr := header block in
      if bool_decide (transactions block = []) then
        if negb (GasUsed hdr =? 0) then Some (n, Err "node: gas used mismatch") else
        let '(s, root) := IntermediateRoot (n_statedb n) in Some (with_statedb s n, Ok root)
      else
        r ← simulateBlockExecutionLocked n hdr (transactions block);
        Some (n, let? p := r in if negb (p.2 =? GasUsed hdr) then Err "node: gas used mismatch" else Ok p.1)
  | _, _ => Some (n, Err "node: nil parent or block")
  end.

(** ** Read-only execution *)

(** A message as [eth_call] and [eth_estimateGas] run it: at no gas price, on
    the live state, without [Finalise]. *)
Definition free_message (msg : Message) (gas : Z) : Message :=
  mkMessage (m_From msg) (m_To msg) (Some (default 0 (m_Value msg))) gas (Some 0) (m_Data msg) true.

(** [Snapshot], [ApplyMessage], [RevertToSnapshot]. *)
Definition try_message (n : ChainNode) (msg : Message) (s : StateDB) : option (StateDB * res VmResult) :=
  let '(s, snap) := Snapshot s in
  let '(s, r) := ApplyMessage (block_executor n (n_header n) (n_baseFee n)) msg s in
  s ← RevertToSnapshot snap s; Some (s, r).

Definition Call (msg : Message) (n : ChainNode) : option (ChainNode * (list Z * option string)) :=
  let gas := if m_GasLimit msg =? 0 then 30000000 else m_GasLimit msg in
  '(s, r) ← try_message n (free_message msg gas) (n_statedb n);
  Some (with_statedb s n,
    match r with
    | Err e => ([], Some e)
    | Ok res => (r_ReturnData res, if r_Failed res then r_Err res else None)
    end).

(** The binary search: the state, the upper end and the last failure. *)
Fixpoint estimate_loop (fuel : nat) (n : ChainNode) (msg : Message) (lo hi : Z) (lastErr : option string) (s : StateDB)
    : outcome (StateDB * Z * option string) :=
  if negb (lo +₆₄ 1 <? hi) then Returns (s, hi, lastErr) else
  match fuel with
  | O => OutOfFuel
  | S fuel =>
      let mid := (lo +₆₄ hi) / 2 in
      match try_message n (free_message msg mid) s with
      | None => Panics
      | Some (s, Err e) => estimate_loop fuel n msg mid hi (Some e) s
      | Some (s, Ok r) =>
          if r_Failed r then estimate_loop fuel n msg mid hi (r_Err r) s
          else estimate_loop fuel n msg lo mid lastErr s
      end
  end.

(** The error of a failed verification: the last one of the search first. *)
Definition estimate_error (lastErr : option string) (err : option string) : res Z :=
  match lastErr, err with
  | Some e, _ => Err e
  | None, Some e => Err e
  | None, None => Ok 0
  end.

Definition EstimateGas (fuel : nat) (msg : Message) (n : ChainNode) : outcome (ChainNode * res Z) :=
  let limit := GasLimit (n_header n) in
  let hi := if negb (m_GasLimit msg =? 0) && (m_GasLimit msg <? limit) then m_GasLimit msg else limit in
  match estimate_loop fuel n msg 21000 hi None (n_statedb n) with
  | Panics => Panics
  | OutOfFuel => OutOfFuel
  | Returns (s, hi, lastErr) =>
      match try_message n (free_message msg hi) s with
      | None => Panics
      | Some (s, r) =>
          Returns (with_statedb s n,
            match r with
            | Err e => estimate_error lastErr (Some e)
            | Ok r =>
                if r_Failed r then estimate_error lastErr (r_Err r)
                else let est := (r_UsedGas r *₆₄ 12) / 10 in Ok (if est <? 21000 then 21000 else est)
            end)
      end
  end.

(** ** Epochs *)

(** [TryRotateValidatorSet]: [Ok None] keeps the current set. *)
Definition TryRotateValidatorSet (height : Z) (n : ChainNode) : res (option ValidatorSet) :=
  if negb (n_enableStaking n) then Ok None else
  let cfg := stakingConfigFromGenesis n in
  if negb (ShouldRotateEpoch height (EpochLength cfg)) then Ok None else
  let active := ActiveSet (NewStakingModule cfg) (n_statedb n) in
  if bool_decide (length active = 0%nat) then Ok None else
  let? vs := ActiveSetToValidatorSet active in Ok (Some vs).
End Chain.
