(* ===== verification/ChainRead.v ===== *)
(** * Read-only execution on the node

    [eth_estimateGas] ends, never panics and leaves the balances, nonces, code
    and storage as they were; so does [eth_call], but either may leave an empty
    account behind, which changes the state root the node computes. *)
From S2P Require Import Prelude Types Toy DewTx Mempool ValidatorSet Rlp EvmTx Smt StateDB.
From S2P Require Import StateRevert StateCommit NativeState Staking NativeExec Vm VmIsolated.
From S2P Require Import ChainStore Select Chain.

Section Read.
Context `{C : Crypto} `{D : AccountCodec} `{V : EVM}.

(** Between transactions: the state a read-only call may start from. *)
Record sim_ready (from : Address) (s : StateDB) : Prop := {
  sr_wf : acl_wf (accessList s);
  sr_ids : ids_ok s;
  sr_from : from ∉ suicides s;
}.

Lemma RevertToSnapshot_keeps id s s' : RevertToSnapshot id s = Some s' →
  nextRevisionID s' = nextRevisionID s ∧ (acl_wf (accessList s) → acl_wf (accessList s')).
Proof.
  unfold RevertToSnapshot. destruct (find_revision _ _) as [[before idx]|]; [|done]. intros [= <-]. cbn.
  destruct (journal_revert_frame (length (jentries s) - idx) s) as [_ Hr]; [lia|]. unfold revisions in Hr.
  injection Hr as _ ->. split; [done|apply journal_revert_wf].
Qed.

Lemma Prepare_suicides a b c l s : suicides (Prepare a b c l s) = suicides s.
Proof.
  assert (∀ a s, suicides (AddAddressToAccessList a s) = suicides s) as Hadd.
  { intros a' t. unfold AddAddressToAccessList. by destruct (AddAddress _ _) as [? []]. }
  unfold Prepare. cbn [suicides set_refund set_newContracts]. rewrite Hadd.
  set (t := match c with Some _ => _ | None => _ end).
  assert (suicides t = suicides s) as <- by (subst t; destruct c; by rewrite !Hadd).
  clearbody t. revert t. induction l as [|x l IH]; intros t; [done|]. cbn [foldl]. by rewrite IH, Hadd.
Qed.

Lemma prepare_suicides x msg cost s : suicides (prepare_message x msg cost s) = suicides s.
Proof.
  unfold prepare_message. rewrite Prepare_suicides. cbn [suicides ClearLogs set_logs]. apply change_balance_suicides.
Qed.

(** The message, run without a fee at any gas from the state of the node [n],
    is [well_framed]: it calls neither the staking nor the order book contract,
    whose writes are not journaled, and writes to no account after its
    self-destruction. *)
Definition tidy (n : ChainNode) (msg : Message) : Prop :=
  ∀ gas s t, let x := block_executor n (n_header n) (n_baseFee n) in
  kept s (n_statedb n) → same_view t (Snapshot s).1 →
  well_framed x (free_message msg gas) (prepare_message x (free_message msg gas) 0 t).

Context (n : ChainNode).

(** A simulated message on the live state: it returns, and what blocks
    commit to is back. *)
Lemma free_simulated msg gas : simulated (free_message msg gas).
Proof. by split. Qed.

Lemma try_message_ok msg gas s : tidy n msg → kept s (n_statedb n) → sim_ready (m_From msg) s →
  ∃ s' r, try_message n (free_message msg gas) s = Some (s', r) ∧ kept s' s ∧ jentries s' = jentries s
    ∧ sim_ready (m_From msg) s'.
Proof.
  intros Htidy Hks [Hwf Hids Hfrom]. set (x := block_executor n (n_header n) (n_baseFee n)).
  set (m := free_message msg gas). assert (m_From m = m_From msg) as Hm by done.
  assert (tracked kept s (ApplyMessage x m (Snapshot s).1).1) as Ht.
  { apply ApplyMessage_tracked; [done|by apply tracked_snapshot; [apply _|]|apply free_simulated|done|].
    intros t Hv. by apply (Htidy gas s t). }
  destruct (tracked_revert kept s _ Hids Ht) as (s' & Hr & Hk & Hj & Hv).
  unfold try_message. rewrite (surjective_pairing (Snapshot s)). change (Snapshot s).2 with (nextRevisionID s). fold x.
  destruct (ApplyMessage x m (Snapshot s).1) as [s1 r]. cbn [fst] in *. rewrite Hr. cbn [mbind option_bind].
  exists s', r. split_and!; [done..|]. destruct (RevertToSnapshot_keeps _ _ _ Hr) as [Hn Hw]. split.
  - apply Hw, Ht.
  - intros q. rewrite Hv, Hn. intros Hq%Hids. destruct Ht as [_ _ Hlt _]. lia.
  - destruct Hk as [_ _ Hf]. injection Hf as _ ->. done.
Qed.

Lemma failed_has_error x msg s r : (ApplyMessage x msg s).2 = Ok r → r_Failed r = true → r_Err r ≠ None.
Proof.
  unfold ApplyMessage. repeat (case_match; try done); cbn [snd]; intros [= <-]; cbn [r_Failed r_Err];
    apply bool_decide_eq_true_1.
Qed.

Lemma try_failed_has_error msg s s' r : try_message n msg s = Some (s', Ok r) → r_Failed r = true → r_Err r ≠ None.
Proof.
  unfold try_message. destruct (Snapshot s) as [s0 snap].
  destruct (ApplyMessage _ msg s0) as [s1 r1] eqn:Ha. destruct (RevertToSnapshot snap s1); [|done].
  cbn [mbind option_bind]. intros [= _ ->]. apply (failed_has_error (block_executor n (n_header n) (n_baseFee n)) msg s0).
  by rewrite Ha.
Qed.

Context (msg : Message).
Hypothesis Htidy : tidy n msg.
Hypothesis Hready : sim_ready (m_From msg) (n_statedb n).

(** A run of the message at some gas, on a state like the node's. *)
Definition runs_at (gas : Z) (r : res VmResult) : Prop :=
  ∃ s1 s2, kept s1 (n_statedb n) ∧ try_message n (free_message msg gas) s1 = Some (s2, r).

Definition fails_at (gas : Z) : Prop :=
  ∃ r, runs_at gas r ∧ match r with Err _ => True | Ok v => r_Failed v = true end.

Lemma estimate_step gas s : kept s (n_statedb n) → sim_ready (m_From msg) s →
  ∃ s' r, try_message n (free_message msg gas) s = Some (s', r) ∧ kept s' (n_statedb n)
    ∧ sim_ready (m_From msg) s' ∧ runs_at gas r.
Proof using Htidy.
  intros Hk Hr. destruct (try_message_ok msg gas s Htidy Hk Hr) as (s' & r & Ht & Hk' & _ & Hr').
  exists s', r. split_and!; [done|by eapply kept_trans|done|by exists s, s'].
Qed.

(** The search ends: the gap halves, and the midpoint does not wrap. *)
Lemma estimate_loop_ends fuel lo hi lastErr s :
  0 <= lo → hi <= 2 ^ 63 → hi - lo <= 2 ^ Z.of_nat fuel → lo <= 21000 ∨ lo < hi →
  lo = 21000 ∨ fails_at lo → kept s (n_statedb n) → sim_ready (m_From msg) s →
  ∃ s' hi' lastErr', estimate_loop fuel n msg lo hi lastErr s = Returns (s', hi', lastErr')
    ∧ hi' <= hi ∧ (hi' <= 21001 ∨ fails_at (hi' - 1)) ∧ kept s' (n_statedb n) ∧ sim_ready (m_From msg) s'.
Proof using Htidy.
  revert lo hi lastErr s. induction fuel as [|fuel IH]; intros lo hi lastErr s Hlo Hhi Hgap Hor Hfail Hk Hr;
    cbn [estimate_loop]; (destruct (lo +₆₄ 1 <? hi) eqn:Hlt; cbn [negb];
    [|apply Z.ltb_ge in Hlt; exists s, hi, lastErr; split_and!; try done]).
  - apply Z.ltb_lt in Hlt. unfold u64 in Hlt. rewrite Z.mod_small in Hlt by lia. cbn in Hgap. lia.
  - unfold u64 in Hlt. rewrite Z.mod_small in Hlt by lia. destruct Hfail as [->|Hf]; [left; lia|].
    destruct Hor; [left; lia|]. right. by replace (hi - 1) with lo by lia.
  - apply Z.ltb_lt in Hlt. unfold u64 in Hlt |- *. rewrite Z.mod_small in Hlt by lia. rewrite Z.mod_small by lia.
    set (mid := (lo + hi) / 2). assert (lo < mid < hi ∧ hi - mid <= 2 ^ Z.of_nat fuel ∧ mid - lo <= 2 ^ Z.of_nat fuel) as (Hm & Hg1 & Hg2).
    { rewrite Nat2Z.inj_succ, Z.pow_succ_r in Hgap by lia. unfold mid.
      pose proof (Z.div_mod (lo + hi) 2 ltac:(lia)) as He. pose proof (Z.mod_pos_bound (lo + hi) 2 ltac:(lia)). lia. }
    destruct (estimate_step mid s Hk Hr) as (s1 & r & Ht & Hk1 & Hr1 & Hrun). rewrite Ht.
    destruct r as [v|e]; [destruct (r_Failed v) eqn:Hfv|].
    + apply IH; try done; [lia|by right; lia|]. right. by exists (Ok v).
    + destruct (IH lo mid lastErr s1) as (s' & hi' & e' & H1 & H2 & H3); try done; [lia|lia|]. exists s', hi', e'.
      split_and!; [done|lia|apply H3..].
    + apply IH; try done; [lia|by right; lia|]. right. by exists (Err e).
  - unfold u64 in Hlt. rewrite Z.mod_small in Hlt by lia. destruct Hfail as [->|Hf]; [left; lia|].
    destruct Hor; [left; lia|]. right. by replace (hi - 1) with lo by lia.
Qed.

(** C15. Gas estimation ends, never panics and leaves accounts and storage
    alone.  For a block gas limit of at most 2^63 the binary search is over
    after 64 probes whatever the interpreter answers.  The balance, nonce, code
    hash and storage of every address, the store and the self-destruct marks
    are afterwards what they were; an empty account may be left where there was
    none.  An estimate is at least 21000 and is the padded gas of a run that
    succeeded at some gas within the limit; one unit of gas less was either at
    most 21000 or was tried and failed.  The message is assumed to use the
    state through its journaled interface, without calls of the staking and
    order book contracts, and to write to no account after its
    self-destruction. *)
Theorem EstimateGas_terminates :
  0 <= GasLimit (n_header n) <= 2 ^ 63 → is_u64 (m_GasLimit msg) →
  ∃ s r, EstimateGas 64 msg n = Returns (with_statedb s n, r) ∧ kept s (n_statedb n) ∧
    ∀ est, r = Ok est → 21000 <= est ∧ ∃ gas v,
      gas <= GasLimit (n_header n) ∧ runs_at gas (Ok v) ∧ r_Failed v = false
      ∧ est = Z.max 21000 ((r_UsedGas v *₆₄ 12) / 10) ∧ (gas <= 21001 ∨ fails_at (gas - 1)).
Proof using Htidy Hready.
  intros Hlim Hgas. unfold EstimateGas. unfold is_u64 in Hgas.
  set (hi := if negb (m_GasLimit msg =? 0) && (m_GasLimit msg <? GasLimit (n_header n)) then m_GasLimit msg
    else GasLimit (n_header n)).
  assert (0 <= hi <= GasLimit (n_header n)) as Hhi.
  { subst hi. destruct (negb _ && _) eqn:Hb; [|lia]. apply andb_true_iff in Hb as [_ Hb]. apply Z.ltb_lt in Hb. lia. }
  clearbody hi. assert (kept (n_statedb n) (n_statedb n)) as Hrefl by (split; [intros; apply account_rel_refl|done|done]).
  destruct (estimate_loop_ends 64 21000 hi None (n_statedb n)) as (s1 & hi' & e' & Hl & Hle & Hmin & Hk & Hr);
    [lia|lia|change (2 ^ Z.of_nat 64) with (2 ^ 64); lia|left; lia|by left|done|done|].
  rewrite Hl. destruct (estimate_step hi' s1 Hk Hr) as (s2 & r & Ht & Hk2 & _ & Hrun). rewrite Ht.
  eexists _, _. split_and!; [reflexivity|done|]. intros est Hest. destruct r as [v|e].
  - destruct (r_Failed v) eqn:Hf.
    + exfalso. pose proof (try_failed_has_error _ _ _ _ Ht Hf) as Hne. by destruct e', (r_Err v).
    + injection Hest as Hest. assert (est = Z.max 21000 ((r_UsedGas v *₆₄ 12) / 10)) as Heq.
      { rewrite <- Hest. destruct (_ <? 21000) eqn:Hb; [apply Z.ltb_lt in Hb|apply Z.ltb_ge in Hb]; lia. }
      split; [lia|]. exists hi', v. split_and!; [lia|done..].
  - by destruct e'.
Qed.
End Read.

(** ** The residue of a call *)
Section Residue.
Context `{C : Crypto} {CL : CryptoLaws C} `{D : AccountCodec} `{V : EVM}.

(** A journal that rests on [base]: nothing that runs can revert below it. *)
Record rests (m : Z) (base : list journalEntry) (V0 : list (Z * nat)) (s : StateDB) : Prop := {
  re_wf : acl_wf (accessList s);
  re_next : m < nextRevisionID s;
  re_journal : ∃ es, jentries s = es ++ base;
  re_revs : ∃ Q, validRevisions s = V0 ++ Q ∧ ∀ r, r ∈ Q → m < r.1 ∧ (length base <= r.2)%nat;
}.

Lemma rests_step m base V0 s s' : (∀ r, r ∈ V0 → r.1 <= m) → rests m base V0 s → evm_step m s s' → rests m base V0 s'.
Proof.
  intros HV [Hwf Hn (es & Hj) (Q & HQ & Hlt)] Hst.
  destruct (evm_step_undoable _ s s' Hwf Hst) as [(Hwf' & Hrv & es' & Hj' & _)|[->|(id & Hid & Hrev)]].
  - unfold revisions in Hrv. injection Hrv as Hv Hx.
    split; [done|by rewrite Hx|exists (es' ++ es); by rewrite Hj', Hj, app_assoc|exists Q; by rewrite Hv].
  - split; [done|cbn; lia|by exists es|]. exists (Q ++ [(nextRevisionID s, length (jentries s))]). cbn.
    rewrite HQ, <-app_assoc. split; [done|]. intros r [Hr|Hr]%elem_of_app; [by apply Hlt|].
    apply list_elem_of_singleton in Hr. subst r. cbn. rewrite Hj, length_app. lia.
  - destruct (RevertToSnapshot_keeps _ _ _ Hrev) as [Hx Hw]. unfold RevertToSnapshot in Hrev.
    rewrite HQ, find_revision_app in Hrev.
    rewrite (find_revision_none V0) in Hrev by (intros r Hr; specialize (HV r Hr); lia).
    destruct (find_revision Q id) as [[before i]|] eqn:Hf; [|done]. injection Hrev as <-.
    destruct (find_revision_in _ _ _ _ Hf) as [Hin Hsub]. destruct (Hlt _ Hin) as [_ Hi]. cbn in Hi.
    destruct (journal_revert_frame (length (jentries s) - i) s) as [Hfr _]; [lia|].
    split; [by apply Hw|by rewrite Hx| |].
    + exists (drop (length (jentries s) - i) es). cbn [jentries set_validRevisions]. rewrite Hfr, Hj, length_app.
      by rewrite drop_app_le by lia.
    + exists before. split; [done|]. intros r Hr. by apply Hlt, Hsub.
Qed.

Lemma rests_book m base V0 s s' : bookkeeping s s' → rests m base V0 s → rests m base V0 s'.
Proof.
  intros [[= _ _ _ _ Hj Hv Hx] Hwf'] [_ Hn He Hq]. split; [done|by rewrite Hx|by rewrite Hj|by rewrite Hv].
Qed.

(** Reverting to the snapshot below a balance change leaves its account in
    the cache. *)
Lemma rests_revert m a prev js V0 s s' :
  rests m (balanceChange a prev :: js) (V0 ++ [(m, length js)]) s → RevertToSnapshot m s = Some s' →
  is_Some (accounts s' !! a).
Proof.
  intros [_ _ (es & Hj) (Q & HQ & Hlt)]. unfold RevertToSnapshot. rewrite HQ, <- app_assoc, find_revision_app. cbn.
  rewrite (find_revision_none Q) by (intros r Hin; destruct (Hlt r Hin); lia). rewrite Z.eqb_refl.
  intros [= <-]. rewrite Hj, length_app. cbn [length].
  replace (length es + S (length js) - length js)%nat with (length es + 1)%nat by lia.
  assert (length es <= length (jentries s))%nat as Hle by (rewrite Hj, length_app; lia).
  rewrite journal_revert_app by done. destruct (journal_revert_frame (length es) s Hle) as [Hf _].
  rewrite Hj, drop_app_length in Hf. cbn [journal_revert accounts set_validRevisions]. rewrite Hf.
  apply revert_balance_cached.
Qed.

Lemma step_journal_GetBalance a s : jentries (GetBalance a s).1 = jentries s ∧ revisions (GetBalance a s).1 = revisions s.
Proof. destruct (GetBalance_spec a s) as [_ [_ _ Hq]]. destruct (rest_others _ _ Hq) as (_ & Hr & Hj). done. Qed.

Lemma rests_run m base V0 s s' : (∀ r, r ∈ V0 → r.1 <= m) → rests m base V0 s → rtc (evm_step m) s s' → rests m base V0 s'.
Proof. intros HV Hs Hrun. induction Hrun as [|x y z Hxy _ IH]; [done|]. apply IH. by eapply rests_step. Qed.

(** From the change of the sender's balance to the end of the message. *)
Lemma message_rests x msg m base V0 s :
  well_framed x msg (prepare_message x msg 0 s) → (∀ r, r ∈ V0 → r.1 <= m) →
  rests m base V0 (SubBalance (m_From msg) 0 s).1 → rests m base V0 (run_message x msg (prepare_message x msg 0 s)).1.
Proof.
  intros Hfr HV Hs.
  assert (rests m base V0 (prepare_message x msg 0 s)) as Hp.
  { unfold prepare_message. apply (Prepare_closed _ m).
    - intros t t' Ht Hstep. by eapply rests_step.
    - intros t t'. apply rests_book.
    - intros t Ht. apply Ht.
    - eapply rests_book; [|exact Hs]. split; [done|apply Hs]. }
  eapply rests_run; [done|exact Hp|]. eapply rtc_subrel; [|exact Hfr].
  intros y z. apply evm_step_weaken. pose proof (re_next _ _ _ _ Hp). lia.
Qed.

Lemma SubBalance_rests a s s2 : a ∉ suicides s2 → acl_wf (accessList s2) → jentries s2 = jentries s →
  revisions s2 = revisions (Snapshot s).1 →
  ∃ prev, rests (nextRevisionID s) (balanceChange a prev :: jentries s)
    (validRevisions s ++ [(nextRevisionID s, length (jentries s))]) (SubBalance a 0 s2).1.
Proof.
  intros Ha Hwf Hj Hr. unfold SubBalance.
  destruct (undoable_change_balance a (λ prev, prev -₂₅₆ 0) s2 Ha Hwf) as (Hwf' & _).
  destruct (change_balance_frame a (λ prev, prev -₂₅₆ 0) s2) as [[prev Hj'] Hr']. exists prev.
  rewrite Hr in Hr'. unfold revisions in Hr'. injection Hr' as Hv Hx. cbn in Hv, Hx.
  split; [done|by rewrite Hx; lia|exists []; by rewrite Hj', Hj|]. exists []. rewrite app_nil_r. split; [done|].
  intros r Hr0. by apply elem_of_nil in Hr0.
Qed.

(** The run of a free message of no value rests on the change of its sender's
    balance. *)
Lemma ApplyMessage_rests x msg s :
  (∀ t, same_view t (Snapshot s).1 → well_framed x msg (prepare_message x msg 0 t)) →
  simulated msg → sim_ready (m_From msg) s → m_GasLimit msg ≠ 0 → default 0 (m_Value msg) = 0 → 0 <= balance_of s (m_From msg) →
  ∃ prev, rests (nextRevisionID s) (balanceChange (m_From msg) prev :: jentries s)
    (validRevisions s ++ [(nextRevisionID s, length (jentries s))]) (ApplyMessage x msg (Snapshot s).1).1.
Proof.
  intros Hfr [Hnf Hp] [Hwf Hids Hfrom] Hgas Hval Hbal. set (V0 := validRevisions s ++ _).
  assert (∀ r, r ∈ V0 → r.1 <= nextRevisionID s) as HV.
  { intros r [Hr%Hids|Hr%list_elem_of_singleton]%elem_of_app; [lia|by subst r]. }
  unfold ApplyMessage. rewrite Hp, Hnf, Hval. cbn [default from_option id]. rewrite Z.mul_0_r.
  rewrite (proj2 (Z.eqb_neq _ _)) by done. change (2 ^ 256 <=? 0) with false. cbv iota.
  set (s0 := (Snapshot s).1). destruct (GetBalance_spec (m_From msg) s0) as [Hb1 Hv1].
  destruct (GetBalance (m_From msg) s0) as [s1 b1]. cbn [fst snd] in *.
  destruct (GetBalance_spec (m_From msg) s1) as [Hb2 Hv2]. destruct (GetBalance (m_From msg) s1) as [s2 b2]. cbn [fst snd] in *.
  assert (same_view s2 s0) as Hv by (by etrans). assert (balance_of s0 (m_From msg) = balance_of s (m_From msg)) as H0 by done.
  assert (0 <= b1) as H1 by (by rewrite Hb1, H0). assert (0 <= b2) as H2.
  { rewrite Hb2. destruct (kept_balances s1 s0 (m_From msg)) as [-> _]; [|by rewrite H0].
    by apply restored_kept, same_view_restored. }
  rewrite (proj2 (Z.ltb_ge _ _) H1). change (0 +₂₅₆ 0) with 0. rewrite (proj2 (Z.ltb_ge _ _) H2).
  specialize (Hfr s2 Hv). destruct Hv as [_ _ Hq]. destruct (rest_others _ _ Hq) as (Ho & Hr & Hj).
  destruct (others_db _ _ Ho) as [_ Hsu].
  destruct (SubBalance_rests (m_From msg) s s2) as [prev Hs]; [by rewrite Hsu|by rewrite (others_accessList _ _ Ho)|done|done|].
  exists prev. apply (message_rests x msg) in Hs; [|exact Hfr|exact HV].
  destruct (run_message x msg _) as [s4 [out created]]. cbn [fst] in *. unfold settle_gas. rewrite Z.ltb_irrefl.
  cbn [andb fst]. eapply rests_book; [|exact Hs]. split; [done|apply Hs].
Qed.

Lemma overlay_account_present s st kv a : suicides s = ∅ →
  (∃ acc, st.2 !! accountKey a = Some (encodeAccount acc)) ∨ kv.1 = a →
  ∃ acc, (overlay_account s st kv).2 !! accountKey a = Some (encodeAccount acc).
Proof.
  intros Hsu H. destruct st as [codes merged], kv as [b acc]. unfold overlay_account. rewrite Hsu, decide_False by set_solver.
  cbn [fst snd] in H. set (m' := <[accountKey b := encodeAccount acc]> merged).
  assert (∃ x, m' !! accountKey a = Some (encodeAccount x)) as [x Hx].
  { unfold m'. rewrite lookup_insert. case_decide as Hk; [by exists acc|]. destruct H as [H| ->]; [done|by destruct Hk]. }
  exists x. clearbody m'.
  repeat case_match; cbn [snd]; rewrite ?(lookup_insert_ne _ (codeKey _)) by apply not_eq_sym, account_code_ne; exact Hx.
Qed.

(** A cached account is a leaf. *)
Lemma cached_leaf s a : suicides s = ∅ → is_Some (accounts s !! a) →
  ∃ l, l ∈ (collectLeaves s).2 ∧ key l = accountKey a ∧ ∃ acc, val l = encodeAccount acc.
Proof.
  intros Hsu [acc0 Ha]. assert (∃ acc, (merged_leaves s).2 !! accountKey a = Some (encodeAccount acc)) as [acc Hm].
  { unfold merged_leaves. set (m0 := filter _ (db s)).
    assert (∀ l st, (∃ acc, st.2 !! accountKey a = Some (encodeAccount acc)) ∨ a ∈ l.*1 →
      ∃ acc, (foldl (overlay_account s) st l).2 !! accountKey a = Some (encodeAccount acc)) as Hf.
    { induction l as [|kv l IH]; intros st H; cbn [foldl]; [destruct H as [H|H]; [done|by apply elem_of_nil in H]|].
      apply IH. cbn [fmap list_fmap] in H. rewrite elem_of_cons in H.
      destruct (decide (kv.1 = a)) as [Hk|Hk]; [left; apply overlay_account_present; [done|by right]|].
      destruct H as [H|[H|H]]; [|done|by right]. left. apply overlay_account_present; [done|by left]. }
    destruct (Hf (map_to_list (accounts s)) (code s, m0)) as [acc Hacc].
    { right. apply list_elem_of_fmap. exists (a, acc0). split; [done|by apply elem_of_map_to_list]. }
    destruct (foldl (overlay_account s) _ _) as [codes merged]. cbn [snd] in *. exists acc.
    by rewrite overlay_slots_at_account. }
  unfold collectLeaves. destruct (merged_leaves s) as [codes merged]. cbn [snd] in *.
  exists (mkLeaf (accountKey a) (encodeAccount acc)). split_and!; [|done|by exists acc].
  rewrite merge_sort_Permutation, list_elem_of_fmap. exists (accountKey a, encodeAccount acc).
  split; [done|by apply elem_of_map_to_list].
Qed.

Lemma leaves_distinct s : NoDup (map key (collectLeaves s).2).
Proof.
  unfold collectLeaves. destruct (merged_leaves s) as [codes merged]. cbn [snd].
  rewrite merge_sort_Permutation, map_map. apply NoDup_fst_map_to_list.
Qed.
End Residue.

Section Stall.
Context `{C : Crypto} {CL : CryptoLaws C} `{D : AccountCodec} `{R : RlpCodec} {RL : RlpLaws C R} `{E : EthCodec}
  `{K : DewTxCodec} `{V : EVM}.

(** A block that extends the head without transactions, as the other nodes
    see it. *)
Record empty_child (n : ChainNode) (b : Block) : Prop := {
  ec_txs : transactions b = [];
  ec_gas : GasUsed (header b) = 0;
  ec_number : Number (header b) = Number (n_header n) +₆₄ 1;
  ec_parent : ParentHash (header b) = Header_Hash (n_header n);
  ec_new : n_blockNum n !! Number (header b) = None;
  ec_root : StateRoot (header b) = (IntermediateRoot (n_statedb n)).2;
}.

(** Importing such a block compares the roots. *)
Lemma import_empty n b s : empty_child (with_statedb s n) b →
  ∀ s', ∃ n', importCommittedBlockLocked (Some b) (with_statedb s' n) =
    Some (n', if decide ((IntermediateRoot s').2 = (IntermediateRoot s).2) then Ok tt else Err "node: state root mismatch").
Proof.
  intros [Htx Hgas Hnum Hpar Hnew Hroot] s'. cbn [n_header n_blockNum n_statedb with_statedb] in *.
  unfold importCommittedBlockLocked. cbn [n_header n_blockNum n_statedb with_statedb]. rewrite Hnew.
  rewrite (proj2 (Z.eqb_eq _ _) Hnum), (proj2 (Z.eqb_eq _ _) Hpar). cbn [negb].
  rewrite (surjective_pairing (Snapshot s')). unfold executeBlockTxsLocked. rewrite Htx. cbn [execute_txs mbind option_bind].
  rewrite (proj2 (Z.eqb_eq _ _) (eq_sym Hgas)). cbn [negb].
  assert ((IntermediateRoot (Snapshot s').1).2 = (IntermediateRoot s').2) as Hsnap.
  { unfold IntermediateRoot, collectLeaves. change (merged_leaves (Snapshot s').1) with (merged_leaves s').
    by destruct (merged_leaves s'). }
  rewrite (surjective_pairing (IntermediateRoot (Snapshot s').1)), Hsnap, Hroot.
  destruct (decide _) as [Heq|Hne].
  - rewrite Heq, Z.eqb_refl. cbn [negb]. unfold persist_or_roll_back, persistBlockLocked, writeChainKeys.
    cbn [imap indexed write_results rbind]. by eexists.
  - rewrite (proj2 (Z.eqb_neq _ _) Hne). cbn [negb]. unfold roll_back. cbn [n_statedb with_statedb].
    assert (is_Some (RevertToSnapshot (Snapshot s').2 (IntermediateRoot (Snapshot s').1).1)) as [t Ht].
    { unfold RevertToSnapshot. assert (validRevisions (IntermediateRoot (Snapshot s').1).1 =
        validRevisions s' ++ [(nextRevisionID s', length (jentries s'))]) as ->.
      { unfold IntermediateRoot, collectLeaves. by destruct (merged_leaves _). }
      rewrite find_revision_app. cbn [find_revision]. rewrite Z.eqb_refl. by eexists. }
    rewrite Ht. cbn [mbind option_bind]. by eexists.
Qed.

Lemma encodeAccount_not_placeholder acc : encodeAccount acc ≠ placeholder.
Proof using RL.
  intros H. unfold encodeAccount in H. match type of H with rlp_encode (RList ?l) = _ =>
    destruct (rlp_list_head l) as (x & r & Hx & Hle) end. rewrite Hx in H.
  change placeholder with [101; 109; 112; 116; 121] in H. injection H as -> _. lia.
Qed.

(** C36. An [eth_call] can stop a node.  The call, of no value and from an
    address without account, runs on the live state and is reverted, but the
    account its sender was given stays in the cache and counts as a leaf of
    the state tree.  The node would have imported a valid empty block before
    the call; after it, the same block is refused for a state root mismatch.
    Keccak-256 is assumed not to collide on the strings hashed for the two
    roots, and the message to be [tidy]. *)
Theorem eth_call_stalls_import n msg b :
  tidy n msg → sim_ready (m_From msg) (n_statedb n) → addresses_ok (n_statedb n) → suicides (n_statedb n) = ∅ →
  is_addr (m_From msg) → accounts (n_statedb n) !! m_From msg = None → db (n_statedb n) !! accountKey (m_From msg) = None →
  default 0 (m_Value msg) = 0 → empty_child n b →
  (∃ n1, importCommittedBlockLocked (Some b) n = Some (n1, Ok tt))
  ∧ ∃ n2 out, Call msg n = Some (n2, out)
    ∧ (collision_free (λ x, x ∈ smt_inputs (collectLeaves (n_statedb n2)).2 ++ smt_inputs (collectLeaves (n_statedb n)).2) →
       ∃ n3, importCommittedBlockLocked (Some b) n2 = Some (n3, Err "node: state root mismatch")).
Proof using CL RL.
  intros Htidy Hr Hok Hsu Ha Hacc Hdb Hval Hb. set (s := n_statedb n) in *.
  assert (kept s s) as Hrefl by (split; [intros; apply account_rel_refl|done|done]).
  assert (with_statedb s n = n) as Hn by (by destruct n).
  assert (empty_child (with_statedb s n) b) as Hb' by (by rewrite Hn). split.
  { destruct (import_empty n b s Hb' s) as [n1 H1]. rewrite Hn, decide_True in H1 by done. by exists n1. }
  set (gas := if m_GasLimit msg =? 0 then 30000000 else m_GasLimit msg).
  assert (gas ≠ 0) as Hgas by (subst gas; destruct (_ =? 0) eqn:H; [done|by apply Z.eqb_neq]).
  destruct (try_message_ok n msg gas s Htidy Hrefl Hr) as (s' & r & Ht & [_ _ Hkf] & _). injection Hkf as _ Hsu'.
  assert (is_Some (accounts s' !! m_From msg)) as Hcached.
  { destruct (ApplyMessage_rests (block_executor n (n_header n) (n_baseFee n)) (free_message msg gas) s) as [prev Hrest];
      [intros t Hv; by apply (Htidy gas s t)|apply free_simulated|exact Hr|exact Hgas|exact Hval| |].
    { unfold balance_of, account_of, raw_account. cbn [m_From free_message]. rewrite Hacc. unfold stored_account. rewrite Hdb.
      case_decide; cbn; lia. }
    unfold try_message in Ht. rewrite (surjective_pairing (Snapshot s)) in Ht.
    destruct (ApplyMessage _ _ _) as [s1 r1]. cbn [fst] in Hrest.
    destruct (RevertToSnapshot _ s1) as [s2|] eqn:Hrev; [|done]. cbn [mbind option_bind] in Ht. injection Ht as <- _.
    by eapply rests_revert in Hrest. }
  eexists _, _. split; [unfold Call; fold gas; fold s; rewrite Ht; reflexivity|]. cbn [n_statedb with_statedb].
  intros Hcf. destruct (import_empty n b s Hb' s') as [n3 H3]. destruct (decide _) as [Heq|Hne]; [exfalso|by exists n3].
  destruct (cached_leaf s' (m_From msg)) as (l & Hl & Hk & acc & Hv); [congruence|done|].
  assert (l ∈ (collectLeaves s).2) as Hin.
  { apply (root_member _ Hcf (collectLeaves s').2); [intros; rewrite elem_of_app; tauto..|apply leaves_distinct|apply leaves_distinct| |done|].
    - unfold IntermediateRoot in Heq. destruct (collectLeaves s'), (collectLeaves s). exact Heq.
    - rewrite Hv. apply encodeAccount_not_placeholder. }
  assert (is_Some ((merged_leaves s).2 !! accountKey (m_From msg))) as [v Hm].
  { apply elem_of_leaves. by exists l. }
  rewrite merged_at_account, Hacc, Hdb in Hm by done. done.
Qed.
End Stall.

(** ** Evaluation *)
Section Witness.
Local Existing Instances spec_crypto spec_crypto_laws spec_rlp spec_rlp_laws toy_codec toy_eth toy_dewtx_codec.

(** An interpreter that needs 30000 gas and does nothing. *)
Definition idle_out (gas : Z) : evm_out :=
  if gas <? 30000 then mkEvmOut [] gas (Some "out of gas") else mkEvmOut [] 30000 None.

Definition idle_evm : EVM := {|
  evm_Call _ _ _ _ _ _ gas _ s := (s, idle_out gas);
  evm_Create _ _ _ _ _ gas _ s := (s, (idle_out gas, 0));
|}.

Local Existing Instances idle_evm.

Lemma idle_framed x msg s : m_From msg ∉ suicides s → well_framed x msg s.
Proof.
  intros Hfrom. unfold well_framed, run_message. destruct (m_To msg) as [to|]; [|apply rtc_refl].
  destruct (GetNonce_spec (m_From msg) s) as [_ [_ _ Hq]]. pose proof (es_GetNonce (nextRevisionID s - 1) s (m_From msg)) as H1.
  destruct (GetNonce (m_From msg) s) as [s1 nonce]. cbn [fst] in *.
  eapply rtc_l; [exact H1|]. apply rtc_once. apply es_SetNonce.
  destruct (rest_others _ _ Hq) as (Ho & _). by destruct (others_db _ _ Ho) as [_ ->].
Qed.

Definition sample_head : Header := mkHeader 0 0 0 0 7 1000 30000000 0 (Some 1000000000) [] 0.

Definition sample_node : ChainNode :=
  mkChainNode None 2205 (New ∅) sample_head ∅ ∅ ∅ ∅ [] 1000000000 1000000000 true true false false
    (NewPool DefaultConfig) true [].

Definition sample_call : Message := mkMessage 77 (Some 5) None 0 None [] false.

Lemma sample_ready : sim_ready 77 (n_statedb sample_node).
Proof. split; [apply acl_wf_new|intros r Hr; by apply elem_of_nil in Hr|apply not_elem_of_empty]. Qed.

Lemma sample_tidy : tidy sample_node sample_call.
Proof.
  intros gas s t x [_ _ Hf] [_ _ Hq]. apply idle_framed. injection Hf as _ Hs.
  change (suicides s = ∅) in Hs. rewrite prepare_suicides.
  destruct (rest_others _ _ Hq) as (Ho & _). destruct (others_db _ _ Ho) as [_ Ht].
  rewrite Ht, Snapshot_suicides, Hs. apply not_elem_of_empty.
Qed.

Lemma EstimateGas_terminates_witness :
  (∃ s r, EstimateGas 64 sample_call sample_node = Returns (with_statedb s sample_node, r) ∧ kept s (New ∅))
  ∧ match EstimateGas 64 sample_call sample_node with Returns (_, Ok est) => est = 36000 | _ => False end.
Proof.
  split; [|vm_compute; reflexivity].
  destruct (EstimateGas_terminates sample_node sample_call sample_tidy sample_ready) as (s & r & He & Hk & _).
  - split; vm_compute; discriminate.
  - split; vm_compute; [discriminate|reflexivity].
  - exists s, r. split; [exact He|exact Hk].
Defined.

Definition sample_child : Block :=
  mkBlock (mkHeader (Header_Hash sample_head) (IntermediateRoot (New ∅)).2 EmptyTxRoot EmptyReceiptRoot 8 1001 30000000 0
    (Some 1000000000) [] 0) [].

(** The state the call leaves. *)
Definition called_state : StateDB :=
  match Call sample_call sample_node with Some (n2, _) => n_statedb n2 | None => New ∅ end.

Lemma called_collision_free :
  collision_free (λ x, x ∈ smt_inputs (collectLeaves called_state).2 ++ smt_inputs (collectLeaves (New ∅)).2).
Proof. apply collision_free_roots, (bool_decide_unpack _). vm_compute. exact I. Qed.

Lemma eth_call_stalls_import_witness :
  ∃ n2 out, Call sample_call sample_node = Some (n2, out)
    ∧ ∃ n3, importCommittedBlockLocked (Some sample_child) n2 = Some (n3, Err "node: state root mismatch").
Proof.
  destruct (eth_call_stalls_import sample_node sample_call sample_child) as (_ & n2 & out & Hc & Himp).
  - exact sample_tidy.
  - exact sample_ready.
  - intros a [acc Ha]. change (@None Account = Some acc) in Ha. discriminate.
  - reflexivity.
  - split; vm_compute; [discriminate|reflexivity].
  - reflexivity.
  - reflexivity.
  - reflexivity.
  - split; reflexivity.
  - exists n2, out. split; [exact Hc|]. apply Himp.
    assert (n_statedb n2 = called_state) as -> by (unfold called_state; by rewrite Hc). exact called_collision_free.
Defined.
End Witness.
