(* ===== verification/ChainImport.v ===== *)
(** * Importing a block

    [importCommittedBlockLocked] either extends the chain by the block it
    executed, or refuses it with the state as it was, or takes the process
    down: once a transaction has been executed its [Finalise] has dropped the
    snapshot the error paths go back to. *)
From S2P Require Import Prelude Types Toy DewTx Mempool Rlp EvmTx Smt StateDB StateRevert.
From S2P Require Import StateCommit NativeState Staking NativeExec Vm ChainStore Select Chain.
From S2P Require Import ChainRead.

Section Importing.
Context `{C : Crypto} `{D : AccountCodec} `{R : RlpCodec} `{E : EthCodec} `{K : DewTxCodec} `{V : EVM}.

Lemma Finalise_revisions del s : validRevisions (Finalise del s) = [].
Proof. done. Qed.

(** A message that is not applied was only looked at; one that is applied has
    been finalised. *)
Lemma ApplyMessage_trace x msg s : m_NoFinalise msg = false →
  match (ApplyMessage x msg s).2 with
  | Err _ => same_view (ApplyMessage x msg s).1 s
  | Ok _ => validRevisions (ApplyMessage x msg s).1 = []
  end.
Proof.
  intros Hnf. unfold ApplyMessage. rewrite Hnf. destruct (_ =? 0); [done|]. destruct (_ <=? _); [done|].
  destruct (GetBalance_spec (m_From msg) s) as [_ Hv1]. destruct (GetBalance (m_From msg) s) as [s1 b1]. cbn [fst] in *.
  destruct (b1 <? _); [done|].
  destruct (GetBalance_spec (m_From msg) s1) as [_ Hv2]. destruct (GetBalance (m_From msg) s1) as [s2 b2]. cbn [fst] in *.
  destruct (b2 <? _); [cbn [fst snd]; by etrans|]. by destruct (run_message _ _ _) as [s4 [out created]].
Qed.

(** Looked at, or past its snapshots. *)
Definition trace (s s' : StateDB) : Prop := same_view s' s ∨ validRevisions s' = [].

Lemma same_view_revisions s s' : same_view s' s → validRevisions s' = validRevisions s ∧ jentries s' = jentries s.
Proof. intros [_ _ Hq]. destruct (rest_others _ _ Hq) as (_ & Hr & Hj). unfold revisions in Hr. by injection Hr. Qed.

Lemma trace_trans s s' s'' : trace s s' → trace s' s'' → trace s s''.
Proof.
  intros [H1|H1] [H2|H2]; [left; by etrans|by right| |by right]. right.
  destruct (same_view_revisions _ _ H2) as [-> _]. done.
Qed.

Lemma executeEVMTx_trace n hdr tx i cum s s' r : executeEVMTxLocked n hdr tx i cum s = Some (s', r) →
  match r with Err _ => same_view s' s | Ok _ => validRevisions s' = [] end.
Proof.
  unfold executeEVMTxLocked. destruct (rbind _ _) as [[t from]|]; [|by intros [= <- <-]].
  destruct (wrong_chain _ _); [by intros [= <- <-]|].
  destruct (GetNonce_spec from s) as [_ Hv]. destruct (GetNonce from s) as [s1 nonce]. cbn [fst] in Hv.
  destruct (negb _); [by intros [= <- <-]|]. destruct (effectiveGasPrice _ _) as [[price|]|]; cbn [mbind option_bind]; [|by intros [= <- <-]|done].
  destruct (MustFromBig _) as [value|]; cbn [mbind option_bind]; [|done].
  set (x := block_executor _ _ _). set (msg := evm_message _ _ _ _).
  pose proof (ApplyMessage_trace x msg s1 eq_refl) as Ht. destruct (ApplyMessage x msg s1) as [s2 [v|e]]; cbn [fst snd rbind] in *.
  - by intros [= <- <-].
  - intros [= <- <-]. by etrans.
Qed.

Lemma execute_txs_trace n hdr i cum txs s s' r : execute_txs n hdr i cum txs s = Some (s', r) →
  trace s s' ∧ (is_ok r = true → txs ≠ [] → validRevisions s' = []).
Proof.
  revert i cum s s' r. induction txs as [|tx txs IH]; intros i cum s s' r; cbn [execute_txs]; [by intros [= <- <-]; split; [left|]|].
  destruct (executeEVMTxLocked n hdr tx i cum s) as [[s1 r1]|] eqn:H1; cbn [mbind option_bind]; [|done].
  apply executeEVMTx_trace in H1. destruct r1 as [[x used]|e]; [|intros [= <- <-]; split; [by left|done]].
  destruct (execute_txs n hdr (i + 1) used txs s1) as [[s2 r2]|] eqn:H2; cbn [mbind option_bind]; [|done].
  intros [= <- <-]. destruct (IH _ _ _ _ _ H2) as [Ht _].
  assert (validRevisions s2 = []) as Hv.
  { destruct Ht as [Hs|Hs]; [|done]. by destruct (same_view_revisions _ _ Hs) as [-> _]. }
  split; [by right|done].
Qed.

Lemma IntermediateRoot_keeps s :
  validRevisions (IntermediateRoot s).1 = validRevisions s ∧ jentries (IntermediateRoot s).1 = jentries s
  ∧ same_view (IntermediateRoot s).1 s.
Proof.
  unfold IntermediateRoot, collectLeaves. destruct (merged_leaves s). split_and!; [done|done|]. by apply same_view_intro.
Qed.

(** Rolling back to the snapshot taken at [s0]. *)
Lemma roll_back_cases s0 s err n : trace (Snapshot s0).1 s → n_statedb n = s →
  match roll_back (Snapshot s0).2 err n with
  | None => validRevisions s = []
  | Some (n', r) => r = Err err ∧ ∃ s', n' = with_statedb s' n
      ∧ (∀ a, account_of s' a = account_of s0 a) ∧ (∀ a k, storage_of s' a k = storage_of s0 a k)
  end.
Proof.
  intros Ht Hs. unfold roll_back, RevertToSnapshot. rewrite Hs. destruct Ht as [Hv|Hv]; [|by rewrite Hv].
  destruct (same_view_revisions _ _ Hv) as [-> Hj]. cbn [Snapshot fst snd validRevisions set_validRevisions set_nextRevisionID].
  rewrite find_revision_app. cbn [find_revision]. rewrite Z.eqb_refl. cbn [mbind option_bind].
  assert (length (jentries s) - length (jentries s0) = 0)%nat as -> by (rewrite Hj; cbn; lia). cbn [journal_revert].
  split; [done|]. eexists. split; [reflexivity|]. split.
  - intros a. exact (same_view_account _ _ a Hv).
  - intros a k. exact (sm_storage _ _ Hv a k).
Qed.

(** ** What a successful import does *)
Record extended (n : ChainNode) (b : Block) (n' : ChainNode) : Prop := {
  xt_number : Number (header b) = Number (n_header n) +₆₄ 1;
  xt_parent : ParentHash (header b) = Header_Hash (n_header n);
  xt_header : n_header n' = header b;
  xt_blocks : n_blocks n' = <[Block_Hash b := b]> (n_blocks n);
  xt_numbers : n_blockNum n' = <[Number (header b) := Block_Hash b]> (n_blockNum n);
  xt_executed : ∃ s results,
    executeBlockTxsLocked n (header b) (transactions b) (Snapshot (n_statedb n)).1 = Some (s, Ok (results, GasUsed (header b)))
    ∧ (IntermediateRoot s).2 = StateRoot (header b)
    ∧ ∀ x, x ∈ results → byHash (n_pool n') !! xr_txHash x = None;
}.

Lemma removed_stays h h' p : byHash p !! h = None → byHash (Remove h' p) !! h = None.
Proof. intros H. unfold Remove. rewrite removeLocked_byHash. apply lookup_delete_None. by right. Qed.

Lemma commit_results hdr bh xs n : let n' := foldl (commit_result hdr bh) n xs in
  n_header n' = n_header n ∧ n_blocks n' = n_blocks n ∧ n_blockNum n' = n_blockNum n
  ∧ (∀ h, byHash (n_pool n) !! h = None → byHash (n_pool n') !! h = None)
  ∧ ∀ ix, ix ∈ xs → byHash (n_pool n') !! xr_txHash ix.2 = None.
Proof.
  revert n. induction xs as [|[i x] xs IH]; intros n; [split_and!; [done..|]; intros ix Hix; by apply elem_of_nil in Hix|].
  cbn [foldl]. destruct (IH (commit_result hdr bh n (i, x))) as (-> & -> & -> & H1 & H2).
  split_and!; [done..| |].
  - intros h Hh. apply H1. cbn [commit_result n_pool]. by apply removed_stays.
  - intros ix [->|Hix]%elem_of_cons; [|by apply H2]. apply H1. cbn [commit_result n_pool snd].
    unfold Remove. rewrite removeLocked_byHash. apply lookup_delete_eq.
Qed.

Lemma persist_extends n0 b results n n' s : persistBlockLocked b results n = (n', Ok tt) → n = with_statedb s n0 →
  n_header n' = header b ∧ n_blocks n' = <[Block_Hash b := b]> (n_blocks n0)
  ∧ n_blockNum n' = <[Number (header b) := Block_Hash b]> (n_blockNum n0)
  ∧ ∀ x, x ∈ results → byHash (n_pool n') !! xr_txHash x = None.
Proof.
  intros Hp ->. unfold persistBlockLocked in Hp. set (rs := imap _ _) in Hp.
  destruct (writeChainKeys _ b rs) as [w|]; [|done]. injection Hp as <-. unfold commitBlockLocked.
  set (n1 := set_head _ _). destruct (commit_results (header b) (Block_Hash b) (indexed rs) n1) as (H1 & H2 & H3 & _ & H5).
  set (n2 := foldl _ n1 _) in *. split_and!; [exact H1|exact H2|exact H3|]. intros x Hx.
  apply list_elem_of_lookup in Hx as [i Hi]. change (byHash (n_pool n2) !! xr_txHash x = None).
  apply (H5 (Z.of_nat i, stamp (Block_Hash b) (Z.of_nat i) x)). unfold indexed. apply list_elem_of_lookup. exists i.
  rewrite list_lookup_imap. unfold rs. by rewrite list_lookup_imap, Hi.
Qed.

(** The last step of the import, from the executed state. *)
Lemma finish_cases s0 s b results n : trace (Snapshot s0).1 s → n_statedb n = s →
  match persist_or_roll_back (Snapshot s0).2 b results n with
  | None => validRevisions s = []
  | Some (n', Ok _) => persistBlockLocked b results n = (n', Ok tt)
  | Some (n', Err _) => ∃ s', n' = with_statedb s' n
      ∧ (∀ a, account_of s' a = account_of s0 a) ∧ (∀ a k, storage_of s' a k = storage_of s0 a k)
  end.
Proof.
  intros Ht Hs. unfold persist_or_roll_back. destruct (persistBlockLocked b results n) as [n1 [[]|e]] eqn:Hp; [done|].
  assert (n1 = n) as ->.
  { unfold persistBlockLocked in Hp. destruct (writeChainKeys _ _ _); [done|]. by injection Hp. }
  pose proof (roll_back_cases s0 s e n Ht Hs) as Hr. destruct (roll_back _ e n) as [[n' r]|]; [|done].
  destruct Hr as [-> Hr]. exact Hr.
Qed.

(** All or nothing: the block is known or extends the chain; or the chain, the
    pool and every account and slot are as before; or the process is down, and
    the block had transactions. *)
Definition import_outcome (n : ChainNode) (b : Block) (o : option (ChainNode * res unit)) : Prop :=
  match o with
  | None => transactions b ≠ []
  | Some (n', Ok _) => (n' = n ∧ n_blockNum n !! Number (header b) = Some (Block_Hash b)) ∨ extended n b n'
  | Some (n', Err _) => ∃ s, n' = with_statedb s n
      ∧ (∀ a, account_of s a = account_of (n_statedb n) a) ∧ (∀ a k, storage_of s a k = storage_of (n_statedb n) a k)
  end.

Lemma refuse_outcome n b s err : trace (Snapshot (n_statedb n)).1 s → (validRevisions s = [] → transactions b ≠ []) →
  import_outcome n b (roll_back (Snapshot (n_statedb n)).2 err (with_statedb s n)).
Proof.
  intros Ht Hc. pose proof (roll_back_cases (n_statedb n) s err (with_statedb s n) Ht eq_refl) as Hr. unfold import_outcome.
  destruct (roll_back _ err _) as [[n' r]|]; [|by apply Hc]. destruct Hr as (-> & s' & -> & Hv). by exists s'.
Qed.

(** C6. An import is all or nothing.  If it succeeds, the block was already the
    canonical one at its height, or it extends the head, executes to its own
    gas and state root, becomes the head and leaves the pool; if it returns an
    error, the chain, the pool and every account and slot are as before; and
    if it takes the process down, the block had transactions. *)
Theorem import_atomic b n : import_outcome n b (importCommittedBlockLocked (Some b) n).
Proof.
  assert (∀ e, import_outcome n b (Some (n, Err e))) as Hsame by (intros e; exists (n_statedb n); by destruct n).
  unfold importCommittedBlockLocked. destruct (n_blockNum n !! _) as [h|] eqn:Hb.
  { destruct (h =? Block_Hash b) eqn:Hh; [|apply Hsame]. apply Z.eqb_eq in Hh. subst h. by left. }
  destruct (Number (header b) =? _) eqn:Hnum; cbn [negb]; [|apply Hsame]. apply Z.eqb_eq in Hnum.
  destruct (ParentHash _ =? _) eqn:Hpar; cbn [negb]; [|apply Hsame]. apply Z.eqb_eq in Hpar.
  set (s0 := n_statedb n). rewrite (surjective_pairing (Snapshot s0)).
  destruct (executeBlockTxsLocked n (header b) (transactions b) (Snapshot s0).1) as [[s r]|] eqn:Hex; cbn [mbind option_bind].
  2: { intros Htx. by rewrite Htx in Hex. }
  destruct (execute_txs_trace _ _ _ _ _ _ _ _ Hex) as [Ht _].
  assert (validRevisions s = [] → transactions b ≠ []) as Hcrash.
  { intros Hv Htx. rewrite Htx in Hex. injection Hex as <- _. cbn in Hv. by apply app_nil in Hv as [_ Hv]. }
  destruct r as [[results total]|e]; [|by apply refuse_outcome].
  destruct (total =? _) eqn:Hgas; cbn [negb]; [|by apply refuse_outcome]. apply Z.eqb_eq in Hgas. subst total.
  destruct (IntermediateRoot_keeps s) as (Hrev & _ & Hview). pose proof (f_equal snd (eq_refl (IntermediateRoot s))) as Hroot.
  destruct (IntermediateRoot s) as [s1 root] eqn:Hir. cbn [fst snd] in *.
  assert (trace (Snapshot s0).1 s1) as Ht1 by (eapply trace_trans; [exact Ht|by left]). rewrite <- Hrev in Hcrash.
  destruct (root =? _) eqn:Hr; cbn [negb]; [|by apply (refuse_outcome n b s1)]. apply Z.eqb_eq in Hr.
  change (with_statedb s1 (with_statedb s n)) with (with_statedb s1 n).
  pose proof (finish_cases s0 s1 b results (with_statedb s1 n) Ht1 eq_refl) as Hf. unfold import_outcome.
  destruct (persist_or_roll_back _ b results _) as [[n' [[]|e]]|]; [right| |by apply Hcrash].
  - destruct (persist_extends n b results _ n' s1 Hf eq_refl) as (H1 & H2 & H3 & H4). split; try done.
    exists s, results. split; [exact Hex|]. split; [by rewrite Hir|exact H4].
  - destruct Hf as (s' & -> & Hv). by exists s'.
Qed.

(** A block with transactions whose header does not match its execution
    takes the importing node down: the snapshot to go back to is gone, and
    [RevertToSnapshot] panics.  Any peer's well-formed block at the next height
    gets this far. *)
Theorem import_mismatch_panics b n :
  n_blockNum n !! Number (header b) = None → Number (header b) = Number (n_header n) +₆₄ 1 →
  ParentHash (header b) = Header_Hash (n_header n) → transactions b ≠ [] →
  match executeBlockTxsLocked n (header b) (transactions b) (Snapshot (n_statedb n)).1 with
  | Some (s, Ok (_, total)) => total ≠ GasUsed (header b) ∨ (IntermediateRoot s).2 ≠ StateRoot (header b)
  | _ => False
  end → importCommittedBlockLocked (Some b) n = None.
Proof.
  intros Hb Hnum Hpar Htx Hbad. unfold importCommittedBlockLocked. rewrite Hb, Hnum, Hpar, !Z.eqb_refl. cbn [negb].
  set (s0 := n_statedb n) in *. rewrite (surjective_pairing (Snapshot s0)).
  destruct (executeBlockTxsLocked n (header b) (transactions b) (Snapshot s0).1) as [[s [[results total]|e]]|] eqn:Hex; [|done..].
  cbn [mbind option_bind]. destruct (execute_txs_trace _ _ _ _ _ _ _ _ Hex) as [_ Hv]. specialize (Hv eq_refl Htx).
  assert (∀ s1 err, validRevisions s1 = [] → roll_back (Snapshot s0).2 err (with_statedb s1 n) = None) as Hroll.
  { intros s1 err Hv1. unfold roll_back, RevertToSnapshot. cbn [n_statedb with_statedb]. by rewrite Hv1. }
  destruct (total =? _) eqn:Hgas; cbn [negb]; [|by apply Hroll]. apply Z.eqb_eq in Hgas.
  destruct Hbad as [Hbad|Hbad]; [done|]. destruct (IntermediateRoot_keeps s) as (Hrev & _).
  destruct (IntermediateRoot s) as [s1 root]. cbn [fst snd] in *. rewrite (proj2 (Z.eqb_neq _ _) Hbad). cbn [negb].
  apply Hroll. congruence.
Qed.
End Importing.

(** ** Evaluation *)
Section Witness.
Local Existing Instances spec_crypto spec_rlp rlp_accounts toy_eth rlp_dewtx idle_evm.

Definition funded_node : ChainNode := with_statedb (SetBalance 7 1000000000000000000 (New ∅)) sample_node.

(** One transfer, and a header that claims no gas was used. *)
Definition misdeclared : Block :=
  mkBlock (mkHeader (Header_Hash sample_head) 0 EmptyTxRoot EmptyReceiptRoot 8 1001 30000000 0 (Some 1000000000) [] 0) [wire_at 0 21000].

Lemma import_mismatch_panics_witness : importCommittedBlockLocked (Some misdeclared) funded_node = None.
Proof.
  apply (import_mismatch_panics misdeclared funded_node); [reflexivity|reflexivity|reflexivity|discriminate|].
  assert ((match executeBlockTxsLocked funded_node (header misdeclared) (transactions misdeclared)
    (Snapshot (n_statedb funded_node)).1 with Some (_, Ok (_, total)) => total | _ => -1 end) = 21000) as H
    by (vm_compute; reflexivity).
  destruct (executeBlockTxsLocked funded_node _ _ _) as [[s [[rs total]|e]]|]; [left|discriminate H..].
  rewrite H. discriminate.
Defined.
End Witness.
