(* ===== verification/ChainOpen.v ===== *)
(** * Opening a node and reading the chain back

    Models [config/genesis.go] (the allocation and the genesis block),
    [node/open.go] (a fresh store, a restart, and the loading of history on
    demand) and the genesis half of [node/persist.go].

    The genesis file is taken as parsed: its addresses, numbers and byte
    strings are values here.  The order in which Go ranges over the allocation
    is the order of the list. *)
From S2P Require Import Prelude Types Toy DewTx Mempool Rlp EvmTx Smt StateDB StateRevert.
From S2P Require Import StateCommit NativeState Staking NativeExec Vm ChainStore Select Chain.

(** ** Genesis *)
Record GenesisAccount : Type := mkGenesisAccount {
  ga_Balance : Z;
  ga_Code : option (list Z);
  ga_Storage : list (Hash * Hash);
  ga_Nonce : Z;
}.

Record Genesis : Type := mkGenesis {
  g_ChainID : option Z;
  g_Consensus : option ConsensusConfig;
  g_Timestamp : Z;
  g_ExtraData : list Z;
  g_GasLimit : option Z;
  g_BaseFeePerGas : option Z;
  g_Alloc : list (Address * GenesisAccount);
}.

Definition Genesis_ChainID (g : Genesis) : Z := default 0 (g_ChainID g).

Definition chainIDEqual (a b : option Z) : bool := bool_decide (a = b).

Definition with_min_gas_price (f : Z) (c : Config) : Config :=
  mkConfig (MaxGlobal c) (MaxPerSender c) (MaxTxBytes c) (Some f) (MinTipWei c) (MinDewFeeWei c) (PriceBumpPercent c).

Section Open.
Context `{C : Crypto} `{D : AccountCodec} `{R : RlpCodec} `{E : EthCodec} `{K : DewTxCodec}.

(** One turn of [ApplyAlloc]: [None] is the panic of [MustFromBig]. *)
Definition alloc_account (s : StateDB) (e : Address * GenesisAccount) : option (StateDB * res unit) :=
  let '(addr, acc) := e in
  if ga_Balance acc <? 0 then Some (s, Err "config: alloc: negative balance") else
  bal ← MustFromBig (ga_Balance acc);
  let s := SetBalance addr bal s in
  let s := if ga_Nonce acc =? 0 then s else SetNonce addr (ga_Nonce acc) s in
  let s := match ga_Code acc with Some c => SetCode addr c s | None => s end in
  Some (foldl (λ s kv, SetState addr kv.1 kv.2 s) s (ga_Storage acc), Ok tt).

Fixpoint ApplyAlloc (alloc : list (Address * GenesisAccount)) (s : StateDB) : option (StateDB * res unit) :=
  match alloc with
  | [] => Some (s, Ok tt)
  | e :: alloc =>
      '(s, r) ← alloc_account s e;
      match r with Err err => Some (s, Err err) | Ok _ => ApplyAlloc alloc s end
  end.

Definition Genesis_Header (g : Genesis) (stateRoot : Hash) : Header :=
  mkHeader 0 stateRoot EmptyTxRoot EmptyReceiptRoot 0 (g_Timestamp g) (u64 (default 120000000 (g_GasLimit g))) 0
    (Some (default 1000000000 (g_BaseFeePerGas g))) (g_ExtraData g) 0.

Definition NewGenesisBlock (h : Header) : Block :=
  mkBlock (mkHeader 0 (StateRoot h) EmptyTxRoot EmptyReceiptRoot 0 (Timestamp h) (GasLimit h) 0 (Some (default 0 (BaseFee h)))
    (ExtraData h) (Proposer h)) [].

Definition WithStateRoot (root : Hash) (b : Block) : Block :=
  let h := header b in
  mkBlock (mkHeader (ParentHash h) root (TxRoot h) (ReceiptRoot h) (Number h) (Timestamp h) (GasLimit h) (GasUsed h)
    (BaseFee h) (ExtraData h) (Proposer h)) (transactions b).

Definition Genesis_Commit (g : Genesis) (d : Database) : option (res (Block * StateDB)) :=
  '(s, r) ← ApplyAlloc (g_Alloc g) (New d);
  Some (let? _ := r in
        let '(s, root) := Commit s in
        Ok (WithStateRoot root (NewGenesisBlock (Genesis_Header g root)), s)).

Definition genesisBlockHash (g : Genesis) : option (res Hash) :=
  r ← Genesis_Commit g ∅; Some (let? p := r in Ok (Block_Hash p.1)).

(** ** Construction *)
Definition newEmptyNode (g : Genesis) (s : StateDB) : ChainNode :=
  let gasPrice := 1000000000 in
  let p := NewPool DefaultConfig in
  let p := match MinGasPriceWei (cfg p) with
           | Some f => if f <? gasPrice then NewPool (with_min_gas_price gasPrice DefaultConfig) else p
           | None => p
           end in
  mkChainNode (g_Consensus g) (Genesis_ChainID g) s (mkHeader 0 0 0 0 0 0 0 0 (Some 1000000000) [] 0) ∅ ∅ ∅ ∅ [] gasPrice
    1000000000 true true false false p true [].

(** ** Caches *)
Definition with_header (h : Header) (baseFee : Z) (n : ChainNode) : ChainNode :=
  mkChainNode (n_consensus n) (n_chainID n) (n_statedb n) h (n_blocks n) (n_blockNum n) (n_txIndex n) (n_receipts n)
    (n_allLogs n) (n_gasPrice n) baseFee (n_enableNative n) (n_enablePrecompiles n) (n_enableStaking n)
    (n_enableNativeSwap n) (n_pool n) (n_autoMine n) (n_events n).

Definition with_blocks (bs : gmap Hash Block) (nums : gmap Z Hash) (n : ChainNode) : ChainNode :=
  mkChainNode (n_consensus n) (n_chainID n) (n_statedb n) (n_header n) bs nums (n_txIndex n) (n_receipts n)
    (n_allLogs n) (n_gasPrice n) (n_baseFee n) (n_enableNative n) (n_enablePrecompiles n) (n_enableStaking n)
    (n_enableNativeSwap n) (n_pool n) (n_autoMine n) (n_events n).

Definition with_indexes (txs : gmap Hash TxLookup) (rs : gmap Hash Receipt) (n : ChainNode) : ChainNode :=
  mkChainNode (n_consensus n) (n_chainID n) (n_statedb n) (n_header n) (n_blocks n) (n_blockNum n) txs rs
    (n_allLogs n) (n_gasPrice n) (n_baseFee n) (n_enableNative n) (n_enablePrecompiles n) (n_enableStaking n)
    (n_enableNativeSwap n) (n_pool n) (n_autoMine n) (n_events n).

Definition n_db (n : ChainNode) : Database := db (n_statedb n).

(** ** Loading on demand *)
Definition readBlockFromDB (d : Database) (hash : Hash) : res Block :=
  let? hb := get d (headerKey hash) in
  let? hdr := decodeHeader hb in
  let? bb := get d (bodyKey hash) in
  let? txs := decodeBody bb in
  let block := NewBlock hdr txs in
  if negb (Block_Hash block =? hash) then Err "block hash mismatch" else Ok block.

Definition loadBlockByHashLocked (hash : Hash) (n : ChainNode) : ChainNode * option Block :=
  match n_blocks n !! hash with
  | Some b => (n, Some b)
  | None =>
      match readBlockFromDB (n_db n) hash with
      | Err _ => (n, None)
      | Ok b =>
          let num := Number (header b) in
          let keep := match n_blockNum n !! num with Some existing => existing =? hash | None => true end in
          (with_blocks (<[hash := b]> (n_blocks n)) (if keep then <[num := hash]> (n_blockNum n) else n_blockNum n) n, Some b)
      end
  end.

Definition loadBlockByNumberLocked (num : Z) (n : ChainNode) : ChainNode * option Block :=
  match (h ← n_blockNum n !! num; n_blocks n !! h) with
  | Some b => (n, Some b)
  | None =>
      match n_db n !! canonicalKey num with
      | None => (n, None)
      | Some blob =>
          let hash := BytesToHash blob in
          loadBlockByHashLocked hash (with_blocks (n_blocks n) (<[num := hash]> (n_blockNum n)) n)
      end
  end.

Definition loadTxLookupLocked (hash : Hash) (n : ChainNode) : ChainNode * option TxLookup :=
  match n_txIndex n !! hash with
  | Some l => (n, Some l)
  | None =>
      match (let? blob := get (n_db n) (txLookupKey hash) in decodeTxLookup blob hash) with
      | Err _ => (n, None)
      | Ok l => (with_indexes (<[hash := l]> (n_txIndex n)) (n_receipts n) n, Some l)
      end
  end.

Definition loadReceiptLocked (hash : Hash) (n : ChainNode) : ChainNode * option Receipt :=
  match n_receipts n !! hash with
  | Some r => (n, Some r)
  | None =>
      match (let? blob := get (n_db n) (receiptKey hash) in decodeReceipt blob) with
      | Err _ => (n, None)
      | Ok r => (with_indexes (n_txIndex n) (<[hash := r]> (n_receipts n)) n, Some r)
      end
  end.

(** ** Restart *)
Definition hydrateLocked (tipNum : Z) (tipHash : Hash) (n : ChainNode) : res ChainNode :=
  let? tip := readBlockFromDB (n_db n) tipHash in
  if negb (Number (header tip) =? tipNum) then Err "node: tip height mismatch" else
  let n := with_blocks (<[tipHash := tip]> (n_blocks n)) (<[tipNum := tipHash]> (n_blockNum n)) n in
  Ok (with_header (header tip) (default (n_baseFee n) (BaseFee (header tip))) n).

Definition persistGenesisLocked (block : Block) (n : ChainNode) : ChainNode :=
  let bh := Block_Hash block in
  let w := putMeta (n_db n) (n_chainID n) bh in
  let w := put w (headerKey bh) (encodeHeader (header block)) in
  let w := put w (bodyKey bh) (encodeBody []) in
  let w := put w (canonicalKey 0) (hash_bytes bh) in
  let w := put w metaTipKey (encodeTip 0 bh) in
  let w := putLogIndexVersion w logIndexSchemaVersion in
  with_statedb (set_db w (n_statedb n)) n.

Definition newNodeFromGenesisDB (g : Genesis) (d : Database) : option (res ChainNode) :=
  r ← Genesis_Commit g d;
  Some (let? p := r in
        let '(block, s) := p in
        let n := newEmptyNode g s in
        let n := with_header (header block) (n_baseFee n) n in
        let n := with_blocks {[Block_Hash block := block]} {[0 := Block_Hash block]} n in
        Ok (persistGenesisLocked block n)).

(** ** The log index *)

(** The entries under a prefix, in key order. *)
Definition entry_le (x y : list Z * list Z) : Prop := bytesCompare x.1 y.1 <= 0.
#[local] Instance entry_le_dec : RelDecision entry_le.
Proof. intros x y. apply Z_le_dec. Defined.

Definition IteratePrefix (d : Database) (prefix : list Z) : list (list Z * list Z) :=
  merge_sort entry_le (map_to_list (filter (λ kv, take (length prefix) kv.1 = prefix) d)).

Definition hasLogIndexVersion (d : Database) : bool :=
  match readLogIndexVersion d with Ok (Some ver) => ver =? logIndexSchemaVersion | _ => false end.

(** What the rebuild writes for one stored receipt. *)
Definition index_receipt (w : Database) (kv : list Z * list Z) : Database :=
  if negb (length kv.1 =? 33)%nat then w else
  let txHash := BytesToHash (drop 1 kv.1) in
  match decodeReceipt kv.2 with
  | Err _ => w
  | Ok r => foldl (write_log (rc_BlockNumber r) (rc_TransactionIndex r) txHash (rc_BlockHash r)) w (indexed (rc_Logs r))
  end.

Definition rebuildLogIndex (d : Database) : Database :=
  putLogIndexVersion (foldl index_receipt d (IteratePrefix d [prefixReceipt])) logIndexSchemaVersion.

Definition ensureLogIndex (n : ChainNode) : res ChainNode :=
  let? ver := readLogIndexVersion (n_db n) in
  if bool_decide (ver = Some logIndexSchemaVersion) then Ok n
  else Ok (with_statedb (set_db (rebuildLogIndex (n_db n)) (n_statedb n)) n).

(** [openWithDatabase]: a store without metadata is initialised. *)
Definition openWithDatabase (g : Genesis) (d : Database) : option (res ChainNode) :=
  match readMetaVersion d with
  | Err e => Some (Err e)
  | Ok None => newNodeFromGenesisDB g d
  | Ok (Some ver) =>
      if negb (ver =? chainSchemaVersion) then Some (Err "node: unsupported chaindata schema version") else
      gh ← genesisBlockHash g;
      Some (
        let? expected := gh in
        let? stored := readMetaGenesisHash d in
        if negb (stored =? expected) then Err "node: genesis hash mismatch" else
        let? cid := readMetaChainID d in
        if negb (chainIDEqual (Some cid) (Some (Genesis_ChainID g))) then Err "node: chain id mismatch" else
        let? tip := readTip d in
        let? n := hydrateLocked tip.1 tip.2 (newEmptyNode g (New d)) in
        ensureLogIndex n)
  end.

(** ** Log queries *)
Definition topic_matches (logTopics : list Hash) (i : nat) (alts : list Hash) : bool :=
  match alts with
  | [] => true
  | _ => match logTopics !! i with Some t => bool_decide (t ∈ alts) | None => false end
  end.

Definition matchTopics (logTopics : list Hash) (topics : list (list Hash)) : bool :=
  forallb id (imap (topic_matches logTopics) topics).

Definition logMatchesFilter (il : IndexedLog) (fromBlock toBlock : Z) (addrs : gset Address) (topics : list (list Hash)) : bool :=
  negb (il_BlockNumber il <? fromBlock) && negb (toBlock <? il_BlockNumber il)
  && (bool_decide (addrs = ∅) || bool_decide (log_Address (il_Log il) ∈ addrs))
  && matchTopics (log_Topics (il_Log il)) topics.

(** The closure [add] of [FilterLogs]: the result and the seen keys. *)
Definition add_log (fromBlock toBlock : Z) (addrs : gset Address) (topics : list (list Hash))
    (st : list IndexedLog * gset (Hash * Z)) (il : IndexedLog) : list IndexedLog * gset (Hash * Z) :=
  if negb (logMatchesFilter il fromBlock toBlock addrs topics) then st else
  let k := (il_TxHash il, il_Index il) in
  if bool_decide (k ∈ st.2) then st else (st.1 ++ [il], {[k]} ∪ st.2).

(** The index entries of one block, in key order. *)
Definition index_entry (kv : list Z * list Z) : list IndexedLog :=
  match parseLogIndexKey kv.1, decodeLogIndex kv.2 with
  | Some (num, txIndex, logIdx), Ok (lg, txHash, bh) => [mkIndexedLog lg num bh txHash txIndex logIdx]
  | _, _ => []
  end.

Definition index_of_block (d : Database) (b : Z) : list IndexedLog :=
  concat (map index_entry (IteratePrefix d (logIndexBlockPrefix b))).

(** The loop over the blocks; its counter wraps at 64 bits. *)
Fixpoint filterLogsFromIndexLocked {A} (add : A → IndexedLog → A) (fuel : nat) (d : Database) (b toBlock : Z) (st : A)
    : option A :=
  if toBlock <? b then Some st else
  match fuel with
  | O => None
  | S fuel => filterLogsFromIndexLocked add fuel d (b +₆₄ 1) toBlock (foldl add st (index_of_block d b))
  end.

(** The logs of a stored receipt, when its block is in range. *)
Definition stored_receipt (fromBlock toBlock : Z) (kv : list Z * list Z) : option (Hash * Receipt) :=
  if negb (length kv.1 =? 33)%nat then None else
  match decodeReceipt kv.2 with
  | Err _ => None
  | Ok r =>
      if (rc_BlockNumber r <? fromBlock) || (toBlock <? rc_BlockNumber r) then None
      else Some (BytesToHash (drop 1 kv.1), r)
  end.

Definition receipt_logs (x : Hash * Receipt) : list IndexedLog :=
  map (λ jl : Z * Log, mkIndexedLog jl.2 (rc_BlockNumber x.2) (rc_BlockHash x.2) x.1 (rc_TransactionIndex x.2) jl.1)
    (indexed (rc_Logs x.2)).

(** A store without the index is scanned receipt by receipt. *)
Definition FilterLogs (fuel : nat) (fromBlock toBlock : Z) (addresses : list Address) (topics : list (list Hash))
    (n : ChainNode) : option (ChainNode * list IndexedLog) :=
  let add := add_log fromBlock toBlock (list_to_set addresses) topics in
  let st := foldl add ([], ∅) (n_allLogs n) in
  if hasLogIndexVersion (n_db n) then
    st ← filterLogsFromIndexLocked add fuel (n_db n) fromBlock toBlock st; Some (n, st.1)
  else
    let rs := omap (stored_receipt fromBlock toBlock) (IteratePrefix (n_db n) [prefixReceipt]) in
    Some (with_indexes (n_txIndex n) (foldl (λ m x, <[x.1 := x.2]> m) (n_receipts n) rs) n,
          (foldl add st (concat (map receipt_logs rs))).1).
End Open.
