(* ===== verification/ChainDurable.v ===== *)
(** * A block survives a restart

    What [persistBlockLocked] writes, [openWithDatabase] and the on-demand
    loaders read back: the head, the block, its receipts and lookups, and the
    state it was executed to. *)
From S2P Require Import Prelude Types Toy DewTx Mempool Rlp EvmTx Smt StateDB StateRevert.
From S2P Require Import StateCommit NativeState Staking NativeExec Vm ChainStore Select Chain.
From S2P Require Import ChainOpen.

(** Keys are told apart by their first byte. *)
Definition tag (k : list Z) : Z := default (-1) (head k).

Lemma put_other w k v k' : k ≠ k' → put w k v !! k' = w !! k'.
Proof. apply lookup_insert_ne. Qed.

Lemma put_same w k v : put w k v !! k = Some v.
Proof. apply lookup_insert_eq. Qed.

Lemma tag_ne k k' : tag k ≠ tag k' → k ≠ k'.
Proof. congruence. Qed.

(** Reads past writes under other keys. *)
Ltac skip_puts :=
  repeat (rewrite put_other by first [apply tag_ne; discriminate | apply tag_ne; assumption
                                     | apply tag_ne; intros ?; congruence | discriminate | congruence | naive_solver]).

Section Writes.
Context `{C : Crypto} {CL : CryptoLaws C} `{D : AccountCodec} `{R : RlpCodec} `{E : EthCodec} `{K : DewTxCodec}.

Lemma write_logs_other num i th bh w l k : tag k ≠ prefixLogIndex → foldl (write_log num i th bh) w l !! k = w !! k.
Proof. intros Hk. apply foldl_frame. intros w' jl _. unfold write_log. apply put_other, tag_ne. exact (not_eq_sym Hk). Qed.

Definition not_of (k : list Z) (x : ExecResult) : Prop := receiptKey (xr_txHash x) ≠ k ∧ txLookupKey (xr_txHash x) ≠ k.

Lemma write_result_other hdr bh w w' ix k : write_result hdr bh w ix = Ok w' → tag k ≠ prefixLogIndex → not_of k ix.2 →
  w' !! k = w !! k.
Proof.
  destruct ix as [i x]. unfold write_result. destruct (encodeTxLookup _); cbn [rbind]; [|done]. intros [= <-] Ht [H1 H2].
  cbn [snd] in *. by rewrite put_other, write_logs_other, put_other.
Qed.

Lemma write_results_other hdr bh w w' xs k : write_results hdr bh w xs = Ok w' → tag k ≠ prefixLogIndex →
  (∀ ix, ix ∈ xs → not_of k ix.2) → w' !! k = w !! k.
Proof.
  intros Hw Ht. revert w Hw. induction xs as [|ix xs IH]; intros w Hw Hn; cbn [write_results] in Hw; [by injection Hw as ->|].
  destruct (write_result hdr bh w ix) as [w1|] eqn:H1; cbn [rbind] in Hw; [|done].
  rewrite (IH w1 Hw) by (intros y Hy; apply Hn; by right). eapply write_result_other; [done|done|apply Hn; by left].
Qed.

Lemma write_results_ok hdr bh w xs : (∀ ix, ix ∈ xs → is_ok (encodeTxLookup (lookup_of hdr bh ix.1 ix.2)) = true) →
  ∃ w', write_results hdr bh w xs = Ok w'.
Proof.
  revert w. induction xs as [|[i x] xs IH]; intros w Hok; cbn [write_results]; [by eexists|]. unfold write_result.
  specialize (Hok (i, x) ltac:(by left)) as H0. cbn [fst snd] in H0.
  destruct (encodeTxLookup (lookup_of hdr bh i x)) as [tb|]; [|done]. cbn [rbind]. apply IH. intros y Hy. apply Hok. by right.
Qed.

(** Transactions of a block have different hashes. *)
Record results_ok (block : Block) (results : list ExecResult) : Prop := {
  rs_distinct : NoDup (map xr_txHash results);
  rs_hash : ∀ x, x ∈ results → is_hash (xr_txHash x);
  rs_receipt : ∀ i x, results !! i = Some x → receipt_ok (xr_receipt (stamp (Block_Hash block) (Z.of_nat i) x));
  rs_lookup : ∀ i x, results !! i = Some x → lookup_ok (lookup_of (header block) (Block_Hash block) (Z.of_nat i) x);
}.

Lemma receiptKey_inj h h' : is_hash h → is_hash h' → receiptKey h = receiptKey h' → h = h'.
Proof. intros H1 H2 H. apply (be_bytes_inj 32); [done|done|]. exact (f_equal (@tail Z) H). Qed.

Lemma txLookupKey_inj h h' : is_hash h → is_hash h' → txLookupKey h = txLookupKey h' → h = h'.
Proof. intros H1 H2 H. apply (be_bytes_inj 32); [done|done|]. exact (f_equal (@tail Z) H). Qed.

Lemma not_of_receipt h x : is_hash h → is_hash (xr_txHash x) → xr_txHash x ≠ h → not_of (receiptKey h) x.
Proof. intros H1 H2 Hne. split; [|by apply tag_ne]. intros Heq. by apply Hne, receiptKey_inj. Qed.

Lemma not_of_lookup h x : is_hash h → is_hash (xr_txHash x) → xr_txHash x ≠ h → not_of (txLookupKey h) x.
Proof. intros H1 H2 Hne. split; [by apply tag_ne|]. intros Heq. by apply Hne, txLookupKey_inj. Qed.

(** Every result is readable under its hash. *)
Lemma write_results_at hdr bh w w' xs : write_results hdr bh w xs = Ok w' →
  NoDup (map (λ ix, xr_txHash ix.2) xs) → (∀ ix, ix ∈ xs → is_hash (xr_txHash ix.2)) →
  ∀ i x, (i, x) ∈ xs → w' !! receiptKey (xr_txHash x) = Some (encodeReceipt (xr_receipt x))
    ∧ ∃ tb, encodeTxLookup (lookup_of hdr bh i x) = Ok tb ∧ w' !! txLookupKey (xr_txHash x) = Some tb.
Proof.
  revert w. induction xs as [|[j y] xs IH]; intros w Hw Hnd Hh i x Hin; [by apply elem_of_nil in Hin|].
  cbn [write_results map] in *. apply NoDup_cons in Hnd as [Hni Hnd].
  destruct (write_result hdr bh w (j, y)) as [w1|] eqn:H1; cbn [rbind] in Hw; [|done].
  assert (∀ ix, ix ∈ xs → is_hash (xr_txHash ix.2)) as Hh' by (intros; apply Hh; by right).
  apply elem_of_cons in Hin as [[= -> ->]|Hin]; [|by apply (IH w1)].
  assert (is_hash (xr_txHash y)) as Hy by (apply (Hh (j, y)); by left).
  assert (∀ ix, ix ∈ xs → xr_txHash ix.2 ≠ xr_txHash y) as Hne.
  { intros ix Hix Heq. apply Hni, list_elem_of_fmap. by exists ix. }
  unfold write_result in H1. destruct (encodeTxLookup (lookup_of hdr bh j y)) as [tb|]; cbn [rbind] in H1; [|done].
  injection H1 as <-. split; [|exists tb; split; [done|]].
  - rewrite (write_results_other _ _ _ _ _ _ Hw) by (done || intros ix Hix; apply not_of_receipt; auto).
    rewrite put_other by by apply tag_ne. rewrite write_logs_other by done. apply put_same.
  - rewrite (write_results_other _ _ _ _ _ _ Hw) by (done || intros ix Hix; apply not_of_lookup; auto). apply put_same.
Qed.
End Writes.

Section Restart.
Context `{C : Crypto} {CL : CryptoLaws C} `{D : AccountCodec} {DL : AccountCodecLaws C D} `{R : RlpCodec} {RL : RlpLaws C R}
  `{E : EthCodec} {EL : EthCodecLaws E} `{K : DewTxCodec} {KL : DewTxCodecLaws C K}.

Definition stamped (block : Block) (results : list ExecResult) : list ExecResult :=
  imap (λ i x, stamp (Block_Hash block) (Z.of_nat i) x) results.

Lemma elem_of_indexed {A} (l : list A) i x : (i, x) ∈ indexed l ↔ ∃ k, i = Z.of_nat k ∧ l !! k = Some x.
Proof.
  unfold indexed. rewrite list_elem_of_lookup. split.
  - intros [k Hk]. rewrite list_lookup_imap in Hk. destruct (l !! k) as [y|] eqn:Hy; [|done].
    cbn in Hk. injection Hk as <- <-. by exists k.
  - intros (k & -> & Hk). exists k. by rewrite list_lookup_imap, Hk.
Qed.

Lemma indexed_stamped block results i x : (i, x) ∈ indexed (stamped block results) →
  ∃ k y, i = Z.of_nat k ∧ results !! k = Some y ∧ x = stamp (Block_Hash block) i y.
Proof.
  intros (k & -> & Hk)%elem_of_indexed. unfold stamped in Hk. rewrite list_lookup_imap in Hk.
  destruct (results !! k) as [y|] eqn:Hy; [|done]. cbn in Hk. injection Hk as <-. by exists k, y.
Qed.

Lemma stamped_hashes block results : map (λ ix, xr_txHash ix.2) (indexed (stamped block results)) = map xr_txHash results.
Proof.
  apply list_eq. intros k. rewrite !list_lookup_fmap. unfold indexed, stamped. rewrite !list_lookup_imap.
  by destruct (results !! k).
Qed.

(** What a reader finds after the write. *)
Record chain_written (w0 w : Database) (block : Block) (results : list ExecResult) : Prop := {
  cw_header : w !! headerKey (Block_Hash block) = Some (encodeHeader (header block));
  cw_body : w !! bodyKey (Block_Hash block) = Some (encodeBody (transactions block));
  cw_canonical : w !! canonicalKey (Number (header block)) = Some (hash_bytes (Block_Hash block));
  cw_tip : w !! metaTipKey = Some (encodeTip (Number (header block)) (Block_Hash block));
  cw_version : w !! metaLogIndexVersionKey = Some (be_bytes 4 logIndexSchemaVersion);
  cw_other : ∀ k, tag k ∈ [prefixAccount; prefixStorage; prefixCode] ∨ k ∈ [metaVersionKey; metaChainIDKey; metaGenesisHashKey] →
    w !! k = w0 !! k;
  cw_results : ∀ i x, results !! i = Some x →
    w !! receiptKey (xr_txHash x) = Some (encodeReceipt (xr_receipt (stamp (Block_Hash block) (Z.of_nat i) x)))
    ∧ ∃ tb, encodeTxLookup (lookup_of (header block) (Block_Hash block) (Z.of_nat i) x) = Ok tb
        ∧ w !! txLookupKey (xr_txHash x) = Some tb;
}.

Lemma not_of_tag k x : tag k ≠ prefixReceipt → tag k ≠ prefixTxLookup → not_of k x.
Proof. intros H1 H2. split; apply tag_ne; by apply not_eq_sym. Qed.

Lemma writeChainKeys_written w0 block results : results_ok block results →
  ∃ w, writeChainKeys w0 block (stamped block results) = Ok w ∧ chain_written w0 w block results.
Proof using RL EL KL.
  intros Hrs. unfold writeChainKeys. set (bh := Block_Hash block). set (hdr := header block).
  set (w1 := put (put (put w0 _ _) _ _) _ _).
  destruct (write_results_ok hdr bh w1 (indexed (stamped block results))) as [w2 H2].
  { intros [i x] (k & y & -> & Hk & ->)%indexed_stamped. cbn [fst snd].
    destruct (lookup_roundtrip _ (rs_lookup _ _ Hrs k y Hk)) as (tb & Htb & _).
    change (lookup_of hdr bh (Z.of_nat k) (stamp (Block_Hash block) (Z.of_nat k) y)) with (lookup_of (header block) (Block_Hash block) (Z.of_nat k) y).
    by rewrite Htb. }
  rewrite H2. cbn [rbind]. eexists. split; [reflexivity|].
  assert (∀ k, tag k ≠ prefixLogIndex → tag k ≠ prefixReceipt → tag k ≠ prefixTxLookup → w2 !! k = w1 !! k) as Hskip.
  { intros k Hl Hr Ht. eapply write_results_other; [exact H2|done|]. intros ix _. by apply not_of_tag. }
  unfold putLogIndexVersion. split.
  - rewrite !put_other by by apply tag_ne. rewrite Hskip by done. unfold w1. rewrite !put_other by by apply tag_ne. apply put_same.
  - rewrite !put_other by by apply tag_ne. rewrite Hskip by done. unfold w1. rewrite put_other by by apply tag_ne. apply put_same.
  - rewrite !put_other by by apply tag_ne. rewrite Hskip by done. apply put_same.
  - rewrite put_other by done. apply put_same.
  - apply put_same.
  - assert (∀ k, tag k ∈ [prefixAccount; prefixStorage; prefixCode; 109] → w2 !! k = w0 !! k) as H0.
    { intros k Hk. assert (tag k ≠ prefixHeader ∧ tag k ≠ prefixBody ∧ tag k ≠ prefixCanonical ∧ tag k ≠ prefixLogIndex
        ∧ tag k ≠ prefixReceipt ∧ tag k ≠ prefixTxLookup) as (? & ? & ? & ? & ? & ?).
      { rewrite !elem_of_cons, elem_of_nil in Hk. destruct Hk as [Hk|[Hk|[Hk|[Hk|[]]]]]; rewrite Hk; split_and!; discriminate. }
      rewrite Hskip by done. unfold w1. rewrite !put_other by (apply tag_ne; by apply not_eq_sym). done. }
    intros k Hk. assert (metaTipKey ≠ k ∧ metaLogIndexVersionKey ≠ k ∧ tag k ∈ [prefixAccount; prefixStorage; prefixCode; 109])
      as (Hn1 & Hn2 & Ht).
    { destruct Hk as [Hk|Hk]; rewrite !elem_of_cons, elem_of_nil in Hk.
      - rewrite !elem_of_cons. split_and!; [apply tag_ne|apply tag_ne|tauto];
          destruct Hk as [Hk|[Hk|[Hk|[]]]]; rewrite Hk; discriminate.
      - destruct Hk as [->|[->|[->|[]]]]; (split_and!; [discriminate|discriminate|]); rewrite !elem_of_cons; by right; right; right; left. }
    rewrite !put_other by done. by apply H0.
  - intros i x Hx. destruct (write_results_at hdr bh w1 w2 (indexed (stamped block results)) H2) with (i := Z.of_nat i)
      (x := stamp bh (Z.of_nat i) x) as (Hr & tb & Htb & Ht).
    + rewrite stamped_hashes. apply Hrs.
    + intros ix Hix. destruct ix as [j y]. apply indexed_stamped in Hix as (k & z & -> & Hk & ->).
      apply (rs_hash _ _ Hrs z). by eapply list_elem_of_lookup_2.
    + apply elem_of_indexed. exists i. split; [done|]. unfold stamped. by rewrite list_lookup_imap, Hx.
    + cbn [xr_txHash stamp] in Hr, Ht. split; [|exists tb; split; [exact Htb|]]; (rewrite !put_other by (by apply tag_ne)); done.
Qed.

Lemma flush_other s w k : tag k ∉ [prefixAccount; prefixStorage; prefixCode] → FlushDirtyTo s w !! k = w !! k.
Proof.
  rewrite !elem_of_cons. intros Hk.
  assert (∀ j, tag j ∈ [prefixAccount; prefixStorage; prefixCode] → j ≠ k) as Hne.
  { intros j Hj ->. rewrite !elem_of_cons in Hj. tauto. }
  unfold FlushDirtyTo. rewrite !foldl_frame; [done|..].
  - intros w' a _. unfold flush_account. assert (accountKey a ≠ k) by (apply Hne; left).
    repeat case_match; rewrite ?lookup_delete_ne, ?lookup_insert_ne by done; try done.
    rewrite lookup_insert_ne by (apply Hne; right; right; left). by rewrite lookup_insert_ne.
  - intros w' id _. unfold flush_slot. assert (storageKey id.1 id.2 ≠ k) by (apply Hne; right; left).
    case_match; [by rewrite lookup_delete_ne|by rewrite lookup_insert_ne].
Qed.

(** What a state opened on a store shows depends on the state's keys only. *)
Lemma New_view w w' : (∀ k, tag k ∈ [prefixAccount; prefixStorage; prefixCode] → w !! k = w' !! k) →
  (∀ a, account_of (New w) a = account_of (New w') a) ∧ (∀ a k, storage_of (New w) a k = storage_of (New w') a k).
Proof.
  intros H. split.
  - intros a. unfold account_of, raw_account, stored_account. cbn [accounts suicides db New]. rewrite H by left. done.
  - intros a k. unfold storage_of. cbn [storage db New]. rewrite H by (right; left). done.
Qed.

Lemma readBlock_written w0 w block results : block_ok block → chain_written w0 w block results →
  readBlockFromDB w (Block_Hash block) = Ok block.
Proof using RL.
  intros [Hh [Ht Hr] Htx] Hw. unfold readBlockFromDB, get. rewrite (cw_header _ _ _ _ Hw). cbn [rbind].
  rewrite header_roundtrip by done. cbn [rbind]. rewrite (cw_body _ _ _ _ Hw). cbn [rbind].
  rewrite body_roundtrip by done. cbn [rbind]. rewrite NewBlock_id by done.
  assert (mkBlock (header block) (transactions block) = block) as -> by (by destruct block).
  by rewrite Z.eqb_refl.
Qed.

(** The store of a node of this genesis, and a state ready to be written. *)
Record restartable (g : Genesis) (s : StateDB) : Prop := {
  ra_version : readMetaVersion (db s) = Ok (Some chainSchemaVersion);
  ra_genesis : ∃ gh, readMetaGenesisHash (db s) = Ok gh ∧ genesisBlockHash g = Some (Ok gh);
  ra_chain : readMetaChainID (db s) = Ok (Genesis_ChainID g);
  ra_coherent : coherent s;
  ra_range : in_range s;
  ra_suicides : suicides s = ∅;
}.

(** Reopening the written store. *)
Lemma open_written g s w block results : restartable g s → block_ok block →
  chain_written (FlushDirtyTo s (db s)) w block results →
  openWithDatabase g w = Some (Ok (with_header (header block) (default 1000000000 (BaseFee (header block)))
    (with_blocks {[Block_Hash block := block]} {[Number (header block) := Block_Hash block]} (newEmptyNode g (New w))))).
Proof using RL CL.
  intros [Hv (gh & Hg1 & Hg2) Hc _ _ _] Hb Hw.
  assert (∀ k, k ∈ [metaVersionKey; metaChainIDKey; metaGenesisHashKey] → w !! k = db s !! k) as Hmeta.
  { intros k Hk. rewrite (cw_other _ _ _ _ Hw k (or_intror Hk)). apply flush_other.
    rewrite !elem_of_cons, elem_of_nil in Hk. rewrite !elem_of_cons, elem_of_nil.
    destruct Hk as [->|[->|[->|[]]]]; intros [H|[H|[H|[]]]]; discriminate. }
  unfold openWithDatabase. unfold readMetaVersion in *. rewrite Hmeta, Hv by left. rewrite Z.eqb_refl. cbn [negb].
  rewrite Hg2. cbn [mbind option_bind rbind]. unfold readMetaGenesisHash, get in *.
  rewrite Hmeta by (right; right; left). rewrite Hg1. cbn [rbind]. rewrite Z.eqb_refl. cbn [negb].
  unfold readMetaChainID, get in *. rewrite Hmeta by (right; left). rewrite Hc. cbn [rbind].
  unfold chainIDEqual. rewrite bool_decide_true by done. cbn [negb].
  unfold readTip, get. rewrite (cw_tip _ _ _ _ Hw). cbn [rbind].
  rewrite tip_roundtrip by (apply (hok_nums _ (bok_header _ Hb)) || apply Keccak256Hash_is_hash). cbn [rbind fst snd].
  unfold hydrateLocked. change (n_db (newEmptyNode g (New w))) with w. rewrite (readBlock_written _ _ _ _ Hb Hw). cbn [rbind].
  rewrite Z.eqb_refl. cbn [negb rbind]. unfold ensureLogIndex, readLogIndexVersion.
  change (n_db (with_header _ _ _)) with w. rewrite (cw_version _ _ _ _ Hw).
  change (read_version _ (Some (be_bytes 4 logIndexSchemaVersion))) with (Ok (Some 1)). cbn [rbind].
  rewrite bool_decide_true by done. do 3 f_equal.
Qed.

(** C5. A sealed block survives a restart.  The write of [persistBlockLocked]
    succeeds, and opening the store it leaves behind gives a node whose head
    is the block, whose accounts and storage are those the block was executed
    to, and which serves the block, every receipt and every transaction
    lookup. *)
Theorem persist_survives_restart g n block results :
  restartable g (n_statedb n) → block_ok block → results_ok block results →
  ∃ n' m, persistBlockLocked block results n = (n', Ok tt) ∧ openWithDatabase g (n_db n') = Some (Ok m)
    ∧ n_header m = header block
    ∧ (∀ a, is_addr a → account_of (n_statedb m) a = account_of (n_statedb n) a)
    ∧ (∀ a k, is_addr a → is_hash k → storage_of (n_statedb m) a k = storage_of (n_statedb n) a k)
    ∧ (loadBlockByNumberLocked (Number (header block)) m).2 = Some block
    ∧ ∀ i x, results !! i = Some x →
        (loadReceiptLocked (xr_txHash x) m).2 = Some (xr_receipt (stamp (Block_Hash block) (Z.of_nat i) x))
        ∧ (loadTxLookupLocked (xr_txHash x) m).2 = Some (lookup_of (header block) (Block_Hash block) (Z.of_nat i) x).
Proof using CL DL RL EL KL.
  intros Hra Hb Hrs. set (s := n_statedb n) in *.
  destruct (writeChainKeys_written (FlushDirtyTo s (db s)) block results Hrs) as (w & Hw & Hcw).
  assert (∃ n', persistBlockLocked block results n = (n', Ok tt) ∧ n_db n' = w) as (n' & Hp & Hdb).
  { unfold persistBlockLocked. fold (stamped block results). fold s. rewrite Hw. eexists. split; [reflexivity|].
    unfold commitBlockLocked. set (n0 := set_head _ _). assert (n_db n0 = w) as H0 by done. clearbody n0.
    generalize (indexed (stamped block results)) at 2. intros l. change (n_db (foldl (commit_result (header block) (Block_Hash block)) n0 l) = w).
    revert n0 H0. induction l as [|[i x] l IH]; intros n0 H0; [done|]. cbn [foldl]. by apply IH. }
  exists n'. rewrite Hdb, (open_written g s w block results Hra Hb Hcw). eexists. split; [done|]. split; [reflexivity|].
  destruct Hra as [_ _ _ Hco Hir Hsu]. destruct (flush_reopen_roundtrip s Hco Hir Hsu) as [Ha Hs].
  destruct (New_view w (FlushDirtyTo s (db s))) as [Va Vs]; [intros k Hk; apply (cw_other _ _ _ _ Hcw); by left|].
  cbn [n_header n_statedb with_header with_blocks newEmptyNode]. split_and!; [done| | | |].
  - intros a Haa. by rewrite Va, Ha.
  - intros a k Haa Hk. by rewrite Vs, Hs.
  - unfold loadBlockByNumberLocked. cbn [n_blockNum n_blocks with_header with_blocks].
    rewrite lookup_singleton_eq. cbn [mbind option_bind]. by rewrite lookup_singleton_eq.
  - intros i x Hx. destruct (cw_results _ _ _ _ Hcw i x Hx) as (Hr & tb & Htb & Ht). split.
    + unfold loadReceiptLocked, get. cbn [n_receipts with_header with_blocks newEmptyNode]. rewrite lookup_empty.
      change (n_db (with_header _ _ _)) with w. rewrite Hr. cbn [rbind].
      by rewrite receipt_roundtrip by apply (rs_receipt _ _ Hrs i x Hx).
    + unfold loadTxLookupLocked, get. cbn [n_txIndex with_header with_blocks newEmptyNode]. rewrite lookup_empty.
      change (n_db (with_header _ _ _)) with w. rewrite Ht. cbn [rbind].
      destruct (lookup_roundtrip _ (rs_lookup _ _ Hrs i x Hx)) as (tb' & Htb' & Hdec).
      assert (tb' = tb) as -> by congruence. cbn [tl_TxHash lookup_of] in Hdec. by rewrite Hdec.
Qed.

(** The store a fresh node leaves behind can be opened again. *)
Lemma fresh_restartable g b s : Genesis_Commit g ∅ = Some (Ok (b, s)) → 0 <= Genesis_ChainID g →
  ∃ n, openWithDatabase g ∅ = Some (Ok n) ∧ restartable g (New (n_db n)).
Proof using CL RL.
  intros Hc Hid. unfold openWithDatabase. change (readMetaVersion ∅) with (@Ok (option Z) None). cbv iota.
  unfold newNodeFromGenesisDB. rewrite Hc. cbn [mbind option_bind rbind]. eexists. split; [reflexivity|].
  set (n0 := with_blocks _ _ _). change (n_db (persistGenesisLocked b n0)) with
    (put (put (put (put (put (putMeta (n_db n0) (Genesis_ChainID g) (Block_Hash b)) (headerKey (Block_Hash b)) (encodeHeader (header b)))
      (bodyKey (Block_Hash b)) (encodeBody [])) (canonicalKey 0) (hash_bytes (Block_Hash b))) metaTipKey (encodeTip 0 (Block_Hash b)))
      metaLogIndexVersionKey (be_bytes 4 logIndexSchemaVersion)).
  set (d := n_db n0). clearbody d. clear n0. unfold putMeta. split; [| | |apply coherent_new| |done]; cbn [db New].
  - unfold readMetaVersion. do 7 rewrite put_other by (done || by apply tag_ne). by rewrite put_same.
  - exists (Block_Hash b). split; [|unfold genesisBlockHash; by rewrite Hc].
    unfold readMetaGenesisHash, get. do 5 rewrite put_other by (done || by apply tag_ne). rewrite put_same. cbn [rbind].
    by rewrite BytesToHash_hash_bytes by apply Keccak256Hash_is_hash.
  - unfold readMetaChainID, get. do 6 rewrite put_other by (done || by apply tag_ne). rewrite put_same. cbn [rbind].
    apply rlp_into_encode; [exact Hid|]. by apply dec_big_num.
  - split; [intros a acc Ha|intros id v Hv]; discriminate.
Qed.
End Restart.

(** ** Evaluation *)
Section Witness.
Local Existing Instances spec_crypto spec_crypto_laws spec_rlp spec_rlp_laws rlp_accounts rlp_accounts_laws toy_eth
  toy_eth_laws rlp_dewtx rlp_dewtx_laws.

Definition sample_genesis : Genesis :=
  mkGenesis (Some 2205) None 1700000000 [] None None [(7, mkGenesisAccount 1000000 None [(1, 9)] 0)].

(** A node restarted on the store of a fresh one. *)
Definition restarted : ChainNode :=
  newEmptyNode sample_genesis
    (New (match openWithDatabase sample_genesis ∅ with Some (Ok n) => n_db n | _ => ∅ end)).

Lemma restarted_ok : restartable sample_genesis (n_statedb restarted).
Proof.
  assert (∃ b s, Genesis_Commit sample_genesis ∅ = Some (Ok (b, s))) as (b & s & Hc).
  { unfold Genesis_Commit, sample_genesis. cbn [g_Alloc ApplyAlloc alloc_account ga_Balance Z.ltb Z.compare].
    change (MustFromBig 1000000) with (Some 1000000). cbn [mbind option_bind rbind]. destruct (Commit _). by eexists _, _. }
  destruct (fresh_restartable sample_genesis b s Hc) as (n & Hn & Hr); [vm_compute; discriminate|].
  unfold restarted. cbn [n_statedb newEmptyNode]. rewrite Hn. exact Hr.
Qed.

Definition sample_exec : ExecTx :=
  match eth_UnmarshalBinary sample_wire with
  | Ok tx => tx
  | Err _ => mkExecTx (mkEthTx 0 None None None None 0 0 (Ok [])) 0 0 None []
  end.

Definition sample_result : ExecResult :=
  mkExecResult 55 (Some sample_exec) None 7 (mkReceipt 2 1 21000 21000 5 [mkLog 9 [4] [1; 2]] None 55 0 5 0) [mkLog 9 [4] [1; 2]].

Lemma sample_results_ok : results_ok sample_block [sample_result].
Proof.
  assert (is_hash (Block_Hash sample_block)) as Hbh by apply Keccak256Hash_is_hash. split.
  - apply NoDup_singleton.
  - intros x ->%list_elem_of_singleton. split; vm_compute; [discriminate|reflexivity].
  - intros [|i] x [= <-]. set (bh := Block_Hash sample_block) in *. clearbody bh. split; cbn [stamp sample_result xr_receipt rc_Type rc_Status
      rc_CumulativeGasUsed rc_GasUsed rc_EffectiveGasPrice rc_Logs rc_ContractAddress rc_TxHash rc_BlockHash rc_BlockNumber
      rc_TransactionIndex]; unfold is_u64, is_hash in *; try (split_and!; lia); try lia; [|discriminate].
    apply Forall_singleton. split; cbn [log_Address log_Topics log_Data]; unfold is_addr; [lia|apply Forall_singleton; unfold is_hash; lia|].
    repeat (apply Forall_cons_2; [unfold is_byte; lia|]). apply Forall_nil_2.
  - intros [|i] x [= <-]. set (bh := Block_Hash sample_block) in *. clearbody bh. split; cbn [lookup_of sample_result tl_BlockHash
      tl_BlockNumber tl_Index tl_From tl_DewTx tl_Tx xr_ethTx xr_dewTx xr_from]; [done|split; split; vm_compute; congruence|split; vm_compute; congruence|].
    right. exists sample_exec, sample_wire. split_and!; [done|done|vm_compute; reflexivity|].
    apply (bool_decide_unpack (Forall is_byte sample_wire)). vm_compute. exact I.
Qed.

Lemma persist_survives_restart_witness :
  ∃ n' m, persistBlockLocked sample_block [sample_result] restarted = (n', Ok tt)
    ∧ openWithDatabase sample_genesis (n_db n') = Some (Ok m) ∧ n_header m = sample_header.
Proof.
  destruct (persist_survives_restart sample_genesis restarted sample_block [sample_result] restarted_ok sample_block_ok
    sample_results_ok) as (n' & m & Hp & Ho & Hh & _).
  exists n', m. split; [exact Hp|]. split; [exact Ho|exact Hh].
Defined.
End Witness.
