(* ===== verification/Orderbook.v ===== *)
(** * The order book module

    Models [core/native/orderbook.go]: resting limit orders, the maker's
    escrow accounts, the per-token index of open orders, and the best bid and
    ask, all kept in storage slots of the module's account.  The operations
    run over the state interface of [NativeState]. *)
From S2P Require Import Prelude Types Toy StateDB NativeState Staking.

Definition OrderbookModuleAddr : Address := 257.

Definition OrderSideBuy : Z := 0.
Definition OrderSideSell : Z := 1.
Definition OrderStatusOpen : Z := 0.
Definition OrderStatusFilled : Z := 1.
Definition OrderStatusCancelled : Z := 2.

Definition OrderbookMaxOpenPerMaker : Z := 64.

Definition obFieldHdr : Z := 0.
Definition obFieldToken : Z := 1.
Definition obFieldPrice : Z := 2.
Definition obFieldOpen : Z := 3.
Definition obFieldOrig : Z := 4.

Record Order : Type := mkOrder {
  o_ID : Z;
  o_Maker : Address;
  o_BaseToken : Address;
  o_Side : Z;
  o_PriceX18 : Z;
  o_BaseOpen : Z;
  o_BaseOrig : Z;
  o_CreatedAt : Z;
  o_Status : Z;
}.

Record Refund : Type := mkRefund {
  rf_Quote : Z;
  rf_Base : Z;
  rf_Token : Address;
  rf_Side : Z;
}.

Definition oneE18 : Z := 10 ^ 18.

(** [uint256.FromBig] keeps the low 256 bits. *)
Definition QuoteFloor (base priceX18 : Z) : Z :=
  if (base =? 0) || (priceX18 =? 0) then 0 else u256 (base * priceX18 / oneE18).

Definition QuoteLockCeil (base priceX18 : Z) : Z :=
  if (base =? 0) || (priceX18 =? 0) then 0
  else u256 ((base * priceX18 + (oneE18 - 1)) / oneE18).

(** ** Storage layout *)
Inductive obslot : Type :=
| nextIDSlot
| orderSlot (id field : Z)
| openCountSlot (maker : Address)
| escrowQSlot (maker : Address)
| escrowBSlot (maker token : Address)
| openLenSlot (token : Address) (side : Z)
| openAtSlot (token : Address) (side idx : Z).

#[export] Instance obslot_eq_dec : EqDecision obslot.
Proof. solve_decision. Defined.

Definition u64BE (v : Z) : list Z := be_bytes 8 v.

(** The bytes a slot is the Keccak-256 of. *)
Definition ob_preimage (x : obslot) : list Z :=
  match x with
  | nextIDSlot => str_bytes "dew/ob/v1/nextId"
  | orderSlot id field => str_bytes "dew/ob/v1/order" ++ u64BE id ++ [field]
  | openCountSlot maker => str_bytes "dew/ob/v1/openCount" ++ addr_bytes maker
  | escrowQSlot maker => str_bytes "dew/ob/v1/escrowQ" ++ addr_bytes maker
  | escrowBSlot maker token => str_bytes "dew/ob/v1/escrowB" ++ addr_bytes maker ++ addr_bytes token
  | openLenSlot token side => str_bytes "dew/ob/v1/openLen" ++ addr_bytes token ++ [side]
  | openAtSlot token side idx =>
      str_bytes "dew/ob/v1/openAt" ++ addr_bytes token ++ [side] ++ u64BE idx
  end.

(** The header word of an order: maker, side, status and creation block. *)
Definition order_header (o : Order) : Hash :=
  of_be (addr_bytes (o_Maker o) ++ [o_Side o; o_Status o; 0; 0] ++ u64BE (o_CreatedAt o)).

Section Orderbook.
Context `{C : Crypto} {S : Type} `{N : !NativeState S}.

Definition obSlot (x : obslot) : Hash := BytesToHash (Keccak256 (ob_preimage x)).

Definition oget (x : obslot) (s : S) : Hash := ns_GetState OrderbookModuleAddr (obSlot x) s.
Definition oset (x : obslot) (v : Hash) (s : S) : S := ns_SetState OrderbookModuleAddr (obSlot x) v s.

Definition getU256 (x : obslot) (s : S) : Z := hashToU256 (oget x s).
Definition setU256 (x : obslot) (v : Z) (s : S) : S := oset x (u256ToHash v) s.

Definition OpenCount (maker : Address) (s : S) : Z := u64 (getU256 (openCountSlot maker) s).
Definition EscrowQuote (maker : Address) (s : S) : Z := getU256 (escrowQSlot maker) s.
Definition EscrowBase (maker token : Address) (s : S) : Z := getU256 (escrowBSlot maker token) s.

Definition lastOrderID (s : S) : Z := u64 (getU256 nextIDSlot s).

Definition nextOrderID (s : S) : S * Z :=
  let next := lastOrderID s +₆₄ 1 in
  (setU256 nextIDSlot next s, next).

Definition writeOrder (o : Order) (s : S) : S :=
  let s := oset (orderSlot (o_ID o) obFieldHdr) (order_header o) s in
  let s := oset (orderSlot (o_ID o) obFieldToken) (o_BaseToken o) s in
  let s := setU256 (orderSlot (o_ID o) obFieldPrice) (o_PriceX18 o) s in
  let s := setU256 (orderSlot (o_ID o) obFieldOpen) (o_BaseOpen o) s in
  setU256 (orderSlot (o_ID o) obFieldOrig) (o_BaseOrig o) s.

(** The order the five words of [id] spell. *)
Definition readOrder (id : Z) (s : S) : Order :=
  let hdr := hash_bytes (oget (orderSlot id obFieldHdr) s) in
  let tokH := hash_bytes (oget (orderSlot id obFieldToken) s) in
  mkOrder id (of_be (slice 0 20 hdr)) (of_be (drop 12 tokH)) (default 0 (hdr !! 20%nat))
    (getU256 (orderSlot id obFieldPrice) s) (getU256 (orderSlot id obFieldOpen) s)
    (getU256 (orderSlot id obFieldOrig) s) (of_be (slice 24 32 hdr)) (default 0 (hdr !! 21%nat)).

Definition GetOrder (id : Z) (s : S) : option Order :=
  if id =? 0 then None else
  if lastOrderID s <? id then None else
  let o := readOrder id s in
  if (o_BaseOrig o =? 0) && (o_BaseOpen o =? 0) && (o_PriceX18 o =? 0) && (o_Maker o =? 0)
  then None else Some o.

Definition openLen (token : Address) (side : Z) (s : S) : Z := u64 (getU256 (openLenSlot token side) s).
Definition openAt (token : Address) (side i : Z) (s : S) : Z := u64 (getU256 (openAtSlot token side i) s).

Definition addOpenIndex (token : Address) (side id : Z) (s : S) : S :=
  let n := openLen token side s in
  let s := setU256 (openAtSlot token side n) id s in
  setU256 (openLenSlot token side) (n +₆₄ 1) s.

(** The scan of [removeOpenIndex] stops at the first index that holds [id]. *)
Definition find_open (token : Address) (side id n : Z) (s : S) : option Z :=
  List.find (λ i, openAt token side i s =? id) (seqZ 0 n).

Definition removeOpenIndex (token : Address) (side id : Z) (s : S) : S :=
  let n := openLen token side s in
  match find_open token side id n s with
  | None => s
  | Some i =>
      let s := if negb (i =? n - 1)
               then setU256 (openAtSlot token side i) (getU256 (openAtSlot token side (n - 1)) s) s
               else s in
      let s := setU256 (openAtSlot token side (n - 1)) 0 s in
      setU256 (openLenSlot token side) (n - 1) s
  end.

Definition incOpenCount (maker : Address) (s : S) : S * res unit :=
  let n := OpenCount maker s in
  if OrderbookMaxOpenPerMaker <=? n then (s, Err "orderbook: max open orders per maker")
  else (setU256 (openCountSlot maker) (n +₆₄ 1) s, Ok tt).

Definition decOpenCount (maker : Address) (s : S) : S :=
  let n := OpenCount maker s in
  if n =? 0 then s else setU256 (openCountSlot maker) (n - 1) s.

Definition addEscrowQ (maker : Address) (amt : Z) (s : S) : S :=
  setU256 (escrowQSlot maker) (EscrowQuote maker s +₂₅₆ amt) s.

Definition subEscrowQ (maker : Address) (amt : Z) (s : S) : S * res unit :=
  let cur := EscrowQuote maker s in
  if cur <? amt then (s, Err "orderbook: escrow quote underflow")
  else (setU256 (escrowQSlot maker) (cur -₂₅₆ amt) s, Ok tt).

Definition addEscrowB (maker token : Address) (amt : Z) (s : S) : S :=
  setU256 (escrowBSlot maker token) (EscrowBase maker token s +₂₅₆ amt) s.

Definition subEscrowB (maker token : Address) (amt : Z) (s : S) : S * res unit :=
  let cur := EscrowBase maker token s in
  if cur <? amt then (s, Err "orderbook: escrow base underflow")
  else (setU256 (escrowBSlot maker token) (cur -₂₅₆ amt) s, Ok tt).

Definition validatePlace (maker : Address) (price baseAmt : Z) (s : S) : S * res unit :=
  if maker =? 0 then (s, Err "orderbook: zero maker") else
  if price =? 0 then (s, Err "orderbook: zero price") else
  if baseAmt =? 0 then (s, Err "orderbook: zero base amount") else
  incOpenCount maker s.

Definition PlaceBuy (maker token : Address) (price baseAmt blockNum : Z) (s : S) : S * res (Z * Z) :=
  match validatePlace maker price baseAmt s with
  | (s, Err e) => (s, Err e)
  | (s, Ok _) =>
      if token =? 0 then (decOpenCount maker s, Err "orderbook: zero base token") else
      let quoteLock := QuoteLockCeil baseAmt price in
      if quoteLock =? 0 then (decOpenCount maker s, Err "orderbook: quote lock is zero") else
      let '(s, id) := nextOrderID s in
      let o := mkOrder id maker token OrderSideBuy price baseAmt baseAmt blockNum OrderStatusOpen in
      let s := writeOrder o s in
      let s := addEscrowQ maker quoteLock s in
      (addOpenIndex token OrderSideBuy id s, Ok (id, quoteLock))
  end.

Definition PlaceSell (maker token : Address) (price baseAmt blockNum : Z) (s : S) : S * res Z :=
  match validatePlace maker price baseAmt s with
  | (s, Err e) => (s, Err e)
  | (s, Ok _) =>
      if token =? 0 then (decOpenCount maker s, Err "orderbook: zero base token") else
      let '(s, id) := nextOrderID s in
      let o := mkOrder id maker token OrderSideSell price baseAmt baseAmt blockNum OrderStatusOpen in
      let s := writeOrder o s in
      let s := addEscrowB maker token baseAmt s in
      (addOpenIndex token OrderSideSell id s, Ok id)
  end.

Definition close_order (o : Order) (status open : Z) : Order :=
  mkOrder (o_ID o) (o_Maker o) (o_BaseToken o) (o_Side o) (o_PriceX18 o) open (o_BaseOrig o)
    (o_CreatedAt o) status.

(** The escrow release of [Cancel]: quote capped by the maker's escrow, or
    the open base. *)
Definition release (o : Order) (s : S) : S * res Refund :=
  if o_Side o =? OrderSideBuy then
    let q := QuoteLockCeil (o_BaseOpen o) (o_PriceX18 o) in
    let esc := EscrowQuote (o_Maker o) s in
    let q := if esc <? q then esc else q in
    match subEscrowQ (o_Maker o) q s with
    | (s, Err e) => (s, Err e)
    | (s, Ok _) => (s, Ok (mkRefund q 0 (o_BaseToken o) (o_Side o)))
    end
  else
    match subEscrowB (o_Maker o) (o_BaseToken o) (o_BaseOpen o) s with
    | (s, Err e) => (s, Err e)
    | (s, Ok _) => (s, Ok (mkRefund 0 (o_BaseOpen o) (o_BaseToken o) (o_Side o)))
    end.

Definition Cancel (actor : Address) (id : Z) (s : S) : S * res Refund :=
  match GetOrder id s with
  | None => (s, Err "orderbook: order not found")
  | Some o =>
      if negb (o_Status o =? OrderStatusOpen) then (s, Err "orderbook: order not open") else
      if negb (o_Maker o =? actor) then (s, Err "orderbook: not maker") else
      match release o s with
      | (s, Err e) => (s, Err e)
      | (s, Ok refund) =>
          let s := writeOrder (close_order o OrderStatusCancelled 0) s in
          let s := decOpenCount (o_Maker o) s in
          (removeOpenIndex (o_BaseToken o) (o_Side o) id s, Ok refund)
      end
  end.

(** What a fill takes out of the maker's escrow. *)
Definition debit_maker (o : Order) (baseFilled quotePaid : Z) (s : S) : S * res unit :=
  if o_Side o =? OrderSideBuy then subEscrowQ (o_Maker o) quotePaid s
  else subEscrowB (o_Maker o) (o_BaseToken o) baseFilled s.

Definition Fill (taker : Address) (id maxBase : Z) (s : S) : S * res (Z * Z) :=
  if taker =? 0 then (s, Err "orderbook: zero taker") else
  if maxBase =? 0 then (s, Err "orderbook: zero fill amount") else
  match GetOrder id s with
  | None => (s, Err "orderbook: order not found")
  | Some o =>
      if negb (o_Status o =? OrderStatusOpen) then (s, Err "orderbook: order not open") else
      let baseFilled := if o_BaseOpen o <? maxBase then o_BaseOpen o else maxBase in
      let quotePaid := QuoteFloor baseFilled (o_PriceX18 o) in
      match debit_maker o baseFilled quotePaid s with
      | (s, Err e) => (s, Err e)
      | (s, Ok _) =>
          let remaining := o_BaseOpen o -₂₅₆ baseFilled in
          let '(s, status) :=
            if remaining =? 0 then
              (removeOpenIndex (o_BaseToken o) (o_Side o) id (decOpenCount (o_Maker o) s), OrderStatusFilled)
            else (s, o_Status o) in
          (writeOrder (close_order o status remaining) s, Ok (baseFilled, quotePaid))
      end
  end.

(** One turn of the scan of [best]. *)
Definition better (preferHigh : bool) (s : S) (best : option (Z * Z)) (oid : Z) : option (Z * Z) :=
  match GetOrder oid s with
  | None => best
  | Some o =>
      if negb (o_Status o =? OrderStatusOpen) then best else
      match best with
      | None => Some (o_PriceX18 o, oid)
      | Some (bestPrice, bestID) =>
          if (if preferHigh then bestPrice <? o_PriceX18 o else o_PriceX18 o <? bestPrice)
             || ((o_PriceX18 o =? bestPrice) && (oid <? bestID))
          then Some (o_PriceX18 o, oid) else best
      end
  end.

Definition best (token : Address) (side : Z) (preferHigh : bool) (s : S) : option (Z * Z) :=
  foldl (better preferHigh s) None
    (map (λ i, openAt token side i s) (seqZ 0 (openLen token side s))).

Definition BestBid (token : Address) (s : S) : option (Z * Z) := best token OrderSideBuy true s.
Definition BestAsk (token : Address) (s : S) : option (Z * Z) := best token OrderSideSell false s.
End Orderbook.
