(* ===== verification/OrderbookProps.v ===== *)
(** * Properties of the order book

    The invariant that ties the maker accounts and the index of open orders to
    the orders, its preservation by every operation, and what follows from
    it: an open order can always be cancelled in full and filled, and the
    best bid and ask are what they claim to be. *)
From stdpp Require Import functions.
From S2P Require Import Prelude Types Toy Smt StateDB NativeState Staking StakingProps Orderbook.

(** ** Lists *)
Lemma sumZ_map_insert {A} (f : A → Z) (l : list A) i x y : l !! i = Some x →
  sumZ (map f (<[i := y]> l)) = sumZ (map f l) - f x + f y.
Proof.
  intros H. rewrite <- (take_drop_middle l i x H) at 2.
  rewrite insert_take_drop by (by eapply lookup_lt_Some).
  rewrite !map_app, !sumZ_app. cbn [map]. rewrite !sumZ_cons. lia.
Qed.

(** Removing position [i] by moving the last element into it. *)
Lemma swap_remove_perm {A} (l : list A) (x y : A) i : (l ++ [x]) !! i = Some y →
  y :: (if decide (i = length l) then l else <[i := x]> l) ≡ₚ l ++ [x].
Proof.
  intros H. destruct (decide (i = length l)) as [->|Hne].
  - rewrite lookup_app_r, Nat.sub_diag in H by done. injection H as ->. apply Permutation_cons_append.
  - pose proof (lookup_lt_Some _ _ _ H) as Hlt. rewrite length_app in Hlt. cbn in Hlt.
    rewrite lookup_app_l in H by lia. rewrite <- (take_drop_middle l i y H) at 2.
    rewrite insert_take_drop by lia. rewrite <- app_assoc. cbn [app].
    rewrite <- (Permutation_middle (take i l) _ x), <- (Permutation_middle (take i l) _ y).
    apply perm_skip. rewrite app_assoc. apply Permutation_cons_append.
Qed.

Lemma seqZ_snoc m n : 0 <= n → seqZ m (n + 1) = seqZ m n ++ [m + n].
Proof. intros H. rewrite seqZ_app by lia. done. Qed.

(** A fill never takes more than the lock shrinks by. *)
Lemma ceil_sub_floor x y d : 0 < d → 0 <= x → 0 <= y →
  (y + (d - 1)) / d + x / d <= (x + y + (d - 1)) / d.
Proof.
  intros. rewrite <- Z.div_add by lia. apply Z.div_le_mono; [lia|].
  pose proof (Z.mul_div_le x d). lia.
Qed.

(** ** Reading after writing *)
Definition ob_in_play (A : list Address) (n : Z) (x : obslot) : Prop :=
  match x with
  | nextIDSlot => True
  | orderSlot id field => 0 <= id <= n ∧ 0 <= field <= 4
  | openCountSlot m | escrowQSlot m => m ∈ A
  | escrowBSlot m t => m ∈ A ∧ t ∈ A
  | openLenSlot t side => t ∈ A ∧ 0 <= side <= 1
  | openAtSlot t side i => t ∈ A ∧ 0 <= side <= 1 ∧ 0 <= i <= n
  end.

Definition obslots_distinct `{C : Crypto} (P : obslot → Prop) : Prop :=
  ∀ x y, P x → P y → obSlot x = obSlot y → x = y.

(** The layout separates the fields: the preimages have different lengths. *)
Definition obslot_valid (x : obslot) : Prop :=
  match x with
  | nextIDSlot => True
  | orderSlot id _ => is_u64 id
  | openCountSlot m | escrowQSlot m => is_addr m
  | escrowBSlot m t => is_addr m ∧ is_addr t
  | openLenSlot t _ => is_addr t
  | openAtSlot t _ i => is_addr t ∧ is_u64 i
  end.

Lemma ob_preimage_inj x y : obslot_valid x → obslot_valid y → ob_preimage x = ob_preimage y → x = y.
Proof.
  intros Hx Hy H. pose proof (f_equal length H) as Hl.
  destruct x, y; cbn [ob_preimage obslot_valid] in *; unfold u64BE, addr_bytes in *;
    rewrite ?length_app, ?be_bytes_length in Hl; cbn in Hl; try discriminate Hl; try reflexivity;
    apply app_inv_head in H; destruct_and?.
  - apply app_inj_1 in H as [Ha [= ->]]; [|by rewrite !be_bytes_length]. f_equal. by apply (be_bytes_inj 8).
  - f_equal. by apply (be_bytes_inj 20).
  - f_equal. by apply (be_bytes_inj 20).
  - apply app_inj_1 in H as [Ha Hb]; [|by rewrite !be_bytes_length]. f_equal; by apply (be_bytes_inj 20).
  - apply app_inj_1 in H as [Ha [= ->]]; [|by rewrite !be_bytes_length]. f_equal. by apply (be_bytes_inj 20).
  - apply app_inj_1 in H as [Ha H]; [|by rewrite !be_bytes_length].
    apply app_inj_1 in H as [[= ->] Hb]; [|done].
    f_equal; [by apply (be_bytes_inj 20)|by apply (be_bytes_inj 8)].
Qed.

Section Reads.
Context `{C : Crypto} {S : Type} `{N : !NativeState S} `{L : !NativeStateLaws S}.

Lemma oget_oset A n x y v s : obslots_distinct (ob_in_play A n) → ob_in_play A n x → ob_in_play A n y →
  oget y (oset x v s) = if decide (x = y) then v else oget y s.
Proof.
  intros Hd Hx Hy. unfold oget, oset. rewrite get_set. destruct (decide (x = y)) as [->|Hne].
  - by rewrite decide_True.
  - rewrite decide_False; [done|]. intros [= Heq]. apply Hne. by apply Hd.
Qed.
End Reads.

(** ** Orders in storage *)

(** The fields of an order in the range of their Go types. *)
Definition order_typed (o : Order) : Prop :=
  is_u64 (o_ID o) ∧ is_addr (o_Maker o) ∧ is_addr (o_BaseToken o) ∧ is_byte (o_Side o) ∧ is_byte (o_Status o)
  ∧ is_u256 (o_PriceX18 o) ∧ is_u256 (o_BaseOpen o) ∧ is_u256 (o_BaseOrig o) ∧ is_u64 (o_CreatedAt o).

(** The header word gives its fields back. *)
Lemma order_header_bytes o : order_typed o →
  hash_bytes (order_header o) =
    addr_bytes (o_Maker o) ++ [o_Side o; o_Status o; 0; 0] ++ u64BE (o_CreatedAt o).
Proof.
  intros (_ & _ & _ & Hs & Ht & _). unfold order_header, hash_bytes.
  set (l := _ ++ _). assert (length l = 32%nat) as Hl.
  { unfold l, addr_bytes, u64BE. rewrite !length_app, !be_bytes_length. done. }
  rewrite <- Hl. apply be_bytes_of_be. unfold l.
  apply Forall_app_2; [apply be_bytes_ok|]. apply Forall_app_2; [|apply be_bytes_ok].
  repeat constructor; try apply Hs; try apply Ht; lia.
Qed.

Lemma header_fields a st (m : list Z) :
  length m = 20%nat → length a = 8%nat → length st = 4%nat →
  slice 0 20 (m ++ st ++ a) = m ∧ slice 24 32 (m ++ st ++ a) = a
  ∧ (m ++ st ++ a) !! 20%nat = st !! 0%nat ∧ (m ++ st ++ a) !! 21%nat = st !! 1%nat.
Proof.
  intros Hm Ha Hs. split_and!.
  - rewrite slice_app_l by lia. by apply slice_full.
  - rewrite !slice_app_r by lia. rewrite Hm, Hs. by apply slice_full.
  - rewrite lookup_app_r, Hm by lia. by rewrite lookup_app_l by lia.
  - rewrite lookup_app_r, Hm by lia. by rewrite lookup_app_l by lia.
Qed.

(** ** The abstract book

    Functions from makers, tokens and sides to the accounts and the index, and
    from ids to orders. *)
Record Book : Type := mkBook {
  bk_next : Z;
  bk_order : Z → Order;
  bk_count : Address → Z;
  bk_q : Address → Z;
  bk_b : Address * Address → Z;
  bk_index : Address * Z → list Z;
}.

Definition set_next x V := mkBook x (bk_order V) (bk_count V) (bk_q V) (bk_b V) (bk_index V).
Definition set_order id o V := mkBook (bk_next V) (<[id := o]> (bk_order V)) (bk_count V) (bk_q V) (bk_b V) (bk_index V).
Definition set_count m x V := mkBook (bk_next V) (bk_order V) (<[m := x]> (bk_count V)) (bk_q V) (bk_b V) (bk_index V).
Definition set_q m x V := mkBook (bk_next V) (bk_order V) (bk_count V) (<[m := x]> (bk_q V)) (bk_b V) (bk_index V).
Definition set_b m t x V := mkBook (bk_next V) (bk_order V) (bk_count V) (bk_q V) (<[(m, t) := x]> (bk_b V)) (bk_index V).
Definition set_index t side l V :=
  mkBook (bk_next V) (bk_order V) (bk_count V) (bk_q V) (bk_b V) (<[(t, side) := l]> (bk_index V)).

Section Storage.
Context `{C : Crypto} {S : Type} `{N : !NativeState S} `{L : !NativeStateLaws S}.
Context (A : list Address) (n : Z) (Hd : obslots_distinct (ob_in_play A n)).

(** A state agrees with the abstract book on the slots in play. *)
Record agree (s : S) (V : Book) : Prop := {
  ag_next : lastOrderID s = bk_next V;
  ag_order : ∀ id, 0 < id <= n → readOrder id s = bk_order V id;
  ag_count : ∀ m, m ∈ A → OpenCount m s = bk_count V m;
  ag_q : ∀ m, m ∈ A → EscrowQuote m s = bk_q V m;
  ag_b : ∀ m t, m ∈ A → t ∈ A → EscrowBase m t s = bk_b V (m, t);
  ag_len : ∀ t side, t ∈ A → 0 <= side <= 1 → openLen t side s = Z.of_nat (length (bk_index V (t, side)));
  ag_at : ∀ t side k x, t ∈ A → 0 <= side <= 1 → bk_index V (t, side) !! k = Some x →
    Z.of_nat k <= n → openAt t side (Z.of_nat k) s = x;
}.

Lemma readOrder_writeOrder o s : order_typed o → o_ID o <= n → readOrder (o_ID o) (writeOrder o s) = o.
Proof using L Hd.
  intros Ho Hn. pose proof Ho as ([Hid _] & Hm & Ht & _ & _ & Hp & Hop & Hor & Hc).
  unfold readOrder, writeOrder, getU256, setU256, u256ToHash, hashToU256.
  rewrite !(oget_oset A n _ _ _ _ Hd) by (cbn; unfold obFieldHdr, obFieldToken, obFieldPrice, obFieldOpen, obFieldOrig; lia).
  repeat first [rewrite decide_True by reflexivity
    | rewrite decide_False by (unfold obFieldHdr, obFieldToken, obFieldPrice, obFieldOpen, obFieldOrig; congruence)].
  rewrite !u256_id by done. rewrite order_header_bytes by done.
  destruct (header_fields (u64BE (o_CreatedAt o)) [o_Side o; o_Status o; 0; 0] (addr_bytes (o_Maker o)))
    as (-> & -> & -> & ->); [apply be_bytes_length..|done|].
  cbn [lookup list_lookup default from_option id]. rewrite addr_bytes_roundtrip by done.
  unfold u64BE. rewrite of_be_be_bytes_id by apply Hc.
  assert (of_be (drop 12 (hash_bytes (o_BaseToken o))) = o_BaseToken o) as ->; [|by destruct o].
  unfold hash_bytes. rewrite (be_bytes_drop 12 20). by apply addr_bytes_roundtrip.
Qed.

(** A write to a slot is seen by the reads of that slot alone. *)
Definition changes (X : obslot → Prop) (s s' : S) : Prop :=
  ∀ y, ob_in_play A n y → ¬ X y → oget y s' = oget y s.

Lemma changes_oset x v s : ob_in_play A n x → changes (λ y, y = x) s (oset x v s).
Proof using L Hd.
  intros Hx y Hy Hne. rewrite (oget_oset A n _ _ _ _ Hd Hx Hy). by rewrite decide_False by congruence.
Qed.

Lemma changes_trans X Y s1 s2 s3 : changes X s1 s2 → changes Y s2 s3 → changes (λ y, X y ∨ Y y) s1 s3.
Proof using. clear. intros H1 H2 y Hy Hn. rewrite H2, H1; tauto. Qed.

Lemma changes_weaken (X Y : obslot → Prop) s s' : (∀ y, X y → Y y) → changes X s s' → changes Y s s'.
Proof using. clear. intros HXY H y Hy Hn. apply H; [done|]. intros Hx. by apply Hn, HXY. Qed.

Section Frame.
Context (X : obslot → Prop) (s s' : S) (HX : changes X s s').

Lemma frame_next : ¬ X nextIDSlot → lastOrderID s' = lastOrderID s.
Proof using HX. clear -HX. intros Hn. unfold lastOrderID, getU256. by rewrite (HX nextIDSlot). Qed.

Lemma frame_order id : 0 < id <= n → (∀ f, ¬ X (orderSlot id f)) → readOrder id s' = readOrder id s.
Proof using HX.
  clear -HX. intros Hid Hn. unfold readOrder, getU256.
  rewrite !HX by first [apply Hn|cbn; unfold obFieldHdr, obFieldToken, obFieldPrice, obFieldOpen, obFieldOrig; lia].
  done.
Qed.

Lemma frame_count m : m ∈ A → ¬ X (openCountSlot m) → OpenCount m s' = OpenCount m s.
Proof using HX. clear -HX. intros Hm Hn. unfold OpenCount, getU256. by rewrite (HX (openCountSlot m)). Qed.

Lemma frame_q m : m ∈ A → ¬ X (escrowQSlot m) → EscrowQuote m s' = EscrowQuote m s.
Proof using HX. clear -HX. intros Hm Hn. unfold EscrowQuote, getU256. by rewrite (HX (escrowQSlot m)). Qed.

Lemma frame_b m t : m ∈ A → t ∈ A → ¬ X (escrowBSlot m t) → EscrowBase m t s' = EscrowBase m t s.
Proof using HX. clear -HX. intros Hm Ht Hn. unfold EscrowBase, getU256. by rewrite (HX (escrowBSlot m t)). Qed.

Lemma frame_len t side : t ∈ A → 0 <= side <= 1 → ¬ X (openLenSlot t side) → openLen t side s' = openLen t side s.
Proof using HX. clear -HX. intros Ht Hs Hn. unfold openLen, getU256. by rewrite (HX (openLenSlot t side)). Qed.

Lemma frame_at t side i : t ∈ A → 0 <= side <= 1 → 0 <= i <= n → ¬ X (openAtSlot t side i) →
  openAt t side i s' = openAt t side i s.
Proof using HX. clear -HX. intros Ht Hs Hi Hn. unfold openAt, getU256. by rewrite (HX (openAtSlot t side i)). Qed.
End Frame.
End Storage.

(** ** Each write follows the abstract book *)
Section Agree.
Context `{C : Crypto} {S : Type} `{N : !NativeState S} `{L : !NativeStateLaws S}.
Context (A : list Address) (n : Z) (Hd : obslots_distinct (ob_in_play A n)).

Lemma getU256_setU256 x v s : ob_in_play A n x → is_u256 v → getU256 x (setU256 x v s) = v.
Proof using L Hd.
  intros Hx Hv. unfold getU256, setU256, hashToU256, u256ToHash.
  rewrite (oget_oset A n _ _ _ _ Hd Hx Hx), decide_True by done. by apply u256_id.
Qed.

Lemma u64_u256 v : is_u64 v → is_u256 v.
Proof using. clear. unfold is_u64, is_u256. lia. Qed.

(** The reads a write leaves alone. *)
Ltac ob_frame HX :=
  first
    [ rewrite (frame_next A n _ _ _ HX) by (done || congruence)
    | rewrite (frame_order A n _ _ _ HX) by (done || congruence)
    | rewrite (frame_count A n _ _ _ HX) by (done || congruence)
    | rewrite (frame_q A n _ _ _ HX) by (done || congruence)
    | rewrite (frame_b A n _ _ _ HX) by (done || congruence)
    | rewrite (frame_len A n _ _ _ HX) by (done || congruence)
    | rewrite (frame_at A n _ _ _ HX) by (done || congruence || lia) ];
  eauto.

Ltac agree_set x v s Hx :=
  let HX := fresh "HX" in
  assert (changes A n (λ y, y = x) s (setU256 x v s)) as HX
    by exact (changes_oset A n Hd x (u256ToHash v) s Hx);
  split; cbn [bk_next bk_order bk_count bk_q bk_b bk_index set_next set_count set_q set_b]; intros;
  try solve [ob_frame HX].

Lemma agree_next s V x : agree A n s V → is_u64 x → agree A n (setU256 nextIDSlot x s) (set_next x V).
Proof using L Hd.
  intros [] Hx. agree_set nextIDSlot x s I.
  unfold lastOrderID. rewrite getU256_setU256 by (done || by apply u64_u256). by apply u64_id.
Qed.

Lemma agree_count s V m x : agree A n s V → m ∈ A → is_u64 x →
  agree A n (setU256 (openCountSlot m) x s) (set_count m x V).
Proof using L Hd.
  intros [] Hm Hx. agree_set (openCountSlot m) x s Hm. unfold insert, fn_insert.
  destruct (decide (m = m0)) as [<-|]; [|ob_frame HX].
  unfold OpenCount. rewrite getU256_setU256 by (done || by apply u64_u256). by apply u64_id.
Qed.

Lemma agree_q s V m x : agree A n s V → m ∈ A → is_u256 x →
  agree A n (setU256 (escrowQSlot m) x s) (set_q m x V).
Proof using L Hd.
  intros [] Hm Hx. agree_set (escrowQSlot m) x s Hm. unfold insert, fn_insert.
  destruct (decide (m = m0)) as [<-|]; [|ob_frame HX].
  unfold EscrowQuote. by rewrite getU256_setU256.
Qed.

Lemma agree_b s V m t x : agree A n s V → m ∈ A → t ∈ A → is_u256 x →
  agree A n (setU256 (escrowBSlot m t) x s) (set_b m t x V).
Proof using L Hd.
  intros [] Hm Ht Hx. agree_set (escrowBSlot m t) x s (conj Hm Ht). unfold insert, fn_insert.
  destruct (decide ((m, t) = (m0, t0))) as [[= <- <-]|]; [|ob_frame HX].
  unfold EscrowBase. by rewrite getU256_setU256.
Qed.

Lemma changes_writeOrder o s : 0 <= o_ID o <= n →
  changes A n (λ y, ∃ f, y = orderSlot (o_ID o) f) s (writeOrder o s).
Proof using L Hd.
  intros Hid y Hy Hn. unfold writeOrder, setU256.
  rewrite !(oget_oset A n _ _ _ _ Hd)
    by first [done|cbn; unfold obFieldHdr, obFieldToken, obFieldPrice, obFieldOpen, obFieldOrig; lia].
  by rewrite !decide_False by naive_solver.
Qed.

Lemma agree_order s V o : agree A n s V → order_typed o → 0 < o_ID o <= n →
  agree A n (writeOrder o s) (set_order (o_ID o) o V).
Proof using L Hd.
  intros [] Ho Hid. assert (0 <= o_ID o <= n) as Hid' by lia.
  pose proof (changes_writeOrder o s Hid') as HX.
  split; cbn [bk_next bk_order bk_count bk_q bk_b bk_index set_order]; intros.
  - rewrite (frame_next A n _ _ _ HX) by (by intros [? [=]]). auto.
  - unfold insert, fn_insert. destruct (decide (o_ID o = id)) as [<-|Hne].
    + apply (readOrder_writeOrder A n Hd); [done|lia].
    + rewrite (frame_order A n _ _ _ HX) by (done || by intros ? [? [=]]). auto.
  - rewrite (frame_count A n _ _ _ HX) by (done || by intros [? [=]]). auto.
  - rewrite (frame_q A n _ _ _ HX) by (done || by intros [? [=]]). auto.
  - rewrite (frame_b A n _ _ _ HX) by (done || by intros [? [=]]). auto.
  - rewrite (frame_len A n _ _ _ HX) by (done || by intros [? [=]]). auto.
  - rewrite (frame_at A n _ _ _ HX) by (done || lia || by intros [? [=]]). auto.
Qed.

(** The index of one token and side, written as a whole. *)
Definition index_slot (t : Address) (side : Z) (y : obslot) : Prop :=
  y = openLenSlot t side ∨ ∃ i, y = openAtSlot t side i.

Lemma agree_index s s' V t side l : agree A n s V →
  changes A n (index_slot t side) s s' →
  openLen t side s' = Z.of_nat (length l) →
  (∀ k x, l !! k = Some x → Z.of_nat k <= n → openAt t side (Z.of_nat k) s' = x) →
  agree A n s' (set_index t side l V).
Proof using.
  clear Hd L. intros [] HX Hlen Hat.
  split; cbn [bk_next bk_order bk_count bk_q bk_b bk_index set_index]; intros.
  - rewrite (frame_next A n _ _ _ HX) by (by intros [|[? ?]]). auto.
  - rewrite (frame_order A n _ _ _ HX) by (done || by intros ? [|[? ?]]). auto.
  - rewrite (frame_count A n _ _ _ HX) by (done || by intros [|[? ?]]). auto.
  - rewrite (frame_q A n _ _ _ HX) by (done || by intros [|[? ?]]). auto.
  - rewrite (frame_b A n _ _ _ HX) by (done || by intros [|[? ?]]). auto.
  - unfold insert, fn_insert. destruct (decide ((t, side) = (t0, side0))) as [[= <- <-]|Hne]; [done|].
    rewrite (frame_len A n _ _ _ HX) by (done || (intros [[=]|[? [=]]]; congruence)). auto.
  - unfold insert, fn_insert in *. destruct (decide ((t, side) = (t0, side0))) as [[= <- <-]|Hne]; [by apply Hat|].
    rewrite (frame_at A n _ _ _ HX) by (done || lia || (intros [[=]|[? [=]]]; congruence)). auto.
Qed.

Lemma agree_push s V t side id : agree A n s V → t ∈ A → 0 <= side <= 1 → is_u64 id →
  Z.of_nat (length (bk_index V (t, side))) <= n → n + 1 < 2 ^ 64 →
  agree A n (addOpenIndex t side id s) (set_index t side (bk_index V (t, side) ++ [id]) V).
Proof using L Hd.
  intros Hag Ht Hs Hid Hlen Hn. set (l := bk_index V (t, side)) in *.
  pose proof (ag_len _ _ _ _ Hag t side Ht Hs) as El. fold l in El.
  unfold addOpenIndex. cbv zeta. rewrite El.
  assert (ob_in_play A n (openAtSlot t side (Z.of_nat (length l)))) as Hp1 by (cbn; split_and!; done || lia).
  assert (ob_in_play A n (openLenSlot t side)) as Hp2 by (by cbn).
  assert (Z.of_nat (length l) +₆₄ 1 = Z.of_nat (length l) + 1) as E1 by (apply u64_id; unfold is_u64; lia).
  rewrite E1. set (s1 := setU256 (openAtSlot _ _ _) id s).
  pose proof (changes_oset A n Hd _ (u256ToHash id) s Hp1) as H1. fold (setU256 (openAtSlot t side (Z.of_nat (length l))) id s) s1 in H1.
  set (s2 := setU256 (openLenSlot t side) _ s1).
  assert (changes A n (λ y, y = openLenSlot t side) s1 s2) as H2 by by apply changes_oset.
  apply (agree_index s s2); [done| | |].
  - eapply changes_weaken; [|exact (changes_trans A n _ _ _ _ _ H1 H2)].
    intros y [->| ->]; [right; eauto|by left].
  - unfold openLen, s2. rewrite getU256_setU256 by (done || (unfold is_u256; lia)).
    rewrite u64_id by (unfold is_u64; lia). rewrite length_app. cbn. lia.
  - intros k x Hk Hkn. rewrite (frame_at A n _ _ _ H2) by (done || lia).
    destruct (decide (k = length l)) as [->|Hne].
    + rewrite lookup_app_r, Nat.sub_diag in Hk by done. injection Hk as <-.
      unfold openAt, s1. rewrite getU256_setU256 by (done || by apply u64_u256). by apply u64_id.
    + pose proof (lookup_lt_Some _ _ _ Hk) as Hlt. rewrite length_app in Hlt. cbn in Hlt.
      rewrite lookup_app_l in Hk by lia.
      rewrite (frame_at A n _ _ _ H1) by (done || lia || (intros [=]; lia)).
      by apply (ag_at _ _ _ _ Hag).
Qed.

(** The scan finds a position that holds the id. *)
Lemma find_open_spec s V t side id : agree A n s V → t ∈ A → 0 <= side <= 1 →
  Z.of_nat (length (bk_index V (t, side))) <= n → id ∈ bk_index V (t, side) →
  ∃ i, bk_index V (t, side) !! i = Some id
    ∧ find_open t side id (openLen t side s) s = Some (Z.of_nat i).
Proof using.
  clear Hd L. intros Hag Ht Hs Hlen [k Hk]%list_elem_of_lookup. set (l := bk_index V (t, side)) in *.
  rewrite (ag_len _ _ _ _ Hag t side Ht Hs). fold l. unfold find_open.
  assert (∀ k x, l !! k = Some x → openAt t side (Z.of_nat k) s = x) as Hat.
  { intros k' x Hx. apply (ag_at _ _ _ _ Hag); try done. apply lookup_lt_Some in Hx. lia. }
  destruct (List.find _ _) as [z|] eqn:E.
  - apply find_some in E as [Hin Heq]. apply list_elem_of_In, elem_of_seqZ in Hin. zbool.
    destruct (lookup_lt_is_Some_2 l (Z.to_nat z)) as [x Hx]; [lia|].
    exists (Z.to_nat z). rewrite Z2Nat.id by lia. split; [|done].
    apply Hat in Hx as Hx'. rewrite Z2Nat.id in Hx' by lia. congruence.
  - exfalso.
    assert (In (Z.of_nat k) (seqZ 0 (Z.of_nat (length l)))) as Hin.
    { apply list_elem_of_In, elem_of_seqZ. apply lookup_lt_Some in Hk. lia. }
    apply (find_none _ _ E) in Hin. zbool. apply Hin. by apply Hat.
Qed.

Lemma getU256_range x (s : S) : is_u256 (getU256 x s).
Proof using. apply u256_range. Qed.

(** Swap-remove of position [i] of the index. *)
Lemma agree_swap_remove s V t side l0 x i : agree A n s V → t ∈ A → 0 <= side <= 1 →
  bk_index V (t, side) = l0 ++ [x] → (i <= length l0)%nat → Z.of_nat (length l0) <= n → n + 1 < 2 ^ 64 →
  let k := Z.of_nat (length l0) in
  let s1 := if negb (Z.of_nat i =? k)
            then setU256 (openAtSlot t side (Z.of_nat i)) (getU256 (openAtSlot t side k) s) s else s in
  agree A n (setU256 (openLenSlot t side) k (setU256 (openAtSlot t side k) 0 s1))
    (set_index t side (if decide (i = length l0) then l0 else <[i := x]> l0) V).
Proof using L Hd.
  intros Hag Ht Hs El Hi Hlen Hn k s1.
  assert (∀ j y, l0 !! j = Some y → openAt t side (Z.of_nat j) s = y) as Hat.
  { intros j y Hj. apply (ag_at _ _ _ _ Hag); try done; [|apply lookup_lt_Some in Hj; lia].
    rewrite El. by apply lookup_app_l_Some. }
  assert (openAt t side k s = x) as Hlast.
  { apply (ag_at _ _ _ _ Hag); try done. rewrite El. by apply list_lookup_middle. }
  assert (∀ j, 0 <= j <= n → ob_in_play A n (openAtSlot t side j)) as Hp by (intros; cbn; auto).
  assert (changes A n (λ y, y = openAtSlot t side (Z.of_nat i)) s s1) as H1.
  { unfold s1. destruct (negb _); [|by intros ? ?]. apply changes_oset; [done|]. apply Hp. lia. }
  set (s2 := setU256 (openAtSlot t side k) 0 s1).
  assert (changes A n (λ y, y = openAtSlot t side k) s1 s2) as H2 by (apply changes_oset; [done|apply Hp; lia]).
  set (s3 := setU256 (openLenSlot t side) k s2).
  assert (changes A n (λ y, y = openLenSlot t side) s2 s3) as H3 by (apply changes_oset; [done|by cbn]).
  apply (agree_index s s3); [done| | |].
  - eapply changes_weaken; [|exact (changes_trans A n _ _ _ _ _ H1 (changes_trans A n _ _ _ _ _ H2 H3))].
    intros y [->|[->| ->]]; [right; eauto|right; eauto|by left].
  - unfold openLen, s3. rewrite getU256_setU256 by (by cbn || (unfold is_u256; lia)).
    rewrite u64_id by (unfold is_u64; lia). destruct (decide _); by rewrite ?length_insert.
  - intros j y Hj Hjn.
    assert (j < length l0)%nat as Hlt.
    { apply lookup_lt_Some in Hj. destruct (decide _); by rewrite ?length_insert in Hj. }
    rewrite (frame_at A n _ _ _ H3) by (done || lia).
    rewrite (frame_at A n _ _ _ H2) by (done || lia || (intros [=]; lia)).
    destruct (decide (j = i)) as [->|Hne].
    + destruct (decide (i = length l0)); [lia|]. rewrite list_lookup_insert_eq in Hj by lia. injection Hj as <-.
      unfold s1. destruct (Z.eqb_spec (Z.of_nat i) k); [lia|]. cbn [negb].
      unfold openAt. rewrite getU256_setU256 by (apply getU256_range || (apply Hp; lia)). exact Hlast.
    + rewrite (frame_at A n _ _ _ H1) by (done || lia || (intros [=]; lia)). apply Hat.
      destruct (decide _); [done|]. by rewrite list_lookup_insert_ne in Hj.
Qed.

(** [removeOpenIndex] takes the id out of the index, in some order. *)
Lemma agree_remove s V t side id : agree A n s V → t ∈ A → 0 <= side <= 1 →
  Z.of_nat (length (bk_index V (t, side))) <= n → n + 1 < 2 ^ 64 → id ∈ bk_index V (t, side) →
  ∃ l, id :: l ≡ₚ bk_index V (t, side) ∧ agree A n (removeOpenIndex t side id s) (set_index t side l V).
Proof using L Hd.
  intros Hag Ht Hs Hlen Hn Hin. unfold removeOpenIndex. cbv zeta.
  destruct (find_open_spec s V t side id Hag Ht Hs Hlen Hin) as (i & Hi & ->).
  rewrite (ag_len _ _ _ _ Hag t side Ht Hs) in *.
  destruct (bk_index V (t, side)) as [|x l0 _] eqn:El using rev_ind; [done|].
  pose proof (lookup_lt_Some _ _ _ Hi) as Hlt. rewrite length_app in *. cbn [length] in *.
  exists (if decide (i = length l0) then l0 else <[i := x]> l0). split; [by apply swap_remove_perm|].
  replace (Z.of_nat (length l0 + 1) - 1) with (Z.of_nat (length l0)) by lia.
  apply agree_swap_remove; try done; lia.
Qed.
End Agree.

(** ** The invariant of the book *)
Definition is_open (o : Order) : Prop := o_Status o = OrderStatusOpen.
#[export] Instance is_open_dec o : Decision (is_open o).
Proof. unfold is_open. apply _. Defined.

(** What an order holds of its maker's quote and base escrow. *)
Definition lock_of (m : Address) (o : Order) : Z :=
  if decide (o_Maker o = m ∧ o_Side o = OrderSideBuy ∧ is_open o)
  then QuoteLockCeil (o_BaseOpen o) (o_PriceX18 o) else 0.
Definition base_of (m t : Address) (o : Order) : Z :=
  if decide (o_Maker o = m ∧ o_BaseToken o = t ∧ o_Side o ≠ OrderSideBuy ∧ is_open o) then o_BaseOpen o else 0.
Definition open_of (m : Address) (o : Order) : Z := if decide (o_Maker o = m ∧ is_open o) then 1 else 0.
Definition open_on (t : Address) (side : Z) (o : Order) : Prop :=
  o_BaseToken o = t ∧ o_Side o = side ∧ is_open o.
#[export] Instance open_on_dec t side o : Decision (open_on t side o).
Proof. unfold open_on. apply _. Defined.

Definition total (f : Order → Z) (V : Book) : Z :=
  sumZ (map (λ id, f (bk_order V id)) (seqZ 1 (bk_next V))).
Definition open_ids (t : Address) (side : Z) (V : Book) : list Z :=
  filter (λ id, open_on t side (bk_order V id)) (seqZ 1 (bk_next V)).

Lemma seqZ_lookup_pos next id : 1 <= id <= next → seqZ 1 next !! Z.to_nat (id - 1) = Some id.
Proof. intros H. apply lookup_seqZ. lia. Qed.

Lemma total_ext f V V' : bk_next V' = bk_next V →
  (∀ id, 1 <= id <= bk_next V → f (bk_order V' id) = f (bk_order V id)) → total f V' = total f V.
Proof.
  intros En Ho. unfold total. rewrite En. f_equal. apply map_ext_in. intros id Hid.
  apply Ho. apply list_elem_of_In, elem_of_seqZ in Hid. lia.
Qed.

Lemma total_set_order f V id o : 1 <= id <= bk_next V →
  total f (set_order id o V) = total f V - f (bk_order V id) + f o.
Proof.
  intros Hid. unfold total. cbn [bk_next bk_order set_order].
  set (l := seqZ 1 (bk_next V)). assert (l !! Z.to_nat (id - 1) = Some id) as Hl by by apply seqZ_lookup_pos.
  assert (map (λ i, f ((<[id:=o]> (bk_order V)) i)) l
          = <[Z.to_nat (id - 1) := f o]> (map (λ i, f (bk_order V i)) l)) as ->.
  { apply list_eq. intros k. rewrite list_lookup_fmap. destruct (decide (k = Z.to_nat (id - 1))) as [->|Hk].
    - rewrite list_lookup_insert_eq by (rewrite length_map; by eapply lookup_lt_Some).
      rewrite Hl. cbn. by rewrite fn_lookup_insert.
    - rewrite list_lookup_insert_ne, list_lookup_fmap by done.
      destruct (l !! k) as [i|] eqn:Ei; [|done]. cbn. rewrite fn_lookup_insert_ne; [done|].
      intros <-. apply lookup_seqZ in Ei. lia. }
  rewrite <- (map_id (<[_ := _]> _)), sumZ_map_insert with (x := f (bk_order V id)); [|by rewrite list_lookup_fmap, Hl].
  rewrite map_id. done.
Qed.

Lemma total_ge f V id : 1 <= id <= bk_next V →
  (∀ i, 1 <= i <= bk_next V → 0 <= f (bk_order V i)) → f (bk_order V id) <= total f V.
Proof.
  intros Hid Hpos. unfold total. pose proof (seqZ_lookup_pos (bk_next V) id Hid) as Hl.
  rewrite <- (take_drop_middle _ _ _ Hl), map_app, sumZ_app. cbn [map]. rewrite sumZ_cons.
  assert (∀ l, l ⊆ seqZ 1 (bk_next V) → 0 <= sumZ (map (λ i, f (bk_order V i)) l)) as H.
  { intros l Hl'. apply sumZ_nonneg, Forall_forall. intros x. rewrite list_elem_of_fmap.
    intros (i & -> & Hi). apply Hpos. apply Hl', elem_of_seqZ in Hi. lia. }
  pose proof (H _ (subseteq_take (Z.to_nat (id - 1)) (seqZ 1 (bk_next V)))).
  pose proof (H _ (subseteq_drop (S (Z.to_nat (id - 1))) (seqZ 1 (bk_next V)))). lia.
Qed.

Lemma total_push f V o : 0 <= bk_next V →
  total f (set_order (bk_next V + 1) o (set_next (bk_next V + 1) V)) = total f V + f o.
Proof.
  intros H. unfold total. cbn [bk_next bk_order set_order set_next]. rewrite seqZ_snoc by done.
  rewrite map_app, sumZ_app. cbn [map]. rewrite (Z.add_comm 1), fn_lookup_insert. unfold sumZ at 2. cbn. 
  rewrite Z.add_0_r. f_equal. f_equal. apply map_ext_in. intros i Hi.
  apply list_elem_of_In, elem_of_seqZ in Hi. rewrite fn_lookup_insert_ne; [done|lia].
Qed.

Lemma filter_ext_in {X} (P Q : X → Prop) `{∀ x, Decision (P x), ∀ x, Decision (Q x)} (l : list X) :
  (∀ x, x ∈ l → P x ↔ Q x) → filter P l = filter Q l.
Proof.
  induction l as [|x l IH]; intros HPQ; [done|]. rewrite !filter_cons.
  rewrite IH by (intros; apply HPQ; by right).
  assert (P x ↔ Q x) as Hx by (apply HPQ; left). destruct (decide (P x)), (decide (Q x)); done || tauto.
Qed.

Lemma open_ids_push t side V o : 0 <= bk_next V →
  open_ids t side (set_order (bk_next V + 1) o (set_next (bk_next V + 1) V))
  = open_ids t side V ++ (if decide (open_on t side o) then [bk_next V + 1] else []).
Proof.
  intros H. unfold open_ids. cbn [bk_next bk_order set_order set_next]. rewrite seqZ_snoc by done.
  rewrite filter_app. f_equal.
  - apply filter_ext_in. intros i Hi%elem_of_seqZ. rewrite fn_lookup_insert_ne; [done|lia].
  - rewrite filter_cons, filter_nil, (Z.add_comm 1), fn_lookup_insert. by destruct (decide _).
Qed.

(** Changing one order moves its id in or out of the open ones. *)
Lemma open_ids_set t side V id o : 1 <= id <= bk_next V → open_on t side (bk_order V id) →
  if decide (open_on t side o) then open_ids t side (set_order id o V) = open_ids t side V
  else id :: open_ids t side (set_order id o V) ≡ₚ open_ids t side V.
Proof.
  intros Hid Hopen. unfold open_ids. cbn [bk_next bk_order set_order].
  set (l := seqZ 1 (bk_next V)). assert (l !! Z.to_nat (id - 1) = Some id) as Hl by by apply seqZ_lookup_pos.
  assert (NoDup l) as Hnd by apply NoDup_seqZ. clearbody l.
  destruct (decide (open_on t side o)) as [Ho|Ho].
  - apply filter_ext_in. intros i _. unfold insert, fn_insert. destruct (decide (id = i)) as [<-|]; done.
  - rewrite <- (take_drop_middle l _ id Hl) in Hnd |- *. apply NoDup_app in Hnd as (_ & Hd & Hnd).
    apply NoDup_cons in Hnd as [Hn2 _]. rewrite !filter_app, !filter_cons.
    rewrite fn_lookup_insert, decide_False, (decide_True (P := open_on t side (bk_order V id))) by done.
    rewrite Permutation_middle. apply reflexive_eq. f_equal; [|f_equal]; apply filter_ext_in; intros i Hi;
      (rewrite fn_lookup_insert_ne; [done|]); intros ->; [|done]. apply (Hd i Hi). left.
Qed.

Lemma open_ids_other t side V id o : ¬ open_on t side (bk_order V id) → ¬ open_on t side o →
  open_ids t side (set_order id o V) = open_ids t side V.
Proof.
  intros H1 H2. unfold open_ids. cbn [bk_next bk_order set_order]. apply filter_ext_in. intros i _.
  unfold insert, fn_insert. by destruct (decide (id = i)) as [<-|].
Qed.

Section BookInvariant.
Context (A : list Address) (n : Z).

(** A resting order: its fields in range, its lock below the word size. *)
Record order_wf (o : Order) : Prop := {
  ow_typed : order_typed o;
  ow_maker : o_Maker o ∈ A;
  ow_token : o_BaseToken o ∈ A;
  ow_side : 0 <= o_Side o <= 1;
  ow_price : 0 < o_PriceX18 o;
  ow_orig : 0 < o_BaseOrig o;
  ow_open : o_BaseOpen o <= o_BaseOrig o;
  ow_live : is_open o → 0 < o_BaseOpen o;
  ow_lock : o_Side o = OrderSideBuy → (o_BaseOrig o * o_PriceX18 o + (oneE18 - 1)) / oneE18 < 2 ^ 256;
}.

Record book_ok (V : Book) : Prop := {
  ok_next : 0 <= bk_next V <= n;
  ok_order : ∀ id, 1 <= id <= bk_next V → o_ID (bk_order V id) = id ∧ order_wf (bk_order V id);
  ok_q : ∀ m, m ∈ A → total (lock_of m) V <= bk_q V m ∧ is_u256 (bk_q V m);
  ok_b : ∀ m t, m ∈ A → t ∈ A → total (base_of m t) V = bk_b V (m, t) ∧ is_u256 (bk_b V (m, t));
  ok_count : ∀ m, m ∈ A → total (open_of m) V = bk_count V m ∧ bk_count V m <= OrderbookMaxOpenPerMaker;
  ok_index : ∀ t side, t ∈ A → 0 <= side <= 1 → bk_index V (t, side) ≡ₚ open_ids t side V;
}.

(** Amounts in range give exact quotes. *)
Lemma QuoteLockCeil_exact base price : 0 < base → 0 < price →
  (base * price + (oneE18 - 1)) / oneE18 < 2 ^ 256 →
  QuoteLockCeil base price = (base * price + (oneE18 - 1)) / oneE18 ∧ 0 < QuoteLockCeil base price.
Proof using.
  clear. intros Hb Hp Hlt. unfold QuoteLockCeil. destruct (Z.eqb_spec base 0); [lia|].
  destruct (Z.eqb_spec price 0); [lia|]. cbn [orb].
  assert (1 <= (base * price + (oneE18 - 1)) / oneE18) as H1.
  { apply Z.div_le_lower_bound; unfold oneE18; nia. }
  rewrite u256_id by (unfold is_u256; lia). split; [done|lia].
Qed.

Lemma QuoteFloor_exact base price : 0 < base → 0 < price →
  (base * price + (oneE18 - 1)) / oneE18 < 2 ^ 256 →
  QuoteFloor base price = base * price / oneE18 ∧ 0 <= QuoteFloor base price.
Proof using.
  clear. intros Hb Hp Hlt. unfold QuoteFloor. destruct (Z.eqb_spec base 0); [lia|].
  destruct (Z.eqb_spec price 0); [lia|]. cbn [orb].
  assert (base * price / oneE18 <= (base * price + (oneE18 - 1)) / oneE18) by (apply Z.div_le_mono; unfold oneE18; lia).
  assert (0 <= base * price / oneE18) by (apply Z.div_pos; unfold oneE18; nia).
  rewrite u256_id by (unfold is_u256; lia). done.
Qed.

Lemma lock_bound base orig price : 0 < price → base <= orig →
  (orig * price + (oneE18 - 1)) / oneE18 < 2 ^ 256 → (base * price + (oneE18 - 1)) / oneE18 < 2 ^ 256.
Proof using.
  clear. intros Hp Hle Hlt. eapply Z.le_lt_trans; [|exact Hlt]. apply Z.div_le_mono; unfold oneE18; nia.
Qed.

(** The lock of what is left covers the lock less what the fill pays. *)
Lemma lock_after_fill orig open filled price : 0 < price → 0 < filled <= open → open <= orig →
  (orig * price + (oneE18 - 1)) / oneE18 < 2 ^ 256 →
  QuoteLockCeil (open - filled) price + QuoteFloor filled price <= QuoteLockCeil open price.
Proof using.
  clear. intros Hp Hf Ho Hlt.
  destruct (QuoteLockCeil_exact open price) as [-> _]; [lia|lia|by eapply lock_bound|].
  destruct (QuoteFloor_exact filled price) as [-> _]; [lia|lia|by eapply (lock_bound filled orig); [..|lia|]|].
  destruct (decide (open = filled)) as [->|Hne].
  - rewrite Z.sub_diag. unfold QuoteLockCeil. cbn [Z.eqb orb]. rewrite Z.add_0_l.
    apply Z.div_le_mono; unfold oneE18; lia.
  - destruct (QuoteLockCeil_exact (open - filled) price) as [-> _]; [lia|lia|by eapply (lock_bound _ orig); [..|lia|]|].
    replace (open * price) with (filled * price + (open - filled) * price) by lia.
    apply ceil_sub_floor; unfold oneE18; nia.
Qed.

Lemma lock_of_nonneg m o : order_wf o → 0 <= lock_of m o.
Proof using.
  intros Hw. unfold lock_of. destruct (decide _) as [(_ & Hs & Ho)|]; [|lia].
  destruct (QuoteLockCeil_exact (o_BaseOpen o) (o_PriceX18 o)); [by apply Hw|apply Hw| |lia].
  eapply lock_bound; [apply Hw|apply Hw|by apply Hw].
Qed.

Lemma base_of_nonneg m t o : order_wf o → 0 <= base_of m t o.
Proof using. intros Hw. unfold base_of. destruct (decide _); [|lia]. apply (ow_typed _ Hw). Qed.

(** The order an operation leaves in place of [o]. *)
Record successor (o o' : Order) : Prop := {
  su_id : o_ID o' = o_ID o;
  su_maker : o_Maker o' = o_Maker o;
  su_token : o_BaseToken o' = o_BaseToken o;
  su_side : o_Side o' = o_Side o;
}.

Lemma successor_others m t side o o' : successor o o' →
  (m ≠ o_Maker o → lock_of m o' = lock_of m o ∧ open_of m o' = open_of m o)
  ∧ ((m, t) ≠ (o_Maker o, o_BaseToken o) → base_of m t o' = base_of m t o)
  ∧ ((t, side) ≠ (o_BaseToken o, o_Side o) → ¬ open_on t side o ∧ ¬ open_on t side o').
Proof using.
  clear. intros [_ Em Et Es]. unfold lock_of, base_of, open_of, open_on. rewrite Em, Et, Es. split_and!.
  - intros Hne. by rewrite !decide_False by naive_solver.
  - intros Hne. by rewrite !decide_False by naive_solver.
  - intros Hne. naive_solver.
Qed.

(** One order changes, and the accounts of its maker with it. *)
Lemma update_ok V V' id o' dq db :
  book_ok V → 1 <= id <= bk_next V →
  let o := bk_order V id in
  is_open o → successor o o' → order_wf o' →
  bk_next V' = bk_next V → (∀ i, bk_order V' i = if decide (id = i) then o' else bk_order V i) →
  0 <= dq → lock_of (o_Maker o) o' + dq <= lock_of (o_Maker o) o →
  (∀ m, bk_q V' m = if decide (o_Maker o = m) then bk_q V m - dq else bk_q V m) →
  0 <= db → base_of (o_Maker o) (o_BaseToken o) o' + db = base_of (o_Maker o) (o_BaseToken o) o →
  (∀ m t, bk_b V' (m, t) = if decide ((o_Maker o, o_BaseToken o) = (m, t)) then bk_b V (m, t) - db else bk_b V (m, t)) →
  (∀ m, bk_count V' m = if decide (o_Maker o = m) then bk_count V m - (if decide (is_open o') then 0 else 1) else bk_count V m) →
  (∀ t side, if decide ((o_BaseToken o, o_Side o) = (t, side) ∧ ¬ is_open o')
    then id :: bk_index V' (t, side) ≡ₚ bk_index V (t, side) else bk_index V' (t, side) = bk_index V (t, side)) →
  book_ok V'.
Proof using.
  intros [Hn Ho Hq Hb Hc Hi] Hid o Hopen Hsu Hw' En Eo Hdq Hlock Eq Hdb Hbase Eb Ec Ei.
  assert (∀ f, total f V' = total f V - f o + f o') as Etot.
  { intros f. pose proof (total_set_order f V id o' Hid) as E. fold o in E. rewrite <- E.
    apply total_ext; [done|]. intros i _. rewrite Eo. unfold set_order. cbn [bk_order]. unfold insert, fn_insert. by destruct (decide (id = i)). }
  assert (∀ t side, open_ids t side V' = open_ids t side (set_order id o' V)) as Eids.
  { intros t side. unfold open_ids. cbn [bk_next bk_order set_order]. rewrite En. apply filter_ext_in.
    intros i _. rewrite Eo. unfold insert, fn_insert. by destruct (decide (id = i)). }
  assert (order_wf o) as Hw by by apply Ho.
  split.
  - lia.
  - rewrite En. intros i Hir. rewrite Eo. destruct (decide (id = i)) as [<-|]; [|by apply Ho].
    split; [|done]. rewrite (su_id _ _ Hsu). by apply Ho.
  - intros m Hm. rewrite Etot, Eq. destruct (Hq m Hm) as [Hle Hr]. unfold is_u256 in *.
    destruct (decide (o_Maker o = m)) as [<-|Hne].
    + split; [lia|]. pose proof (lock_of_nonneg (o_Maker o) o' Hw').
      pose proof (total_ge (lock_of (o_Maker o)) V id Hid) as Hge. fold o in Hge.
      assert (lock_of (o_Maker o) o <= total (lock_of (o_Maker o)) V); [|lia].
      apply Hge. intros i Hir. by apply lock_of_nonneg, Ho.
    + destruct (successor_others m (o_BaseToken o) 0 o o' Hsu) as [E _]. destruct E as [-> _]; [congruence|]. lia.
  - intros m t Hm Ht. rewrite Etot, Eb. destruct (Hb m t Hm Ht) as [He Hr]. unfold is_u256 in *.
    destruct (decide (_ = _)) as [[= <- <-]|Hne].
    + split; [lia|]. pose proof (base_of_nonneg (o_Maker o) (o_BaseToken o) o' Hw').
      pose proof (total_ge (base_of (o_Maker o) (o_BaseToken o)) V id Hid) as Hge. fold o in Hge.
      assert (base_of (o_Maker o) (o_BaseToken o) o <= total (base_of (o_Maker o) (o_BaseToken o)) V); [|lia].
      apply Hge. intros i Hir. by apply base_of_nonneg, Ho.
    + destruct (successor_others m t 0 o o' Hsu) as (_ & E & _). rewrite E by congruence. lia.
  - intros m Hm. rewrite Etot, Ec. destruct (Hc m Hm) as [He Hr].
    destruct (decide (o_Maker o = m)) as [<-|Hne].
    + unfold open_of at 2 3. rewrite (su_maker _ _ Hsu), (decide_True (P := _ ∧ is_open o)) by done.
      destruct (decide (is_open o')); [rewrite decide_True by done|rewrite decide_False by tauto]; lia.
    + destruct (successor_others m (o_BaseToken o) 0 o o' Hsu) as [E _]. destruct E as [_ ->]; [congruence|]. lia.
  - intros t side Ht Hs. rewrite Eids. specialize (Ei t side). specialize (Hi t side Ht Hs).
    destruct (decide ((o_BaseToken o, o_Side o) = (t, side))) as [[= <- <-]|Hne].
    + pose proof (open_ids_set (o_BaseToken o) (o_Side o) V id o' Hid) as Hset.
      fold o in Hset. specialize (Hset (conj eq_refl (conj eq_refl Hopen))).
      destruct (decide (is_open o')) as [Ho'|Ho'].
      * rewrite decide_False in Ei by tauto. rewrite decide_True in Hset by (split_and!; by apply Hsu || done).
        by rewrite Ei, Hset.
      * rewrite decide_True in Ei by done. rewrite decide_False in Hset by (intros (_ & _ & ?); done).
        apply (Permutation_cons_inv (a := id)). by rewrite Ei, Hset.
    + rewrite decide_False in Ei by tauto.
      destruct (successor_others (o_Maker o) t side o o' Hsu) as (_ & _ & E). destruct E as [E1 E2]; [congruence|].
      rewrite (open_ids_other t side V id o') by done. by rewrite Ei.
Qed.

(** A new order joins the book. *)
Lemma place_ok V V' o :
  book_ok V → bk_next V + 1 <= n → o_ID o = bk_next V + 1 → is_open o → order_wf o →
  bk_next V' = bk_next V + 1 → (∀ i, bk_order V' i = if decide (bk_next V + 1 = i) then o else bk_order V i) →
  bk_q V (o_Maker o) + lock_of (o_Maker o) o < 2 ^ 256 →
  (∀ m, bk_q V' m = if decide (o_Maker o = m) then bk_q V m + lock_of m o else bk_q V m) →
  bk_b V (o_Maker o, o_BaseToken o) + base_of (o_Maker o) (o_BaseToken o) o < 2 ^ 256 →
  (∀ m t, bk_b V' (m, t) = if decide ((o_Maker o, o_BaseToken o) = (m, t)) then bk_b V (m, t) + base_of m t o else bk_b V (m, t)) →
  bk_count V (o_Maker o) < OrderbookMaxOpenPerMaker →
  (∀ m, bk_count V' m = if decide (o_Maker o = m) then bk_count V m + 1 else bk_count V m) →
  (∀ t side, bk_index V' (t, side) =
    if decide ((o_BaseToken o, o_Side o) = (t, side)) then bk_index V (t, side) ++ [bk_next V + 1] else bk_index V (t, side)) →
  book_ok V'.
Proof using.
  intros [Hn Ho Hq Hb Hc Hi] Hmax Eid Hopen Hw En Eo Hqr Eq Hbr Eb Hcr Ec Ei.
  assert (∀ f, total f V' = total f V + f o) as Etot.
  { intros f. rewrite <- (total_push f V o) by lia. apply total_ext; [done|]. intros i _. rewrite Eo.
    unfold set_order. cbn [bk_order set_next]. unfold insert, fn_insert. by destruct (decide (_ = i)). }
  assert (∀ t side, open_ids t side V' = open_ids t side V ++ (if decide (open_on t side o) then [bk_next V + 1] else [])) as Eids.
  { intros t side. rewrite <- open_ids_push by lia. unfold open_ids. cbn [bk_next bk_order set_order set_next].
    rewrite En. apply filter_ext_in. intros i _. rewrite Eo. unfold insert, fn_insert. by destruct (decide (_ = i)). }
  split.
  - lia.
  - rewrite En. intros i Hir. rewrite Eo. destruct (decide (_ = i)) as [<-|]; [done|]. apply Ho. lia.
  - intros m Hm. rewrite Etot, Eq. destruct (Hq m Hm) as [Hle Hr]. unfold is_u256 in *.
    pose proof (lock_of_nonneg m o Hw). destruct (decide (_ = m)) as [<-|Hne]; [lia|].
    assert (lock_of m o = 0) as -> by (unfold lock_of; by rewrite decide_False by tauto). lia.
  - intros m t Hm Ht. rewrite Etot, Eb. destruct (Hb m t Hm Ht) as [He Hr]. unfold is_u256 in *.
    pose proof (base_of_nonneg m t o Hw). destruct (decide (_ = _)) as [[= <- <-]|Hne]; [lia|].
    assert (base_of m t o = 0) as -> by (unfold base_of; by rewrite decide_False by naive_solver). lia.
  - intros m Hm. rewrite Etot, Ec. destruct (Hc m Hm) as [He Hr]. unfold open_of at 2.
    destruct (decide (o_Maker o = m)) as [<-|Hne].
    + rewrite decide_True by done. lia.
    + rewrite decide_False by tauto. lia.
  - intros t side Ht Hs. rewrite Eids, Ei. specialize (Hi t side Ht Hs).
    destruct (decide ((o_BaseToken o, o_Side o) = (t, side))) as [[= <- <-]|Hne].
    + rewrite decide_True by done. by rewrite Hi.
    + rewrite decide_False by (unfold open_on; naive_solver). by rewrite app_nil_r.
Qed.
End BookInvariant.
