(* ===== verification/OrderbookSafe.v ===== *)
(** * The order book keeps its promises

    Every operation of the order book is simulated by the abstract book of
    [OrderbookProps] and keeps its invariant.  Hence an open order can always
    be cancelled by its maker for its whole lock and filled by anybody, the
    underflow errors are unreachable, and the best bid and ask are the best
    open orders. *)
From stdpp Require Import functions.
From S2P Require Import Prelude Types Toy Smt StateDB NativeState Staking StakingProps Orderbook OrderbookProps.

Section Safe.
Context `{C : Crypto} {S : Type} `{N : !NativeState S} `{L : !NativeStateLaws S}.
Context (A : list Address) (n : Z) (Hd : obslots_distinct (ob_in_play A n)) (Hn : n + 1 < 2 ^ 64).

(** The state holds a book in order. *)
Definition holds (s : S) : Prop := ∃ V, agree A n s V ∧ book_ok A n V.

Lemma agree_ext s V V' : agree A n s V → bk_next V' = bk_next V → (∀ i, bk_order V' i = bk_order V i) →
  (∀ m, bk_count V' m = bk_count V m) → (∀ m, bk_q V' m = bk_q V m) → (∀ x, bk_b V' x = bk_b V x) →
  (∀ x, bk_index V' x = bk_index V x) → agree A n s V'.
Proof using.
  clear. intros [] E1 E2 E3 E4 E5 E6. split; intros; rewrite ?E1, ?E2, ?E3, ?E4, ?E5, ?E6 in *; auto.
Qed.

Lemma GetOrder_holds s V id : agree A n s V → book_ok A n V → 0 <= id →
  GetOrder id s = if decide (1 <= id <= bk_next V) then Some (bk_order V id) else None.
Proof using.
  clear Hd L. intros Hag Hok Hid. pose proof (ok_next _ _ _ Hok) as Hnx. unfold GetOrder.
  destruct (Z.eqb_spec id 0) as [->|Hne]; [by rewrite decide_False by lia|].
  rewrite (ag_next _ _ _ _ Hag). destruct (Z.ltb_spec (bk_next V) id); [by rewrite decide_False by lia|].
  rewrite decide_True by lia. rewrite (ag_order _ _ _ _ Hag) by lia. cbv zeta.
  destruct (ok_order _ _ _ Hok id) as [_ Hw]; [lia|]. pose proof (ow_orig _ _ Hw).
  destruct (Z.eqb_spec (o_BaseOrig (bk_order V id)) 0); [lia|]. done.
Qed.

(** The index of open orders fits the slots in play. *)
Lemma index_bound V t side : book_ok A n V → t ∈ A → 0 <= side <= 1 →
  Z.of_nat (length (bk_index V (t, side))) <= bk_next V.
Proof using.
  clear Hd Hn L. intros Hok Ht Hs. rewrite (ok_index _ _ _ Hok t side Ht Hs). unfold open_ids.
  pose proof (length_filter (λ id, open_on t side (bk_order V id)) (seqZ 1 (bk_next V))) as H.
  rewrite length_seqZ in H. pose proof (ok_next _ _ _ Hok). lia.
Qed.

Lemma open_in_index V id : book_ok A n V → 1 <= id <= bk_next V → is_open (bk_order V id) →
  id ∈ bk_index V (o_BaseToken (bk_order V id), o_Side (bk_order V id)).
Proof using.
  clear Hd Hn L. intros Hok Hid Ho. destruct (ok_order _ _ _ Hok id Hid) as [_ Hw].
  rewrite (ok_index _ _ _ Hok) by apply Hw. apply list_elem_of_filter. split; [done|].
  apply elem_of_seqZ. lia.
Qed.

Lemma count_range V m : book_ok A n V → m ∈ A → 0 <= bk_count V m <= OrderbookMaxOpenPerMaker.
Proof using.
  clear Hd Hn L. intros Hok Hm. destruct (ok_count _ _ _ Hok m Hm) as [<- H2]. split; [|done].
  unfold total. apply sumZ_nonneg, Forall_forall. intros x. rewrite list_elem_of_fmap.
  intros (i & -> & _). unfold open_of. by destruct (decide _).
Qed.

Lemma count_pos V id : book_ok A n V → 1 <= id <= bk_next V → is_open (bk_order V id) →
  1 <= bk_count V (o_Maker (bk_order V id)).
Proof using.
  clear Hd Hn L. intros Hok Hid Ho. destruct (ok_order _ _ _ Hok id Hid) as [_ Hw].
  destruct (ok_count _ _ _ Hok _ (ow_maker _ _ Hw)) as [<- _].
  assert (open_of (o_Maker (bk_order V id)) (bk_order V id) = 1) as <- by (unfold open_of; by rewrite decide_True).
  apply total_ge; [done|]. intros i _. unfold open_of. by destruct (decide _).
Qed.

(** Closing an open order gives its place in the counter back. *)
Lemma decOpenCount_agree s V m : agree A n s V → m ∈ A → 1 <= bk_count V m <= OrderbookMaxOpenPerMaker →
  agree A n (decOpenCount m s) (set_count m (bk_count V m - 1) V).
Proof using L Hd.
  intros Hag Hm Hc. unfold decOpenCount. rewrite (ag_count _ _ _ _ Hag m Hm). cbv zeta.
  destruct (Z.eqb_spec (bk_count V m) 0); [lia|]. apply agree_count; try done.
  unfold is_u64, OrderbookMaxOpenPerMaker in *. lia.
Qed.

(** ** Placing *)
Lemma validatePlace_agree s V maker price base : agree A n s V → book_ok A n V → maker ∈ A →
  (∃ e, validatePlace maker price base s = (s, Err e)) ∨
  (validatePlace maker price base s = (setU256 (openCountSlot maker) (bk_count V maker + 1) s, Ok tt)
   ∧ agree A n (setU256 (openCountSlot maker) (bk_count V maker + 1) s) (set_count maker (bk_count V maker + 1) V)
   ∧ maker ≠ 0 ∧ price ≠ 0 ∧ base ≠ 0 ∧ bk_count V maker < OrderbookMaxOpenPerMaker).
Proof using L Hd.
  intros Hag Hok Hm. pose proof (count_range V maker Hok Hm) as Hc. unfold validatePlace, incOpenCount.
  destruct (Z.eqb_spec maker 0); [by eauto|]. destruct (Z.eqb_spec price 0); [by eauto|].
  destruct (Z.eqb_spec base 0); [by eauto|]. rewrite (ag_count _ _ _ _ Hag maker Hm). cbv zeta.
  destruct (Z.leb_spec OrderbookMaxOpenPerMaker (bk_count V maker)); [by eauto|]. right.
  assert (is_u64 (bk_count V maker + 1)) as Hu by (unfold is_u64, OrderbookMaxOpenPerMaker in *; lia).
  rewrite u64_id by done. split_and!; try done. by apply agree_count.
Qed.

(** A refused placement takes its increment back. *)
Lemma place_undo s V maker : agree A n s (set_count maker (bk_count V maker + 1) V) → book_ok A n V → maker ∈ A →
  bk_count V maker < OrderbookMaxOpenPerMaker → agree A n (decOpenCount maker s) V.
Proof using L Hd.
  intros Hag Hok Hm Hc. pose proof (count_range V maker Hok Hm).
  eapply agree_ext; [apply (decOpenCount_agree _ _ maker Hag Hm)|..]; try done.
  - cbn [bk_count set_count]. rewrite fn_lookup_insert. lia.
  - intros m. cbn [bk_count set_count]. unfold insert, fn_insert.
    destruct (decide (maker = m)) as [<-|]; [rewrite decide_True by done; lia|done].
Qed.

(** The book with a new order [o] in it. *)
Definition opened (V : Book) (o : Order) : Book :=
  let m := o_Maker o in
  let t := o_BaseToken o in
  let V1 := set_order (o_ID o) o (set_next (o_ID o) (set_count m (bk_count V m + 1) V)) in
  let V2 := if o_Side o =? OrderSideBuy then set_q m (bk_q V m + lock_of m o) V1
            else set_b m t (bk_b V (m, t) + base_of m t o) V1 in
  set_index t (o_Side o) (bk_index V (t, o_Side o) ++ [o_ID o]) V2.

Lemma opened_ok V o : book_ok A n V → bk_next V + 1 <= n → o_ID o = bk_next V + 1 → is_open o →
  order_wf A o → bk_q V (o_Maker o) + lock_of (o_Maker o) o < 2 ^ 256 →
  bk_b V (o_Maker o, o_BaseToken o) + base_of (o_Maker o) (o_BaseToken o) o < 2 ^ 256 →
  bk_count V (o_Maker o) < OrderbookMaxOpenPerMaker → book_ok A n (opened V o).
Proof using.
  clear Hd Hn L. intros Hok Hmax Eid Hop Hw Hq Hb Hc.
  assert (o_Side o ≠ OrderSideBuy → ∀ m, lock_of m o = 0) as Hl0
    by (intros Hs m; unfold lock_of; by rewrite decide_False by tauto).
  assert (o_Side o = OrderSideBuy → ∀ m t, base_of m t o = 0) as Hb0
    by (intros Hs m t; unfold base_of; by rewrite decide_False by tauto).
  apply (place_ok A n V (opened V o) o); try done; unfold opened; rewrite ?Eid;
    destruct (Z.eqb_spec (o_Side o) OrderSideBuy) as [Es|Es];
    cbn [bk_next bk_order bk_q bk_b bk_count bk_index set_index set_q set_b set_order set_next set_count]; try done.
  - intros m. unfold insert, fn_insert. destruct (decide (o_Maker o = m)) as [<-|]; done.
  - intros m. destruct (decide _) as [<-|]; [|done]. rewrite Hl0 by done. lia.
  - intros m t. destruct (decide _) as [[= <- <-]|]; [|done]. rewrite Hb0 by done. lia.
  - intros m t. unfold insert, fn_insert. destruct (decide (_ = _)) as [[= <- <-]|]; done.
  - intros m. unfold insert, fn_insert. destruct (decide (o_Maker o = m)) as [<-|]; done.
  - intros m. unfold insert, fn_insert. destruct (decide (o_Maker o = m)) as [<-|]; done.
  - intros t side. unfold insert, fn_insert. destruct (decide (_ = _)) as [[= <- <-]|]; done.
  - intros t side. unfold insert, fn_insert. destruct (decide (_ = _)) as [[= <- <-]|]; done.
Qed.

Lemma nextOrderID_agree s V : agree A n s V → 0 <= bk_next V → bk_next V + 1 <= n →
  nextOrderID s = (setU256 nextIDSlot (bk_next V + 1) s, bk_next V + 1)
  ∧ agree A n (setU256 nextIDSlot (bk_next V + 1) s) (set_next (bk_next V + 1) V).
Proof using L Hd Hn.
  intros Hag H0 Hmax. unfold nextOrderID. rewrite (ag_next _ _ _ _ Hag). cbv zeta.
  assert (is_u64 (bk_next V + 1)) as Hu by (unfold is_u64; lia). rewrite u64_id by done.
  split; [done|by apply agree_next].
Qed.

Lemma addEscrowQ_agree s V m x : agree A n s V → m ∈ A → 0 <= x → 0 <= bk_q V m → bk_q V m + x < 2 ^ 256 →
  agree A n (addEscrowQ m x s) (set_q m (bk_q V m + x) V).
Proof using L Hd.
  intros Hag Hm Hx H0 Hlt. unfold addEscrowQ. rewrite (ag_q _ _ _ _ Hag m Hm), u256_add by lia.
  apply agree_q; try done. unfold is_u256. lia.
Qed.

Lemma addEscrowB_agree s V m t x : agree A n s V → m ∈ A → t ∈ A → 0 <= x → 0 <= bk_b V (m, t) →
  bk_b V (m, t) + x < 2 ^ 256 → agree A n (addEscrowB m t x s) (set_b m t (bk_b V (m, t) + x) V).
Proof using L Hd.
  intros Hag Hm Ht Hx H0 Hlt. unfold addEscrowB. rewrite (ag_b _ _ _ _ Hag m t Hm Ht), u256_add by lia.
  apply agree_b; try done. unfold is_u256. lia.
Qed.

(** What a caller of [PlaceBuy] and [PlaceSell] provides: typed arguments, and
    amounts the supply can back. *)
Record place_args (maker token : Address) (price base blockNum : Z) : Prop := {
  pa_maker : maker ∈ A;
  pa_token : token ∈ A;
  pa_addr : is_addr maker ∧ is_addr token;
  pa_price : is_u256 price;
  pa_base : is_u256 base;
  pa_block : is_u64 blockNum;
}.

Lemma new_order_wf maker token price base blockNum side V : place_args maker token price base blockNum →
  book_ok A n V → bk_next V + 1 <= n → price ≠ 0 → base ≠ 0 → 0 <= side <= 1 →
  (side = OrderSideBuy → (base * price + (oneE18 - 1)) / oneE18 < 2 ^ 256) →
  order_wf A (mkOrder (bk_next V + 1) maker token side price base base blockNum OrderStatusOpen).
Proof using Hn.
  clear Hd L. intros [] Hok Hmax Hp Hb Hs Hl. pose proof (ok_next _ _ _ Hok) as Hnx. destruct pa_addr0.
  split; cbn; try done; unfold is_u256 in *; try lia.
  split_and!; cbn; unfold is_u64, is_byte, OrderStatusOpen in *; try done; lia.
Qed.

(** An order written to a state that has counted it. *)
Lemma place_write s V o : agree A n s (set_count (o_Maker o) (bk_count V (o_Maker o) + 1) V) →
  book_ok A n V → bk_next V + 1 <= n → o_ID o = bk_next V + 1 → order_wf A o →
  agree A n (writeOrder o (setU256 nextIDSlot (bk_next V + 1) s))
    (set_order (o_ID o) o (set_next (o_ID o) (set_count (o_Maker o) (bk_count V (o_Maker o) + 1) V))).
Proof using L Hd Hn.
  intros Hag Hok Hmax Eid Hw. pose proof (ok_next _ _ _ Hok) as Hnx.
  apply agree_order; [done| |apply Hw|lia]. rewrite Eid. apply agree_next; try done. unfold is_u64. lia.
Qed.

Lemma PlaceBuy_holds s maker token price base blk : holds s → place_args maker token price base blk →
  lastOrderID s + 1 <= n → (base * price + (oneE18 - 1)) / oneE18 < 2 ^ 256 →
  EscrowQuote maker s + QuoteLockCeil base price < 2 ^ 256 →
  holds (PlaceBuy maker token price base blk s).1.
Proof using L Hd Hn.
  intros (V & Hag & Hok) Hargs Hmax Hfit Hesc. pose proof (pa_maker _ _ _ _ _ Hargs) as Hm.
  pose proof (pa_token _ _ _ _ _ Hargs) as Ht.
  rewrite (ag_next _ _ _ _ Hag) in Hmax. rewrite (ag_q _ _ _ _ Hag maker Hm) in Hesc.
  destruct (ok_q _ _ _ Hok maker Hm) as [_ [Hq0 _]]. pose proof (ok_next _ _ _ Hok) as Hnx.
  unfold PlaceBuy.
  destruct (validatePlace_agree s V maker price base Hag Hok Hm) as [[e ->]|(-> & Hag1 & Hm0 & Hp0 & Hb0 & Hc)].
  { by exists V. }
  set (s1 := setU256 (openCountSlot maker) _ s) in *. clearbody s1.
  destruct (Z.eqb_spec token 0); [exists V; split; [by apply place_undo|done]|]. cbv zeta.
  assert (0 < base ∧ 0 < price) as [Hb1 Hp1]
    by (pose proof (pa_base _ _ _ _ _ Hargs); pose proof (pa_price _ _ _ _ _ Hargs); unfold is_u256 in *; lia).
  destruct (QuoteLockCeil_exact base price Hb1 Hp1 Hfit) as [_ Hlock].
  destruct (Z.eqb_spec (QuoteLockCeil base price) 0); [lia|].
  assert (0 <= bk_next (set_count maker (bk_count V maker + 1) V)) as H0 by (cbn; lia).
  destruct (nextOrderID_agree s1 _ Hag1 H0 Hmax) as [-> _]. cbn [fst].
  set (o := mkOrder _ maker token OrderSideBuy price base base blk OrderStatusOpen).
  assert (order_wf A o) as Hw
    by (apply (new_order_wf maker token price base blk OrderSideBuy V); done || by unfold OrderSideBuy).
  assert (lock_of maker o = QuoteLockCeil base price) as El by (unfold lock_of; by rewrite decide_True).
  assert (base_of maker token o = 0) as Eb by (unfold base_of; rewrite decide_False; [done|cbn; tauto]).
  exists (opened V o). split; [|apply opened_ok; try done].
  - pose proof (place_write s1 V o Hag1 Hok Hmax eq_refl Hw) as Hag2.
    pose proof (addEscrowQ_agree _ _ maker (QuoteLockCeil base price) Hag2 Hm) as Hag3.
    specialize (Hag3 ltac:(lia) Hq0 Hesc).
    assert (opened V o = set_index token OrderSideBuy (bk_index V (token, OrderSideBuy) ++ [bk_next V + 1])
      (set_q maker (bk_q V maker + QuoteLockCeil base price) (set_order (o_ID o) o (set_next (o_ID o)
        (set_count maker (bk_count V maker + 1) V))))) as -> by (unfold opened; rewrite <- El; done).
    apply (agree_push A n Hd _ _ token OrderSideBuy (bk_next V + 1) Hag3 Ht); try done.
    + unfold is_u64. lia.
    + cbn. pose proof (index_bound V token OrderSideBuy Hok Ht). unfold OrderSideBuy in *. lia.
  - cbn [o_Maker o_BaseToken o]. rewrite El. exact Hesc.
  - cbn [o_Maker o_BaseToken o]. rewrite Eb. destruct (ok_b _ _ _ Hok maker token Hm Ht) as [_ [_ ?]]. lia.
Qed.

Lemma PlaceSell_holds s maker token price base blk : holds s → place_args maker token price base blk →
  lastOrderID s + 1 <= n → EscrowBase maker token s + base < 2 ^ 256 →
  holds (PlaceSell maker token price base blk s).1.
Proof using L Hd Hn.
  intros (V & Hag & Hok) Hargs Hmax Hesc. pose proof (pa_maker _ _ _ _ _ Hargs) as Hm.
  pose proof (pa_token _ _ _ _ _ Hargs) as Ht. destruct (pa_base _ _ _ _ _ Hargs) as [Hb0 _].
  rewrite (ag_next _ _ _ _ Hag) in Hmax. rewrite (ag_b _ _ _ _ Hag maker token Hm Ht) in Hesc.
  destruct (ok_b _ _ _ Hok maker token Hm Ht) as [_ [Hq0 _]]. pose proof (ok_next _ _ _ Hok) as Hnx.
  unfold PlaceSell.
  destruct (validatePlace_agree s V maker price base Hag Hok Hm) as [[e ->]|(-> & Hag1 & Hm0 & Hp0 & Hbn & Hc)].
  { by exists V. }
  set (s1 := setU256 (openCountSlot maker) _ s) in *. clearbody s1.
  destruct (Z.eqb_spec token 0); [exists V; split; [by apply place_undo|done]|]. cbv zeta.
  assert (0 <= bk_next (set_count maker (bk_count V maker + 1) V)) as H0 by (cbn; lia).
  destruct (nextOrderID_agree s1 _ Hag1 H0 Hmax) as [-> _]. cbn [fst].
  set (o := mkOrder _ maker token OrderSideSell price base base blk OrderStatusOpen).
  assert (order_wf A o) as Hw
    by (apply (new_order_wf maker token price base blk OrderSideSell V); done || by unfold OrderSideSell).
  assert (lock_of maker o = 0) as El by (unfold lock_of; rewrite decide_False; [done|cbn; intros (_ & [=] & _)]).
  assert (base_of maker token o = base) as Eb by (unfold base_of; by rewrite decide_True).
  exists (opened V o). split; [|apply opened_ok; try done].
  - pose proof (place_write s1 V o Hag1 Hok Hmax eq_refl Hw) as Hag2.
    pose proof (addEscrowB_agree _ _ maker token base Hag2 Hm Ht Hb0 Hq0 Hesc) as Hag3.
    assert (opened V o = set_index token OrderSideSell (bk_index V (token, OrderSideSell) ++ [bk_next V + 1])
      (set_b maker token (bk_b V (maker, token) + base) (set_order (o_ID o) o (set_next (o_ID o)
        (set_count maker (bk_count V maker + 1) V))))) as -> 
      by (unfold opened; change (base_of (o_Maker o) (o_BaseToken o) o) with (base_of maker token o); by rewrite Eb).
    apply (agree_push A n Hd _ _ token OrderSideSell (bk_next V + 1) Hag3 Ht); try done.
    + unfold is_u64. lia.
    + cbn. pose proof (index_bound V token OrderSideSell Hok Ht). unfold OrderSideSell in *. lia.
  - cbn [o_Maker o_BaseToken o]. rewrite El. destruct (ok_q _ _ _ Hok maker Hm) as [_ [_ ?]]. lia.
  - cbn [o_Maker o_BaseToken o]. rewrite Eb. exact Hesc.
Qed.

(** ** Taking out of a maker's escrow *)

(** The account of an order's maker that backs it, less [x]. *)
Definition taken (V : Book) (o : Order) (x : Z) : Book :=
  if o_Side o =? OrderSideBuy then set_q (o_Maker o) (bk_q V (o_Maker o) - x) V
  else set_b (o_Maker o) (o_BaseToken o) (bk_b V (o_Maker o, o_BaseToken o) - x) V.

Lemma QuoteLockCeil_nonneg base price : 0 <= QuoteLockCeil base price.
Proof using. clear. unfold QuoteLockCeil. destruct (_ || _); [lia|apply u256_range]. Qed.

(** What backs an open order. *)
Definition backing (o : Order) : Z :=
  if o_Side o =? OrderSideBuy then QuoteLockCeil (o_BaseOpen o) (o_PriceX18 o) else o_BaseOpen o.

Lemma backed V id : book_ok A n V → 1 <= id <= bk_next V → is_open (bk_order V id) →
  let o := bk_order V id in
  if o_Side o =? OrderSideBuy then backing o = lock_of (o_Maker o) o ∧ 0 <= backing o <= bk_q V (o_Maker o)
  else backing o = base_of (o_Maker o) (o_BaseToken o) o
       ∧ 0 <= backing o <= bk_b V (o_Maker o, o_BaseToken o).
Proof using.
  clear Hd Hn L. intros Hok Hid Hop o. destruct (ok_order _ _ _ Hok id Hid) as [_ Hw]. fold o in Hw.
  unfold backing. destruct (Z.eqb_spec (o_Side o) OrderSideBuy) as [Es|Es].
  - assert (lock_of (o_Maker o) o = QuoteLockCeil (o_BaseOpen o) (o_PriceX18 o)) as <-
      by (unfold lock_of; by rewrite decide_True).
    split; [done|]. split; [by apply (lock_of_nonneg A)|].
    destruct (ok_q _ _ _ Hok (o_Maker o)) as [Hle _]; [apply Hw|].
    etransitivity; [|exact Hle]. apply (total_ge (lock_of (o_Maker o)) V id Hid).
    intros i Hi. apply (lock_of_nonneg A), (ok_order _ _ _ Hok i Hi).
  - assert (base_of (o_Maker o) (o_BaseToken o) o = o_BaseOpen o) as <-
      by (unfold base_of; by rewrite decide_True).
    split; [done|]. split; [by apply (base_of_nonneg A)|].
    destruct (ok_b _ _ _ Hok (o_Maker o) (o_BaseToken o)) as [<- _]; [apply Hw..|].
    apply (total_ge (base_of (o_Maker o) (o_BaseToken o)) V id Hid).
    intros i Hi. apply (base_of_nonneg A), (ok_order _ _ _ Hok i Hi).
Qed.

Lemma subEscrowQ_agree s V m x : agree A n s V → m ∈ A → is_u256 (bk_q V m) → 0 <= x <= bk_q V m →
  ∃ s', subEscrowQ m x s = (s', Ok tt) ∧ agree A n s' (set_q m (bk_q V m - x) V).
Proof using L Hd.
  intros Hag Hm Hu Hx. unfold subEscrowQ. rewrite (ag_q _ _ _ _ Hag m Hm). cbv zeta.
  destruct (Z.ltb_spec (bk_q V m) x); [lia|]. rewrite u256_sub by done.
  eexists. split; [done|]. apply agree_q; try done. unfold is_u256 in *. lia.
Qed.

Lemma subEscrowB_agree s V m t x : agree A n s V → m ∈ A → t ∈ A → is_u256 (bk_b V (m, t)) →
  0 <= x <= bk_b V (m, t) →
  ∃ s', subEscrowB m t x s = (s', Ok tt) ∧ agree A n s' (set_b m t (bk_b V (m, t) - x) V).
Proof using L Hd.
  intros Hag Hm Ht Hu Hx. unfold subEscrowB. rewrite (ag_b _ _ _ _ Hag m t Hm Ht). cbv zeta.
  destruct (Z.ltb_spec (bk_b V (m, t)) x); [lia|]. rewrite u256_sub by done.
  eexists. split; [done|]. apply agree_b; try done. unfold is_u256 in *. lia.
Qed.

(** Taking out up to its backing always succeeds. *)
Lemma take_agree s V id x : agree A n s V → book_ok A n V → 1 <= id <= bk_next V → is_open (bk_order V id) →
  let o := bk_order V id in 0 <= x <= backing o →
  ∃ s', (if o_Side o =? OrderSideBuy then subEscrowQ (o_Maker o) x s
         else subEscrowB (o_Maker o) (o_BaseToken o) x s) = (s', Ok tt) ∧ agree A n s' (taken V o x).
Proof using L Hd.
  intros Hag Hok Hid Hop o Hx. pose proof (backed V id Hok Hid Hop) as Hb. fold o in Hb. cbv zeta in Hb.
  destruct (ok_order _ _ _ Hok id Hid) as [_ Hw]. fold o in Hw. unfold taken.
  destruct (o_Side o =? OrderSideBuy).
  - apply subEscrowQ_agree; [done|apply Hw|apply (ok_q _ _ _ Hok), Hw|lia].
  - apply subEscrowB_agree; [done|apply Hw|apply Hw|apply (ok_b _ _ _ Hok); apply Hw|lia].
Qed.

(** The order that is left, with its backing reduced by [x], and the index
    and the counter following it: the book stays in order. *)
Lemma settled V V' id status open x l :
  book_ok A n V → 1 <= id <= bk_next V → let o := bk_order V id in is_open o →
  let o' := close_order o status open in
  0 <= status <= 2 → 0 <= open <= o_BaseOpen o → (is_open o' ↔ 0 < open) →
  0 <= x → (if o_Side o =? OrderSideBuy then backing (close_order o OrderStatusOpen open) + x <= backing o
            else open + x = o_BaseOpen o) →
  (if decide (is_open o') then l = bk_index V (o_BaseToken o, o_Side o)
   else id :: l ≡ₚ bk_index V (o_BaseToken o, o_Side o)) →
  bk_next V' = bk_next V → (∀ i, bk_order V' i = if decide (id = i) then o' else bk_order V i) →
  (∀ m, bk_q V' m = bk_q (taken V o x) m) → (∀ m t, bk_b V' (m, t) = bk_b (taken V o x) (m, t)) →
  (∀ m, bk_count V' m = if decide (o_Maker o = m) then bk_count V m - (if decide (is_open o') then 0 else 1) else bk_count V m) →
  (∀ t side, bk_index V' (t, side) = if decide ((o_BaseToken o, o_Side o) = (t, side)) then l else bk_index V (t, side)) →
  book_ok A n V'.
Proof using.
  clear Hd Hn L. intros Hok Hid o Hop o' Hst Hopen Hlive Hx Hback Hl En Eo Eq Eb Ec Ei.
  destruct (ok_order _ _ _ Hok id Hid) as [Eid Hw]. fold o in Eid, Hw.
  assert (successor o o') as Hsu by by split.
  assert (order_wf A o') as Hw'.
  { destruct Hw as [(T1 & T2 & T3 & T4 & T5 & T6 & T7 & T8 & T9) ? ? ? ? ? ? ? ?]. split; cbn; try done.
    - split_and!; cbn; try done; unfold is_byte, is_u256 in *; lia.
    - lia.
    - apply Hlive. }
  set (buy := o_Side o =? OrderSideBuy) in *.
  apply (update_ok A n V V' id o' (if buy then x else 0) (if buy then 0 else x)); try done; fold o.
  - by destruct buy.
  - clear Eq Eb Ec Ei. revert Hback. unfold lock_of, backing, buy. cbn [o' close_order o_Maker o_Side o_BaseOpen o_PriceX18].
    destruct (Z.eqb_spec (o_Side o) OrderSideBuy) as [Es|Es]; intros Hback.
    + rewrite (decide_True (P := _ ∧ _ ∧ is_open o)) by done.
      destruct (decide (_ ∧ _)) as [_|Hnd]; [exact Hback|].
      pose proof (QuoteLockCeil_nonneg open (o_PriceX18 o)). lia.
    + rewrite !decide_False by tauto. lia.
  - intros m. rewrite Eq. unfold taken. fold buy. destruct buy; cbn [bk_q set_q set_b].
    + unfold insert, fn_insert. by destruct (decide (o_Maker o = m)) as [<-|].
    + destruct (decide (o_Maker o = m)); lia.
  - by destruct buy.
  - unfold base_of. cbn [o' close_order o_Maker o_BaseToken o_Side o_BaseOpen].
    revert Hback. unfold buy. destruct (Z.eqb_spec (o_Side o) OrderSideBuy) as [Es|Es]; intros Hback.
    + rewrite !decide_False by tauto. lia.
    + rewrite (decide_True (P := _ ∧ _ ∧ _ ∧ is_open o)) by done.
      destruct (decide (_ ∧ _)) as [_|Hnd]; [exact Hback|]. assert (¬ 0 < open) by (intros H; apply Hnd; split_and!; try done; by apply Hlive). lia.
  - intros m t. rewrite Eb. unfold taken. fold buy. destruct buy; cbn [bk_b set_q set_b].
    + destruct (decide (_ = (m, t))); lia.
    + unfold insert, fn_insert. by destruct (decide (_ = (m, t))) as [[= <- <-]|].
  - intros t side. rewrite Ei.
    destruct (decide ((o_BaseToken o, o_Side o) = (t, side))) as [[= <- <-]|Hne].
    + destruct (decide (is_open o')); [by rewrite decide_False by tauto|by rewrite decide_True].
    + by rewrite decide_False by tauto.
Qed.

(** ** Cancelling *)
Definition refund_of (o : Order) : Refund :=
  if o_Side o =? OrderSideBuy then mkRefund (backing o) 0 (o_BaseToken o) (o_Side o)
  else mkRefund 0 (backing o) (o_BaseToken o) (o_Side o).

Lemma release_open s V id : agree A n s V → book_ok A n V → 1 <= id <= bk_next V → is_open (bk_order V id) →
  let o := bk_order V id in
  ∃ s', release o s = (s', Ok (refund_of o)) ∧ agree A n s' (taken V o (backing o)).
Proof using L Hd.
  intros Hag Hok Hid Hop o. pose proof (backed V id Hok Hid Hop) as Hb. fold o in Hb. cbv zeta in Hb.
  destruct (ok_order _ _ _ Hok id Hid) as [_ Hw]. fold o in Hw.
  assert (0 <= backing o <= backing o) as Hx by (destruct (_ =? _); lia).
  destruct (take_agree s V id (backing o) Hag Hok Hid Hop Hx) as (s' & Htake & Hag'). fold o in Htake.
  exists s'. split; [|done]. unfold release, refund_of, backing in *. cbv zeta.
  destruct (Z.eqb_spec (o_Side o) OrderSideBuy) as [Es|Es]; [|by rewrite Htake].
  rewrite (ag_q _ _ _ _ Hag (o_Maker o)) by apply Hw.
  destruct (Z.ltb_spec (bk_q V (o_Maker o)) (QuoteLockCeil (o_BaseOpen o) (o_PriceX18 o))); [lia|].
  by rewrite Htake.
Qed.

(** Taking an order out of the index and the counter. *)
Lemma retire_agree s V o id : agree A n s V → o_Maker o ∈ A → o_BaseToken o ∈ A → 0 <= o_Side o <= 1 →
  1 <= bk_count V (o_Maker o) <= OrderbookMaxOpenPerMaker →
  Z.of_nat (length (bk_index V (o_BaseToken o, o_Side o))) <= n → id ∈ bk_index V (o_BaseToken o, o_Side o) →
  ∃ l, id :: l ≡ₚ bk_index V (o_BaseToken o, o_Side o)
    ∧ agree A n (removeOpenIndex (o_BaseToken o) (o_Side o) id (decOpenCount (o_Maker o) s))
        (set_index (o_BaseToken o) (o_Side o) l (set_count (o_Maker o) (bk_count V (o_Maker o) - 1) V)).
Proof using L Hd Hn.
  intros Hag Hm Ht Hs Hc Hlen Hin. pose proof (decOpenCount_agree s V (o_Maker o) Hag Hm Hc) as Hag1.
  exact (agree_remove A n Hd _ _ (o_BaseToken o) (o_Side o) id Hag1 Ht Hs Hlen Hn Hin).
Qed.

Ltac book_simpl :=
  cbn [bk_next bk_order bk_q bk_b bk_count bk_index set_index set_q set_b set_order set_next set_count].

Lemma taken_fields V o x : bk_next (taken V o x) = bk_next V ∧ bk_order (taken V o x) = bk_order V
  ∧ bk_count (taken V o x) = bk_count V ∧ bk_index (taken V o x) = bk_index V.
Proof using. clear. unfold taken. by destruct (_ =? _). Qed.

Lemma Cancel_open s V id : agree A n s V → book_ok A n V → 1 <= id <= bk_next V → is_open (bk_order V id) →
  let o := bk_order V id in
  ∃ s', Cancel (o_Maker o) id s = (s', Ok (refund_of o)) ∧ holds s'.
Proof using L Hd Hn.
  intros Hag Hok Hid Hop o. destruct (ok_order _ _ _ Hok id Hid) as [Eid Hw]. fold o in Eid, Hw.
  destruct (release_open s V id Hag Hok Hid Hop) as (s1 & Hrel & Hag1). fold o in Hrel, Hag1.
  set (o' := close_order o OrderStatusCancelled 0).
  assert (order_typed o') as Ht'.
  { destruct (ow_typed _ _ Hw) as (T1 & T2 & T3 & T4 & T5 & T6 & T7 & T8 & T9).
    split_and!; cbn; try done; unfold is_byte, is_u256, OrderStatusCancelled in *; lia. }
  destruct (taken_fields V o (backing o)) as (F1 & F2 & F3 & F4). pose proof (ok_next _ _ _ Hok) as Hnx.
  assert (0 < o_ID o' <= n) as Hid' by (cbn; lia).
  pose proof (agree_order A n Hd s1 _ o' Hag1 Ht' Hid') as Hag2.
  destruct (retire_agree _ _ o id Hag2) as (l & Hl & Hag3); [apply Hw|apply Hw|apply Hw|..]; book_simpl.
  { rewrite F3. split; [by apply count_pos|by apply count_range, Hw]. }
  { rewrite F4. pose proof (index_bound V (o_BaseToken o) (o_Side o) Hok (ow_token _ _ Hw) (ow_side _ _ Hw)). lia. }
  { rewrite F4. by apply open_in_index. }
  eexists. split.
  - unfold Cancel. rewrite (GetOrder_holds s V id Hag Hok), decide_True by lia. fold o.
    assert ((o_Status o =? OrderStatusOpen) = true) as -> by by apply Z.eqb_eq. rewrite Z.eqb_refl. cbn [negb]. rewrite Hrel. reflexivity.
  - eexists. split; [exact Hag3|]. book_simpl. cbn [bk_index set_order] in Hl. rewrite F4 in Hl.
    eapply (settled V _ id OrderStatusCancelled 0 (backing o) l); try done; fold o; fold o'; book_simpl.
    + pose proof (ow_typed _ _ Hw) as (_ & _ & _ & _ & _ & _ & [? _] & _). lia.
    + pose proof (backed V id Hok Hid Hop) as Hb. fold o in Hb. cbv zeta in Hb. destruct (_ =? _); lia.
    + unfold backing. cbn [close_order o_Side o_BaseOpen o_PriceX18].
      destruct (o_Side o =? OrderSideBuy); [|lia]. unfold QuoteLockCeil at 1. cbn [Z.eqb orb]. lia.
    + intros i. rewrite F2. unfold insert, fn_insert. cbn [o' close_order o_ID]. by rewrite Eid.
    + intros m. rewrite F3. unfold insert, fn_insert. by destruct (decide (o_Maker o = m)) as [<-|].
    + intros t side. rewrite F4. unfold insert, fn_insert. by destruct (decide (_ = (t, side))).
Qed.

(** ** Filling *)
Definition fill_size (o : Order) (maxBase : Z) : Z :=
  if o_BaseOpen o <? maxBase then o_BaseOpen o else maxBase.
Definition fill_debit (o : Order) (b : Z) : Z :=
  if o_Side o =? OrderSideBuy then QuoteFloor b (o_PriceX18 o) else b.

(** A fill takes no more than its share of the backing. *)
Lemma fill_backing o b : order_wf A o → is_open o → 0 < b <= o_BaseOpen o →
  0 <= fill_debit o b <= backing o
  ∧ (if o_Side o =? OrderSideBuy
     then backing (close_order o OrderStatusOpen (o_BaseOpen o - b)) + fill_debit o b <= backing o
     else o_BaseOpen o - b + fill_debit o b = o_BaseOpen o).
Proof using.
  clear Hd Hn L. intros Hw Hop Hb. unfold fill_debit, backing. cbn [close_order o_Side o_BaseOpen o_PriceX18].
  destruct (Z.eqb_spec (o_Side o) OrderSideBuy) as [Es|Es]; [|lia].
  pose proof (lock_after_fill (o_BaseOrig o) (o_BaseOpen o) b (o_PriceX18 o) (ow_price _ _ Hw) Hb
    (ow_open _ _ Hw) (ow_lock _ _ Hw Es)) as Hle.
  pose proof (QuoteLockCeil_nonneg (o_BaseOpen o - b) (o_PriceX18 o)).
  assert (0 <= QuoteFloor b (o_PriceX18 o)); [|lia].
  unfold QuoteFloor. destruct (_ || _); [lia|apply u256_range].
Qed.

Lemma Fill_open s V id taker maxBase : agree A n s V → book_ok A n V → 1 <= id <= bk_next V →
  is_open (bk_order V id) → taker ≠ 0 → 0 < maxBase →
  let o := bk_order V id in let b := fill_size o maxBase in
  ∃ s', Fill taker id maxBase s = (s', Ok (b, QuoteFloor b (o_PriceX18 o))) ∧ holds s'.
Proof using L Hd Hn.
  intros Hag Hok Hid Hop Htk Hmax o b. destruct (ok_order _ _ _ Hok id Hid) as [Eid Hw]. fold o in Eid, Hw.
  pose proof (ow_live _ _ Hw Hop) as Hlive. pose proof (ow_typed _ _ Hw) as (_ & _ & _ & _ & _ & _ & Hbu & _).
  assert (0 < b <= o_BaseOpen o) as Hb by (unfold b, fill_size; destruct (Z.ltb_spec (o_BaseOpen o) maxBase); lia).
  destruct (fill_backing o b Hw Hop Hb) as [Hd1 Hd2].
  destruct (take_agree s V id (fill_debit o b) Hag Hok Hid Hop Hd1) as (s1 & Htake & Hag1). fold o in Htake, Hag1.
  destruct (taken_fields V o (fill_debit o b)) as (F1 & F2 & F3 & F4). pose proof (ok_next _ _ _ Hok) as Hnx.
  assert (Fill taker id maxBase s =
    (let '(s2, status) := if o_BaseOpen o - b =? 0 then
        (removeOpenIndex (o_BaseToken o) (o_Side o) id (decOpenCount (o_Maker o) s1), OrderStatusFilled)
        else (s1, OrderStatusOpen) in
     (writeOrder (close_order o status (o_BaseOpen o - b)) s2, Ok (b, QuoteFloor b (o_PriceX18 o))))) as ->.
  { unfold Fill. destruct (Z.eqb_spec taker 0); [done|]. destruct (Z.eqb_spec maxBase 0); [lia|].
    rewrite (GetOrder_holds s V id Hag Hok), decide_True by lia. fold o.
    assert ((o_Status o =? OrderStatusOpen) = true) as -> by by apply Z.eqb_eq. cbn [negb]. cbv zeta.
    fold (fill_size o maxBase). fold b. unfold debit_maker.
    assert ((if o_Side o =? OrderSideBuy then subEscrowQ (o_Maker o) (QuoteFloor b (o_PriceX18 o)) s
             else subEscrowB (o_Maker o) (o_BaseToken o) b s) = (s1, Ok tt)) as ->.
    { rewrite <- Htake. unfold fill_debit. by destruct (_ =? _). }
    rewrite u256_sub by (done || lia). assert (o_Status o = OrderStatusOpen) as -> by exact Hop. done. }
  assert (∀ status, order_typed (close_order o status (o_BaseOpen o - b)) ↔ is_byte status) as Htyped.
  { intros status. destruct (ow_typed _ _ Hw) as (T1 & T2 & T3 & T4 & T5 & T6 & T7 & T8 & T9).
    split; [by intros (_ & _ & _ & _ & ? & _)|]. intros Hst. split_and!; cbn; try done. unfold is_u256 in *. lia. }
  assert (∀ status, 0 < o_ID (close_order o status (o_BaseOpen o - b)) <= n) as Hid' by (intros; cbn; lia).
  destruct (Z.eqb_spec (o_BaseOpen o - b) 0) as [Hz|Hz].
  - destruct (retire_agree s1 (taken V o (fill_debit o b)) o id Hag1) as (l & Hl & Hag2);
      [apply Hw|apply Hw|apply Hw|..]; rewrite ?F3, ?F4 in *.
    { split; [by apply count_pos|by apply count_range, Hw]. }
    { pose proof (index_bound V (o_BaseToken o) (o_Side o) Hok (ow_token _ _ Hw) (ow_side _ _ Hw)). lia. }
    { by apply open_in_index. }
    eexists. split; [reflexivity|]. eexists.
    split; [apply (agree_order A n Hd _ _ _ Hag2); [by apply Htyped|apply Hid']|].
    eapply (settled V _ id OrderStatusFilled (o_BaseOpen o - b) (fill_debit o b) l); try done; fold o; book_simpl;
      try lia.
    + split; [by intros [=]|lia].
    + intros i. rewrite F2. unfold insert, fn_insert. cbn [close_order o_ID]. by rewrite Eid.
    + intros m. rewrite F3. unfold insert, fn_insert. by destruct (decide (o_Maker o = m)) as [<-|].
    + intros t side. rewrite F4. unfold insert, fn_insert. by destruct (decide (_ = (t, side))).
  - eexists. split; [reflexivity|]. eexists.
    split; [apply (agree_order A n Hd _ _ _ Hag1); [by apply Htyped|apply Hid']|].
    eapply (settled V _ id OrderStatusOpen (o_BaseOpen o - b) (fill_debit o b)
      (bk_index V (o_BaseToken o, o_Side o))); try done; fold o; book_simpl; try lia.
    + split; [lia|done].
    + intros i. rewrite F2. unfold insert, fn_insert. cbn [close_order o_ID]. by rewrite Eid.
    + intros m. rewrite F3. destruct (decide (o_Maker o = m)); [|done]. rewrite decide_True by done. lia.
    + intros t side. rewrite F4. by destruct (decide (_ = (t, side))) as [[= <- <-]|].
Qed.

(** ** Every call *)
Lemma Cancel_holds s actor id : holds s → 0 <= id → holds (Cancel actor id s).1.
Proof using L Hd Hn.
  intros (V & Hag & Hok) Hid. destruct (GetOrder id s) as [o|] eqn:Eg;
    [|unfold Cancel; rewrite Eg; by exists V].
  pose proof Eg as Eg'. rewrite (GetOrder_holds s V id Hag Hok Hid) in Eg.
  destruct (decide _) as [Hr|]; [|done]. injection Eg as Eo.
  destruct (decide (is_open o)) as [Hop|Hnop].
  - destruct (decide (o_Maker o = actor)) as [<-|Hne].
    + rewrite <- Eo in *. destruct (Cancel_open s V id Hag Hok Hr Hop) as (s' & -> & Hh). done.
    + unfold Cancel. rewrite Eg'. apply Z.eqb_eq in Hop. rewrite Hop. apply Z.eqb_neq in Hne. rewrite Hne. by exists V.
  - unfold Cancel. rewrite Eg'. apply Z.eqb_neq in Hnop. rewrite Hnop. by exists V.
Qed.

Lemma Fill_holds s taker id maxBase : holds s → 0 <= id → 0 <= maxBase → holds (Fill taker id maxBase s).1.
Proof using L Hd Hn.
  intros (V & Hag & Hok) Hid Hmax.
  destruct (decide (taker = 0)) as [->|Htk]; [by exists V|].
  destruct (decide (maxBase = 0)) as [->|Hm0].
  { unfold Fill. destruct (taker =? 0); by exists V. }
  destruct (GetOrder id s) as [o|] eqn:Eg.
  - pose proof Eg as Eg'. rewrite (GetOrder_holds s V id Hag Hok Hid) in Eg.
    destruct (decide _) as [Hr|]; [|done]. injection Eg as Eo. destruct (decide (is_open o)) as [Hop|Hnop].
    + rewrite <- Eo in *. assert (0 < maxBase) as Hpos by lia.
      destruct (Fill_open s V id taker maxBase Hag Hok Hr Hop Htk Hpos) as (s' & -> & Hh). done.
    + unfold Fill. apply Z.eqb_neq in Htk, Hm0. rewrite Htk, Hm0, Eg'. apply Z.eqb_neq in Hnop. rewrite Hnop. by exists V.
  - unfold Fill. apply Z.eqb_neq in Htk, Hm0. rewrite Htk, Hm0, Eg. by exists V.
Qed.

(** The calls of the module.  The lock of a buy and the escrows a placement adds
    to fit 256 bits: [order_lock_wraps] below shows what happens otherwise. *)
Inductive ob_call (s : S) : S → Prop :=
| call_PlaceBuy maker token price base blk :
    place_args maker token price base blk → lastOrderID s + 1 <= n →
    (base * price + (oneE18 - 1)) / oneE18 < 2 ^ 256 → EscrowQuote maker s + QuoteLockCeil base price < 2 ^ 256 →
    ob_call s (PlaceBuy maker token price base blk s).1
| call_PlaceSell maker token price base blk :
    place_args maker token price base blk → lastOrderID s + 1 <= n → EscrowBase maker token s + base < 2 ^ 256 →
    ob_call s (PlaceSell maker token price base blk s).1
| call_Cancel actor id : 0 <= id → ob_call s (Cancel actor id s).1
| call_Fill taker id maxBase : 0 <= id → 0 <= maxBase → ob_call s (Fill taker id maxBase s).1.

(** The module's account before the first order. *)
Definition unused (s : S) : Prop := ∀ x, ob_in_play A n x → oget x s = 0.

Lemma unused_holds s : 0 <= n → unused s → holds s.
Proof using.
  clear Hd Hn L. intros H0 Hz.
  exists (mkBook 0 (λ id, readOrder id s) (λ _, 0) (λ _, 0) (λ _, 0) (λ _, [])).
  split; split; cbn; intros; try done; try lia.
  - unfold lastOrderID, getU256. by rewrite Hz by done.
  - unfold OpenCount, getU256. by rewrite Hz by done.
  - unfold EscrowQuote, getU256. by rewrite Hz by done.
  - unfold EscrowBase, getU256. by rewrite Hz by done.
  - unfold openLen, getU256. by rewrite Hz by done.
Qed.

Lemma calls_hold s0 s : 0 <= n → unused s0 → rtc ob_call s0 s → holds s.
Proof using L Hd Hn.
  intros H0 Hz Hr. apply (unused_holds s0 H0) in Hz. induction Hr as [|s s' s'' Hc _ IH]; [done|].
  apply IH. destruct Hc; auto using PlaceBuy_holds, PlaceSell_holds, Cancel_holds, Fill_holds.
Qed.

(** C9. The order book keeps its promise to makers and takers.  After any
    sequence of calls, in which the lock of each buy and the escrow each
    placement adds to fit 256 bits, every open order can be cancelled by its
    maker, who gets back the whole lock of a buy or the whole open amount of a
    sell, and can be filled by any taker for the lesser of the two amounts: the
    escrow underflow errors are unreachable.  The makers and tokens are those
    of a list, with at most [n] orders, and the hash is assumed to keep their
    slots apart. *)
Theorem orderbook_promises s0 s id o :
  0 <= n → unused s0 → rtc ob_call s0 s → 0 <= id → GetOrder id s = Some o → o_Status o = OrderStatusOpen →
  (∃ s', Cancel (o_Maker o) id s = (s', Ok (refund_of o)))
  ∧ (∀ taker maxBase, taker ≠ 0 → 0 < maxBase →
       ∃ s', Fill taker id maxBase s = (s', Ok (fill_size o maxBase, QuoteFloor (fill_size o maxBase) (o_PriceX18 o))))
  ∧ OpenCount (o_Maker o) s <= OrderbookMaxOpenPerMaker.
Proof using L Hd Hn.
  intros H0 Hz Hr Hid Hg Hop. destruct (calls_hold s0 s H0 Hz Hr) as (V & Hag & Hok).
  rewrite (GetOrder_holds s V id Hag Hok Hid) in Hg. destruct (decide _) as [Hrng|]; [|done]. injection Hg as <-.
  destruct (ok_order _ _ _ Hok id Hrng) as [_ Hw]. split_and!.
  - destruct (Cancel_open s V id Hag Hok Hrng Hop) as (s' & H & _). eauto.
  - intros taker maxBase Ht Hm. destruct (Fill_open s V id taker maxBase Hag Hok Hrng Hop Ht Hm) as (s' & H & _). eauto.
  - rewrite (ag_count _ _ _ _ Hag) by apply Hw. apply count_range; [done|apply Hw].
Qed.

(** ** The best orders *)
Definition beats (preferHigh : bool) (x y : Z * Z) : Prop :=
  (if preferHigh then y.1 < x.1 else x.1 < y.1) ∨ (x.1 = y.1 ∧ x.2 < y.2).

Lemma best_scan ph s (l : list Z) (f : Z → Order) :
  (∀ id, id ∈ l → GetOrder id s = Some (f id) ∧ is_open (f id)) →
  match foldl (better ph s) None l with
  | None => l = []
  | Some (p, id) => id ∈ l ∧ p = o_PriceX18 (f id)
      ∧ ∀ j, j ∈ l → j = id ∨ beats ph (p, id) (o_PriceX18 (f j), j)
  end.
Proof using.
  clear. induction l as [|i l IH] using rev_ind; intros Hl; [done|].
  rewrite foldl_app. cbn [foldl]. destruct (Hl i) as [Hg Hop]; [apply elem_of_app; right; left|].
  unfold better at 1. rewrite Hg, (proj2 (Z.eqb_eq _ _) Hop). cbn [negb].
  specialize (IH ltac:(intros id Hin; apply Hl, elem_of_app; by left)).
  destruct (foldl _ None l) as [[p id]|]; [|subst l; cbn; split_and!; [left|done|]; intros j ->%list_elem_of_singleton; by left].
  destruct IH as (Hin & -> & Hbest). set (q := o_PriceX18 (f i)).
  assert ((if ph then o_PriceX18 (f id) <? q else q <? o_PriceX18 (f id)) || (q =? o_PriceX18 (f id)) && (i <? id) = true
    ↔ beats ph (q, i) (o_PriceX18 (f id), id)) as Hiff.
  { unfold beats. cbn [fst snd]. rewrite orb_true_iff, andb_true_iff, Z.eqb_eq, Z.ltb_lt.
    destruct ph; rewrite Z.ltb_lt; done. }
  destruct (_ || _).
  - pose proof (proj1 Hiff eq_refl) as E. split_and!; [apply elem_of_app; right; left|done|]. intros j [Hj|Hj]%elem_of_app.
    + right. destruct (Hbest j Hj) as [->|Hb]; [done|]. unfold beats in *. cbn [fst snd] in *. destruct ph; lia.
    + apply list_elem_of_singleton in Hj. by left.
  - assert (¬ beats ph (q, i) (o_PriceX18 (f id), id)) as E by (rewrite <- Hiff; done).
    split_and!; [apply elem_of_app; by left|done|]. intros j [Hj|Hj]%elem_of_app; [by apply Hbest|].
    apply list_elem_of_singleton in Hj as ->. destruct (decide (i = id)) as [->|Hne]; [by left|right].
    fold q. unfold beats in *. cbn [fst snd] in *. destruct ph; lia.
Qed.

Lemma index_read s V t side : agree A n s V → book_ok A n V → t ∈ A → 0 <= side <= 1 →
  map (λ i, openAt t side i s) (seqZ 0 (openLen t side s)) = bk_index V (t, side).
Proof using.
  clear Hd Hn L. intros Hag Hok Ht Hs. pose proof (index_bound V t side Hok Ht Hs) as Hb.
  pose proof (ok_next _ _ _ Hok). rewrite (ag_len _ _ _ _ Hag t side Ht Hs).
  set (l := bk_index V (t, side)) in *. apply list_eq. intros k. rewrite list_lookup_fmap.
  destruct (l !! k) as [x|] eqn:Ek.
  - pose proof (lookup_lt_Some _ _ _ Ek) as Hlt.
    rewrite (proj2 (lookup_seqZ _ _ _ (Z.of_nat k))) by lia. cbn. f_equal. apply (ag_at _ _ _ _ Hag); try done. lia.
  - apply lookup_ge_None in Ek. rewrite (lookup_seqZ_ge _ _ _) by lia. done.
Qed.

(** The best bid and the best ask are what they claim to be.  On every
    reachable book [BestBid] is absent exactly when no buy of the token is
    open, and otherwise names an open buy at its price such that every other
    open buy of the token has a lower price or the same price and a later id;
    [BestAsk] is the same for sells with the order of prices reversed. *)
Theorem best_is_best s0 s token (ask : bool) :
  0 <= n → unused s0 → rtc ob_call s0 s → token ∈ A →
  let side := if ask then OrderSideSell else OrderSideBuy in
  match (if ask then BestAsk token s else BestBid token s) with
  | None => ∀ id o, 0 <= id → GetOrder id s = Some o → ¬ open_on token side o
  | Some (p, id) => ∃ o, GetOrder id s = Some o ∧ open_on token side o ∧ p = o_PriceX18 o
      ∧ ∀ j oj, 0 <= j → GetOrder j s = Some oj → open_on token side oj →
          j = id ∨ beats (negb ask) (p, id) (o_PriceX18 oj, j)
  end.
Proof using L Hd Hn.
  intros H0 Hz Hr Ht side. destruct (calls_hold s0 s H0 Hz Hr) as (V & Hag & Hok).
  assert (0 <= side <= 1) as Hs by (unfold side; destruct ask; unfold OrderSideSell, OrderSideBuy; lia).
  assert ((if ask then BestAsk token s else BestBid token s) = foldl (better (negb ask) s) None (bk_index V (token, side))) as ->.
  { rewrite <- (index_read s V token side Hag Hok Ht Hs). by destruct ask. }
  assert (∀ id, id ∈ bk_index V (token, side) ↔ 1 <= id <= bk_next V ∧ open_on token side (bk_order V id)) as Hin.
  { intros id. rewrite (ok_index _ _ _ Hok token side Ht Hs). unfold open_ids.
    rewrite list_elem_of_filter, elem_of_seqZ. split; intros [H1 H2]; (split; [|done || lia]); done || lia. }
  assert (∀ id o, 0 <= id → GetOrder id s = Some o → open_on token side o →
    o = bk_order V id ∧ id ∈ bk_index V (token, side)) as Hmem.
  { intros id o Hid Hg Ho. rewrite (GetOrder_holds s V id Hag Hok Hid) in Hg.
    destruct (decide _) as [Hrng|]; [|done]. injection Hg as <-. split; [done|]. by apply Hin. }
  assert (∀ id, id ∈ bk_index V (token, side) → GetOrder id s = Some (bk_order V id) ∧ is_open (bk_order V id)) as Hall.
  { intros id [Hid Ho]%Hin. rewrite (GetOrder_holds s V id Hag Hok), decide_True by lia. split; [done|apply Ho]. }
  pose proof (best_scan (negb ask) s (bk_index V (token, side)) (bk_order V) Hall) as Hscan.
  destruct (foldl _ None _) as [[p id]|].
  - destruct Hscan as (Hid & -> & Hbest). apply Hin in Hid as [Hrng Ho]. exists (bk_order V id).
    rewrite (GetOrder_holds s V id Hag Hok), decide_True by lia. split_and!; try done.
    intros j oj Hj Hg Hoj. destruct (Hmem j oj Hj Hg Hoj) as [-> Hjin]. by apply Hbest.
  - intros id o Hid Hg Ho. destruct (Hmem id o Hid Hg Ho) as [_ Hx]. rewrite Hscan in Hx. by apply elem_of_nil in Hx.
Qed.
End Safe.

(** ** Evaluation *)
Definition obslots_of (A : list Address) (n : nat) : list obslot :=
  nextIDSlot
  :: concat (map (λ i, map (λ f, orderSlot (Z.of_nat i) f) [0; 1; 2; 3; 4]) (seq 0 (n + 1)))
  ++ concat (map (λ a, [openCountSlot a; escrowQSlot a; openLenSlot a 0; openLenSlot a 1]) A)
  ++ concat (map (λ m, map (λ t, escrowBSlot m t) A) A)
  ++ concat (map (λ t, concat (map (λ i, [openAtSlot t 0 (Z.of_nat i); openAtSlot t 1 (Z.of_nat i)]) (seq 0 (n + 1)))) A).

Lemma obslots_of_complete A n x : ob_in_play A (Z.of_nat n) x → x ∈ obslots_of A n.
Proof.
  unfold obslots_of. rewrite elem_of_cons, !elem_of_app.
  assert (∀ i, 0 <= i <= Z.of_nat n → ∃ k, k ∈ seq 0 (n + 1) ∧ i = Z.of_nat k) as Hseq.
  { intros i Hi. exists (Z.to_nat i). split; [apply elem_of_seq; lia|lia]. }
  assert (∀ side, 0 <= side <= 1 → side = 0 ∨ side = 1) as Hside by lia.
  destruct x; cbn [ob_in_play]; intros H.
  - by left.
  - destruct H as [Hi Hf]. destruct (Hseq _ Hi) as (k & Hk & ->). right. left.
    eapply elem_of_concat_map; [exact Hk|]. apply list_elem_of_fmap. exists field. split; [done|].
    assert (field = 0 ∨ field = 1 ∨ field = 2 ∨ field = 3 ∨ field = 4) as E by lia. set_solver.
  - right. right. left. eapply elem_of_concat_map; [exact H|set_solver].
  - right. right. left. eapply elem_of_concat_map; [exact H|set_solver].
  - right. right. right. left. destruct H as [H1 H2]. eapply elem_of_concat_map; [exact H1|].
    apply list_elem_of_fmap. eauto.
  - right. right. left. destruct H as [H1 [->| ->]%Hside]; (eapply elem_of_concat_map; [exact H1|set_solver]).
  - right. right. right. right. destruct H as (H1 & [->| ->]%Hside & (k & Hk & ->)%Hseq);
      (eapply elem_of_concat_map; [exact H1|]; eapply elem_of_concat_map; [exact Hk|set_solver]).
Qed.

Lemma obslots_distinct_enum `{C : Crypto} A n :
  NoDup (map obSlot (obslots_of A n)) → obslots_distinct (ob_in_play A (Z.of_nat n)).
Proof.
  intros Hnd x y Hx%obslots_of_complete Hy%obslots_of_complete Heq.
  apply list_elem_of_lookup in Hx as [i Hi], Hy as [j Hj].
  assert (i = j) as ->; [|congruence]. eapply NoDup_lookup; [exact Hnd| |].
  - rewrite list_lookup_fmap, Hi. reflexivity.
  - rewrite list_lookup_fmap, Hj. apply (f_equal Some). symmetry. exact Heq.
Qed.

Section Witness.
Local Existing Instances toy_crypto toy_crypto_laws toy_codec.

Lemma toy_obslots_distinct : obslots_distinct (ob_in_play [5; 6] (Z.of_nat 3)).
Proof. apply obslots_distinct_enum. vm_decide. Qed.

Lemma toy_unused : unused [5; 6] (Z.of_nat 3) (New ∅).
Proof.
  intros x _. unfold oget. cbn [ns_GetState StateDB_native]. rewrite (proj1 (GetState_spec _ _ _)). reflexivity.
Qed.

(** Maker 5 bids 10 units of token 6 at 2 wei each. *)
Definition one_bid : StateDB := (PlaceBuy 5 6 (2 * 10 ^ 18) 10 1 (New ∅)).1.
Definition the_bid : Order := mkOrder 1 5 6 OrderSideBuy (2 * 10 ^ 18) 10 10 1 OrderStatusOpen.

Lemma one_bid_reached : rtc (ob_call [5; 6] (Z.of_nat 3)) (New ∅) one_bid.
Proof.
  apply rtc_once, call_PlaceBuy.
  - split; [set_solver|set_solver|unfold is_addr; lia|unfold is_u256; lia|unfold is_u256; lia|unfold is_u64; lia].
  - vm_compute. discriminate.
  - vm_compute. reflexivity.
  - vm_compute. reflexivity.
Qed.

Lemma one_bid_order : GetOrder 1 one_bid = Some the_bid.
Proof. vm_compute. reflexivity. Qed.

Lemma orderbook_promises_witness : ∃ s', Cancel 5 1 one_bid = (s', Ok (mkRefund 20 0 6 0)).
Proof.
  destruct (orderbook_promises [5; 6] (Z.of_nat 3) toy_obslots_distinct ltac:(reflexivity) (New ∅) one_bid 1 the_bid)
    as [H _].
  - discriminate.
  - exact toy_unused.
  - exact one_bid_reached.
  - discriminate.
  - exact one_bid_order.
  - reflexivity.
  - exact H.
Defined.

(** [QuoteLockCeil] keeps the low 256 bits: a bid for 2^100 units at a price of
    2^156 wei and a fraction each is placed for a lock of about 10^12 wei, and
    a taker cannot sell a single unit to it. *)
Lemma order_lock_wraps :
  let price := 10 ^ 18 * 2 ^ 156 + 1 in
  let s := (PlaceBuy 5 6 price (2 ^ 100) 1 (New ∅)).1 in
  (PlaceBuy 5 6 price (2 ^ 100) 1 (New ∅)).2 = Ok (1, 1267650600229)
  ∧ (Fill 7 1 1 s).2 = Err "orderbook: escrow quote underflow".
Proof. vm_compute. split; reflexivity. Qed.

Lemma best_is_best_witness : ∃ p id, BestBid 6 one_bid = Some (p, id) ∧ p = 2 * 10 ^ 18.
Proof.
  pose proof (best_is_best [5; 6] (Z.of_nat 3) toy_obslots_distinct ltac:(reflexivity) (New ∅) one_bid 6 false
    ltac:(discriminate) toy_unused one_bid_reached ltac:(set_solver)) as H.
  cbv zeta in H. destruct (BestBid 6 one_bid) as [[p id]|] eqn:E.
  - exists p, id. split; [reflexivity|]. vm_compute in E. injection E as <- _. reflexivity.
  - destruct (H 1 the_bid ltac:(discriminate) one_bid_order). repeat split.
Defined.
End Witness.
