(* ===== verification/OrderbookCall.v ===== *)
(** * The order book precompile 0x101

    Models [core/vm/orderbook_precompile.go]: the contract that moves money
    for the order book module.  Buyers pay the quote in DEW with the value of
    the call, base tokens move through calls of the token contract.

    The interpreter's [Call] that runs a token is a parameter: a function of
    the caller, the token, its input and the gas on the world. *)
From S2P Require Import Prelude Types Toy Smt StateDB NativeState Staking StakingProps.
From S2P Require Import Orderbook OrderbookProps Vm Precompiles.

Definition ObMethodPlace : Z := 0.
Definition ObMethodCancel : Z := 1.
Definition ObMethodFill : Z := 2.
Definition ObMethodGetOrder : Z := 3.
Definition ObMethodBestBid : Z := 4.
Definition ObMethodBestAsk : Z := 5.
Definition ObMethodGetEscrow : Z := 6.

Definition OrderbookGasPlace : Z := 50000.
Definition OrderbookGasCancel : Z := 30000.
Definition OrderbookGasFill : Z := 80000.
Definition OrderbookGasQuery : Z := 3000.

Definition selTransferFrom : list Z := [0x23; 0xb8; 0x72; 0xdd].
Definition selTransfer : list Z := [0xa9; 0x05; 0x9c; 0xbb].
Definition erc20CallGas : Z := 100000.

Definition orderbook_RequiredGas (input : list Z) : Z :=
  match input with
  | [] => OrderbookGasQuery
  | m :: _ =>
      if m =? ObMethodPlace then OrderbookGasPlace else
      if m =? ObMethodCancel then OrderbookGasCancel else
      if m =? ObMethodFill then OrderbookGasFill else OrderbookGasQuery
  end.

(** [evm.Call] with a value of zero: caller, callee, input, gas. *)
Definition evm_caller (S : Type) : Type :=
  Address → Address → list Z → Z → world S → world S * (list Z * option string).

Record orderbookPrecompile (S : Type) : Type := mkOrderbookPrecompile {
  op_self : Address;
  op_origin : Address;
  op_evm : option (evm_caller S);
  op_blockNum : Z;
  op_enabled : bool;
}.
Arguments mkOrderbookPrecompile {S}.
Arguments op_self {S}.
Arguments op_origin {S}.
Arguments op_evm {S}.
Arguments op_blockNum {S}.
Arguments op_enabled {S}.

Definition erc20Success (ret : list Z) : bool :=
  match ret with [] => true | _ => negb (of_be ret =? 0) end.

Definition packFillOut (baseFilled quotePaid : Z) : list Z := u256Pad baseFilled ++ u256Pad quotePaid.

Definition order_words (o : Order) : list Z :=
  u256Pad (o_ID o) ++ u256Pad (o_Maker o) ++ u256Pad (o_BaseToken o) ++ u256Pad (o_Side o) ++
  u256Pad (o_PriceX18 o) ++ u256Pad (o_BaseOpen o) ++ u256Pad (o_BaseOrig o) ++ u256Pad (o_CreatedAt o) ++
  u256Pad (o_Status o).

Section Contract.
Context `{C : Crypto} {S : Type} `{N : !NativeState S}.
Implicit Types (p : orderbookPrecompile S) (w : world S).

Definition depositValue w : Z :=
  match w_obVal w with Some (mkValueCtx _ (Some amount)) => amount | _ => 0 end.

Definition consumeDeposit w : world S := mkWorld (w_db w) (w_stakeVal w) (consumed (w_obVal w)).

(** A token call; an empty answer counts as success. *)
Definition erc20_call p (token : Address) (data : list Z) (what : string) w : world S * res unit :=
  match op_evm p with
  | None => (w, Err "native swap: no evm for erc20")
  | Some call =>
      let '(w, (ret, err)) := call (op_self p) token data erc20CallGas w in
      match err with
      | Some _ => (w, Err what)
      | None => if (0 <? length ret)%nat && negb (erc20Success ret) then (w, Err what) else (w, Ok tt)
      end
  end.

Definition erc20TransferFrom p (token from to : Address) (amount : Z) w : world S * res unit :=
  if amount =? 0 then (w, Ok tt) else
  erc20_call p token (selTransferFrom ++ u256Pad from ++ u256Pad to ++ u256Pad amount) "native swap: transferFrom" w.

Definition erc20Transfer p (token to : Address) (amount : Z) w : world S * res unit :=
  if amount =? 0 then (w, Ok tt) else
  erc20_call p token (selTransfer ++ u256Pad to ++ u256Pad amount) "native swap: transfer" w.

(** DEW from the module's account to [to], when it holds that much. *)
Definition pay_quote p (to : Address) (amount : Z) (msg : string) w : world S * res unit :=
  if ns_GetBalance (op_self p) (w_db w) <? amount then (w, Err msg)
  else (with_db (ns_AddBalance to amount (ns_SubBalance (op_self p) amount (w_db w))) w, Ok tt).

Definition place_buy p (token : Address) (price baseAmt : Z) w : world S * res (list Z) :=
  let quoteLock := QuoteLockCeil baseAmt price in
  if negb (depositValue w =? quoteLock) then (w, Err "native swap: place buy requires CALLVALUE == quoteLock") else
  match PlaceBuy (op_origin p) token price baseAmt (op_blockNum p) (w_db w) with
  | (s, Err e) => (with_db s w, Err e)
  | (s, Ok (id, lock)) =>
      if negb (lock =? quoteLock) then (with_db s w, Err "native swap: quote lock mismatch")
      else (consumeDeposit (with_db s w), Ok (u256Pad id))
  end.

Definition place_sell p (token : Address) (price baseAmt : Z) w : world S * res (list Z) :=
  if negb (depositValue w =? 0) then (w, Err "native swap: place sell requires zero CALLVALUE") else
  match erc20TransferFrom p token (op_origin p) (op_self p) baseAmt w with
  | (w, Err e) => (w, Err e)
  | (w, Ok _) =>
      match PlaceSell (op_origin p) token price baseAmt (op_blockNum p) (w_db w) with
      | (s, Err e) => (with_db s w, Err e)
      | (s, Ok id) => (with_db s w, Ok (u256Pad id))
      end
  end.

Definition place p (input : list Z) w : world S * res (list Z) :=
  if negb (length input =? 86)%nat then (w, Err "native swap: place input length") else
  let side := arg 1 1 input in
  let token := arg 2 20 input in
  let price := arg 22 32 input in
  let baseAmt := arg 54 32 input in
  if side =? OrderSideBuy then place_buy p token price baseAmt w else
  if side =? OrderSideSell then place_sell p token price baseAmt w else
  (w, Err "native swap: invalid side").

Definition refund_quote p (refund : Refund) w : world S * res unit :=
  if rf_Quote refund =? 0 then (w, Ok tt)
  else pay_quote p (op_origin p) (rf_Quote refund) "native swap: quote escrow insolvent" w.

Definition cancel p (input : list Z) w : world S * res (list Z) :=
  if negb (length input =? 33)%nat then (w, Err "native swap: cancel needs orderId") else
  let id := u64 (arg 1 32 input) in
  match Cancel (op_origin p) id (w_db w) with
  | (s, Err e) => (with_db s w, Err e)
  | (s, Ok refund) =>
      match refund_quote p refund (with_db s w) with
      | (w, Err e) => (w, Err e)
      | (w, Ok _) =>
          match erc20Transfer p (rf_Token refund) (op_origin p) (rf_Base refund) w with
          | (w, Err e) => (w, Err e)
          | (w, Ok _) => (w, Ok [])
          end
      end
  end.

(** A sell order is taken: the taker paid with the call's value. *)
Definition fill_sell p (o : Order) (id maxBase quoteNeed : Z) w : world S * res (list Z) :=
  let val := depositValue w in
  if val <? quoteNeed then (w, Err "native swap: fill sell needs CALLVALUE") else
  match Fill (op_origin p) id maxBase (w_db w) with
  | (s, Err e) => (with_db s w, Err e)
  | (s, Ok (baseFilled, quotePaid)) =>
      match erc20Transfer p (o_BaseToken o) (op_origin p) baseFilled (with_db s w) with
      | (w, Err e) => (w, Err e)
      | (w, Ok _) =>
          match (if quotePaid =? 0 then (w, Ok tt)
                 else pay_quote p (o_Maker o) quotePaid "native swap: quote insolvent on fill" w) with
          | (w, Err e) => (w, Err e)
          | (w, Ok _) =>
              let excess := val -₂₅₆ quotePaid in
              (* Sign of the 256-bit word as a two's complement number *)
              match (if (0 <? excess) && (excess <? 2 ^ 255)
                     then pay_quote p (op_origin p) excess "native swap: excess refund insolvent" w
                     else (w, Ok tt)) with
              | (w, Err e) => (w, Err e)
              | (w, Ok _) => (consumeDeposit w, Ok (packFillOut baseFilled quotePaid))
              end
          end
      end
  end.

(** A buy order is taken: the taker brings the base and gets the quote. *)
Definition fill_buy p (o : Order) (id maxBase fillBase : Z) w : world S * res (list Z) :=
  if negb (depositValue w =? 0) then (w, Err "native swap: fill buy requires zero CALLVALUE") else
  match erc20TransferFrom p (o_BaseToken o) (op_origin p) (op_self p) fillBase w with
  | (w, Err e) => (w, Err e)
  | (w, Ok _) =>
      match Fill (op_origin p) id maxBase (w_db w) with
      | (s, Err e) => (with_db s w, Err e)
      | (s, Ok (baseFilled, quotePaid)) =>
          match (if baseFilled <? fillBase
                 then erc20Transfer p (o_BaseToken o) (op_origin p) (fillBase -₂₅₆ baseFilled) (with_db s w)
                 else (with_db s w, Ok tt)) with
          | (w, Err e) => (w, Err e)
          | (w, Ok _) =>
              match erc20Transfer p (o_BaseToken o) (o_Maker o) baseFilled w with
              | (w, Err e) => (w, Err e)
              | (w, Ok _) =>
                  match (if quotePaid =? 0 then (w, Ok tt)
                         else pay_quote p (op_origin p) quotePaid "native swap: quote insolvent on buy fill" w) with
                  | (w, Err e) => (w, Err e)
                  | (w, Ok _) => (w, Ok (packFillOut baseFilled quotePaid))
                  end
              end
          end
      end
  end.

Definition fill p (input : list Z) w : world S * res (list Z) :=
  if negb (length input =? 65)%nat then (w, Err "native swap: fill needs orderId + baseAmount") else
  let id := u64 (arg 1 32 input) in
  let maxBase := arg 33 32 input in
  match GetOrder id (w_db w) with
  | None => (w, Err "orderbook: order not found")
  | Some o =>
      if negb (o_Status o =? OrderStatusOpen) then (w, Err "orderbook: order not open") else
      let fillBase := if o_BaseOpen o <? maxBase then o_BaseOpen o else maxBase in
      let quoteNeed := QuoteFloor fillBase (o_PriceX18 o) in
      if o_Side o =? OrderSideSell then fill_sell p o id maxBase quoteNeed w
      else fill_buy p o id maxBase fillBase w
  end.

Definition getOrder (input : list Z) (s : S) : res (list Z) :=
  if negb (length input =? 33)%nat then Err "native swap: getOrder needs orderId" else
  match GetOrder (u64 (arg 1 32 input)) s with None => Ok [] | Some o => Ok (order_words o) end.

Definition best_call (input : list Z) (bid : bool) (s : S) : res (list Z) :=
  if negb (length input =? 21)%nat then Err "native swap: best needs baseToken" else
  let token := arg 1 20 input in
  match (if bid then BestBid token s else BestAsk token s) with
  | None => Ok (u256Pad 0 ++ u256Pad 0)
  | Some (price, id) => Ok (u256Pad price ++ u256Pad id)
  end.

Definition getEscrow (input : list Z) (s : S) : res (list Z) :=
  if negb (length input =? 41)%nat then Err "native swap: getEscrow needs maker + baseToken" else
  let maker := arg 1 20 input in
  let token := arg 21 20 input in
  Ok (u256Pad (EscrowBase maker token s) ++ u256Pad (EscrowQuote maker s)).

Definition orderbook_Run p (input : list Z) w : world S * res (list Z) :=
  if negb (op_enabled p) then (w, Err "native swap: not enabled (set EnableNativeSwap)") else
  match input with
  | [] => (w, Err "native swap: empty input")
  | method :: _ =>
      if method =? ObMethodPlace then place p input w else
      if method =? ObMethodCancel then cancel p input w else
      if method =? ObMethodFill then fill p input w else
      if method =? ObMethodGetOrder then (w, getOrder input (w_db w)) else
      if method =? ObMethodBestBid then (w, best_call input true (w_db w)) else
      if method =? ObMethodBestAsk then (w, best_call input false (w_db w)) else
      if method =? ObMethodGetEscrow then (w, getEscrow input (w_db w)) else
      (w, Err "method")
  end.
End Contract.
