(* ===== verification/OrderbookSolvent.v ===== *)
(** * The order book can pay

    The invariant of the contract 0x101 as a holder of money: its DEW balance
    covers the quote escrow of all makers together with the value of the
    current call.  Every call that is not reverted keeps it, for tokens that
    do not call back into the contract; so no such call can fail for lack of
    funds. *)
From S2P Require Import Prelude Types Toy Smt StateDB StateRevert NativeState Staking StakingProps.
From S2P Require Import Orderbook OrderbookProps OrderbookSafe Vm Precompiles OrderbookCall.

(** The side byte of an order's header word. *)
Definition header_side (h : Hash) : Z := default 0 (hash_bytes h !! 20%nat).
Definition side_ok (x : Z) : Prop := x = OrderSideBuy ∨ x = OrderSideSell.

Section Solvent.
Context `{C : Crypto} {S : Type} `{N : !NativeState S} `{L : !NativeStateLaws S}.

(** The accounts and tokens of the book are among [A], order ids and index
    positions are at most [n], and the hash keeps their slots apart. *)
Context (A : list Address) (n : Z) (Hd : obslots_distinct (ob_in_play A n)).

(** ** Slots *)

(** Writes that concern neither a maker's quote escrow nor an order's side. *)
Definition neutral (x : obslot) : Prop :=
  match x with escrowQSlot _ => False | orderSlot _ f => f = 1 ∨ f = 2 ∨ f = 3 ∨ f = 4 | _ => True end.

Lemma neutral_escrow x m v s : ob_in_play A n x → neutral x → m ∈ A → EscrowQuote m (oset x v s) = EscrowQuote m s.
Proof using L Hd.
  intros Hp Hx Hm. unfold EscrowQuote, getU256. rewrite (oget_oset A n), decide_False; [done|by intros ->|done..].
Qed.

Lemma neutral_header x id v s : ob_in_play A n x → neutral x → 0 <= id <= n →
  oget (orderSlot id obFieldHdr) (oset x v s) = oget (orderSlot id obFieldHdr) s.
Proof using L Hd.
  intros Hp Hx Hid. rewrite (oget_oset A n), decide_False; [done| |done..|].
  - intros ->. unfold obFieldHdr in Hx. cbn in Hx. lia.
  - cbn. unfold obFieldHdr. lia.
Qed.

(** The lengths of the open order lists and the last order id. *)
Definition in_index (s : S) : Prop :=
  lastOrderID s < n ∧ ∀ t side, t ∈ A → 0 <= side <= 1 → openLen t side s <= n.

Definition same_lens (s s' : S) : Prop :=
  ∀ t side, t ∈ A → 0 <= side <= 1 → openLen t side s' = openLen t side s.

Lemma same_lens_refl s : same_lens s s.
Proof using. by intros t side. Qed.

Lemma same_lens_oset s s' x v : same_lens s s' → ob_in_play A n x → (∀ t side, x ≠ openLenSlot t side) →
  same_lens s (oset x v s').
Proof using L Hd.
  intros H Hp Hx t side Ht Hs. rewrite <-H by done. unfold openLen, getU256.
  by rewrite (oget_oset A n), decide_False by (done || apply Hx).
Qed.

(** ** Steps

    [pays who δ k d w w']: the escrow of [who] grows by at most [δ] and no
    other's does, the module pays at most [k], and [d] of the deposit is
    used up. *)
Definition sided (s : S) : Prop :=
  ∀ id, 0 <= id <= n → side_ok (header_side (oget (orderSlot id obFieldHdr) s)).

Definition balance (w : world S) : Z := ns_GetBalance OrderbookModuleAddr (w_db w).

Record sound (w : world S) : Prop := {
  so_ok : ns_ok (w_db w);
  so_range : is_u256 (balance w);
  so_sides : sided (w_db w);
}.

Record pays (who : Address) (δ k d : Z) (w w' : world S) : Prop := {
  py_sound : sound w';
  py_escrow : ∀ m, m ∈ A →
    EscrowQuote m (w_db w') <= EscrowQuote m (w_db w) + (if decide (m = who) then δ else 0);
  py_balance : balance w - k <= balance w';
  py_deposit : depositValue w' = depositValue w - d;
}.

Lemma pays_refl who w : sound w → pays who 0 0 0 w w.
Proof using. intros Hw. split; [done| |lia..]. intros m _. case_decide; lia. Qed.

Lemma pays_trans who δ1 k1 d1 δ2 k2 d2 w1 w2 w3 :
  pays who δ1 k1 d1 w1 w2 → pays who δ2 k2 d2 w2 w3 → pays who (δ1 + δ2) (k1 + k2) (d1 + d2) w1 w3.
Proof using.
  intros [_ E1 B1 D1] [So E2 B2 D2]. split; [done| |lia..]. intros m Hm.
  specialize (E1 m Hm). specialize (E2 m Hm). destruct (decide (m = who)); lia.
Qed.

(** A write that leaves balances alone. *)
Lemma balance_oset x v (w : world S) : ns_ok (w_db w) → balance (with_db (oset x v (w_db w)) w) = balance w.
Proof using L. intros Hw. unfold balance. cbn [w_db with_db]. unfold oset. by rewrite balance_set. Qed.

Lemma pays_oset_neutral who δ w w' x v : pays who δ 0 0 w w' → ob_in_play A n x → neutral x →
  pays who δ 0 0 w (with_db (oset x v (w_db w')) w').
Proof using L Hd.
  intros [[Ok Rg Sd] E B D] Hp Hx. pose proof (balance_oset x v w' Ok) as Hb.
  split; [split| | |]; cbn [w_db with_db]; rewrite ?Hb; try done.
  - by apply ok_set.
  - intros id Hid. rewrite neutral_header by done. by apply Sd.
  - intros m Hm. rewrite neutral_escrow by done. by apply E.
Qed.

Lemma pays_oset_header who δ w w' id h : pays who δ 0 0 w w' → 0 <= id <= n → side_ok (header_side h) →
  pays who δ 0 0 w (with_db (oset (orderSlot id obFieldHdr) h (w_db w')) w').
Proof using L Hd.
  intros [[Ok Rg Sd] E B D] Hid Hx. pose proof (balance_oset (orderSlot id obFieldHdr) h w' Ok) as Hb.
  assert (∀ i, 0 <= i <= n → ob_in_play A n (orderSlot i obFieldHdr)) as Hp by (intros; cbn; unfold obFieldHdr; lia).
  split; [split| | |]; cbn [w_db with_db]; rewrite ?Hb; try done.
  - by apply ok_set.
  - intros id' Hid'. rewrite (oget_oset A n) by auto. case_decide; [done|by apply Sd].
  - intros m Hm. unfold EscrowQuote, getU256. rewrite (oget_oset A n), decide_False by auto. by apply E.
Qed.

Lemma pays_escrow who δ w w' x : pays who 0 0 0 w w' → who ∈ A → is_u256 x →
  x <= EscrowQuote who (w_db w') + δ →
  pays who δ 0 0 w (with_db (setU256 (escrowQSlot who) x (w_db w')) w').
Proof using L Hd.
  intros [[Ok Rg Sd] E B D] Hw Hx Hle. pose proof (balance_oset (escrowQSlot who) (u256ToHash x) w' Ok) as Hb.
  unfold setU256. split; [split| | |]; cbn [w_db with_db]; rewrite ?Hb; try done.
  - by apply ok_set.
  - intros id Hid. rewrite (oget_oset A n), decide_False by (done || (cbn; unfold obFieldHdr; lia)). by apply Sd.
  - intros m Hm. specialize (E m Hm). unfold EscrowQuote at 1, getU256. rewrite (oget_oset A n) by done.
    destruct (decide (m = who)) as [->|Hne].
    + rewrite decide_True by done. unfold hashToU256, u256ToHash. rewrite u256_id by done. lia.
    + rewrite decide_False by congruence. exact E.
Qed.

(** ** The module's operations *)
Definition moves (who : Address) (δ : Z) (w : world S) (s : S) : Prop := pays who δ 0 0 w (with_db s w).

Lemma shifts_refl who w : sound w → moves who 0 w (w_db w).
Proof using. intros Hw. destruct w. by apply pays_refl. Qed.

Lemma moves_neutral who δ w s x v : ob_in_play A n x → neutral x → moves who δ w s → moves who δ w (oset x v s).
Proof using L Hd. intros Hp Hx H. exact (pays_oset_neutral who δ w (with_db s w) x v H Hp Hx). Qed.

Lemma moves_neutral_u256 who δ w s x v : ob_in_play A n x → neutral x → moves who δ w s → moves who δ w (setU256 x v s).
Proof using L Hd. apply moves_neutral. Qed.

Lemma moves_escrow who δ w s x : moves who 0 w s → who ∈ A → is_u256 x → x <= EscrowQuote who s + δ →
  moves who δ w (setU256 (escrowQSlot who) x s).
Proof using L Hd. intros. exact (pays_escrow who δ w (with_db s w) x ltac:(done) ltac:(done) ltac:(done) ltac:(done)). Qed.

Lemma header_side_order o : is_byte (o_Side o) → is_byte (o_Status o) → header_side (order_header o) = o_Side o.
Proof using.
  clear. intros Hs Ht. unfold header_side, order_header, hash_bytes. set (l := _ ++ _).
  assert (length l = 32%nat) as Hl.
  { unfold l, addr_bytes, u64BE. rewrite !length_app, !be_bytes_length. done. }
  rewrite <- Hl, be_bytes_of_be.
  - unfold l. rewrite lookup_app_r, addr_bytes_length by (rewrite addr_bytes_length; lia). done.
  - unfold l. apply Forall_app_2; [apply be_bytes_ok|]. apply Forall_app_2; [|apply be_bytes_ok].
    repeat constructor; try apply Hs; try apply Ht; lia.
Qed.

(** Side conditions: the slot is in play and neutral. *)
Ltac slot_side :=
  cbn [ob_in_play neutral]; unfold obFieldHdr, obFieldToken, obFieldPrice, obFieldOpen, obFieldOrig;
  first [exact I | done | lia | split_and!; done || lia].

Lemma moves_order who δ w s o : 0 <= o_ID o <= n → side_ok (o_Side o) → is_byte (o_Status o) → moves who δ w s →
  moves who δ w (writeOrder o s).
Proof using L Hd.
  intros Hid Hs Ht H. unfold writeOrder. repeat (apply moves_neutral_u256; [slot_side..|]).
  apply (pays_oset_header who δ w (with_db s w) (o_ID o) (order_header o) H Hid). rewrite header_side_order; [done| |done].
  destruct Hs as [-> | ->]; unfold is_byte, OrderSideBuy, OrderSideSell; lia.
Qed.

Lemma same_lens_order s s' o : same_lens s s' → 0 <= o_ID o <= n → same_lens s (writeOrder o s').
Proof using L Hd. intros H Hid. unfold writeOrder, setU256. repeat (apply same_lens_oset; [|slot_side|done]). done. Qed.

Lemma side_range side : side_ok side → 0 <= side <= 1.
Proof using. clear. intros [-> | ->]; unfold OrderSideBuy, OrderSideSell; lia. Qed.

Lemma moves_removeOpenIndex who δ w s t side id : t ∈ A → side_ok side → openLen t side s <= n →
  moves who δ w s → moves who δ w (removeOpenIndex t side id s).
Proof using L Hd.
  intros Ht Hs%side_range Hlen H. unfold removeOpenIndex. destruct (find_open _ _ _ _ _) as [i|] eqn:Hf; [|done].
  apply List.find_some in Hf as [Hi _]. apply list_elem_of_In, elem_of_seqZ in Hi.
  repeat (apply moves_neutral_u256; [slot_side..|]). case_match; [|done]. by apply moves_neutral_u256; [slot_side..|].
Qed.

Lemma moves_addOpenIndex who δ w s t side id : t ∈ A → side_ok side → openLen t side s <= n →
  moves who δ w s → moves who δ w (addOpenIndex t side id s).
Proof using L Hd.
  intros Ht Hs%side_range Hlen H. unfold addOpenIndex. pose proof (u64_range (getU256 (openLenSlot t side) s)) as [H0 _].
  fold (openLen t side s) in H0. by repeat (apply moves_neutral_u256; [slot_side..|]).
Qed.

Lemma moves_decOpenCount who δ w s m : m ∈ A → moves who δ w s → moves who δ w (decOpenCount m s).
Proof using L Hd. intros Hm H. unfold decOpenCount. case_match; [done|]. by apply moves_neutral_u256. Qed.

Lemma same_lens_decOpenCount s s' m : m ∈ A → same_lens s s' → same_lens s (decOpenCount m s').
Proof using L Hd. intros Hm H. unfold decOpenCount. case_match; [done|]. by apply same_lens_oset. Qed.

(** A placement that passes the checks writes the maker's counter. *)
Lemma validatePlace_spec who w m price x : sound w → in_index (w_db w) → m ∈ A →
  let s := (validatePlace m price x (w_db w)).1 in
  moves who 0 w s ∧ same_lens (w_db w) s ∧ lastOrderID s = lastOrderID (w_db w).
Proof using L Hd.
  intros Hw Hidx Hm. pose proof (shifts_refl who w Hw) as H. pose proof (same_lens_refl (w_db w)).
  unfold validatePlace, incOpenCount. repeat case_match; try done. cbn [fst]. split_and!.
  - by apply moves_neutral_u256.
  - by apply same_lens_oset.
  - unfold lastOrderID, getU256, setU256. by rewrite (oget_oset A n), decide_False by done.
Qed.

Lemma EscrowQuote_range m s : is_u256 (EscrowQuote m s).
Proof using. clear. apply u256_range. Qed.

Lemma QuoteLockCeil_range b x : is_u256 (QuoteLockCeil b x).
Proof using. clear. unfold QuoteLockCeil. case_match; [split; lia|apply u256_range]. Qed.

Lemma QuoteFloor_range b x : is_u256 (QuoteFloor b x).
Proof using. clear. unfold QuoteFloor. case_match; [split; lia|apply u256_range]. Qed.

(** The id of a new order is in play. *)
Lemma nextOrderID_range s : lastOrderID s < n → 0 <= lastOrderID s +₆₄ 1 <= n.
Proof using.
  clear. intros H. pose proof (u64_range (getU256 nextIDSlot s)) as [H0 _]. fold (lastOrderID s) in H0.
  split; [apply u64_range|]. unfold u64. pose proof (Z.mod_le (lastOrderID s + 1) (2 ^ 64)). lia.
Qed.

Lemma PlaceBuy_moves w m t price x b : sound w → in_index (w_db w) → m ∈ A → t ∈ A →
  match PlaceBuy m t price x b (w_db w) with
  | (s, Ok (_, lock)) => lock = QuoteLockCeil x price ∧ moves m lock w s
  | (s, Err _) => moves m 0 w s
  end.
Proof using L Hd.
  intros Hw Hidx Hm Ht. unfold PlaceBuy. destruct (validatePlace_spec m w m price x Hw Hidx Hm) as (H & Hl & Hnx).
  destruct (validatePlace _ _ _ _) as [s [[]|]]; [|done]. cbn [fst] in *. destruct Hidx as [Hlast Hlen].
  destruct (t =? 0); [by apply moves_decOpenCount|]. cbv zeta.
  destruct (QuoteLockCeil x price =? 0); [by apply moves_decOpenCount|].
  split; [done|]. unfold nextOrderID. rewrite <-Hnx in Hlast. pose proof (nextOrderID_range s Hlast) as Hid.
  set (o := mkOrder _ _ _ _ _ _ _ _ _). set (s1 := setU256 nextIDSlot _ s).
  assert (same_lens (w_db w) (addEscrowQ m (QuoteLockCeil x price) (writeOrder o s1))) as Hlo.
  { apply same_lens_oset; [|done|done]. apply same_lens_order; [|done]. by apply same_lens_oset. }
  apply moves_addOpenIndex; [done|by left| |].
  { rewrite Hlo by (done || unfold OrderSideBuy; lia). apply Hlen; [done|unfold OrderSideBuy; lia]. }
  pose proof (QuoteLockCeil_range x price) as [? _]. unfold addEscrowQ. apply moves_escrow; [|done|apply u256_range|].
  - apply moves_order; [done|by left|done|]. by apply moves_neutral_u256.
  - pose proof (EscrowQuote_range m (writeOrder o s1)) as [? _]. unfold u256. apply Z.mod_le; lia.
Qed.

Lemma PlaceSell_moves w m t price x b : sound w → in_index (w_db w) → m ∈ A → t ∈ A →
  moves m 0 w (PlaceSell m t price x b (w_db w)).1.
Proof using L Hd.
  intros Hw Hidx Hm Ht. unfold PlaceSell. destruct (validatePlace_spec m w m price x Hw Hidx Hm) as (H & Hl & Hnx).
  destruct (validatePlace _ _ _ _) as [s [[]|]]; [|done]. cbn [fst] in *. destruct Hidx as [Hlast Hlen].
  destruct (t =? 0); [by apply moves_decOpenCount|].
  unfold nextOrderID. rewrite <-Hnx in Hlast. pose proof (nextOrderID_range s Hlast) as Hid.
  set (o := mkOrder _ _ _ _ _ _ _ _ _). set (s1 := setU256 nextIDSlot _ s). cbn [fst].
  assert (same_lens (w_db w) (addEscrowB m t x (writeOrder o s1))) as Hlo.
  { apply same_lens_oset; [|done|done]. apply same_lens_order; [|done]. by apply same_lens_oset. }
  apply moves_addOpenIndex; [done|by right| |].
  { rewrite Hlo by (done || unfold OrderSideSell; lia). apply Hlen; [done|unfold OrderSideSell; lia]. }
  apply moves_neutral_u256; [done..|]. apply moves_order; [done|by right|done|]. by apply moves_neutral_u256.
Qed.

Lemma GetOrder_fields id s o : GetOrder id s = Some o →
  o_ID o = id ∧ id <= lastOrderID s ∧ is_byte (o_Status o) ∧
  o_Side o = header_side (oget (orderSlot id obFieldHdr) s).
Proof using.
  clear. unfold GetOrder. destruct (id =? 0); [done|]. destruct (Z.ltb_spec (lastOrderID s) id) as [|Hle]; [done|].
  cbv zeta. case_match; [done|]. intros [= <-]. cbn [readOrder o_ID o_Maker o_Status o_Side].
  set (h := hash_bytes _). assert (bytes_ok h) as Hb by apply be_bytes_ok.
  split_and!; [done|done| |done].
  destruct (h !! 21%nat) as [x|] eqn:Hx; [|split; cbn; lia]. by apply (Forall_lookup_1 _ _ _ _ Hb Hx).
Qed.

(** Taking [amt] out of a maker's quote escrow. *)
Lemma subEscrowQ_moves w m amt : sound w → m ∈ A → 0 <= amt →
  match subEscrowQ m amt (w_db w) with
  | (s, Ok _) => (moves m (- amt) w s ∧ same_lens (w_db w) s) ∧ amt <= EscrowQuote m (w_db w)
  | (s, Err _) => s = w_db w
  end.
Proof using L Hd.
  intros Hw Hm Ha. unfold subEscrowQ. destruct (Z.ltb_spec (EscrowQuote m (w_db w)) amt); [done|]. split; [|lia].
  pose proof (EscrowQuote_range m (w_db w)). rewrite u256_sub by (done || lia). split.
  - apply moves_escrow; [by apply shifts_refl|done|unfold is_u256 in *; lia|lia].
  - by apply same_lens_oset; [apply same_lens_refl|..].
Qed.

Lemma subEscrowB_moves w who m t amt : sound w → m ∈ A → t ∈ A →
  let s := (subEscrowB m t amt (w_db w)).1 in moves who 0 w s ∧ same_lens (w_db w) s.
Proof using L Hd.
  intros Hw Hm Ht. pose proof (shifts_refl who w Hw). pose proof (same_lens_refl (w_db w)). unfold subEscrowB.
  case_match; [done|]. split; [by apply moves_neutral_u256|by apply same_lens_oset].
Qed.

(** The quote an operation releases comes out of the maker's escrow. *)
Definition released (who : Address) (q : Z) (w : world S) (s : S) : Prop :=
  0 <= q ∧ moves who (- q) w s ∧ q <= EscrowQuote who (w_db w).

Lemma released_none who w s : moves who 0 w s → released who 0 w s.
Proof using. intros H. destruct (EscrowQuote_range who (w_db w)). split_and!; [lia|done|lia]. Qed.

(** The order a call names: its id, maker and token are in play. *)
Record order_in_play (w : world S) (id : Z) (o : Order) : Prop := {
  op_get : GetOrder id (w_db w) = Some o;
  op_id : 0 <= id;
  op_maker : o_Maker o ∈ A;
  op_token : o_BaseToken o ∈ A;
}.

Lemma order_fields w id o : sound w → in_index (w_db w) → order_in_play w id o →
  o_ID o = id ∧ 0 <= id <= n ∧ is_byte (o_Status o) ∧ side_ok (o_Side o).
Proof using.
  intros Hw [Hlast _] [Hg Hid _ _]. destruct (GetOrder_fields _ _ _ Hg) as (? & ? & ? & ->).
  assert (0 <= id <= n) by lia. split_and!; try done; try lia. by apply (so_sides w Hw).
Qed.

(** The end of [Cancel] and of a complete [Fill]: the order is rewritten and
    leaves the index. *)
Lemma Cancel_moves w a id : sound w → in_index (w_db w) → a ∈ A → 0 <= id →
  (∀ o, GetOrder id (w_db w) = Some o → o_BaseToken o ∈ A) →
  let '(s, r) := Cancel a id (w_db w) in
  released a (match r with Ok rf => rf_Quote rf | Err _ => 0 end) w s.
Proof using L Hd.
  intros Hw Hidx Ha Hid Htok. pose proof (shifts_refl a w Hw) as Hr. pose proof (released_none _ _ _ Hr) as Hr0. unfold Cancel.
  destruct (GetOrder id (w_db w)) as [o|] eqn:Ho; [|done]. specialize (Htok o eq_refl).
  destruct (negb _); [done|]. destruct (Z.eqb_spec (o_Maker o) a) as [Hma|]; [|done]. cbn [negb].
  destruct (order_fields w id o Hw Hidx) as (Hoid & Hrg & _ & Hsd); [by split; rewrite ?Hma|].
  assert (let '(s, r) := release o (w_db w) in
    released a (match r with Ok rf => rf_Quote rf | Err _ => 0 end) w s ∧ same_lens (w_db w) s) as Hrel.
  { unfold release. rewrite Hma. destruct (o_Side o =? _).
    - set (q := if _ <? _ then _ else _).
      assert (0 <= q) as Hq by (destruct (EscrowQuote_range a (w_db w)), (QuoteLockCeil_range (o_BaseOpen o) (o_PriceX18 o)); subst q; case_match; lia).
      pose proof (subEscrowQ_moves w a q Hw Ha Hq) as H. destruct (subEscrowQ _ _ _) as [s [[]|]];
        [|by subst s; split; [|apply same_lens_refl]].
      destruct H as [[? ?] ?]. by split_and!.
    - destruct (subEscrowB_moves w a a (o_BaseToken o) (o_BaseOpen o) Hw Ha Htok) as [H ?].
      destruct (subEscrowB _ _ _ _) as [s [[]|]]; by split; [apply released_none|]. }
  destruct (release o (w_db w)) as [s [rf|]]; destruct Hrel as [(Hq & Hm & Hle) Hl]; [|done].
  split_and!; [done| |done]. rewrite Hma. set (s1 := writeOrder _ s).
  assert (same_lens (w_db w) (decOpenCount a s1)) as Hl1.
  { apply same_lens_decOpenCount; [done|]. apply same_lens_order; [done|]. cbn. by rewrite Hoid. }
  apply moves_removeOpenIndex; [done|done| |].
  - rewrite Hl1 by (done || by apply side_range). apply Hidx; [done|by apply side_range].
  - apply moves_decOpenCount; [done|]. apply moves_order; [cbn; by rewrite Hoid|done|done|done].
Qed.

Lemma Fill_moves w tk id x o : sound w → in_index (w_db w) → order_in_play w id o →
  let '(s, r) := Fill tk id x (w_db w) in
  released (o_Maker o)
    (match r with Ok (_, q) => if o_Side o =? OrderSideBuy then q else 0 | Err _ => 0 end) w s.
Proof using L Hd.
  intros Hw Hidx Hop. destruct (order_fields w id o Hw Hidx Hop) as (Hoid & Hrg & Hst & Hsd).
  destruct Hop as [Ho _ Hm Htok].
  pose proof (released_none _ _ _ (shifts_refl (o_Maker o) w Hw)) as Hr0. unfold Fill.
  destruct (tk =? 0); [done|]. destruct (x =? 0); [done|]. rewrite Ho. destruct (negb _); [done|].
  cbv zeta. set (bf := if _ <? _ then _ else _). set (q := QuoteFloor _ _).
  assert (0 <= q) as Hq by apply QuoteFloor_range.
  assert (let '(s, r) := debit_maker o bf q (w_db w) in
    released (o_Maker o) (match r with Ok _ => if o_Side o =? OrderSideBuy then q else 0 | Err _ => 0 end) w s
    ∧ same_lens (w_db w) s) as Hrel.
  { unfold debit_maker. destruct (o_Side o =? OrderSideBuy).
    - pose proof (subEscrowQ_moves w (o_Maker o) q Hw Hm Hq) as H. destruct (subEscrowQ _ _ _) as [s [[]|]];
        [|by subst s; split; [|apply same_lens_refl]].
      destruct H as [[? ?] ?]. by split_and!.
    - destruct (subEscrowB_moves w (o_Maker o) (o_Maker o) (o_BaseToken o) bf Hw Hm Htok) as [H ?].
      destruct (subEscrowB _ _ _ _) as [s [[]|]]; by split; [apply released_none|]. }
  destruct (debit_maker o bf q (w_db w)) as [s [[]|]]; destruct Hrel as [(Hq0 & Hmv & Hle) Hl]; [|done].
  assert (∀ st op s', is_byte st → moves (o_Maker o) (- (if o_Side o =? OrderSideBuy then q else 0)) w s' →
    moves (o_Maker o) (- (if o_Side o =? OrderSideBuy then q else 0)) w (writeOrder (close_order o st op) s')) as Hwr.
  { intros st op s' Hst' Hs'. apply moves_order; [cbn; by rewrite Hoid|done|done|done]. }
  destruct (_ =? 0); (split_and!; [done| |done]); apply Hwr; try done.
  apply moves_removeOpenIndex; [done|done| |by apply moves_decOpenCount].
  assert (same_lens (w_db w) (decOpenCount (o_Maker o) s)) as Hl1 by (by apply same_lens_decOpenCount).
  rewrite Hl1 by (done || by apply side_range). apply Hidx; [done|by apply side_range].
Qed.

(** What a fill reports. *)
Lemma Fill_amounts tk id x s o b q : GetOrder id s = Some o → (Fill tk id x s).2 = Ok (b, q) →
  b = (if o_BaseOpen o <? x then o_BaseOpen o else x) ∧ q = QuoteFloor b (o_PriceX18 o).
Proof using.
  clear. intros Ho. unfold Fill. rewrite Ho. cbv zeta. destruct (tk =? 0); [done|]. destruct (x =? 0); [done|].
  destruct (negb _); [done|]. destruct (debit_maker _ _ _ _) as [s1 [[]|]]; [|done].
  destruct (_ =? 0); cbn [snd]; intros [= <- <-]; done.
Qed.

(** ** Tokens and payments *)

(** A token call that does not call back into the order book: the book, the
    module's balance and the value of the current call are as before. *)
Record aside (w w' : world S) : Prop := {
  as_ok : ns_ok (w_db w) → ns_ok (w_db w');
  as_book : ∀ y, oget y (w_db w') = oget y (w_db w);
  as_balance : balance w' = balance w;
  as_deposit : w_obVal w' = w_obVal w;
}.

Definition keeps_aside (call : evm_caller S) : Prop :=
  ∀ self token data gas w, aside w (call self token data gas w).1.

Lemma aside_refl w : aside w w.
Proof using. clear. by split. Qed.

Lemma aside_pays who w w' : sound w → aside w w' → pays who 0 0 0 w w'.
Proof using.
  clear Hd. intros [Ok Rg Sd] [B1 B Ba De]. split; [split| | |].
  - auto.
  - by rewrite Ba.
  - intros id Hid. rewrite B. by apply Sd.
  - intros m _. unfold EscrowQuote, getU256. rewrite B. case_decide; lia.
  - lia.
  - unfold depositValue. rewrite De. lia.
Qed.

Lemma aside_index w w' : aside w w' → in_index (w_db w) → in_index (w_db w').
Proof using.
  clear Hd. intros [_ B _ _] [Hl Hi]. split; [|intros t side Ht Hs; specialize (Hi t side Ht Hs)];
    unfold lastOrderID, openLen, getU256 in *; by rewrite B.
Qed.

Lemma GetOrder_ext id s s' : (∀ y, oget y s' = oget y s) → GetOrder id s' = GetOrder id s.
Proof using. clear. intros H. unfold GetOrder, lastOrderID, readOrder, getU256. by rewrite !H. Qed.

(** ** The invariant *)
Definition escrows (ms : list Address) (s : S) : Z := sumZ (map (λ m, EscrowQuote m s) ms).

(** Whoever of [A] the makers are, the balance covers their escrow and the
    deposit. *)
Definition covered (w : world S) : Prop :=
  ∀ ms, NoDup ms → ms ⊆ A → escrows ms (w_db w) + depositValue w <= balance w.

Record solvent (w : world S) : Prop := {
  sv_sound : sound w;
  sv_deposit : is_u256 (depositValue w);
  sv_covered : covered w;
}.

Lemma escrows_bound ms who δ (s s' : S) :
  NoDup ms → (∀ m, m ∈ ms → EscrowQuote m s' <= EscrowQuote m s + (if decide (m = who) then δ else 0)) →
  escrows ms s' <= escrows ms s + (if decide (who ∈ ms) then δ else 0).
Proof using.
  clear. unfold escrows. induction 1 as [|m ms Hm Hnd IH]; intros H; cbn [map]; [by cbn|]. rewrite !sumZ_cons.
  pose proof (H m ltac:(by left)) as H1. specialize (IH ltac:(intros; apply H; by right)).
  destruct (decide (m = who)) as [->|Hne].
  - rewrite decide_True by (by left). rewrite decide_False in IH by done. lia.
  - destruct (decide (who ∈ ms)) as [Hin|Hin].
    + rewrite decide_True by (by right). lia.
    + rewrite decide_False by (by intros [|]%elem_of_cons). lia.
Qed.

Lemma pays_solvent who δ k d w w' : solvent w → who ∈ A → pays who δ k d w w' →
  δ + k <= d → 0 <= d <= depositValue w → - δ <= EscrowQuote who (w_db w) → solvent w'.
Proof using.
  clear Hd. intros [So Dp Cv] Hwho [So' E B D] Hdk Hdw He. split; [done|unfold is_u256 in *; lia|].
  intros ms Hnd Hms.
  pose proof (escrows_bound ms who δ (w_db w) (w_db w') Hnd (λ m Hm, E m (Hms m Hm))) as Hsum.
  destruct (decide (who ∈ ms)) as [Hin|Hin].
  - specialize (Cv ms Hnd Hms). lia.
  - assert (escrows (who :: ms) (w_db w) + depositValue w <= balance w) as Hc
      by (apply Cv; [by constructor|set_solver]).
    unfold escrows in Hc at 1. cbn [map] in Hc. rewrite sumZ_cons in Hc. fold (escrows ms (w_db w)) in Hc. lia.
Qed.

(** The errors that say the contract cannot pay. *)
Definition insolvency : list string :=
  ["native swap: quote escrow insolvent"; "native swap: quote insolvent on fill";
   "native swap: excess refund insolvent"; "native swap: quote insolvent on buy fill"].

(** What a call promises. *)
Definition settled (out : world S * res (list Z)) : Prop :=
  solvent out.1 ∧ ∀ e, e ∈ insolvency → out.2 ≠ Err e.

Lemma deposit_covered w : solvent w → depositValue w <= balance w.
Proof using. clear Hd. intros [_ _ Cv]. pose proof (Cv [] NoDup_nil_2 ltac:(set_solver)) as H. cbn in H. lia. Qed.

Lemma escrow_covered w m : solvent w → m ∈ A → EscrowQuote m (w_db w) <= balance w.
Proof using.
  clear Hd. intros [_ [Hd0 _] Cv] Hm. pose proof (Cv [m] (NoDup_singleton m) ltac:(set_solver)) as H.
  unfold escrows in H. cbn [map] in H. rewrite sumZ_cons in H. cbn [sumZ foldr] in H. lia.
Qed.

Section Contract.
Context (p : orderbookPrecompile S).
Hypothesis token_aside : ∀ call, op_evm p = Some call → keeps_aside call.
Hypothesis at_module : op_self p = OrderbookModuleAddr.
Hypothesis origin_in : op_origin p ∈ A.

Lemma erc20_call_aside token data what w : aside w (erc20_call p token data what w).1.
Proof using token_aside.
  unfold erc20_call. destruct (op_evm p) as [call|]; [|apply aside_refl].
  pose proof (token_aside call eq_refl (op_self p) token data erc20CallGas w) as H.
  destruct (call _ _ _ _ _) as [w' [ret err]]. cbn [fst] in H. by repeat case_match.
Qed.

Lemma erc20TransferFrom_aside token from to x w : aside w (erc20TransferFrom p token from to x w).1.
Proof using token_aside. unfold erc20TransferFrom. case_match; [apply aside_refl|apply erc20_call_aside]. Qed.

Lemma erc20Transfer_aside token to x w : aside w (erc20Transfer p token to x w).1.
Proof using token_aside. unfold erc20Transfer. case_match; [apply aside_refl|apply erc20_call_aside]. Qed.

Lemma pay_quote_pays who to x msg w : sound w → 0 <= x →
  match pay_quote p to x msg w with
  | (w', Ok _) => pays who 0 x 0 w w'
  | (w', Err e) => w' = w ∧ e = msg ∧ balance w < x
  end.
Proof using L at_module.
  intros [Ok Rg Sd] Hx. unfold pay_quote. rewrite at_module. fold (balance w).
  destruct (Z.ltb_spec (balance w) x) as [|Hle]; [done|].
  set (s1 := ns_SubBalance _ x _). assert (ns_ok s1) as Hs1 by (subst s1; eauto with native).
  assert (ns_GetBalance OrderbookModuleAddr s1 = balance w - x) as Hb1.
  { subst s1. rewrite balance_sub, decide_True by done. apply u256_sub; [done|lia]. }
  assert (∀ y, oget y (ns_AddBalance to x s1) = oget y (w_db w)) as Hy.
  { intros y. unfold oget. rewrite get_add by done. subst s1. by rewrite get_sub. }
  assert (balance w - x <= ns_GetBalance OrderbookModuleAddr (ns_AddBalance to x s1) <= balance w) as Hb2.
  { rewrite balance_add, Hb1 by done. unfold is_u256 in Rg. case_decide; [|lia]. rewrite u256_add by lia. lia. }
  split; [split| | |]; unfold balance in *; cbn [w_db with_db] in *.
  - eauto with native.
  - unfold is_u256 in *. lia.
  - intros id Hid. rewrite Hy. by apply Sd.
  - intros m _. unfold EscrowQuote, getU256. rewrite Hy. case_decide; lia.
  - lia.
  - change (depositValue w = depositValue w - 0). lia.
Qed.

Lemma consume_pays who w : sound w → pays who 0 0 (depositValue w) w (consumeDeposit w).
Proof using.
  clear Hd. intros Hw. split; [by destruct Hw| | |].
  - intros m _. cbn [w_db consumeDeposit]. case_decide; lia.
  - change (balance w - 0 <= balance w). lia.
  - unfold depositValue, consumeDeposit, consumed. cbn [w_obVal]. repeat case_match; simplify_eq; lia.
Qed.

(** An error that is not about funds, after a step that pays nothing. *)
Lemma settled_err who w w' e : solvent w → who ∈ A → pays who 0 0 0 w w' → e ∉ insolvency →
  settled (w', Err e).
Proof using.
  clear Hd. intros Hs Hw Hp He. split.
  - destruct (EscrowQuote_range who (w_db w)), (sv_deposit _ Hs). eapply pays_solvent; [done..|lia|lia|lia].
  - intros e' He' [= ->]. done.
Qed.

Lemma settled_ok who δ k d w w' out : solvent w → who ∈ A → pays who δ k d w w' →
  δ + k <= d → 0 <= d <= depositValue w → - δ <= EscrowQuote who (w_db w) → settled (w', Ok out).
Proof using. clear Hd. intros. split; [|done]. by eapply pays_solvent. Qed.

Lemma solvent_sound w : solvent w → sound w.
Proof using. clear. by intros []. Qed.

(** The module's and the tokens' errors. *)
Lemma module_err e : String.prefix "orderbook" e = true → e ∉ insolvency.
Proof using. clear. intros H He. unfold insolvency in He. rewrite !elem_of_cons, elem_of_nil in He. destruct_or! He; by subst e. Qed.

Lemma PlaceBuy_err m t price x b s e : (PlaceBuy m t price x b s).2 = Err e → e ∉ insolvency.
Proof using.
  clear. intros H. apply module_err. unfold PlaceBuy, validatePlace, incOpenCount, nextOrderID in H.
  repeat case_match; cbn [snd] in H; simplify_eq; done.
Qed.

Lemma PlaceSell_err m t price x b s e : (PlaceSell m t price x b s).2 = Err e → e ∉ insolvency.
Proof using.
  clear. intros H. apply module_err. unfold PlaceSell, validatePlace, incOpenCount, nextOrderID in H.
  repeat case_match; cbn [snd] in H; simplify_eq; done.
Qed.

Lemma Cancel_err a id s e : (Cancel a id s).2 = Err e → e ∉ insolvency.
Proof using.
  clear. intros H. apply module_err. unfold Cancel, release, subEscrowQ, subEscrowB in H.
  repeat case_match; cbn [snd] in H; simplify_eq; done.
Qed.

Lemma Fill_err tk id x s e : (Fill tk id x s).2 = Err e → e ∉ insolvency.
Proof using.
  clear. intros H. apply module_err. unfold Fill, debit_maker, subEscrowQ, subEscrowB in H.
  repeat case_match; cbn [snd] in H; simplify_eq; done.
Qed.

Lemma erc20_call_err token data what w e : what ∉ insolvency → (erc20_call p token data what w).2 = Err e →
  e ∉ insolvency.
Proof using.
  clear. intros Hw. unfold erc20_call. repeat case_match; cbn [snd]; intros [= <-]; try done. vm_decide.
Qed.

Lemma erc20TransferFrom_err token from to x w e : (erc20TransferFrom p token from to x w).2 = Err e → e ∉ insolvency.
Proof using. clear. unfold erc20TransferFrom. case_match; [done|]. apply erc20_call_err. vm_decide. Qed.

Lemma erc20Transfer_err token to x w e : (erc20Transfer p token to x w).2 = Err e → e ∉ insolvency.
Proof using. clear. unfold erc20Transfer. case_match; [done|]. apply erc20_call_err. vm_decide. Qed.

Lemma place_buy_settled token price x w : solvent w → in_index (w_db w) → token ∈ A → settled (place_buy p token price x w).
Proof using L Hd origin_in.
  intros Hs Hidx Ht. pose proof (solvent_sound _ Hs) as Hw. pose proof (pays_refl (op_origin p) w Hw) as Hr. unfold place_buy.
  destruct (Z.eqb_spec (depositValue w) (QuoteLockCeil x price)) as [Hdep|];
    [|by apply (settled_err (op_origin p) w); [..|vm_decide]]. cbn [negb].
  pose proof (PlaceBuy_moves w (op_origin p) token price x (op_blockNum p) Hw Hidx origin_in Ht) as H.
  pose proof (PlaceBuy_err (op_origin p) token price x (op_blockNum p) (w_db w)) as He.
  destruct (PlaceBuy _ _ _ _ _ _) as [s [[id lock]|e]]; [|by apply (settled_err (op_origin p) w); auto].
  destruct H as [-> H]. rewrite Z.eqb_refl. cbn [negb]. split; [|done].
  assert (pays (op_origin p) (QuoteLockCeil x price + 0) (0 + 0) (0 + depositValue w) w (consumeDeposit (with_db s w))) as Hp.
  { eapply pays_trans; [exact H|]. apply (consume_pays (op_origin p) (with_db s w)). apply H. }
  destruct (EscrowQuote_range (op_origin p) (w_db w)), (sv_deposit _ Hs), (QuoteLockCeil_range x price).
  eapply pays_solvent; [exact Hs|exact origin_in|exact Hp|lia..].
Qed.

Lemma place_sell_settled token price x w : solvent w → in_index (w_db w) → token ∈ A → settled (place_sell p token price x w).
Proof using L Hd origin_in token_aside.
  intros Hs Hidx Ht. pose proof (solvent_sound _ Hs) as Hw. pose proof (pays_refl (op_origin p) w Hw) as Hr. unfold place_sell.
  destruct (negb _); [by apply (settled_err (op_origin p) w); [..|vm_decide]|].
  pose proof (erc20TransferFrom_aside token (op_origin p) (op_self p) x w) as Ha.
  pose proof (erc20TransferFrom_err token (op_origin p) (op_self p) x w) as He.
  destruct (erc20TransferFrom _ _ _ _ _ _) as [w1 [[]|e]]; cbn [fst snd] in *;
    [|by apply (settled_err (op_origin p) w); auto using aside_pays].
  pose proof (aside_pays (op_origin p) w w1 Hw Ha) as H1.
  pose proof (PlaceSell_moves w1 (op_origin p) token price x (op_blockNum p) (py_sound _ _ _ _ _ _ H1) (aside_index _ _ Ha Hidx) origin_in Ht) as H2.
  pose proof (PlaceSell_err (op_origin p) token price x (op_blockNum p) (w_db w1)) as He2.
  destruct (PlaceSell _ _ _ _ _ _) as [s [id|e]]; cbn [fst snd] in *; pose proof (pays_trans _ _ _ _ _ _ _ _ _ _ H1 H2) as Hp.
  - split; [|done]. destruct (EscrowQuote_range (op_origin p) (w_db w)), (sv_deposit _ Hs).
    eapply pays_solvent; [exact Hs|exact origin_in|exact Hp|lia..].
  - by apply (settled_err (op_origin p) w); auto.
Qed.

(** A payment the escrow or the deposit backs goes through. *)
Lemma pay_quote_ok who to x msg w : sound w → 0 <= x <= balance w →
  ∃ w', pay_quote p to x msg w = (w', Ok tt) ∧ pays who 0 x 0 w w'.
Proof using L at_module.
  intros Hw [Hx0 Hx]. pose proof (pay_quote_pays who to x msg w Hw Hx0) as H.
  destruct (pay_quote _ _ _ _ _) as [w' [[]|e]]; [by eauto|]. destruct H as (_ & _ & H). lia.
Qed.

Lemma pay_unless_zero who to x msg w : sound w → 0 <= x <= balance w →
  ∃ w', (if x =? 0 then (w, Ok tt) else pay_quote p to x msg w) = (w', Ok tt) ∧ pays who 0 x 0 w w'.
Proof using L at_module.
  intros Hw Hx. destruct (Z.eqb_spec x 0) as [->|]; [|by apply pay_quote_ok]. exists w. split; [done|by apply pays_refl].
Qed.

Lemma cancel_settled input w : solvent w → in_index (w_db w) →
  (∀ o, GetOrder (u64 (arg 1 32 input)) (w_db w) = Some o → o_BaseToken o ∈ A) → settled (cancel p input w).
Proof using L Hd origin_in token_aside at_module.
  intros Hs Hidx Htok. pose proof (solvent_sound _ Hs) as Hw. pose proof (pays_refl (op_origin p) w Hw) as Hr. unfold cancel.
  destruct (negb _); [by apply (settled_err (op_origin p) w); [..|vm_decide]|]. cbv zeta.
  pose proof (Cancel_moves w (op_origin p) (u64 (arg 1 32 input)) Hw Hidx origin_in (proj1 (u64_range _)) Htok) as H.
  pose proof (Cancel_err (op_origin p) (u64 (arg 1 32 input)) (w_db w)) as He.
  destruct (Cancel _ _ _) as [s [rf|e]]; destruct H as (Hq & H & Hle);
    [|by apply (settled_err (op_origin p) w); auto]. clear He.
  pose proof (escrow_covered w (op_origin p) Hs origin_in) as Hbal.
  pose proof (py_balance _ _ _ _ _ _ H) as Hb.
  destruct (pay_unless_zero (op_origin p) (op_origin p) (rf_Quote rf) "native swap: quote escrow insolvent" (with_db s w)
    (py_sound _ _ _ _ _ _ H)) as (w2 & E2 & H2); [lia|]. unfold refund_quote. rewrite E2.
  pose proof (pays_trans _ _ _ _ _ _ _ _ _ _ H H2) as H12.
  pose proof (erc20Transfer_aside (rf_Token rf) (op_origin p) (rf_Base rf) w2) as Ha.
  pose proof (erc20Transfer_err (rf_Token rf) (op_origin p) (rf_Base rf) w2) as He.
  destruct (erc20Transfer _ _ _ _ _) as [w3 r]; cbn [fst snd] in *.
  pose proof (pays_trans _ _ _ _ _ _ _ _ _ _ H12 (aside_pays _ _ _ (py_sound _ _ _ _ _ _ H2) Ha)) as H13.
  destruct (sv_deposit _ Hs). assert (solvent w3) as Hs3 by (eapply pays_solvent; [exact Hs|exact origin_in|exact H13|lia..]).
  destruct r as [[]|e]; (split; [done|]); [done|]. intros e' He' [= ->]. by apply (He e').
Qed.

Lemma fill_sell_settled o id x w : solvent w → in_index (w_db w) → order_in_play w id o → o_Side o = OrderSideSell →
  settled (fill_sell p o id x (QuoteFloor (if o_BaseOpen o <? x then o_BaseOpen o else x) (o_PriceX18 o)) w).
Proof using L Hd origin_in token_aside at_module.
  intros Hs Hidx Hop Hside. pose proof (solvent_sound _ Hs) as Hw. pose proof (pays_refl (op_origin p) w Hw) as Hr.
  pose proof Hop as [Ho Hid0 Hmk Htok]. unfold fill_sell. set (q := QuoteFloor _ _).
  pose proof (QuoteFloor_range _ _ : is_u256 q) as [Hq0 _]. destruct (sv_deposit _ Hs) as [Hd0 Hd1].
  destruct (Z.ltb_spec (depositValue w) q) as [|Hval]; [by apply (settled_err (op_origin p) w); [..|vm_decide]|].
  pose proof (Fill_moves w (op_origin p) id x o Hw Hidx Hop) as H. pose proof (Fill_err (op_origin p) id x (w_db w)) as He.
  pose proof (Fill_amounts (op_origin p) id x (w_db w) o) as Ham. rewrite Hside in H. cbn [OrderSideSell OrderSideBuy Z.eqb] in H.
  destruct (Fill _ _ _ _) as [s [[b q']|e]]; destruct H as (_ & H & _);
    [|by apply (settled_err (o_Maker o) w); auto]. destruct (Ham b q' Ho eq_refl) as [-> ->]. fold q. clear Ham He.
  pose proof (deposit_covered w Hs) as Hbal.
  match goal with |- context [erc20Transfer p ?t ?a ?y ?u] =>
    pose proof (erc20Transfer_aside t a y u) as Ha; pose proof (erc20Transfer_err t a y u) as He;
    destruct (erc20Transfer p t a y u) as [w2 r] end. cbn [fst snd] in *.
  pose proof (pays_trans _ _ _ _ _ _ _ _ _ _ H (aside_pays _ _ _ (py_sound _ _ _ _ _ _ H) Ha)) as H2.
  destruct r as [[]|e]; [|by apply (settled_err (o_Maker o) w); auto]. clear He.
  pose proof (py_balance _ _ _ _ _ _ H2) as Hb2.
  destruct (pay_unless_zero (o_Maker o) (o_Maker o) q "native swap: quote insolvent on fill" w2 (py_sound _ _ _ _ _ _ H2))
    as (w3 & E3 & H3); [lia|]. rewrite E3. pose proof (pays_trans _ _ _ _ _ _ _ _ _ _ H2 H3) as H13.
  pose proof (py_balance _ _ _ _ _ _ H13) as Hb3. rewrite u256_sub by (split; lia).
  set (ex := depositValue w - q).
  assert (∃ k w4, (if (0 <? ex) && (ex <? 2 ^ 255)
      then pay_quote p (op_origin p) ex "native swap: excess refund insolvent" w3 else (w3, Ok tt)) = (w4, Ok tt) ∧
    pays (o_Maker o) 0 k 0 w3 w4 ∧ 0 <= k <= ex) as (k & w4 & E4 & H4 & Hk).
  { destruct (_ && _).
    - destruct (pay_quote_ok (o_Maker o) (op_origin p) ex "native swap: excess refund insolvent" w3
        (py_sound _ _ _ _ _ _ H13)) as (w4 & E4 & H4); [lia|]. exists ex, w4. split_and!; [done..|lia|lia].
    - exists 0, w3. split_and!; [done|apply pays_refl, H13|lia|lia]. }
  rewrite E4. pose proof (pays_trans _ _ _ _ _ _ _ _ _ _ H13 H4) as H14.
  pose proof (pays_trans _ _ _ _ _ _ _ _ _ _ H14 (consume_pays _ _ (py_sound _ _ _ _ _ _ H14))) as H15.
  pose proof (py_deposit _ _ _ _ _ _ H14) as Hd4. destruct (EscrowQuote_range (o_Maker o) (w_db w)).
  eapply settled_ok; [exact Hs|exact Hmk|exact H15|lia..].
Qed.

Lemma aside_trans w1 w2 w3 : aside w1 w2 → aside w2 w3 → aside w1 w3.
Proof using.
  clear. intros [A1 B1 C1 D1] [A2 B2 C2 D2].
  split; [auto|intros y; by rewrite B2, B1|by rewrite C2, C1|by rewrite D2, D1].
Qed.

Lemma fill_buy_settled o id x w : solvent w → in_index (w_db w) → order_in_play w id o → o_Side o = OrderSideBuy →
  settled (fill_buy p o id x (if o_BaseOpen o <? x then o_BaseOpen o else x) w).
Proof using L Hd origin_in token_aside at_module.
  intros Hs Hidx Hop Hside. pose proof (solvent_sound _ Hs) as Hw. pose proof (pays_refl (op_origin p) w Hw) as Hr.
  pose proof Hop as [Ho Hid0 Hmk Htok]. unfold fill_buy. set (fb := if _ <? _ then _ else _).
  destruct (sv_deposit _ Hs) as [Hd0 _].
  destruct (negb _); [by apply (settled_err (op_origin p) w); [..|vm_decide]|].
  pose proof (erc20TransferFrom_aside (o_BaseToken o) (op_origin p) (op_self p) fb w) as Ha.
  pose proof (erc20TransferFrom_err (o_BaseToken o) (op_origin p) (op_self p) fb w) as He.
  destruct (erc20TransferFrom _ _ _ _ _ _) as [w1 [[]|e]]; cbn [fst snd] in *;
    [|by apply (settled_err (op_origin p) w); auto using aside_pays]. clear He.
  pose proof (aside_pays (o_Maker o) w w1 Hw Ha) as H1. pose proof (py_sound _ _ _ _ _ _ H1) as Hw1.
  assert (GetOrder id (w_db w1) = Some o) as Ho1 by (rewrite <-Ho; apply GetOrder_ext, Ha).
  pose proof (Fill_moves w1 (op_origin p) id x o Hw1 (aside_index _ _ Ha Hidx) (Build_order_in_play _ _ _ Ho1 Hid0 Hmk Htok)) as H. pose proof (Fill_err (op_origin p) id x (w_db w1)) as He.
  pose proof (Fill_amounts (op_origin p) id x (w_db w1) o) as Ham. rewrite Hside in H. cbn [OrderSideBuy Z.eqb] in H.
  destruct (Fill _ _ _ _) as [s [[b q]|e]]; destruct H as (Hq & H & Hle);
    pose proof (pays_trans _ _ _ _ _ _ _ _ _ _ H1 H) as H2; [|by apply (settled_err (o_Maker o) w); auto].
  destruct (Ham b q Ho1 eq_refl) as [Hb _]. fold fb in Hb. subst b. clear Ham He. rewrite Z.ltb_irrefl.
  assert (EscrowQuote (o_Maker o) (w_db w1) = EscrowQuote (o_Maker o) (w_db w)) as Hesc
    by (unfold EscrowQuote, getU256; by rewrite (as_book _ _ Ha)).
  pose proof (escrow_covered w (o_Maker o) Hs Hmk) as Hbal.
  pose proof (erc20Transfer_aside (o_BaseToken o) (o_Maker o) fb (with_db s w1)) as Ha3.
  pose proof (erc20Transfer_err (o_BaseToken o) (o_Maker o) fb (with_db s w1)) as He3.
  destruct (erc20Transfer _ _ _ _ _) as [w3 r]. cbn [fst snd] in *.
  pose proof (pays_trans _ _ _ _ _ _ _ _ _ _ H2 (aside_pays _ _ _ (py_sound _ _ _ _ _ _ H2) Ha3)) as H3.
  assert (solvent w3) as Hs3 by (eapply pays_solvent; [exact Hs|exact Hmk|exact H3|lia..]).
  destruct r as [[]|e]; [|split; [done|]; intros e' He' [= ->]; by apply (He3 e')].
  pose proof (py_balance _ _ _ _ _ _ H3) as Hb3.
  destruct (pay_unless_zero (o_Maker o) (op_origin p) q "native swap: quote insolvent on buy fill" w3
    (py_sound _ _ _ _ _ _ H3)) as (w4 & E4 & H4); [lia|]. rewrite E4.
  pose proof (pays_trans _ _ _ _ _ _ _ _ _ _ H3 H4) as H5.
  eapply settled_ok; [exact Hs|exact Hmk|exact H5|lia..].
Qed.

Lemma fill_settled input w : solvent w → in_index (w_db w) →
  (∀ o, GetOrder (u64 (arg 1 32 input)) (w_db w) = Some o → o_Maker o ∈ A ∧ o_BaseToken o ∈ A) → settled (fill p input w).
Proof using L Hd origin_in token_aside at_module.
  intros Hs Hidx Hpl. pose proof (solvent_sound _ Hs) as Hw. pose proof (pays_refl (op_origin p) w Hw) as Hr. unfold fill.
  destruct (negb _); [by apply (settled_err (op_origin p) w); [..|vm_decide]|]. cbv zeta.
  destruct (GetOrder _ _) as [o|] eqn:Ho; [|by apply (settled_err (op_origin p) w); [..|vm_decide]].
  destruct (Hpl o eq_refl) as [Hmk Htok].
  assert (order_in_play w (u64 (arg 1 32 input)) o) as Hop by (split; [done|apply u64_range|done..]).
  destruct (negb _); [by apply (settled_err (op_origin p) w); [..|vm_decide]|].
  destruct (Z.eqb_spec (o_Side o) OrderSideSell) as [Hside|Hside]; [by apply fill_sell_settled|].
  destruct (order_fields w _ o Hw Hidx Hop) as (_ & _ & _ & Hsd).
  apply fill_buy_settled; [done..|]. by destruct Hsd.
Qed.

(** The accounts and tokens whose slots a call can reach: the origin, the
    token argument of a placement and the parties to the order it names. *)
Definition swap_parties (input : list Z) (w : world S) : list Address :=
  [op_origin p; arg 2 20 input]
  ++ match GetOrder (u64 (arg 1 32 input)) (w_db w) with Some o => [o_Maker o; o_BaseToken o] | None => [] end.
End Contract.

Lemma run_settled p input w :
  (∀ call, op_evm p = Some call → keeps_aside call) → op_self p = OrderbookModuleAddr →
  swap_parties p input w ⊆ A → in_index (w_db w) → solvent w → settled (orderbook_Run p input w).
Proof using L Hd.
  intros token_aside at_module Hparties Hidx Hs. pose proof (solvent_sound _ Hs) as Hw. pose proof (pays_refl (op_origin p) w Hw) as Hr.
  assert (op_origin p ∈ A ∧ arg 2 20 input ∈ A) as [Ho Ht] by (split; apply Hparties; unfold swap_parties; set_solver).
  assert (∀ o, GetOrder (u64 (arg 1 32 input)) (w_db w) = Some o → o_Maker o ∈ A ∧ o_BaseToken o ∈ A) as Hord.
  { intros o Hg. split; apply Hparties; unfold swap_parties; rewrite Hg; set_solver. }
  assert (∀ r, (∀ e, e ∈ insolvency → r ≠ Err e) → settled (w, r)) as Hsame by (by split).
  unfold orderbook_Run. destruct (negb _); [by apply (settled_err (op_origin p) w); [..|vm_decide]|].
  destruct input as [|method rest] eqn:Hin; [by apply (settled_err (op_origin p) w); [..|vm_decide]|].
  rewrite <-Hin in *. clear Hin. destruct (method =? _).
  { unfold place. destruct (negb _); [by apply (settled_err (op_origin p) w); [..|vm_decide]|]. cbv zeta.
    destruct (_ =? OrderSideBuy); [by apply place_buy_settled|]. destruct (_ =? OrderSideSell); [by apply place_sell_settled|].
    by apply (settled_err (op_origin p) w); [..|vm_decide]. }
  repeat (destruct (method =? _)); [by apply cancel_settled; [..|apply Hord]|by apply fill_settled|apply Hsame..];
    intros e He; unfold getOrder, best_call, getEscrow; repeat case_match; try done; intros [= <-];
    match type of He with ?x ∈ _ => assert (x ∉ insolvency) by vm_decide; done end.
Qed.
End Solvent.

(** C10. The order book can always pay: a call of 0x101, whatever its input and
    outcome, keeps the DEW balance of the contract at or above the quote
    escrow of all makers together with the unused value of the call, and no
    call fails for lack of funds.  The makers and tokens are those of a list
    [A], which holds the parties to the call, and ids and index positions are
    at most [n]; the hash is assumed to keep their slots apart.  The tokens do
    not call back into the contract, and the frame of the call is not
    reverted. *)
Theorem orderbook_solvent `{C : Crypto} {S : Type} `{N : !NativeState S} `{L : !NativeStateLaws S}
    A n (p : orderbookPrecompile S) input w :
  obslots_distinct (ob_in_play A n) →
  (∀ call, op_evm p = Some call → keeps_aside call) → op_self p = OrderbookModuleAddr →
  swap_parties p input w ⊆ A → in_index A n (w_db w) → solvent A n w →
  let '(w', r) := orderbook_Run p input w in
  solvent A n w' ∧ ∀ e, e ∈ insolvency → r ≠ Err e.
Proof.
  intros Hd Htok Hself Hp Hidx Hs. pose proof (run_settled A n Hd p input w Htok Hself Hp Hidx Hs) as H.
  by destruct (orderbook_Run p input w).
Qed.

(** ** Evaluation on a concrete state *)
Section Witness.
Local Existing Instances toy_crypto toy_crypto_laws toy_codec.

(** A token that answers with nothing and a buyer who pays 6 for a lock of 6. *)
Definition silent_token : evm_caller StateDB := λ _ _ _ _ w, (w, ([], None)).

Definition sample_orderbook : orderbookPrecompile StateDB :=
  mkOrderbookPrecompile NativeSwapPrecompile 5 (Some silent_token) 7 true.

Definition bid_input : list Z :=
  [ObMethodPlace; OrderSideBuy] ++ addr_bytes 77 ++ be_bytes 32 (2 * oneE18) ++ be_bytes 32 3.

Definition paid_world : world StateDB :=
  wrapDewPrecompileTransfer (λ a b x s, (AddBalancePrev b x (SubBalance a x s).1).1) 5 NativeSwapPrecompile 6
    (fresh_world empty_state).

Lemma paid_slots y : oget y (w_db paid_world) = 0.
Proof.
  unfold paid_world, wrapDewPrecompileTransfer, oget. cbn [w_db].
  change (ns_GetState OrderbookModuleAddr (obSlot y)
    (ns_AddBalance NativeSwapPrecompile 6 (ns_SubBalance 5 6 empty_state)) = 0).
  rewrite get_add, get_sub by eauto using empty_ok with native. cbn [ns_GetState StateDB_native].
  rewrite (proj1 (GetState_spec _ _ _)). reflexivity.
Qed.

Lemma toy_swap_slots : obslots_distinct (ob_in_play [5; 77] (Z.of_nat 3)).
Proof. apply obslots_distinct_enum. vm_decide. Qed.

Lemma paid_solvent : solvent [5; 77] (Z.of_nat 3) paid_world.
Proof.
  assert (balance paid_world = 6) as Hb by (vm_compute; reflexivity).
  split; [split| |].
  - change (ns_ok (ns_AddBalance NativeSwapPrecompile 6 (ns_SubBalance 5 6 empty_state))).
    apply ok_add, ok_sub, empty_ok.
  - rewrite Hb. split; reflexivity || discriminate.
  - intros id _. rewrite paid_slots. left. reflexivity.
  - split; reflexivity || discriminate.
  - intros ms _ _. rewrite Hb. unfold escrows.
    assert (sumZ (map (λ m, EscrowQuote m (w_db paid_world)) ms) = 0) as ->; [|vm_compute; discriminate].
    induction ms as [|m ms IH]; [reflexivity|]. cbn [map]. rewrite sumZ_cons, IH. unfold EscrowQuote, getU256.
    by rewrite paid_slots.
Qed.

Lemma paid_index : in_index [5; 77] (Z.of_nat 3) (w_db paid_world).
Proof.
  split; [|intros t side _ _]; unfold lastOrderID, openLen, getU256; rewrite paid_slots; [reflexivity|discriminate].
Qed.

Lemma orderbook_solvent_witness :
  let '(w', r) := orderbook_Run sample_orderbook bid_input paid_world in
  solvent [5; 77] (Z.of_nat 3) w' ∧ ∀ e, e ∈ insolvency → r ≠ Err e.
Proof.
  apply (orderbook_solvent [5; 77] (Z.of_nat 3) sample_orderbook bid_input paid_world toy_swap_slots).
  - intros call [= <-] self token data gas w. apply aside_refl.
  - reflexivity.
  - apply (bool_decide_unpack _). vm_compute. exact I.
  - exact paid_index.
  - exact paid_solvent.
Defined.
End Witness.
