(* ===== verification/P2PWire.v ===== *)
(** * The peer-to-peer wire

    Models [p2p/frame.go] and the framing half of [p2p/secure.go] (typed,
    length-prefixed messages, in clear or sealed), the key agreement of
    [performSecureHandshake], the messages of [p2p/protocol.go] and their
    conversion from and to consensus messages ([p2p/bft.go]).

    A connection is the stream of bytes one side has written; reading takes a
    prefix of it.  AES-GCM and X25519 are parameters. *)
From S2P Require Import Prelude Types Toy DewTx ValidatorSet Votes Rlp EvmTx.

(** ** Frames *)
Definition DefaultMaxMsgSize : Z := 4194304.

Record Frame : Type := mkFrame { f_Type : Z; f_Payload : list Z }.

(** [binary.BigEndian.PutUint32] of the low 32 bits. *)
Definition uint32_bytes (n : Z) : list Z := be_bytes 4 (n mod 2 ^ 32).

Definition frame_limit (maxSize : Z) : Z := if maxSize <=? 0 then DefaultMaxMsgSize else maxSize.

(** The bytes written. *)
Definition WriteFrame (typ : Z) (payload : list Z) (maxSize : Z) : res (list Z) :=
  let maxSize := frame_limit maxSize in
  let n := 1 + Z.of_nat (length payload) in
  if maxSize <? n then Err "p2p: message too large" else
  Ok (uint32_bytes n ++ [typ] ++ payload).

(** [io.ReadFull] of [n] bytes from the stream. *)
Definition read_full (n : nat) (stream : list Z) : res (list Z * list Z) :=
  if (length stream <? n)%nat then Err "unexpected EOF" else Ok (take n stream, drop n stream).

Definition ReadFrame (stream : list Z) (maxSize : Z) : res (Frame * list Z) :=
  let maxSize := frame_limit maxSize in
  let? (hdr, stream) := read_full 4 stream in
  let n := of_be hdr in
  if n =? 0 then Err "p2p: empty frame" else
  if maxSize <? n then Err "p2p: frame length exceeds max" else
  let? (buf, stream) := read_full (Z.to_nat n) stream in
  match buf with
  | [] => Err "p2p: empty frame"
  | typ :: payload => Ok (mkFrame typ payload, stream)
  end.

(** ** Sealed frames *)

(** [cipher.AEAD] of [cipher.NewGCM(aes.NewCipher(key))]: key, nonce, text. *)
Class Aead : Type := {
  aead_Seal : list Z → list Z → list Z → list Z;
  aead_Open : list Z → list Z → list Z → res (list Z);
}.

Definition gcm_NonceSize : nat := 12.
Definition gcm_Overhead : Z := 16.

(** What is opened with the key and nonce it was sealed with is the text. *)
Class AeadLaws (A : Aead) : Prop := {
  open_seal : ∀ k n p, aead_Open k n (aead_Seal k n p) = Ok p;
  seal_length : ∀ k n p, Z.of_nat (length (aead_Seal k n p)) = Z.of_nat (length p) + gcm_Overhead;
}.

Record session : Type := mkSession { s_send : list Z; s_recv : list Z; s_sendN : Z; s_recvN : Z }.

Definition counter_nonce (n : Z) : list Z := replicate (gcm_NonceSize - 8) 0 ++ be_bytes 8 n.

Section Secure.
Context `{A : Aead}.

Definition secure_WriteFrame (typ : Z) (payload : list Z) (maxSize : Z) (s : session) : session * res (list Z) :=
  let plain := typ :: payload in
  if maxSize <? Z.of_nat (length plain) then (s, Err "p2p: encrypted message too large") else
  let ct := aead_Seal (s_send s) (counter_nonce (s_sendN s)) plain in
  (mkSession (s_send s) (s_recv s) (s_sendN s +₆₄ 1) (s_recvN s), Ok (uint32_bytes (Z.of_nat (length ct)) ++ ct)).

Definition secure_ReadFrame (stream : list Z) (maxSize : Z) (s : session) : session * res (Frame * list Z) :=
  match read_full 4 stream with
  | Err e => (s, Err e)
  | Ok (hdr, stream) =>
      let n := of_be hdr in
      if (n =? 0) || (maxSize + gcm_Overhead <? n) then (s, Err "p2p: encrypted frame length invalid") else
      match read_full (Z.to_nat n) stream with
      | Err e => (s, Err e)
      | Ok (ct, stream) =>
          let s' := mkSession (s_send s) (s_recv s) (s_sendN s) (s_recvN s +₆₄ 1) in
          match aead_Open (s_recv s) (counter_nonce (s_recvN s)) ct with
          | Err e => (s', Err e)
          | Ok [] => (s', Err "p2p: empty decrypted frame")
          | Ok (typ :: payload) => (s', Ok (mkFrame typ payload, stream))
          end
      end
  end.
End Secure.

(** ** Key agreement *)
Definition MsgSecureHello : Z := 0.
Definition SecureVersion : Z := 1.

(** [ecdh.X25519]: the public half of a key, and the shared secret with a
    peer's public key. *)
Class X25519 : Type := {
  eph_key : Type;
  eph_public : eph_key → list Z;
  x25519_ECDH : eph_key → list Z → res (list Z);
}.

(** The two ends compute the same secret. *)
Class X25519Laws (X : X25519) : Prop := {
  ecdh_agree : ∀ a b, ∃ secret, x25519_ECDH a (eph_public b) = Ok secret ∧ x25519_ECDH b (eph_public a) = Ok secret;
  public_length : ∀ a, length (eph_public a) = 32%nat;
  public_bytes : ∀ a, bytes_ok (eph_public a);
}.

Definition dec_hello (t : rlp_tree) : option (Z * list Z * list Z) :=
  match dec_fields t with
  | Some [v; k; r] => v ← dec_uint 32 v; k ← dec_bytes k; r ← dec_bytes r; Some (v, k, r)
  | _ => None
  end.

(** [newAESGCM]: a key of 16, 24 or 32 bytes. *)
Definition newAESGCM (key : list Z) : res (list Z) :=
  if (length key =? 16)%nat || (length key =? 24)%nat || (length key =? 32)%nat then Ok key
  else Err "crypto/aes: invalid key size".

Section Hello.
Context `{C : Crypto} `{R : RlpCodec} `{X : X25519}.

(** The hello a side sends. *)
Definition secure_hello (eph : eph_key) (rnd : list Z) : list Z :=
  rlp_encode (RList [RNum SecureVersion; RStr (eph_public eph); RStr rnd]).

(** What a side makes of the other's hello; [inbound] is the responder. *)
Definition performSecureHandshake (chainID : option Z) (inbound : bool) (eph : eph_key) (rnd : list Z) (frame : Frame)
    : res session :=
  if negb (f_Type frame =? MsgSecureHello) then Err "p2p: expected secure hello (0x00)" else
  let? (version, ephPub, random) := rlp_into dec_hello (f_Payload frame) in
  if negb (version =? SecureVersion) then Err "p2p: secure version mismatch" else
  if negb (length ephPub =? 32)%nat || negb (length random =? 32)%nat then Err "p2p: secure hello key/random length" else
  let? shared := x25519_ECDH eph ephPub in
  let '(r1, r2) := if inbound then (random, rnd) else (rnd, random) in
  let cid := match chainID with None => [0] | Some c => big_bytes c end in
  let material := Keccak256 (str_bytes "Dew/Secure/1" ++ shared ++ r1 ++ r2 ++ cid) in
  let material2 := Keccak256 (str_bytes "Dew/Secure/2" ++ material) in
  if (length material <? 32)%nat then Err "p2p: kdf short" else
  if (length material2 <? 32)%nat then Err "p2p: kdf short" else
  let? aeadInit := newAESGCM (take 32 material) in
  let? aeadResp := newAESGCM (take 32 material2) in
  Ok (if inbound then mkSession aeadResp aeadInit 0 0 else mkSession aeadInit aeadResp 0 0).
End Hello.

(** ** Messages *)
Definition MsgHandshake : Z := 1.
Definition MsgPing : Z := 2.
Definition MsgPong : Z := 3.
Definition MsgGetPeers : Z := 4.
Definition MsgPeers : Z := 5.
Definition MsgInventory : Z := 6.
Definition MsgGetData : Z := 7.
Definition MsgTxPayload : Z := 8.
Definition MsgBlockPayload : Z := 9.
Definition MsgGetBlocks : Z := 10.
Definition MsgBlocks : Z := 11.
Definition MsgProposal : Z := 16.
Definition MsgPrevote : Z := 17.
Definition MsgPrecommit : Z := 18.

Definition IsConsensusMsg (typ : Z) : bool := (typ =? MsgProposal) || (typ =? MsgPrevote) || (typ =? MsgPrecommit).

Definition InvTx : Z := 1.
Definition InvBlock : Z := 2.
Definition ProtocolVersion : Z := 1.

Definition u16 (x : Z) : Z := x mod 2 ^ 16.

Record Handshake : Type := mkHandshake {
  hs_Version : Z;
  hs_ChainID : option Z;
  hs_Height : Z;
  hs_HeadHash : Hash;
  hs_ListenPort : Z;
  hs_NodeID : Address;
  hs_Nonce : list Z;
  hs_Signature : list Z;
}.

Record InvItem : Type := mkInvItem { ii_Kind : Z; ii_Hash : Hash }.
Record TxPayload : Type := mkTxPayload { tp_Hash : Hash; tp_Raw : list Z }.
Record BlockPayload : Type := mkBlockPayload { bp_Number : Z; bp_Hash : Hash; bp_Raw : list Z }.
Record GetBlocks : Type := mkGetBlocks { gb_From : Z; gb_To : Z }.
Record PeerAddr : Type := mkPeerAddr { pa_ID : Address; pa_Host : list Z; pa_Port : Z }.

Record WireProposal : Type := mkWireProposal {
  wp_Height : Z;
  wp_Round : Z;
  wp_BlockHash : Hash;
  wp_Proposer : Address;
  wp_Signature : list Z;
  wp_BlockRaw : list Z;
}.

Record WireVote : Type := mkWireVote {
  wv_Type : Z;
  wv_Height : Z;
  wv_Round : Z;
  wv_BlockHash : Hash;
  wv_Validator : Address;
  wv_Signature : list Z;
}.

(** Fixed-size arrays decode from byte strings of that length only. *)
Definition dec_addr20 (t : rlp_tree) : option Address :=
  b ← dec_bytes t; if (length b =? 20)%nat then Some (of_be b) else None.

Definition dec_handshake (t : rlp_tree) : option Handshake :=
  match dec_fields t with
  | Some [v; c; h; hh; lp; id; n; s] =>
      v ← dec_uint 32 v; c ← dec_big c; h ← dec_uint 64 h; hh ← dec_bytes hh; lp ← dec_uint 64 lp;
      id ← dec_addr20 id; n ← dec_bytes n; s ← dec_bytes s;
      Some (mkHandshake v (Some c) h (BytesToHash hh) (u16 lp) id n s)
  | _ => None
  end.

Definition dec_inv_item (t : rlp_tree) : option InvItem :=
  match dec_fields t with
  | Some [k; h] => k ← dec_uint 64 k; h ← dec_bytes h; Some (mkInvItem (u8 k) (BytesToHash h))
  | _ => None
  end.

Definition dec_tx_payload (t : rlp_tree) : option TxPayload :=
  match dec_fields t with
  | Some [h; r] => h ← dec_bytes h; r ← dec_bytes r; Some (mkTxPayload (BytesToHash h) r)
  | _ => None
  end.

Definition dec_block_msg (t : rlp_tree) : option BlockPayload :=
  match dec_fields t with
  | Some [n; h; r] => n ← dec_uint 64 n; h ← dec_bytes h; r ← dec_bytes r; Some (mkBlockPayload n (BytesToHash h) r)
  | _ => None
  end.

Definition dec_get_blocks (t : rlp_tree) : option GetBlocks :=
  match dec_fields t with
  | Some [f; t] => f ← dec_uint 64 f; t ← dec_uint 64 t; Some (mkGetBlocks f t)
  | _ => None
  end.

Definition dec_peer_addr (t : rlp_tree) : option PeerAddr :=
  match dec_fields t with
  | Some [id; h; p] => id ← dec_addr20 id; h ← dec_bytes h; p ← dec_uint 64 p; Some (mkPeerAddr id h (u16 p))
  | _ => None
  end.

Definition dec_wire_proposal (t : rlp_tree) : option WireProposal :=
  match dec_fields t with
  | Some [h; r; bh; p; s; raw] =>
      h ← dec_uint 64 h; r ← dec_uint 64 r; bh ← dec_bytes bh; p ← dec_addr20 p; s ← dec_bytes s; raw ← dec_bytes raw;
      Some (mkWireProposal h r (BytesToHash bh) p s raw)
  | _ => None
  end.

Definition dec_wire_vote (t : rlp_tree) : option WireVote :=
  match dec_fields t with
  | Some [ty; h; r; bh; v; s] =>
      ty ← dec_uint 64 ty; h ← dec_uint 64 h; r ← dec_uint 64 r; bh ← dec_bytes bh; v ← dec_addr20 v; s ← dec_bytes s;
      Some (mkWireVote (u8 ty) h r (BytesToHash bh) v s)
  | _ => None
  end.

Definition inv_item (it : InvItem) : rlp_item := RList [RNum (ii_Kind it); RStr (hash_bytes (ii_Hash it))].
Definition block_item (b : BlockPayload) : rlp_item :=
  RList [RNum (bp_Number b); RStr (hash_bytes (bp_Hash b)); RStr (bp_Raw b)].
Definition peer_item (p : PeerAddr) : rlp_item := RList [RStr (addr_bytes (pa_ID p)); RStr (pa_Host p); RNum (pa_Port p)].

Definition handshakeDomain : string := "Dew/Handshake/1".

Section Messages.
Context `{C : Crypto} `{R : RlpCodec}.

Definition Handshake_SignBytes (h : Handshake) : res (list Z) :=
  let? enc := encode_fields [RStr (str_bytes handshakeDomain); RNum (hs_Version h); RNum (copyBig (hs_ChainID h));
    RNum (hs_Height h); RStr (hash_bytes (hs_HeadHash h)); RNum (hs_ListenPort h); RStr (addr_bytes (hs_NodeID h));
    RStr (hs_Nonce h)] in
  Ok (Keccak256 enc).

Definition Handshake_Encode (h : Handshake) : res (list Z) :=
  encode_fields [RNum (hs_Version h); RNum (copyBig (hs_ChainID h)); RNum (hs_Height h);
    RStr (hash_bytes (hs_HeadHash h)); RNum (hs_ListenPort h); RStr (addr_bytes (hs_NodeID h));
    RStr (hs_Nonce h); RStr (hs_Signature h)].
Definition DecodeHandshake (b : list Z) : res Handshake := rlp_into dec_handshake b.

(** [Inventory] and [GetData] are both a list of items. *)
Definition Inventory_Encode (items : list InvItem) : list Z := rlp_encode (RList (map inv_item items)).
Definition DecodeInventory (b : list Z) : res (list InvItem) := rlp_into (dec_slice dec_inv_item) b.
Definition GetData_Encode (items : list InvItem) : list Z := rlp_encode (RList (map inv_item items)).
Definition DecodeGetData (b : list Z) : res (list InvItem) := DecodeInventory b.

Definition TxPayload_Encode (m : TxPayload) : list Z := rlp_encode (RList [RStr (hash_bytes (tp_Hash m)); RStr (tp_Raw m)]).
Definition DecodeTxPayload (b : list Z) : res TxPayload := rlp_into dec_tx_payload b.

Definition BlockPayload_Encode (m : BlockPayload) : list Z := rlp_encode (block_item m).
Definition DecodeBlockPayload (b : list Z) : res BlockPayload := rlp_into dec_block_msg b.

Definition GetBlocks_Encode (m : GetBlocks) : list Z := rlp_encode (RList [RNum (gb_From m); RNum (gb_To m)]).
Definition DecodeGetBlocks (b : list Z) : res GetBlocks := rlp_into dec_get_blocks b.

Definition BlocksMsg_Encode (bs : list BlockPayload) : list Z := rlp_encode (RList (map block_item bs)).
Definition DecodeBlocksMsg (b : list Z) : res (list BlockPayload) := rlp_into (dec_slice dec_block_msg) b.

Definition PeersMsg_Encode (ps : list PeerAddr) : list Z := rlp_encode (RList (map peer_item ps)).
Definition DecodePeersMsg (b : list Z) : res (list PeerAddr) := rlp_into (dec_slice dec_peer_addr) b.

Definition WireProposal_Encode (m : WireProposal) : list Z :=
  rlp_encode (RList [RNum (wp_Height m); RNum (wp_Round m); RStr (hash_bytes (wp_BlockHash m));
    RStr (addr_bytes (wp_Proposer m)); RStr (wp_Signature m); RStr (wp_BlockRaw m)]).
Definition DecodeWireProposal (b : list Z) : res WireProposal := rlp_into dec_wire_proposal b.

Definition WireVote_Encode (m : WireVote) : list Z :=
  rlp_encode (RList [RNum (wv_Type m); RNum (wv_Height m); RNum (wv_Round m); RStr (hash_bytes (wv_BlockHash m));
    RStr (addr_bytes (wv_Validator m)); RStr (wv_Signature m)]).
Definition DecodeWireVote (b : list Z) : res WireVote := rlp_into dec_wire_vote b.

(** ** Consensus messages *)
Definition ProposalToWire (p : Proposal) : WireProposal :=
  mkWireProposal (p_Height p) (p_Round p) (p_BlockHash p) (p_Proposer p) (p_Signature p)
    (match p_Block p with Some b => Block_MarshalBinary b | None => [] end).

Definition WireToProposal (wp : WireProposal) : res Proposal :=
  let p b := mkProposal (wp_Height wp) (wp_Round wp) (wp_BlockHash wp) b (wp_Proposer wp) (wp_Signature wp) in
  match wp_BlockRaw wp with
  | [] => Ok (p None)
  | raw => let? blk := UnmarshalBlockBinary raw in Ok (p (Some blk))
  end.

Definition VoteToWire (v : Vote) : res WireVote :=
  if (v_Type v =? VotePrevote) || (v_Type v =? VotePrecommit)
  then Ok (mkWireVote (v_Type v) (v_Height v) (v_Round v) (v_BlockHash v) (v_Validator v) (v_Signature v))
  else Err "p2p: invalid vote type".

Definition WireToVote (wv : WireVote) : res Vote :=
  if (wv_Type wv =? 1) || (wv_Type wv =? 2)
  then Ok (mkVote (wv_Type wv) (wv_Height wv) (wv_Round wv) (wv_BlockHash wv) (wv_Validator wv) (wv_Signature wv))
  else Err "p2p: invalid wire vote type".
End Messages.

(** ** Round trips *)
Definition port_ok (p : Z) : Prop := 0 <= p < 2 ^ 16.

(** The fields are in the range of their Go types. *)
Record handshake_ok (h : Handshake) : Prop := {
  hk_version : 0 <= hs_Version h < 2 ^ 32;
  hk_chain : big_ok (hs_ChainID h);
  hk_height : is_u64 (hs_Height h);
  hk_head : is_hash (hs_HeadHash h);
  hk_port : port_ok (hs_ListenPort h);
  hk_node : is_addr (hs_NodeID h);
  hk_bytes : bytes_ok (hs_Nonce h) ∧ bytes_ok (hs_Signature h);
}.

Definition inv_ok (it : InvItem) : Prop := is_byte (ii_Kind it) ∧ is_hash (ii_Hash it).
Definition tx_payload_ok (m : TxPayload) : Prop := is_hash (tp_Hash m) ∧ bytes_ok (tp_Raw m).
Definition block_payload_ok (m : BlockPayload) : Prop := is_u64 (bp_Number m) ∧ is_hash (bp_Hash m) ∧ bytes_ok (bp_Raw m).
Definition get_blocks_ok (m : GetBlocks) : Prop := is_u64 (gb_From m) ∧ is_u64 (gb_To m).
Definition peer_addr_ok (p : PeerAddr) : Prop := is_addr (pa_ID p) ∧ bytes_ok (pa_Host p) ∧ port_ok (pa_Port p).
Definition wire_proposal_ok (m : WireProposal) : Prop :=
  is_u64 (wp_Height m) ∧ is_u64 (wp_Round m) ∧ is_hash (wp_BlockHash m) ∧ is_addr (wp_Proposer m)
  ∧ bytes_ok (wp_Signature m) ∧ bytes_ok (wp_BlockRaw m).
Definition wire_vote_ok (m : WireVote) : Prop :=
  is_byte (wv_Type m) ∧ is_u64 (wv_Height m) ∧ is_u64 (wv_Round m) ∧ is_hash (wv_BlockHash m)
  ∧ is_addr (wv_Validator m) ∧ bytes_ok (wv_Signature m).

Lemma dec_addr20_addr a : is_addr a → dec_addr20 (TStr (addr_bytes a)) = Some a.
Proof.
  intros Ha. unfold dec_addr20. cbn [dec_bytes mbind option_bind]. rewrite addr_bytes_length. cbn [Nat.eqb].
  by rewrite addr_bytes_roundtrip.
Qed.

Lemma u8_byte x : is_byte x → u8 x = x.
Proof. intros H. apply Z.mod_small. exact H. Qed.

Lemma u16_port x : port_ok x → u16 x = x.
Proof. intros H. apply Z.mod_small. exact H. Qed.

(** A structure of strings and numbers is encodable. *)
Ltac item_field := cbn [item_ok];
  lazymatch goal with
  | |- bytes_ok (hash_bytes _) => apply hash_bytes_ok
  | |- bytes_ok (addr_bytes _) => apply addr_bytes_ok
  | |- bytes_ok _ => assumption
  | |- _ => unfold is_u64, is_byte, port_ok in *; lia
  end.

Ltac item_fields := apply item_ok_list; repeat (apply Forall_cons_2; [item_field|]); apply Forall_nil_2.

Ltac decode_fields := cbn [item_tree map dec_fields]; repeat first
  [ rewrite dec_uint_num by (unfold is_u64, is_byte, port_ok in *; lia)
  | rewrite dec_big_num by lia
  | rewrite dec_addr20_addr by assumption
  | progress cbn [mbind option_bind dec_bytes] ].

Section RoundTrip.
Context `{C : Crypto} `{R : RlpCodec} {RL : RlpLaws C R}.

Lemma handshake_roundtrip h : handshake_ok h → ∃ b, Handshake_Encode h = Ok b ∧ DecodeHandshake b = Ok h.
Proof using RL.
  intros [Hv (c & Hc & Hc0) Hh Hhh Hp Hn [Hb1 Hb2]]. unfold Handshake_Encode, encode_fields.
  rewrite Hc. cbn [copyBig default from_option id].
  assert (encodable [RNum (hs_Version h); RNum c; RNum (hs_Height h); RStr (hash_bytes (hs_HeadHash h));
    RNum (hs_ListenPort h); RStr (addr_bytes (hs_NodeID h)); RStr (hs_Nonce h); RStr (hs_Signature h)] = true) as ->.
  { cbn [encodable forallb]. unfold is_u64, port_ok in *. by rewrite !(proj2 (Z.leb_le _ _)) by lia. }
  eexists. split; [done|]. apply rlp_into_encode; [item_fields|]. destruct h as [v ci ht hh lp id n s].
  cbn [hs_Version hs_ChainID hs_Height hs_HeadHash hs_ListenPort hs_NodeID hs_Nonce hs_Signature] in *. subst ci.
  unfold dec_handshake. decode_fields. by rewrite BytesToHash_hash_bytes, u16_port.
Qed.

Lemma inv_item_spec it : inv_ok it → item_ok (inv_item it) ∧ dec_inv_item (item_tree (inv_item it)) = Some it.
Proof using.
  clear. intros [Hk Hh]. split; [unfold inv_item; item_fields|]. unfold dec_inv_item, inv_item. decode_fields.
  rewrite BytesToHash_hash_bytes, u8_byte by done. by destruct it.
Qed.

Lemma block_item_spec m : block_payload_ok m → item_ok (block_item m) ∧ dec_block_msg (item_tree (block_item m)) = Some m.
Proof using.
  clear. intros (Hn & Hh & Hr). split; [unfold block_item; item_fields|]. unfold dec_block_msg, block_item. decode_fields.
  rewrite BytesToHash_hash_bytes by done. by destruct m.
Qed.

Lemma peer_item_spec p : peer_addr_ok p → item_ok (peer_item p) ∧ dec_peer_addr (item_tree (peer_item p)) = Some p.
Proof using.
  clear. intros (Hi & Hh & Hp). split; [unfold peer_item; item_fields|]. unfold dec_peer_addr, peer_item. decode_fields.
  rewrite u16_port by done. by destruct p.
Qed.

(** A list of items decodes when each of them does. *)
Lemma list_roundtrip {T} (f : rlp_tree → option T) (g : T → rlp_item) (P : T → Prop) l :
  (∀ x, P x → item_ok (g x) ∧ f (item_tree (g x)) = Some x) → Forall P l →
  rlp_into (dec_slice f) (rlp_encode (RList (map g l))) = Ok l.
Proof using RL.
  intros Hg Hl. rewrite Forall_forall in Hl. apply rlp_into_encode.
  - apply item_ok_list, Forall_fmap, Forall_forall. intros x Hx. by apply Hg, Hl.
  - apply dec_slice_map. intros x Hx. by apply Hg, Hl.
Qed.

Lemma wire_vote_roundtrip m : wire_vote_ok m → DecodeWireVote (WireVote_Encode m) = Ok m.
Proof using RL.
  intros (Ht & Hh & Hr & Hb & Hv & Hs). apply rlp_into_encode; [item_fields|]. unfold dec_wire_vote. decode_fields.
  rewrite BytesToHash_hash_bytes, u8_byte by done. by destruct m.
Qed.

Lemma wire_proposal_roundtrip m : wire_proposal_ok m → DecodeWireProposal (WireProposal_Encode m) = Ok m.
Proof using RL.
  intros (Hh & Hr & Hb & Hp & Hs & Hraw). apply rlp_into_encode; [item_fields|]. unfold dec_wire_proposal. decode_fields.
  rewrite BytesToHash_hash_bytes by done. by destruct m.
Qed.

Lemma get_blocks_roundtrip m : get_blocks_ok m → DecodeGetBlocks (GetBlocks_Encode m) = Ok m.
Proof using RL.
  intros [Hf Ht]. apply rlp_into_encode; [item_fields|]. unfold dec_get_blocks. decode_fields. by destruct m.
Qed.

Lemma tx_payload_roundtrip m : tx_payload_ok m → DecodeTxPayload (TxPayload_Encode m) = Ok m.
Proof using RL.
  intros [Hh Hr]. apply rlp_into_encode; [item_fields|]. unfold dec_tx_payload. decode_fields.
  rewrite BytesToHash_hash_bytes by done. by destruct m.
Qed.

(** A consensus message in the range of its Go types. *)
Definition vote_typed (v : Vote) : Prop :=
  (v_Type v = VotePrevote ∨ v_Type v = VotePrecommit) ∧ is_u64 (v_Height v) ∧ is_u64 (v_Round v)
  ∧ is_hash (v_BlockHash v) ∧ is_addr (v_Validator v) ∧ bytes_ok (v_Signature v).

Definition proposal_typed (p : Proposal) : Prop :=
  is_u64 (p_Height p) ∧ is_u64 (p_Round p) ∧ is_hash (p_BlockHash p) ∧ is_addr (p_Proposer p)
  ∧ bytes_ok (p_Signature p) ∧ (∀ b, p_Block p = Some b → block_ok b).

Lemma block_item_ok b : block_ok b →
  item_ok (RList [RStr (Header_EncodeRLP (header b)); RList (map RStr (transactions b))]).
Proof using RL.
  intros [Hh _ Htx]. apply item_ok_list. apply Forall_cons_2; [exact (rlp_encode_bytes _ (header_item_ok _ Hh))|].
  apply Forall_singleton, item_ok_list, Forall_fmap. eapply Forall_impl; [exact Htx|]. by intros raw [? _].
Qed.

Lemma vote_wire v : vote_typed v →
  ∃ wv, VoteToWire v = Ok wv ∧ wire_vote_ok wv ∧ wv_Type wv = v_Type v ∧ WireToVote wv = Ok v.
Proof using.
  clear. intros (Ht & Hh & Hr & Hb & Hv & Hs). unfold VoteToWire.
  assert ((v_Type v =? VotePrevote) || (v_Type v =? VotePrecommit) = true) as E by (destruct Ht as [-> | ->]; done).
  rewrite E. eexists. split; [done|]. split_and!; try done.
  - split_and!; try done; destruct Ht as [-> | ->]; unfold is_byte, VotePrevote, VotePrecommit; cbn; lia.
  - unfold WireToVote. cbn [wv_Type wv_Height wv_Round wv_BlockHash wv_Validator wv_Signature].
    change ((v_Type v =? 1) || (v_Type v =? 2)) with ((v_Type v =? VotePrevote) || (v_Type v =? VotePrecommit)).
    rewrite E. by destruct v.
Qed.

Lemma proposal_wire p : proposal_typed p → wire_proposal_ok (ProposalToWire p) ∧ WireToProposal (ProposalToWire p) = Ok p.
Proof using RL.
  intros (Hh & Hr & Hb & Hp & Hs & Hblk). unfold ProposalToWire, WireToProposal.
  cbn [wp_Height wp_Round wp_BlockHash wp_Proposer wp_Signature wp_BlockRaw].
  destruct (p_Block p) as [b|] eqn:E.
  - specialize (Hblk b eq_refl). split.
    + split_and!; try done. exact (rlp_encode_bytes _ (block_item_ok _ Hblk)).
    + pose proof (block_roundtrip b Hblk) as Hrt.
      destruct (rlp_list_head [RStr (Header_EncodeRLP (header b)); RList (map RStr (transactions b))]) as (x & r & Hx & _).
      change (rlp_encode _) with (Block_MarshalBinary b) in Hx. rewrite Hx in *. rewrite Hrt.
      cbn [rbind]. rewrite <-E. by destruct p.
  - split; [split_and!; try done; constructor|]. rewrite <-E. by destruct p.
Qed.

(** C21. Nothing is lost on the wire: every message of the protocol whose
    fields are in range decodes to itself, and consensus proposals (with
    their block) and votes come back from their wire form unchanged. *)
Theorem messages_roundtrip :
  (∀ h, handshake_ok h → ∃ b, Handshake_Encode h = Ok b ∧ DecodeHandshake b = Ok h) ∧
  (∀ l, Forall inv_ok l → DecodeInventory (Inventory_Encode l) = Ok l ∧ DecodeGetData (GetData_Encode l) = Ok l) ∧
  (∀ m, tx_payload_ok m → DecodeTxPayload (TxPayload_Encode m) = Ok m) ∧
  (∀ m, block_payload_ok m → DecodeBlockPayload (BlockPayload_Encode m) = Ok m) ∧
  (∀ m, get_blocks_ok m → DecodeGetBlocks (GetBlocks_Encode m) = Ok m) ∧
  (∀ l, Forall block_payload_ok l → DecodeBlocksMsg (BlocksMsg_Encode l) = Ok l) ∧
  (∀ l, Forall peer_addr_ok l → DecodePeersMsg (PeersMsg_Encode l) = Ok l) ∧
  (∀ p, proposal_typed p →
     ∃ wp, DecodeWireProposal (WireProposal_Encode (ProposalToWire p)) = Ok wp ∧ WireToProposal wp = Ok p) ∧
  (∀ v, vote_typed v →
     ∃ wv wv', VoteToWire v = Ok wv ∧ DecodeWireVote (WireVote_Encode wv) = Ok wv' ∧ WireToVote wv' = Ok v).
Proof using RL.
  split_and!.
  - apply handshake_roundtrip.
  - intros l Hl. split; by eapply list_roundtrip; [apply inv_item_spec|].
  - apply tx_payload_roundtrip.
  - intros m Hm. by apply rlp_into_encode; apply block_item_spec.
  - apply get_blocks_roundtrip.
  - intros l Hl. by eapply list_roundtrip; [apply block_item_spec|].
  - intros l Hl. by eapply list_roundtrip; [apply peer_item_spec|].
  - intros p Hp. destruct (proposal_wire p Hp) as [Hok Hw]. eexists. split; [by apply wire_proposal_roundtrip|done].
  - intros v Hv. destruct (vote_wire v Hv) as (wv & H1 & H2 & _ & H3). exists wv, wv.
    split_and!; [done|by apply wire_vote_roundtrip|done].
Qed.
End RoundTrip.

(** ** Streams of frames *)

(** Both ends use one size limit, and the length of a sealed frame is a
    32-bit number. *)
Definition limit_ok (maxSize : Z) : Prop := 0 < maxSize ∧ maxSize + gcm_Overhead < 2 ^ 32.

Definition fits (maxSize : Z) (f : Frame) : Prop := 1 + Z.of_nat (length (f_Payload f)) <= maxSize.

Lemma of_be_uint32 n : 0 <= n < 2 ^ 32 → of_be (uint32_bytes n) = n.
Proof. intros H. unfold uint32_bytes. rewrite Z.mod_small by done. by apply of_be_be_bytes_id. Qed.

Lemma read_full_app (b rest : list Z) : read_full (length b) (b ++ rest) = Ok (b, rest).
Proof.
  unfold read_full. rewrite (proj2 (Nat.ltb_ge _ _)) by (rewrite length_app; lia).
  by rewrite take_app_length, drop_app_length.
Qed.

Lemma read_header n rest : read_full 4 (uint32_bytes n ++ rest) = Ok (uint32_bytes n, rest).
Proof.
  assert (length (uint32_bytes n) = 4%nat) as Hl by apply be_bytes_length. rewrite <-Hl at 1. apply read_full_app.
Qed.

Lemma ReadFrame_WriteFrame f maxSize rest : limit_ok maxSize → fits maxSize f →
  ∃ b, WriteFrame (f_Type f) (f_Payload f) maxSize = Ok b ∧ ReadFrame (b ++ rest) maxSize = Ok (f, rest).
Proof.
  intros [Hm0 Hm] Hf. unfold fits, gcm_Overhead in *. unfold WriteFrame, ReadFrame, frame_limit.
  rewrite (proj2 (Z.leb_gt maxSize 0)), (proj2 (Z.ltb_ge maxSize _)) by lia. eexists. split; [done|].
  set (n := 1 + _) in *. rewrite <-app_assoc, read_header. cbn [rbind]. rewrite of_be_uint32 by lia.
  rewrite (proj2 (Z.eqb_neq n 0)), (proj2 (Z.ltb_ge maxSize n)) by lia.
  assert (Z.to_nat n = length ([f_Type f] ++ f_Payload f)) as -> by (rewrite length_app; cbn [length]; lia).
  rewrite read_full_app. cbn [rbind app]. by destruct f.
Qed.

(** Writing a sequence of frames in clear, and reading [k] of them back. *)
Fixpoint write_all (fs : list Frame) (maxSize : Z) : res (list Z) :=
  match fs with
  | [] => Ok []
  | f :: fs => let? b := WriteFrame (f_Type f) (f_Payload f) maxSize in let? bs := write_all fs maxSize in Ok (b ++ bs)
  end.

Fixpoint read_all (k : nat) (stream : list Z) (maxSize : Z) : res (list Frame * list Z) :=
  match k with
  | O => Ok ([], stream)
  | S k => let? (f, stream) := ReadFrame stream maxSize in
           let? (fs, stream) := read_all k stream maxSize in Ok (f :: fs, stream)
  end.

Section Sealed.
Context `{A : Aead}.

Fixpoint seal_all (fs : list Frame) (maxSize : Z) (s : session) : session * res (list Z) :=
  match fs with
  | [] => (s, Ok [])
  | f :: fs =>
      match secure_WriteFrame (f_Type f) (f_Payload f) maxSize s with
      | (s, Err e) => (s, Err e)
      | (s, Ok b) => let '(s, r) := seal_all fs maxSize s in (s, let? bs := r in Ok (b ++ bs))
      end
  end.

Fixpoint open_all (k : nat) (stream : list Z) (maxSize : Z) (s : session) : session * res (list Frame * list Z) :=
  match k with
  | O => (s, Ok ([], stream))
  | S k =>
      match secure_ReadFrame stream maxSize s with
      | (s, Err e) => (s, Err e)
      | (s, Ok (f, stream)) =>
          let '(s, r) := open_all k stream maxSize s in
          (s, let? (fs, stream) := r in Ok (f :: fs, stream))
      end
  end.

(** What one side seals the other opens: same key, same counter. *)
Definition paired (snd rcv : session) : Prop := s_send snd = s_recv rcv ∧ s_sendN snd = s_recvN rcv.

Context {AL : AeadLaws A}.

Lemma secure_roundtrip f maxSize rest snd rcv : limit_ok maxSize → fits maxSize f → paired snd rcv →
  ∃ snd' rcv' b, secure_WriteFrame (f_Type f) (f_Payload f) maxSize snd = (snd', Ok b) ∧
    secure_ReadFrame (b ++ rest) maxSize rcv = (rcv', Ok (f, rest)) ∧ paired snd' rcv'.
Proof using AL.
  intros [Hm0 Hm] Hf [Hk Hn]. unfold fits in Hf. unfold secure_WriteFrame, secure_ReadFrame.
  cbn [length]. rewrite (proj2 (Z.ltb_ge maxSize _)) by lia.
  set (ct := aead_Seal _ _ _).
  assert (Z.of_nat (length ct) = 1 + Z.of_nat (length (f_Payload f)) + gcm_Overhead) as Hl.
  { unfold ct. rewrite seal_length. cbn [length]. lia. }
  unfold gcm_Overhead in *. do 3 eexists. split; [done|].
  rewrite <-app_assoc, read_header, of_be_uint32 by lia.
  rewrite (proj2 (Z.eqb_neq _ 0)), (proj2 (Z.ltb_ge (maxSize + 16) _)) by lia. cbn [orb].
  rewrite Nat2Z.id, read_full_app. unfold ct. rewrite <-Hk, <-Hn, open_seal. split; [by destruct f|].
  split; cbn [s_send s_recv s_sendN s_recvN]; [done|by rewrite Hn].
Qed.
End Sealed.

(** Frames arrive as they were sent: what one side writes, in clear or
    sealed with the session keys, the other side reads back as the same
    sequence of messages with nothing left over, whatever follows on the
    stream, and the two ends of a session stay in step. *)
Theorem stream_roundtrip `{A : Aead} `{AL : !AeadLaws A} fs maxSize rest snd rcv :
  limit_ok maxSize → Forall (fits maxSize) fs → paired snd rcv →
  (∃ b, write_all fs maxSize = Ok b ∧ read_all (length fs) (b ++ rest) maxSize = Ok (fs, rest)) ∧
  (∃ snd' rcv' b, seal_all fs maxSize snd = (snd', Ok b) ∧
     open_all (length fs) (b ++ rest) maxSize rcv = (rcv', Ok (fs, rest)) ∧ paired snd' rcv').
Proof.
  intros Hm Hfs. revert snd rcv. induction Hfs as [|f fs Hf Hfs IH]; intros snd rcv Hp.
  - split; [by exists []|]. by exists snd, rcv, [].
  - destruct (ReadFrame_WriteFrame f maxSize rest Hm Hf) as (b0 & Hw & _). split.
    + destruct (IH snd rcv Hp) as [(bs & Hws & Hrs) _].
      destruct (ReadFrame_WriteFrame f maxSize (bs ++ rest) Hm Hf) as (b & Hw' & Hr).
      exists (b ++ bs). cbn [write_all read_all length]. rewrite Hw'. cbn [rbind]. rewrite Hws. cbn [rbind].
      split; [done|]. rewrite <-app_assoc, Hr. cbn [rbind]. by rewrite Hrs.
    + destruct (secure_roundtrip f maxSize [] snd rcv Hm Hf Hp) as (s1 & r1 & b1 & Hw1 & _ & _).
      assert (∀ rest', ∃ r', secure_ReadFrame (b1 ++ rest') maxSize rcv = (r', Ok (f, rest')) ∧ paired s1 r') as Hrd.
      { intros rest'. destruct (secure_roundtrip f maxSize rest' snd rcv Hm Hf Hp) as (s2 & r2 & b2 & Hw2 & Hr2 & Hp2).
        rewrite Hw1 in Hw2. injection Hw2 as <- <-. eauto. }
      destruct (Hrd []) as (r0 & _ & Hp0). destruct (IH s1 r0 Hp0) as [_ (s3 & r3 & bs & Hss & _ & _)].
      destruct (Hrd (bs ++ rest)) as (r4 & Hr4 & Hp4). destruct (IH s1 r4 Hp4) as [_ (s5 & r5 & bs' & Hss' & Hos & Hp5)].
      rewrite Hss in Hss'. injection Hss' as <- <-. exists s3, r5, (b1 ++ bs). cbn [seal_all open_all length].
      rewrite Hw1, Hss. cbn [rbind]. split; [done|]. rewrite <-app_assoc, Hr4, Hos. by cbn [rbind].
Qed.

(** ** Agreement on the session keys *)
Section Agreement.
Context `{C : Crypto} `{CL : !CryptoLaws C} `{R : RlpCodec} {RL : RlpLaws C R} `{X : X25519} `{XL : !X25519Laws X}.

Lemma dec_hello_hello eph rnd : bytes_ok rnd →
  rlp_into dec_hello (secure_hello eph rnd) = Ok (SecureVersion, eph_public eph, rnd).
Proof using RL XL.
  intros Hr. pose proof (public_bytes eph) as Hp. unfold secure_hello. apply rlp_into_encode.
  - apply item_ok_list. repeat (apply Forall_cons_2; [cbn [item_ok]; unfold SecureVersion; first [assumption|lia]|]).
    apply Forall_nil_2.
  - unfold dec_hello. cbn [item_tree map dec_fields]. rewrite dec_uint_num by (unfold SecureVersion; lia). done.
Qed.

(** The key of the initiator's direction, and of the responder's, with the
    strings they are the hashes of. *)
Definition init_input (chainID : option Z) (secret r1 r2 : list Z) : list Z :=
  str_bytes "Dew/Secure/1" ++ secret ++ r1 ++ r2 ++ match chainID with None => [0] | Some c => big_bytes c end.
Definition init_key (chainID : option Z) (secret r1 r2 : list Z) : list Z := Keccak256 (init_input chainID secret r1 r2).
Definition resp_input (chainID : option Z) (secret r1 r2 : list Z) : list Z :=
  str_bytes "Dew/Secure/2" ++ init_key chainID secret r1 r2.
Definition resp_key (chainID : option Z) (secret r1 r2 : list Z) : list Z := Keccak256 (resp_input chainID secret r1 r2).

Lemma init_resp_input chainID secret r1 r2 : init_input chainID secret r1 r2 ≠ resp_input chainID secret r1 r2.
Proof using. intros H. apply (f_equal (λ l, l !! 11%nat)) in H. cbn in H. discriminate H. Qed.

Lemma newAESGCM_keccak b : newAESGCM (take 32 (Keccak256 b)) = Ok (Keccak256 b).
Proof using CL. rewrite take_ge by (rewrite keccak_length; lia). unfold newAESGCM. by rewrite keccak_length. Qed.

Lemma handshake_keys chainID (inbound : bool) eph rnd peer random secret :
  length rnd = 32%nat → length random = 32%nat → bytes_ok random → x25519_ECDH eph (eph_public peer) = Ok secret →
  let r1 := if inbound then random else rnd in
  let r2 := if inbound then rnd else random in
  performSecureHandshake chainID inbound eph rnd (mkFrame MsgSecureHello (secure_hello peer random)) =
    Ok (if inbound then mkSession (resp_key chainID secret r1 r2) (init_key chainID secret r1 r2) 0 0
        else mkSession (init_key chainID secret r1 r2) (resp_key chainID secret r1 r2) 0 0).
Proof using CL RL XL.
  intros Hl Hr Hb Hs. cbv zeta. unfold performSecureHandshake. cbn [f_Type f_Payload].
  rewrite Z.eqb_refl, dec_hello_hello by done. cbn [negb rbind]. rewrite Z.eqb_refl, public_length, Hr.
  cbn [Nat.eqb negb orb]. rewrite Hs. cbn [rbind].
  destruct inbound; rewrite !keccak_length, !newAESGCM_keccak; reflexivity.
Qed.

(** C31. The two ends of an encrypted connection agree: each accepts the
    other's hello, what the initiator sends with is what the responder
    receives with and conversely, and both counters start together.  The two
    directions use different keys, provided Keccak-256 does not map the two
    strings the keys are derived from to one hash. *)
Theorem secure_session_agrees chainID a b ra rb :
  length ra = 32%nat → length rb = 32%nat → bytes_ok ra → bytes_ok rb →
  ∃ secret sa sb, x25519_ECDH a (eph_public b) = Ok secret ∧
    performSecureHandshake chainID false a ra (mkFrame MsgSecureHello (secure_hello b rb)) = Ok sa ∧
    performSecureHandshake chainID true b rb (mkFrame MsgSecureHello (secure_hello a ra)) = Ok sb ∧
    paired sa sb ∧ paired sb sa ∧
    (collision_free (λ x, x ∈ [init_input chainID secret ra rb; resp_input chainID secret ra rb]) →
     s_send sa ≠ s_send sb).
Proof using CL RL XL.
  intros Hla Hlb Hba Hbb. destruct (ecdh_agree a b) as (secret & Hab & Hba').
  exists secret. do 2 eexists. split; [done|]. split; [by apply (handshake_keys chainID false a ra b rb secret)|].
  split; [by apply (handshake_keys chainID true b rb a ra secret)|]. split_and!; [done..|].
  intros Hcf He. apply (init_resp_input chainID secret ra rb). apply Hcf; [by left|by right; left|exact He].
Qed.
End Agreement.

(** ** Evaluation *)
Section Witness.
Local Existing Instances spec_crypto spec_crypto_laws spec_rlp spec_rlp_laws.

Definition sample_vote : Vote := mkVote VotePrecommit 9 1 77 5 [1; 2; 3].
Definition sample_proposal : Proposal := mkProposal 9 1 77 (Some sample_block) 5 [1; 2; 3].

Lemma sample_typed : vote_typed sample_vote ∧ proposal_typed sample_proposal.
Proof.
  split; split_and!; try (unfold is_u64, is_hash, is_addr; cbn; lia); try (right; reflexivity);
    try (repeat constructor; unfold is_byte; lia).
  intros b [= <-]. exact sample_block_ok.
Qed.

(** A proposal with its block and a vote, there and back. *)
Lemma messages_roundtrip_witness :
  (∃ wp, DecodeWireProposal (WireProposal_Encode (ProposalToWire sample_proposal)) = Ok wp
         ∧ WireToProposal wp = Ok sample_proposal) ∧
  (∃ wv wv', VoteToWire sample_vote = Ok wv ∧ DecodeWireVote (WireVote_Encode wv) = Ok wv' ∧ WireToVote wv' = Ok sample_vote).
Proof.
  destruct messages_roundtrip as (_ & _ & _ & _ & _ & _ & _ & Hp & Hv). destruct sample_typed as [H1 H2].
  split; [exact (Hp sample_proposal H2)|exact (Hv sample_vote H1)].
Defined.

Definition plain_aead : Aead := {|
  aead_Seal _ _ p := p ++ replicate 16 0;
  aead_Open _ _ c := Ok (take (length c - 16) c);
|}.

Lemma plain_aead_laws : AeadLaws plain_aead.
Proof.
  split; intros k n p; cbn [aead_Seal aead_Open plain_aead].
  - rewrite length_app, length_replicate, Nat.add_sub, take_app_length. reflexivity.
  - rewrite length_app, length_replicate. unfold gcm_Overhead. lia.
Qed.

Definition toy_x25519 : X25519 := {|
  eph_key := Z;
  eph_public a := be_bytes 32 (a mod 256 ^ 32);
  x25519_ECDH a pub := Ok (be_bytes 32 ((a * of_be pub) mod 256 ^ 32));
|}.

Lemma toy_x25519_laws : X25519Laws toy_x25519.
Proof.
  split; cbn [eph_key eph_public x25519_ECDH toy_x25519].
  - intros a b. eexists. split; [reflexivity|].
    assert (∀ z, of_be (be_bytes 32 (z mod 256 ^ 32)) = z mod 256 ^ 32) as Hz.
    { intros z. apply of_be_be_bytes_id. apply (Z.mod_pos_bound z (256 ^ 32)). reflexivity. }
    rewrite !Hz, !Z.mul_mod_idemp_r, Z.mul_comm by discriminate. reflexivity.
  - intros a. apply be_bytes_length.
  - intros a. apply be_bytes_ok.
Qed.

Lemma stream_roundtrip_witness :
  ∃ b, write_all [mkFrame MsgPing [1; 2]; mkFrame MsgGetPeers []] 1000 = Ok b ∧
    read_all 2 (b ++ [9]) 1000 = Ok ([mkFrame MsgPing [1; 2]; mkFrame MsgGetPeers []], [9]).
Proof.
  refine (proj1 (@stream_roundtrip plain_aead plain_aead_laws [mkFrame MsgPing [1; 2]; mkFrame MsgGetPeers []] 1000 [9]
    (mkSession [1] [2] 0 0) (mkSession [2] [1] 0 0) _ _ _)).
  - split; reflexivity.
  - repeat constructor; unfold fits; cbn; lia.
  - split; reflexivity.
Defined.

(** The sample session: the secret is 15 and the two keys differ. *)
Lemma toy_keys_differ : @collision_free spec_crypto (λ x, x ∈
  [@init_input (Some 2205) (be_bytes 32 15) (be_bytes 32 7) (be_bytes 32 8);
   @resp_input spec_crypto (Some 2205) (be_bytes 32 15) (be_bytes 32 7) (be_bytes 32 8)]).
Proof.
  set (l := [_; _]). assert (bool_decide (NoDup (map (@Keccak256 spec_crypto) l)) = true) as Hnd by (vm_compute; reflexivity).
  apply bool_decide_eq_true in Hnd. intros x y Hx Hy Heq. clearbody l.
  apply list_elem_of_lookup in Hx as [i Hi]. apply list_elem_of_lookup in Hy as [j Hj].
  assert (i = j) as ->; [|congruence]. apply (NoDup_lookup _ i j (@Keccak256 spec_crypto x) Hnd); rewrite list_lookup_fmap.
  - by rewrite Hi.
  - by rewrite Hj, Heq.
Qed.

Lemma secure_session_agrees_witness :
  ∃ sa sb, @performSecureHandshake spec_crypto spec_rlp toy_x25519 (Some 2205) false 3 (be_bytes 32 7)
      (mkFrame MsgSecureHello (@secure_hello spec_crypto toy_x25519 5 (be_bytes 32 8))) = Ok sa ∧
    @performSecureHandshake spec_crypto spec_rlp toy_x25519 (Some 2205) true 5 (be_bytes 32 8)
      (mkFrame MsgSecureHello (@secure_hello spec_crypto toy_x25519 3 (be_bytes 32 7))) = Ok sb ∧ paired sa sb
    ∧ s_send sa ≠ s_send sb.
Proof.
  destruct (@secure_session_agrees spec_crypto spec_crypto_laws spec_rlp spec_rlp_laws toy_x25519 toy_x25519_laws
    (Some 2205) 3 5 (be_bytes 32 7) (be_bytes 32 8) (be_bytes_length _ _) (be_bytes_length _ _) (be_bytes_ok _ _)
    (be_bytes_ok _ _)) as (secret & sa & sb & Hs & H1 & H2 & H3 & _ & H4).
  assert (secret = be_bytes 32 15) as -> by (vm_compute in Hs; injection Hs as <-; vm_compute; reflexivity).
  exists sa, sb. exact (conj H1 (conj H2 (conj H3 (H4 toy_keys_differ)))).
Defined.
End Witness.
