(* ===== verification/P2PHost.v ===== *)
(** * The peer-to-peer host

    Models the state of [p2p/host.go] with its peer store ([p2p/store.go],
    [p2p/persist.go]), the redial backoff ([p2p/redial.go]), the message
    handlers ([p2p/handlers.go]), gossip ([p2p/gossip.go]), sync
    ([p2p/sync.go]) and the in-memory backend ([p2p/backend.go]).

    The chain, the transaction pool and the application handlers are an
    interface over an application state: a handler that panics takes the
    process down and is [None].  Sockets are left out: a peer is a queue of
    outgoing messages, a received frame is an argument.  The clock is an
    argument, in nanoseconds.  A sender that waits for room in a full queue
    runs into its timeout. *)
From S2P Require Import Prelude Types Toy DewTx ValidatorSet Votes Rlp EvmTx P2PWire.

(** ** Addresses ([net.JoinHostPort], [net.SplitHostPort], [strconv]) *)
Definition ch_colon : Z := 58.
Definition ch_open : Z := 91.
Definition ch_close : Z := 93.

(** [fmt.Sprintf] with the verb d, for numbers of at most [fuel] digits. *)
Fixpoint decimal (fuel : nat) (n : Z) : list Z :=
  match fuel with
  | O => []
  | S fuel => (if n <? 10 then [] else decimal fuel (n / 10)) ++ [48 + n mod 10]
  end.

Definition JoinHostPort (host port : list Z) : list Z :=
  if bool_decide (ch_colon ∈ host)
  then [ch_open] ++ host ++ [ch_close; ch_colon] ++ port
  else host ++ [ch_colon] ++ port.

(** The text before and after the last colon. *)
Fixpoint split_last (c : Z) (s : list Z) : option (list Z * list Z) :=
  match s with
  | [] => None
  | x :: s =>
      match split_last c s with
      | Some (a, b) => Some (x :: a, b)
      | None => if x =? c then Some ([], s) else None
      end
  end.

(** The text before and after the first occurrence. *)
Fixpoint split_first (c : Z) (s : list Z) : option (list Z * list Z) :=
  match s with
  | [] => None
  | x :: s =>
      if x =? c then Some ([], s)
      else match split_first c s with Some (a, b) => Some (x :: a, b) | None => None end
  end.

Definition SplitHostPort (s : list Z) : res (list Z * list Z) :=
  match split_last ch_colon s with
  | None => Err "missing port in address"
  | Some (before, port) =>
      match before with
      | x :: _ =>
          if x =? ch_open then
            match split_first ch_close s with
            | None => Err "missing ']' in address"
            | Some (bracketed, after) =>
                match after with
                | [] => Err "missing port in address"
                | _ =>
                    if bool_decide (after = ch_colon :: port) then
                      let host := drop 1 bracketed in
                      if bool_decide (ch_open ∈ host ++ ch_close :: after) then Err "unexpected '[' in address" else
                      if bool_decide (ch_close ∈ after) then Err "unexpected ']' in address" else Ok (host, port)
                    else if bool_decide (head after = Some ch_colon) then Err "too many colons in address"
                    else Err "missing port in address"
                end
            end
          else if bool_decide (ch_colon ∈ before) then Err "too many colons in address"
          else if bool_decide (ch_open ∈ s) then Err "unexpected '[' in address"
          else if bool_decide (ch_close ∈ s) then Err "unexpected ']' in address"
          else Ok (before, port)
      | [] =>
          if bool_decide (ch_open ∈ s) then Err "unexpected '[' in address"
          else if bool_decide (ch_close ∈ s) then Err "unexpected ']' in address"
          else Ok ([], port)
      end
  end.

Definition is_digit (c : Z) : bool := (48 <=? c) && (c <=? 57).

(** [strconv.ParseUint] in base ten, [w] bits. *)
Definition ParseUint10 (w : Z) (s : list Z) : res Z :=
  match s with
  | [] => Err "invalid syntax"
  | _ =>
      if negb (forallb is_digit s) then Err "invalid syntax" else
      let n := foldl (λ acc c, acc * 10 + (c - 48)) 0 s in
      if n <? 2 ^ w then Ok n else Err "value out of range"
  end.

Definition FormatAddr (host : list Z) (port : Z) : list Z := JoinHostPort host (decimal 5 port).

Definition splitHostPort (addr : list Z) : res (list Z * Z) :=
  let? (host, portStr) := SplitHostPort addr in
  let? p := ParseUint10 16 portStr in
  Ok (host, u16 p).

(** ** The peer store *)
Definition BanDialThreshold : Z := 100.
Definition second : Z := 1000000000.
Definition DefaultPeerTTL : Z := 7 * 24 * 3600 * second.
Definition outQueue : nat := 2048.

Record KnownPeer : Type := mkKnownPeer { kp_ID : Address; kp_Addr : list Z; kp_LastSeen : Z; kp_BanScore : Z }.

Record outMsg : Type := mkOutMsg { om_typ : Z; om_payload : list Z }.

Record Peer : Type := mkPeer {
  pr_ID : Address;
  pr_RemoteAddr : list Z;
  pr_Height : Z;
  pr_HeadHash : Hash;
  pr_Inbound : bool;
  pr_out : list outMsg;
  pr_closed : bool;
}.

Record PeerStore : Type := mkPeerStore {
  ps_known : gmap Address KnownPeer;
  ps_active : gmap Address Peer;
  ps_max : Z;
}.

Definition NewPeerStore (maxActive : Z) : PeerStore := mkPeerStore ∅ ∅ (if maxActive <=? 0 then 25 else maxActive).

Definition set_known (k : gmap Address KnownPeer) (s : PeerStore) : PeerStore := mkPeerStore k (ps_active s) (ps_max s).
Definition set_active (a : gmap Address Peer) (s : PeerStore) : PeerStore := mkPeerStore (ps_known s) a (ps_max s).

(** The entry of [id], or Go's zero value. *)
Definition known_or_zero (id : Address) (s : PeerStore) : KnownPeer := default (mkKnownPeer 0 [] 0 0) (ps_known s !! id).

Definition Remember (id : Address) (addr : list Z) (now : Z) (s : PeerStore) : PeerStore :=
  let k := known_or_zero id s in
  set_known (<[id := mkKnownPeer id (match addr with [] => kp_Addr k | _ => addr end) now (kp_BanScore k)]> (ps_known s)) s.

Definition Forget (id : Address) (s : PeerStore) : PeerStore := set_known (delete id (ps_known s)) s.

Definition AddActive (p : Peer) (now : Z) (s : PeerStore) : PeerStore * res unit :=
  match ps_active s !! pr_ID p with
  | Some _ => (s, Err "p2p: peer already connected")
  | None =>
      if ps_max s <=? Z.of_nat (size (ps_active s)) then (s, Err "p2p: max peers reached") else
      let s := set_active (<[pr_ID p := p]> (ps_active s)) s in
      match pr_RemoteAddr p with
      | [] => (s, Ok tt)
      | addr =>
          (set_known (<[pr_ID p := mkKnownPeer (pr_ID p) addr now (kp_BanScore (known_or_zero (pr_ID p) s))]> (ps_known s)) s,
           Ok tt)
      end
  end.

Definition RemoveActive (id : Address) (s : PeerStore) : PeerStore := set_active (delete id (ps_active s)) s.

(** Bootnodes and connected peers stay. *)
Definition evictable (cutoff : Z) (keepAddrs : gset (list Z)) (s : PeerStore) (id : Address) (k : KnownPeer) : bool :=
  negb (bool_decide (kp_Addr k ∈ keepAddrs)) && negb (bool_decide (is_Some (ps_active s !! id)))
  && (kp_LastSeen k <? cutoff).

Definition EvictOlderThan (maxAge : Z) (keepAddrs : gset (list Z)) (now : Z) (s : PeerStore) : PeerStore :=
  let maxAge := if maxAge <=? 0 then DefaultPeerTTL else maxAge in
  set_known (filter (λ e, evictable (now - maxAge) keepAddrs s e.1 e.2 = false) (ps_known s)) s.

Definition AddBanScore (id : Address) (delta now : Z) (s : PeerStore) : PeerStore :=
  if delta =? 0 then s else
  let k := default (mkKnownPeer id [] now 0) (ps_known s !! id) in
  set_known (<[id := mkKnownPeer (kp_ID k) (kp_Addr k) now (Z.max 0 (kp_BanScore k + delta))]> (ps_known s)) s.

Definition dial_candidate (s : PeerStore) (k : KnownPeer) : bool :=
  negb (bool_decide (kp_Addr k = [])) && (kp_BanScore k <? BanDialThreshold)
  && negb (bool_decide (is_Some (ps_active s !! kp_ID k))).

(** The order in which Go ranges over the store's maps. *)
Class StoreOrder : Type := {
  range_known : gmap Address KnownPeer → list (Address * KnownPeer);
  range_active : gmap Address Peer → list (Address * Peer);
}.
Class StoreOrderLaws (O : StoreOrder) : Prop := {
  range_known_ok : range_ok range_known;
  range_active_ok : range_ok range_active;
}.

Definition Known `{StoreOrder} (s : PeerStore) : list KnownPeer := (range_known (ps_known s)).*2.
Definition Active `{StoreOrder} (s : PeerStore) : list Peer := (range_active (ps_active s)).*2.
Definition Dialable `{StoreOrder} (s : PeerStore) : list KnownPeer := List.filter (dial_candidate s) (Known s).

(** *** The peers file, as parsed records *)
Record knownPeerJSON : Type := mkPeerJSON {
  pj_ID : option Address;
  pj_Addr : list Z;
  pj_LastSeen : option Z;
  pj_BanScore : Z;
}.

(** [pj_ID] and [pj_LastSeen] are [None] where the text does not parse. *)
Definition load_entry (now : Z) (s : PeerStore) (e : knownPeerJSON) : PeerStore :=
  match pj_ID e, pj_Addr e with
  | None, _ | _, [] => s
  | Some id, addr => set_known (<[id := mkKnownPeer id addr (default now (pj_LastSeen e)) (pj_BanScore e)]> (ps_known s)) s
  end.

Definition LoadFromFile (version : Z) (peers : list knownPeerJSON) (now : Z) (s : PeerStore) : PeerStore * res unit :=
  if negb (version =? 0) && negb (version =? 1) then (s, Err "p2p: unsupported peer store version")
  else (foldl (load_entry now) s peers, Ok tt).

(** Times are written in whole seconds. *)
Definition SaveToFile `{StoreOrder} (s : PeerStore) : Z * list knownPeerJSON :=
  (1, map (λ k, mkPeerJSON (Some (kp_ID k)) (kp_Addr k) (Some (kp_LastSeen k / second * second)) (kp_BanScore k)) (Known s)).

(** ** Redial backoff *)
Definition redialMinBackoff : Z := second.
Definition redialMaxBackoff : Z := 5 * 60 * second.

Record addrBackoff : Type := mkBackoff { ab_next : Z; ab_backoff : Z }.
Definition redialState : Type := gmap (list Z) addrBackoff.

Definition shouldDial (addr : list Z) (now : Z) (r : redialState) : bool :=
  match r !! addr with None => true | Some st => negb (now <? ab_next st) end.
Definition redial_success (addr : list Z) (r : redialState) : redialState := delete addr r.
Definition redial_failure (addr : list Z) (now : Z) (r : redialState) : redialState :=
  let backoff := match r !! addr with
                 | None => redialMinBackoff
                 | Some st => Z.min (ab_backoff st * 2) redialMaxBackoff
                 end in
  <[addr := mkBackoff (now + backoff) backoff]> r.
Definition scheduleSoon (addr : list Z) (now : Z) (r : redialState) : redialState :=
  <[addr := mkBackoff (now + redialMinBackoff) redialMinBackoff]> r.

(** ** What the host uses of the application *)
Class Backend (B : Type) : Type := {
  bk_Height : B → Z;
  bk_HeadHash : B → Hash;
  bk_BlockByNumber : Z → B → option (list Z * Hash);
  bk_BlockByHash : Hash → B → option (list Z * Z);
  bk_HasBlock : Hash → B → bool;
  bk_HasTx : Hash → B → bool;
  bk_GetTx : Hash → B → option (list Z);
}.

(** A handler that is not installed is [None]; a call that panics too. *)
Record AppHandlers (B : Type) : Type := mkAppHandlers {
  OnTx : option (Hash → list Z → Address → B → option (B * res unit));
  OnBlock : option (Z → Hash → list Z → Address → B → option (B * res unit));
  OnProposal : option (WireProposal → Address → B → option (B * res unit));
  OnVote : option (WireVote → Address → B → option (B * res unit));
}.
Arguments mkAppHandlers {B}.
Arguments OnTx {B}.
Arguments OnBlock {B}.
Arguments OnProposal {B}.
Arguments OnVote {B}.

(** ** The host *)
Record HostConfig : Type := mkHostConfig {
  hc_ChainID : Z;
  hc_MaxPeers : Z;
  hc_MaxMsgSize : Z;
  hc_MaxBlocksPerRequest : Z;
  hc_Encrypt : bool;
  hc_AllowCleartext : bool;
  hc_Bootnodes : list (list Z);
}.

(** The defaults of [NewHost]; without [AllowCleartext] sessions are encrypted. *)
Definition host_defaults (c : HostConfig) : HostConfig :=
  mkHostConfig (hc_ChainID c) (if hc_MaxPeers c <=? 0 then 25 else hc_MaxPeers c)
    (if hc_MaxMsgSize c <=? 0 then DefaultMaxMsgSize else hc_MaxMsgSize c)
    (if hc_MaxBlocksPerRequest c =? 0 then 100 else hc_MaxBlocksPerRequest c)
    (if negb (hc_Encrypt c) && negb (hc_AllowCleartext c) then true else hc_Encrypt c)
    (hc_AllowCleartext c) (hc_Bootnodes c).

Record Host (B : Type) : Type := mkHost {
  h_cfg : HostConfig;
  h_nodeID : Address;
  h_store : PeerStore;
  h_handlers : AppHandlers B;
  h_seenInv : gset Hash;
  h_bootnodes : gset (list Z);
  h_redial : redialState;
  h_peersDirty : bool;
  h_listenPort : Z;
  h_app : B;
}.
Arguments mkHost {B}.
Arguments h_cfg {B}.
Arguments h_nodeID {B}.
Arguments h_store {B}.
Arguments h_handlers {B}.
Arguments h_seenInv {B}.
Arguments h_bootnodes {B}.
Arguments h_redial {B}.
Arguments h_peersDirty {B}.
Arguments h_listenPort {B}.
Arguments h_app {B}.

Section Setters.
Context {B : Type}.
Implicit Types h : Host B.

Definition with_store (s : PeerStore) h : Host B :=
  mkHost (h_cfg h) (h_nodeID h) s (h_handlers h) (h_seenInv h) (h_bootnodes h) (h_redial h) (h_peersDirty h) (h_listenPort h) (h_app h).
Definition with_seen (s : gset Hash) h : Host B :=
  mkHost (h_cfg h) (h_nodeID h) (h_store h) (h_handlers h) s (h_bootnodes h) (h_redial h) (h_peersDirty h) (h_listenPort h) (h_app h).
Definition with_redial (r : redialState) h : Host B :=
  mkHost (h_cfg h) (h_nodeID h) (h_store h) (h_handlers h) (h_seenInv h) (h_bootnodes h) r (h_peersDirty h) (h_listenPort h) (h_app h).
Definition markPeersDirty h : Host B :=
  mkHost (h_cfg h) (h_nodeID h) (h_store h) (h_handlers h) (h_seenInv h) (h_bootnodes h) (h_redial h) true (h_listenPort h) (h_app h).
Definition with_app (b : B) h : Host B :=
  mkHost (h_cfg h) (h_nodeID h) (h_store h) (h_handlers h) (h_seenInv h) (h_bootnodes h) (h_redial h) (h_peersDirty h) (h_listenPort h) b.

Definition alreadySeen (hash : Hash) h : bool := bool_decide (hash ∈ h_seenInv h).
Definition markSeen (hash : Hash) h : Host B := with_seen ({[hash]} ∪ h_seenInv h) h.
Definition unmarkSeen (hash : Hash) h : Host B := with_seen (h_seenInv h ∖ {[hash]}) h.
End Setters.

(** *** Outgoing messages *)

(** [Peer.Send]: bulk messages are dropped when the queue is full, consensus
    messages time out. *)
Definition Send (typ : Z) (payload : list Z) (p : Peer) : Peer * res unit :=
  if pr_closed p then (p, Err "p2p: peer closed") else
  if (length (pr_out p) <? outQueue)%nat then
    (mkPeer (pr_ID p) (pr_RemoteAddr p) (pr_Height p) (pr_HeadHash p) (pr_Inbound p)
       (pr_out p ++ [mkOutMsg typ payload]) (pr_closed p), Ok tt)
  else if IsConsensusMsg typ then (p, Err "p2p: outbound queue timeout") else (p, Ok tt).

(** [NewHost] for the node of the given address; the peers file, when there is
    one, is given as parsed. *)
Definition bootnode_set (addrs : list (list Z)) : gset (list Z) :=
  list_to_set (List.filter (λ a, negb (bool_decide (a = []))) addrs).

Definition NewHost {B} (cfg : HostConfig) (nodeID : Address) (handlers : AppHandlers B)
    (file : option (Z * list knownPeerJSON)) (now : Z) (app : B) : res (Host B) :=
  let cfg := host_defaults cfg in
  let boot := bootnode_set (hc_Bootnodes cfg) in
  let store := NewPeerStore (hc_MaxPeers cfg) in
  let host s := mkHost cfg nodeID s handlers ∅ boot ∅ false 0 app in
  match file with
  | None => Ok (host store)
  | Some (version, peers) =>
      match LoadFromFile version peers now store with
      | (_, Err e) => Err e
      | (s, Ok _) => Ok (host (EvictOlderThan DefaultPeerTTL boot now s))
      end
  end.

Section Handlers.
Context `{C : Crypto} `{R : RlpCodec} `{SO : StoreOrder} {B : Type} `{K : Backend B}.
Implicit Types h : Host B.

(** A message to the connected peer [id]. *)
Definition send_to (id : Address) (typ : Z) (payload : list Z) h : Host B * res unit :=
  match ps_active (h_store h) !! id with
  | None => (h, Err "p2p: peer closed")
  | Some p =>
      let '(p, r) := Send typ payload p in
      (with_store (set_active (<[id := p]> (ps_active (h_store h))) (h_store h)) h, r)
  end.

(** Every connected peer but [exclude]; the zero address excludes nobody. *)
Definition Broadcast (typ : Z) (payload : list Z) (exclude : Address) h : Host B :=
  with_store (set_active ((λ p, if negb (exclude =? 0) && (pr_ID p =? exclude) then p else (Send typ payload p).1)
                            <$> ps_active (h_store h)) (h_store h)) h.

Definition GossipTx (hash : Hash) h : Host B :=
  Broadcast MsgInventory (Inventory_Encode [mkInvItem InvTx hash]) 0 (markSeen hash h).
Definition GossipBlock (hash : Hash) h : Host B :=
  Broadcast MsgInventory (Inventory_Encode [mkInvItem InvBlock hash]) 0 (markSeen hash h).
Definition BroadcastProposal (msg : WireProposal) h : Host B := Broadcast MsgProposal (WireProposal_Encode msg) 0 h.

Definition BroadcastVote (msg : WireVote) h : Host B * res unit :=
  if wv_Type msg =? 1 then (Broadcast MsgPrevote (WireVote_Encode msg) 0 h, Ok tt) else
  if wv_Type msg =? 2 then (Broadcast MsgPrecommit (WireVote_Encode msg) 0 h, Ok tt) else
  (h, Err "p2p: invalid vote type").

(** *** Peer exchange *)
Definition handleGetPeers (from : Address) h : Host B * res unit :=
  let peers := omap (λ k, match splitHostPort (kp_Addr k) with
                          | Err _ => None
                          | Ok (host, port) => Some (mkPeerAddr (kp_ID k) host port)
                          end) (Known (h_store h)) in
  send_to from MsgPeers (PeersMsg_Encode peers) h.

Definition learn_peer (now : Z) h (pa : PeerAddr) : Host B :=
  if pa_ID pa =? h_nodeID h then h
  else markPeersDirty (with_store (Remember (pa_ID pa) (FormatAddr (pa_Host pa) (pa_Port pa)) now (h_store h)) h).

Definition handlePeers (payload : list Z) (now : Z) h : Host B * res unit :=
  match DecodePeersMsg payload with
  | Err e => (h, Err e)
  | Ok peers => (foldl (learn_peer now) h peers, Ok tt)
  end.

(** *** Inventory *)
Definition want_item (st : Host B * list InvItem) (it : InvItem) : Host B * list InvItem :=
  let '(h, missing) := st in
  if alreadySeen (ii_Hash it) h then st else
  if ii_Kind it =? InvTx then
    if bk_HasTx (ii_Hash it) (h_app h) then st else (markSeen (ii_Hash it) h, missing ++ [it])
  else if ii_Kind it =? InvBlock then
    if bk_HasBlock (ii_Hash it) (h_app h) then st else (markSeen (ii_Hash it) h, missing ++ [it])
  else st.

Definition handleInventory (from : Address) (payload : list Z) h : Host B * res unit :=
  match DecodeInventory payload with
  | Err e => (h, Err e)
  | Ok items =>
      match foldl want_item (h, []) items with
      | (h, []) => (h, Ok tt)
      | (h, missing) => send_to from MsgGetData (GetData_Encode missing) h
      end
  end.

Definition serve_item (from : Address) (it : InvItem) h : Host B * res unit :=
  if ii_Kind it =? InvTx then
    match bk_GetTx (ii_Hash it) (h_app h) with
    | None => (h, Ok tt)
    | Some raw => send_to from MsgTxPayload (TxPayload_Encode (mkTxPayload (ii_Hash it) raw)) h
    end
  else if ii_Kind it =? InvBlock then
    match bk_BlockByHash (ii_Hash it) (h_app h) with
    | None => (h, Ok tt)
    | Some (raw, num) => send_to from MsgBlockPayload (BlockPayload_Encode (mkBlockPayload num (ii_Hash it) raw)) h
    end
  else (h, Ok tt).

Fixpoint serve_items (from : Address) (items : list InvItem) h : Host B * res unit :=
  match items with
  | [] => (h, Ok tt)
  | it :: items =>
      match serve_item from it h with
      | (h, Err e) => (h, Err e)
      | (h, Ok _) => serve_items from items h
      end
  end.

Definition handleGetData (from : Address) (payload : list Z) h : Host B * res unit :=
  match DecodeGetData payload with
  | Err e => (h, Err e)
  | Ok items => serve_items from items h
  end.

(** *** Transactions and blocks *)

(** A call into the application, when the handler is installed. *)
Definition call_app (call : option (B → option (B * res unit))) h : option (Host B * res unit) :=
  match call with
  | None => Some (h, Ok tt)
  | Some f => match f (h_app h) with None => None | Some (b, r) => Some (with_app b h, r) end
  end.

Definition handleTxPayload (from : Address) (payload : list Z) h : option (Host B * res unit) :=
  match DecodeTxPayload payload with
  | Err e => Some (h, Err e)
  | Ok msg =>
      if bk_HasTx (tp_Hash msg) (h_app h) then Some (h, Ok tt) else
      match call_app ((λ f, f (tp_Hash msg) (tp_Raw msg) from) <$> OnTx (h_handlers h)) h with
      | None => None
      | Some (h, Err _) => Some (h, Ok tt)
      | Some (h, Ok _) => Some (Broadcast MsgInventory (Inventory_Encode [mkInvItem InvTx (tp_Hash msg)]) from h, Ok tt)
      end
  end.

(** The peer's tip is raised to what it has sent. *)
Definition raise_tip (from : Address) (number : Z) (hash : Hash) h : Host B :=
  match ps_active (h_store h) !! from with
  | None => h
  | Some p =>
      if pr_Height p <? number then
        with_store (set_active (<[from := mkPeer (pr_ID p) (pr_RemoteAddr p) number hash (pr_Inbound p) (pr_out p) (pr_closed p)]>
                                  (ps_active (h_store h))) (h_store h)) h
      else h
  end.

Definition handleBlockPayload (from : Address) (payload : list Z) h : option (Host B * res unit) :=
  match DecodeBlockPayload payload with
  | Err e => Some (h, Err e)
  | Ok msg =>
      if bk_HasBlock (bp_Hash msg) (h_app h) then Some (h, Ok tt) else
      match call_app ((λ f, f (bp_Number msg) (bp_Hash msg) (bp_Raw msg) from) <$> OnBlock (h_handlers h)) h with
      | None => None
      | Some (h, Err _) => Some (unmarkSeen (bp_Hash msg) h, Ok tt)
      | Some (h, Ok _) =>
          let h := raise_tip from (bp_Number msg) (bp_Hash msg) h in
          Some (Broadcast MsgInventory (Inventory_Encode [mkInvItem InvBlock (bp_Hash msg)]) from h, Ok tt)
      end
  end.

(** The loop over the requested heights stops at the first missing block. *)
Fixpoint collect_blocks (fuel : nat) (n to : Z) (b : B) : option (list BlockPayload) :=
  match fuel with
  | O => None
  | S fuel =>
      if to <? n then Some [] else
      match bk_BlockByNumber n b with
      | None => Some []
      | Some (raw, hash) =>
          match collect_blocks fuel (n +₆₄ 1) to b with
          | None => None
          | Some bs => Some (mkBlockPayload n hash raw :: bs)
          end
      end
  end.

(** The end of the range that is served. *)
Definition clamp_range (from to max : Z) : Z := if max <? (to -₆₄ from) +₆₄ 1 then (from +₆₄ max) -₆₄ 1 else to.

(** [None]: the loop has not ended within the fuel. *)
Definition handleGetBlocks (fuel : nat) (from : Address) (payload : list Z) h : option (Host B * res unit) :=
  match DecodeGetBlocks payload with
  | Err e => Some (h, Err e)
  | Ok req =>
      if gb_To req <? gb_From req then Some (h, Err "p2p: invalid block range") else
      let to := clamp_range (gb_From req) (gb_To req) (hc_MaxBlocksPerRequest (h_cfg h)) in
      match collect_blocks fuel (gb_From req) to (h_app h) with
      | None => None
      | Some bs => Some (send_to from MsgBlocks (BlocksMsg_Encode bs) h)
      end
  end.

Fixpoint apply_blocks (from : Address) (bs : list BlockPayload) h : option (Host B) :=
  match bs with
  | [] => Some h
  | bl :: bs =>
      if bk_HasBlock (bp_Hash bl) (h_app h) then apply_blocks from bs h else
      match call_app ((λ f, f (bp_Number bl) (bp_Hash bl) (bp_Raw bl) from) <$> OnBlock (h_handlers h)) h with
      | None => None
      | Some (h, _) => apply_blocks from bs h
      end
  end.

Definition handleBlocks (from : Address) (payload : list Z) h : option (Host B * res unit) :=
  match DecodeBlocksMsg payload with
  | Err e => Some (h, Err e)
  | Ok bs => match apply_blocks from bs h with None => None | Some h => Some (h, Ok tt) end
  end.

(** *** Consensus messages *)
Definition proposalSeenHash (msg : WireProposal) : Hash :=
  Keccak256Hash (be_bytes 8 (wp_Height msg) ++ be_bytes 8 (wp_Round msg) ++ hash_bytes (wp_BlockHash msg)).

Definition voteSeenInput (msg : WireVote) : list Z :=
  [wv_Type msg] ++ be_bytes 8 (wv_Height msg) ++ be_bytes 8 (wv_Round msg) ++ addr_bytes (wv_Validator msg).
Definition voteSeenHash (msg : WireVote) : Hash := Keccak256Hash (voteSeenInput msg).

Definition handleProposal (from : Address) (payload : list Z) h : option (Host B * res unit) :=
  match DecodeWireProposal payload with
  | Err e => Some (h, Err e)
  | Ok msg =>
      let propKey := proposalSeenHash msg in
      if alreadySeen propKey h then Some (h, Ok tt) else
      let h := markSeen propKey h in
      match call_app ((λ f, f msg from) <$> OnProposal (h_handlers h)) h with
      | None => None
      | Some (h, Err _) => Some (h, Ok tt)
      | Some (h, Ok _) => Some (Broadcast MsgProposal payload from h, Ok tt)
      end
  end.

Definition handleVote (from : Address) (payload : list Z) (typ : Z) h : option (Host B * res unit) :=
  match DecodeWireVote payload with
  | Err e => Some (h, Err e)
  | Ok msg =>
      let voteKey := voteSeenHash msg in
      if alreadySeen voteKey h then Some (h, Ok tt) else
      let h := markSeen voteKey h in
      match call_app ((λ f, f msg from) <$> OnVote (h_handlers h)) h with
      | None => None
      | Some (h, Err _) => Some (h, Ok tt)
      | Some (h, Ok _) => Some (Broadcast typ payload from h, Ok tt)
      end
  end.

(** A frame from the connected peer [from]; [fuel] bounds the block loop. *)
Definition handleFrame (fuel : nat) (from : Address) (f : Frame) (now : Z) h : option (Host B * res unit) :=
  let typ := f_Type f in
  let payload := f_Payload f in
  if typ =? MsgPing then Some (send_to from MsgPong payload h) else
  if typ =? MsgGetPeers then Some (handleGetPeers from h) else
  if typ =? MsgPeers then Some (handlePeers payload now h) else
  if typ =? MsgInventory then Some (handleInventory from payload h) else
  if typ =? MsgGetData then Some (handleGetData from payload h) else
  if typ =? MsgTxPayload then handleTxPayload from payload h else
  if typ =? MsgBlockPayload then handleBlockPayload from payload h else
  if typ =? MsgGetBlocks then handleGetBlocks fuel from payload h else
  if typ =? MsgBlocks then handleBlocks from payload h else
  if typ =? MsgProposal then handleProposal from payload h else
  if (typ =? MsgPrevote) || (typ =? MsgPrecommit) then handleVote from payload typ h else
  Some (h, Ok tt).

(** ** Connections *)

(** The random nonce is an argument. *)
Definition buildHandshake (key : PrivateKey) (nonce : list Z) h : res Handshake :=
  let hs sig := mkHandshake ProtocolVersion (Some (hc_ChainID (h_cfg h))) (bk_Height (h_app h)) (bk_HeadHash (h_app h))
                  (h_listenPort h) (h_nodeID h) nonce sig in
  let? digest := Handshake_SignBytes (hs []) in
  let? sig := Sign digest key in
  Ok (hs sig).

Definition verifyHandshake (hs : Handshake) h : res unit :=
  if negb (hs_Version hs =? ProtocolVersion) then Err "p2p: protocol version mismatch" else
  if negb (bool_decide (hs_ChainID hs = Some (hc_ChainID (h_cfg h)))) then Err "p2p: chain id mismatch" else
  if negb (length (hs_Signature hs) =? 65)%nat || (length (hs_Nonce hs) =? 0)%nat
  then Err "p2p: invalid handshake signature/nonce" else
  let? digest := Handshake_SignBytes hs in
  let? pub := Ecrecover digest (hs_Signature hs) in
  if negb (length pub =? 65)%nat then Err "p2p: bad recovered pubkey" else
  if negb (of_be (drop 12 (Keccak256 (drop 1 pub))) =? hs_NodeID hs)
  then Err "p2p: handshake node id does not match signature" else Ok tt.

(** [negotiate] once the remote handshake frame has been read from the
    connection at [conn]: the peer that stands for it. *)
Definition negotiate (frame : Frame) (conn : list Z) (inbound : bool) (now : Z) h : Host B * res Address :=
  if negb (f_Type frame =? MsgHandshake) then (h, Err "p2p: expected handshake") else
  match DecodeHandshake (f_Payload frame) with
  | Err e => (h, Err e)
  | Ok remote =>
      match verifyHandshake remote h with
      | Err e => (h, Err e)
      | Ok _ =>
          if hs_NodeID remote =? h_nodeID h then (h, Err "p2p: connected to self") else
          match ps_active (h_store h) !! hs_NodeID remote with
          | Some _ => (h, Ok (hs_NodeID remote))
          | None =>
              let addr := match SplitHostPort conn with
                          | Ok (host, _) => if 0 <? hs_ListenPort remote then FormatAddr host (hs_ListenPort remote) else conn
                          | Err _ => conn
                          end in
              let p := mkPeer (hs_NodeID remote) addr (hs_Height remote) (hs_HeadHash remote) inbound [] false in
              match AddActive p now (h_store h) with
              | (s, Err e) => (with_store s h, Err e)
              | (s, Ok _) =>
                  let h := markPeersDirty (with_store (Remember (pr_ID p) addr now s) h) in
                  (match addr with [] => h | _ => with_redial (redial_success addr (h_redial h)) h end, Ok (pr_ID p))
              end
          end
      end
  end.

Definition onPeerClosed (p : Peer) (closed : bool) (now : Z) h : Host B :=
  let h := with_store (RemoveActive (pr_ID p) (h_store h)) h in
  match pr_RemoteAddr p with
  | [] => h
  | addr =>
      if closed then h else
      markPeersDirty (with_redial (scheduleSoon addr now (h_redial h))
                        (with_store (Remember (pr_ID p) addr now (h_store h)) h))
  end.

Definition addrConnected (addr : list Z) h : bool :=
  existsb (λ p, bool_decide (pr_RemoteAddr p = addr)) (Active (h_store h)).

(** [dial] is [Host.Dial]: the connection attempt with the negotiation it leads
    to, and whether it succeeded. *)
Definition maintain_addr (dial : list Z → Host B → Host B * bool) (now : Z) h (addr : list Z) : Host B :=
  if negb (shouldDial addr now (h_redial h)) then h else
  if addrConnected addr h then with_redial (redial_success addr (h_redial h)) h else
  let '(h, ok) := dial addr h in
  if ok then markPeersDirty (with_redial (redial_success addr (h_redial h)) h)
  else with_redial (redial_failure addr now (h_redial h)) h.

Definition dial_targets h : gset (list Z) :=
  filter (λ a, addrConnected a h = false) (h_bootnodes h)
  ∪ list_to_set (List.filter (λ a, negb (bool_decide (a = []))) (map kp_Addr (Dialable (h_store h)))).

(** [range] is the order of Go's map iteration over the targets. *)
Definition maintainOnce (range : gset (list Z) → list (list Z)) (dial : list Z → Host B → Host B * bool) (now : Z) h
    : Host B :=
  let h := with_store (EvictOlderThan DefaultPeerTTL (h_bootnodes h) now (h_store h)) h in
  foldl (maintain_addr dial now) h (range (dial_targets h)).

(** ** Sync *)

(** The first height that is missing; heights stay below 2^64 - 1. *)
Definition nextSyncFrom (b : B) : Z :=
  let height := bk_Height b in
  match List.find (λ n, bool_decide (bk_BlockByNumber n b = None)) (seqZ 0 (height + 1)) with
  | Some n => n
  | None => height +₆₄ 1
  end.

Definition countBlocks (b : B) (from to : Z) : nat :=
  length (List.filter (λ n, bool_decide (is_Some (bk_BlockByNumber n b))) (seqZ from (to - from + 1))).

Definition has_number (n : Z) (b : B) : bool := bool_decide (is_Some (bk_BlockByNumber n b)).

(** [wait] is what happens to the host while it waits for the answer; a peer
    that has been dropped meanwhile is no longer in the store. *)
Fixpoint SyncFromPeer (fuel : nat) (wait : Address → list Z → Host B → option (Host B)) (peer : Address) h
    : option (Host B * res unit) :=
  match fuel with
  | O => None
  | S fuel =>
      match ps_active (h_store h) !! peer with
      | None => Some (h, Err "p2p: peer closed")
      | Some p =>
          let local := bk_Height (h_app h) in
          let target := pr_Height p in
          if target <? local then Some (h, Ok tt) else
          if (target =? local) && has_number local (h_app h) then Some (h, Ok tt) else
          let from := nextSyncFrom (h_app h) in
          if target <? from then Some (h, Ok tt) else
          let to := Z.min ((from +₆₄ hc_MaxBlocksPerRequest (h_cfg h)) -₆₄ 1) target in
          let beforeHas := countBlocks (h_app h) from to in
          match send_to peer MsgGetBlocks (GetBlocks_Encode (mkGetBlocks from to)) h with
          | (h, Err e) => Some (h, Err e)
          | (h, Ok _) =>
              match wait peer (GetBlocks_Encode (mkGetBlocks from to)) h with
              | None => None
              | Some h =>
                  if (local <? bk_Height (h_app h)) || (beforeHas <? countBlocks (h_app h) from to)%nat
                  then SyncFromPeer fuel wait peer h
                  else if (target <=? bk_Height (h_app h)) && has_number target (h_app h) then Some (h, Ok tt)
                  else Some (h, Err "p2p: sync stall")
              end
          end
      end
  end.

(** At most 32 batches; a batch without progress ends the pull. *)
Fixpoint SyncMissingFromPeer (batches : nat) (wait : Address → list Z → Host B → option (Host B)) (peer : Address) h
    : option (Host B * res unit) :=
  match batches with
  | O => Some (h, Ok tt)
  | S batches =>
      let from := nextSyncFrom (h_app h) in
      let to := (from +₆₄ hc_MaxBlocksPerRequest (h_cfg h)) -₆₄ 1 in
      let beforeH := bk_Height (h_app h) in
      let beforeHas := countBlocks (h_app h) from to in
      match send_to peer MsgGetBlocks (GetBlocks_Encode (mkGetBlocks from to)) h with
      | (h, Err e) => Some (h, Err e)
      | (h, Ok _) =>
          match wait peer (GetBlocks_Encode (mkGetBlocks from to)) h with
          | None => None
          | Some h =>
              if (beforeH <? bk_Height (h_app h)) || (beforeHas <? countBlocks (h_app h) from to)%nat
              then SyncMissingFromPeer batches wait peer h else Some (h, Ok tt)
          end
      end
  end.

Definition taller (best : option Peer) (p : Peer) : option Peer :=
  match best with None => Some p | Some b => if pr_Height b <? pr_Height p then Some p else best end.

(** The peer [SyncBestPeer] syncs from, if any. *)
Definition best_peer h : option Peer :=
  let local := bk_Height (h_app h) in
  let active := Active (h_store h) in
  match foldl taller None (List.filter (λ p, local <? pr_Height p) active) with
  | Some p => Some p
  | None =>
      match foldl taller None active with
      | None => None
      | Some p => if (pr_Height p <=? local) && has_number (pr_Height p) (h_app h) then None else Some p
      end
  end.
End Handlers.

(** ** The in-memory backend *)
Record blockRec : Type := mkBlockRec { br_hash : Hash; br_raw : list Z }.

Record MemoryChain : Type := mkMemoryChain {
  mc_height : Z;
  mc_blocks : gmap Z blockRec;
  mc_byHash : gmap Hash Z;
  mc_txs : gmap Hash (list Z);
}.

Definition NewMemoryChain (genesisHash : Hash) (genesisRaw : list Z) : MemoryChain :=
  if negb (Hash_IsZero genesisHash) || (0 <? length genesisRaw)%nat
  then mkMemoryChain 0 {[0 := mkBlockRec genesisHash genesisRaw]} {[genesisHash := 0]} ∅
  else mkMemoryChain 0 ∅ ∅ ∅.

Definition AddBlock (number : Z) (hash : Hash) (raw : list Z) (m : MemoryChain) : MemoryChain :=
  mkMemoryChain (if mc_height m <? number then number else mc_height m)
    (<[number := mkBlockRec hash raw]> (mc_blocks m)) (<[hash := number]> (mc_byHash m)) (mc_txs m).

Definition AddTx (hash : Hash) (raw : list Z) (m : MemoryChain) : MemoryChain :=
  mkMemoryChain (mc_height m) (mc_blocks m) (mc_byHash m) (<[hash := raw]> (mc_txs m)).

#[export] Instance MemoryChain_backend : Backend MemoryChain := {|
  bk_Height := mc_height;
  bk_HeadHash m := match mc_blocks m !! mc_height m with None => 0 | Some r => br_hash r end;
  bk_BlockByNumber n m := (λ r, (br_raw r, br_hash r)) <$> mc_blocks m !! n;
  bk_BlockByHash hash m :=
    n ← mc_byHash m !! hash; Some (match mc_blocks m !! n with None => [] | Some r => br_raw r end, n);
  bk_HasBlock hash m := bool_decide (is_Some (mc_byHash m !! hash));
  bk_HasTx hash m := bool_decide (is_Some (mc_txs m !! hash));
  bk_GetTx hash m := mc_txs m !! hash;
|}.
