(* ===== verification/P2PProps.v ===== *)
(** * Properties of the peer-to-peer host

    The host of [P2PHost.v] as a step relation, one step per call from the
    network, the consensus runner and the timers, and its invariant; the
    duplicate filter of consensus messages; and the handshake between two
    hosts. *)
From S2P Require Import Prelude Types Toy DewTx ValidatorSet Votes Rlp EvmTx Smt P2PWire P2PHost.

(** The message [writeLoop] takes from the queue of a peer. *)
Definition next_out {B} (id : Address) (h : Host B) : option (outMsg * Host B) :=
  match ps_active (h_store h) !! id with
  | None => None
  | Some p =>
      match pr_out p with
      | [] => None
      | m :: rest =>
          Some (m, with_store (set_active (<[id := mkPeer (pr_ID p) (pr_RemoteAddr p) (pr_Height p) (pr_HeadHash p)
                                  (pr_Inbound p) rest (pr_closed p)]> (ps_active (h_store h))) (h_store h)) h)
      end
  end.

(** ** The invariant of the host *)
Definition peer_ok (self id : Address) (p : Peer) : Prop :=
  pr_ID p = id ∧ id ≠ self ∧ (length (pr_out p) <= outQueue)%nat.

Record store_ok (self : Address) (max : Z) (s : PeerStore) : Prop := {
  so_active : map_Forall (peer_ok self) (ps_active s);
  so_known : map_Forall (λ id k, kp_ID k = id) (ps_known s);
  so_capacity : Z.of_nat (size (ps_active s)) <= max;
  so_max : ps_max s = max;
}.

Definition host_wf {B} (self : Address) (max : Z) (h : Host B) : Prop := h_nodeID h = self ∧ store_ok self max (h_store h).

Section Invariant.
Context `{C : Crypto} `{R : RlpCodec} `{SO : StoreOrder} {B : Type} `{K : Backend B}.
Implicit Types h : Host B.

Inductive host_step : Host B → Host B → Prop :=
| step_frame fuel from f now h h' r : handleFrame fuel from f now h = Some (h', r) → host_step h h'
| step_negotiate frame conn inbound now h h' r : negotiate frame conn inbound now h = (h', r) → host_step h h'
| step_closed p closed now h : host_step h (onPeerClosed p closed now h)
| step_written id m h h' : next_out id h = Some (m, h') → host_step h h'
| step_gossip_tx hash h : host_step h (GossipTx hash h)
| step_gossip_block hash h : host_step h (GossipBlock hash h)
| step_proposal msg h : host_step h (BroadcastProposal msg h)
| step_vote msg h h' r : BroadcastVote msg h = (h', r) → host_step h h'
| step_request id typ payload h h' r : send_to id typ payload h = (h', r) → host_step h h'
| step_evict ttl now h : host_step h (with_store (EvictOlderThan ttl (h_bootnodes h) now (h_store h)) h)
| step_ban id delta now h : host_step h (with_store (AddBanScore id delta now (h_store h)) h)
| step_forget id h : host_step h (with_store (Forget id (h_store h)) h)
| step_redial r h : host_step h (with_redial r h)
| step_app b h : host_step h (with_app b h).

Lemma Send_ok self id typ payload p : peer_ok self id p → peer_ok self id (Send typ payload p).1.
Proof.
  intros (H1 & H2 & H3). unfold Send. destruct (pr_closed p); [done|].
  destruct (Nat.ltb_spec (length (pr_out p)) outQueue).
  - split_and!; [done|done|]. cbn [fst pr_out]. rewrite length_app. cbn [length]. lia.
  - by destruct (IsConsensusMsg typ).
Qed.

Section Store.
Context (self : Address) (max : Z).

Lemma insert_active_ok id p s : store_ok self max s → is_Some (ps_active s !! id) → peer_ok self id p →
  store_ok self max (set_active (<[id := p]> (ps_active s)) s).
Proof.
  intros [Ha Hk Hc Hm] Hs Hp. split; [by apply map_Forall_insert_2|done| |done].
  cbn. by rewrite map_size_insert_Some.
Qed.

Lemma fmap_active_ok (f : Peer → Peer) s : (∀ id p, peer_ok self id p → peer_ok self id (f p)) →
  store_ok self max s → store_ok self max (set_active (f <$> ps_active s) s).
Proof.
  intros Hf [Ha Hk Hc Hm]. split; [|done| |done].
  - intros id p. cbn [ps_active set_active]. rewrite lookup_fmap, fmap_Some. intros (p0 & H & ->). apply Hf. by apply Ha.
  - cbn. by rewrite map_size_fmap.
Qed.

Lemma set_known_ok k s : map_Forall (λ id x, kp_ID x = id) k → store_ok self max s → store_ok self max (set_known k s).
Proof. by intros Hk [? ? ? ?]. Qed.

Lemma Remember_ok id addr now s : store_ok self max s → store_ok self max (Remember id addr now s).
Proof. intros Hs. apply set_known_ok; [|done]. by apply map_Forall_insert_2; [|apply Hs]. Qed.

Lemma AddBanScore_ok id delta now s : store_ok self max s → store_ok self max (AddBanScore id delta now s).
Proof.
  intros Hs. unfold AddBanScore. destruct (delta =? 0); [done|]. apply set_known_ok; [|done].
  apply map_Forall_insert_2; [|apply Hs]. cbn. destruct (ps_known s !! id) eqn:E; cbn; [by apply (so_known _ _ _ Hs)|done].
Qed.

Lemma Evict_ok ttl keep now s : store_ok self max s → store_ok self max (EvictOlderThan ttl keep now s).
Proof.
  intros Hs. apply set_known_ok; [|done]. intros id k Hk%map_lookup_filter_Some_1_1. by apply (so_known _ _ _ Hs).
Qed.

Lemma Forget_ok id s : store_ok self max s → store_ok self max (Forget id s).
Proof. intros Hs. apply set_known_ok; [|done]. apply map_Forall_delete, Hs. Qed.

Lemma RemoveActive_ok id s : store_ok self max s → store_ok self max (RemoveActive id s).
Proof.
  intros [Ha Hk Hc Hm]. split; [by apply map_Forall_delete|done| |done].
  cbn. rewrite map_size_delete. destruct (ps_active s !! id); cbn; lia.
Qed.

Lemma AddActive_ok p now s : store_ok self max s → pr_ID p ≠ self → pr_out p = [] →
  store_ok self max (AddActive p now s).1.
Proof.
  intros Hs Hself Hout. unfold AddActive. destruct (ps_active s !! pr_ID p) eqn:Ha; [done|].
  destruct (Z.leb_spec (ps_max s) (Z.of_nat (size (ps_active s)))) as [|Hroom]; [done|].
  assert (store_ok self max (set_active (<[pr_ID p := p]> (ps_active s)) s)) as Hs'.
  { destruct Hs as [Hsa Hsk Hsc Hsm]. split; [|done| |done]; cbn.
    - apply map_Forall_insert_2; [|done]. split_and!; [done|done|]. rewrite Hout. apply Nat.le_0_l.
    - rewrite map_size_insert_None by done. lia. }
  destruct (pr_RemoteAddr p); [done|]. apply set_known_ok; [|done]. by apply map_Forall_insert_2; [|apply Hs].
Qed.

Lemma load_entry_ok now s e : store_ok self max s → store_ok self max (load_entry now s e).
Proof.
  intros Hs. unfold load_entry. destruct (pj_ID e); [|done]. destruct (pj_Addr e); [done|].
  apply set_known_ok; [|done]. by apply map_Forall_insert_2; [|apply Hs].
Qed.
End Store.
End Invariant.

Create HintDb host_db.
#[export] Hint Resolve Remember_ok AddBanScore_ok Evict_ok Forget_ok RemoveActive_ok : host_db.

Section Invariant2.
Context `{C : Crypto} `{R : RlpCodec} `{SO : StoreOrder} {B : Type} `{K : Backend B}.
Context (self : Address) (max : Z).
Implicit Types h : Host B.
Abbreviation wf := (host_wf self max).

Lemma with_store_wf s h : wf h → store_ok self max s → wf (with_store s h).
Proof. by intros [? ?] ?. Qed.

Lemma send_to_wf id typ payload h : wf h → wf (send_to id typ payload h).1.
Proof.
  intros Hw. unfold send_to. destruct (ps_active (h_store h) !! id) as [p|] eqn:E; [|done].
  destruct (Send typ payload p) as [p' r] eqn:Hs. cbn [fst]. apply with_store_wf; [done|].
  apply insert_active_ok; [apply Hw|eauto|]. change p' with (p', r).1. rewrite <-Hs. apply Send_ok.
  by apply (so_active _ _ _ (proj2 Hw)).
Qed.

Lemma Broadcast_wf typ payload exclude h : wf h → wf (Broadcast typ payload exclude h).
Proof.
  intros Hw. apply with_store_wf; [done|]. apply fmap_active_ok; [|apply Hw].
  intros id p Hp. destruct (_ && _); [done|by apply Send_ok].
Qed.

Lemma raise_tip_wf from n hash h : wf h → wf (raise_tip from n hash h).
Proof.
  intros Hw. unfold raise_tip. destruct (ps_active (h_store h) !! from) as [p|] eqn:E; [|done].
  destruct (pr_Height p <? n); [|done]. apply with_store_wf; [done|].
  apply insert_active_ok; [apply Hw|eauto|]. by apply (so_active _ _ _ (proj2 Hw)) in E.
Qed.

Lemma call_app_wf f h h' r : wf h → call_app f h = Some (h', r) → wf h'.
Proof. intros Hw. unfold call_app. destruct f as [f|]; [|by intros [= <- _]]. by destruct (f _) as [[b r']|]; [|discriminate]; intros [= <- _]. Qed.

Lemma next_out_wf id m h h' : wf h → next_out id h = Some (m, h') → wf h'.
Proof.
  intros Hw. unfold next_out. destruct (ps_active (h_store h) !! id) as [p|] eqn:E; [|done].
  destruct (pr_out p) as [|m0 rest] eqn:Ho; [done|]. intros [= _ <-]. apply with_store_wf; [done|].
  apply insert_active_ok; [apply Hw|eauto|]. pose proof (so_active _ _ _ (proj2 Hw) _ _ E) as (H1 & H2 & H3).
  rewrite Ho in H3. cbn in H3. split_and!; [done|done|cbn; lia].
Qed.

Lemma want_items_wf items h missing : wf h → wf (foldl want_item (h, missing) items).1.
Proof.
  revert h missing. induction items as [|it items IH]; intros h missing Hw; [done|]. cbn [foldl want_item].
  repeat (case_match; try apply IH; try done).
Qed.

Lemma serve_items_wf from items h : wf h → wf (serve_items from items h).1.
Proof.
  revert h. induction items as [|it items IH]; intros h Hw; [done|]. cbn [serve_items].
  assert (wf (serve_item from it h).1) as Hi.
  { unfold serve_item. repeat (case_match; try done); by apply send_to_wf. }
  destruct (serve_item from it h) as [h' [?|e]]; [by apply IH|done].
Qed.

Lemma apply_blocks_wf from bs h h' : wf h → apply_blocks from bs h = Some h' → wf h'.
Proof.
  revert h. induction bs as [|b bs IH]; intros h Hw; cbn [apply_blocks]; [by intros [= <-]|].
  destruct (bk_HasBlock _ _); [by apply IH|]. destruct (call_app _ h) as [[h1 r]|] eqn:E; [|done].
  apply IH. by eapply call_app_wf.
Qed.

Lemma handlePeers_wf payload now h : wf h → wf (handlePeers payload now h).1.
Proof.
  intros Hw. unfold handlePeers. destruct (DecodePeersMsg payload) as [peers|]; [|done]. cbn [fst].
  revert h Hw. induction peers as [|pa peers IH]; intros h Hw; [done|]. apply IH. unfold learn_peer.
  destruct (_ =? _); [done|]. by apply with_store_wf; [|apply Remember_ok, Hw].
Qed.

Lemma handleInventory_wf from payload h : wf h → wf (handleInventory from payload h).1.
Proof.
  intros Hw. unfold handleInventory. destruct (DecodeInventory payload) as [items|]; [|done].
  pose proof (want_items_wf items h [] Hw) as Hm. destruct (foldl _ _ _) as [h' [|m ms]]; [done|by apply send_to_wf].
Qed.

Lemma delivered_wf f h h' r (k : Host B → Host B) : (∀ h, wf h → wf (k h)) → wf h →
  match call_app f h with
  | None => None
  | Some (h, Err _) => Some (h, Ok tt)
  | Some (h, Ok _) => Some (k h, Ok tt)
  end = Some (h', r) → wf h'.
Proof.
  intros Hk Hw. destruct (call_app f h) as [[h1 [x|e]]|] eqn:E; [| |done]; intros [= <- <-];
    [apply Hk|]; by eapply call_app_wf.
Qed.

Lemma handleBlockPayload_wf from payload h h' r : wf h → handleBlockPayload from payload h = Some (h', r) → wf h'.
Proof.
  intros Hw. unfold handleBlockPayload. destruct (DecodeBlockPayload payload) as [m|]; [|by intros [= <- <-]].
  destruct (bk_HasBlock _ _); [by intros [= <- <-]|]. destruct (call_app _ h) as [[h1 [x|e]]|] eqn:E; [| |done];
    apply call_app_wf in E; [|done| |done]; intros [= <- <-]; [|done]. by apply Broadcast_wf, raise_tip_wf.
Qed.

Lemma handleFrame_wf fuel from f now h h' r : wf h → handleFrame fuel from f now h = Some (h', r) → wf h'.
Proof.
  intros Hw. assert (∀ hr : Host B * res unit, wf hr.1 → Some hr = Some (h', r) → wf h') as Hp by (by intros ? ? [= ->]).
  assert (∀ k, wf (markSeen k h)) as Hs by done. unfold handleFrame.
  destruct (_ =? MsgPing); [by apply Hp, send_to_wf|]. destruct (_ =? MsgGetPeers); [by apply Hp, send_to_wf|].
  destruct (_ =? MsgPeers); [by apply Hp, handlePeers_wf|]. destruct (_ =? MsgInventory); [by apply Hp, handleInventory_wf|].
  destruct (_ =? MsgGetData).
  { apply Hp. unfold handleGetData. destruct (DecodeGetData _); [by apply serve_items_wf|done]. }
  destruct (_ =? MsgTxPayload).
  { unfold handleTxPayload. destruct (DecodeTxPayload _); [|by intros [= <- <-]].
    destruct (bk_HasTx _ _); [by intros [= <- <-]|]. apply delivered_wf; [|done]. intros; by apply Broadcast_wf. }
  destruct (_ =? MsgBlockPayload); [by apply handleBlockPayload_wf|].
  destruct (_ =? MsgGetBlocks).
  { unfold handleGetBlocks. destruct (DecodeGetBlocks _); [|by intros [= <- <-]].
    destruct (_ <? _); [by intros [= <- <-]|]. destruct (collect_blocks _ _ _ _); [|done]. by apply Hp, send_to_wf. }
  destruct (_ =? MsgBlocks).
  { unfold handleBlocks. destruct (DecodeBlocksMsg _); [|by intros [= <- <-]].
    destruct (apply_blocks _ _ _) eqn:E; [|done]. intros [= <- <-]. by eapply apply_blocks_wf. }
  destruct (_ =? MsgProposal).
  { unfold handleProposal. destruct (DecodeWireProposal _); [|by intros [= <- <-]]. destruct (alreadySeen _ _); [by intros [= <- <-]|].
    apply delivered_wf; [|done]. intros; by apply Broadcast_wf. }
  destruct (_ || _); [|by intros [= <- <-]].
  unfold handleVote. destruct (DecodeWireVote _); [|by intros [= <- <-]]. destruct (alreadySeen _ _); [by intros [= <- <-]|].
  apply delivered_wf; [|done]. intros; by apply Broadcast_wf.
Qed.

Lemma negotiate_wf frame conn inbound now h : wf h → wf (negotiate frame conn inbound now h).1.
Proof.
  intros Hw. unfold negotiate. destruct (negb _); [done|]. destruct (DecodeHandshake _) as [hs|]; [|done].
  destruct (verifyHandshake hs h); [|done]. destruct (Z.eqb_spec (hs_NodeID hs) (h_nodeID h)) as [|Hid]; [done|].
  destruct (ps_active (h_store h) !! hs_NodeID hs); [done|]. cbv zeta.
  set (addr := match SplitHostPort conn with
               | Ok (host, _) => if 0 <? hs_ListenPort hs then FormatAddr host (hs_ListenPort hs) else conn
               | Err _ => conn end).
  set (p := mkPeer _ _ _ _ _ _ _). destruct Hw as [Hn Hs]. rewrite Hn in Hid.
  pose proof (AddActive_ok self max p now (h_store h) Hs Hid eq_refl) as Ha.
  destruct (AddActive p now (h_store h)) as [s [x|e]]; cbn [fst] in *.
  - pose proof (Remember_ok self max (pr_ID p) addr now s Ha) as Hr. clearbody p addr.
    destruct addr; (split; [exact Hn|exact Hr]).
  - by split.
Qed.

Lemma onPeerClosed_wf p closed now h : wf h → wf (onPeerClosed p closed now h).
Proof.
  intros [Hn Hs]. unfold onPeerClosed. destruct (pr_RemoteAddr p) as [|c addr]; [|destruct closed];
    (split; [done|]); cbn; auto with host_db.
Qed.

Lemma host_step_wf h h' : host_step h h' → wf h → wf h'.
Proof.
  intros Hs Hw. pose proof Hw as [Hn Ho]. destruct Hs.
  - by eapply handleFrame_wf.
  - change h' with (h', r).1. rewrite <-H. by apply negotiate_wf.
  - by apply onPeerClosed_wf.
  - by eapply next_out_wf.
  - by apply Broadcast_wf.
  - by apply Broadcast_wf.
  - by apply Broadcast_wf.
  - unfold BroadcastVote in H. repeat case_match; injection H as <- <-; try done; by apply Broadcast_wf.
  - change h' with (h', r).1. rewrite <-H. by apply send_to_wf.
  - split; [done|]. cbn. auto with host_db.
  - split; [done|]. cbn. auto with host_db.
  - split; [done|]. cbn. auto with host_db.
  - done.
  - done.
Qed.

Lemma NewHost_wf cfg handlers file now app h : max = hc_MaxPeers (host_defaults cfg) →
  NewHost cfg self handlers file now app = Ok h → wf h.
Proof.
  intros Hmax. assert (0 < max) as Hpos.
  { rewrite Hmax. cbn. destruct (Z.leb_spec (hc_MaxPeers cfg) 0); lia. }
  assert (store_ok self max (NewPeerStore (hc_MaxPeers (host_defaults cfg)))) as H0.
  { rewrite <-Hmax. unfold NewPeerStore. rewrite (proj2 (Z.leb_gt max 0)) by done.
    split; [apply map_Forall_empty|apply map_Forall_empty|cbn; rewrite map_size_empty; lia|done]. }
  unfold NewHost. destruct file as [[version peers]|]; [|by intros [= <-]].
  unfold LoadFromFile. destruct (_ && _); [done|]. intros [= <-]. split; [done|]. cbn [h_store]. apply Evict_ok.
  cbn [hc_MaxPeers host_defaults] in *. revert H0.
  generalize (NewPeerStore (if hc_MaxPeers cfg <=? 0 then 25 else hc_MaxPeers cfg)). clear Hmax Hpos.
  induction peers as [|e peers IH]; intros s Hs; [done|]. apply IH. by apply load_entry_ok.
Qed.
End Invariant2.

(** The peers offered for dialing. *)
Lemma Dialable_known `{SO : StoreOrder} `{SL : !StoreOrderLaws SO} self max s k : store_ok self max s → k ∈ Dialable s →
  ps_known s !! kp_ID k = Some k ∧ ps_active s !! kp_ID k = None ∧ kp_BanScore k < BanDialThreshold.
Proof.
  intros [_ Hk _ _]. unfold Dialable, Known.
  rewrite list_elem_of_In, filter_In, <-list_elem_of_In, list_elem_of_fmap. intros [([id k'] & -> & Hin) Hd]. cbn in *.
  rewrite (range_known_ok (ps_known s)), elem_of_map_to_list in Hin.
  unfold dial_candidate in Hd. apply andb_prop in Hd as [Hd H3]. apply andb_prop in Hd as [H1 H2].
  apply negb_true_iff, bool_decide_eq_false in H1, H3. apply eq_None_not_Some in H3. rewrite (Hk _ _ Hin) in *.
  split_and!; [done|done|lia].
Qed.

(** C22. The host's tables stay well formed whatever the network, the consensus
    runner and the timers do: every connected peer is filed under its own
    identity and is never the host itself, there are never more of them than
    configured, and no outgoing queue exceeds its capacity.  An address the
    redial loop tries is either a bootnode without a connection, which is tried
    whatever its ban score, or the one of a known peer that is not banned and
    not connected. *)
Theorem host_invariant `{C : Crypto} `{R : RlpCodec} `{SO : StoreOrder} `{SL : !StoreOrderLaws SO} {B : Type} `{K : Backend B}
    cfg self handlers file now (app : B) h0 h :
  NewHost cfg self handlers file now app = Ok h0 → rtc host_step h0 h →
  (∀ id p, ps_active (h_store h) !! id = Some p → pr_ID p = id ∧ id ≠ self ∧ (length (pr_out p) <= outQueue)%nat) ∧
  Z.of_nat (size (ps_active (h_store h))) <= hc_MaxPeers (host_defaults cfg) ∧
  (∀ a, a ∈ dial_targets h → (a ∈ h_bootnodes h ∧ addrConnected a h = false) ∨
     ∃ k, kp_Addr k = a ∧ a ≠ [] ∧ ps_known (h_store h) !! kp_ID k = Some k ∧ ps_active (h_store h) !! kp_ID k = None ∧
       kp_BanScore k < BanDialThreshold).
Proof.
  intros H0 Hr. assert (host_wf self (hc_MaxPeers (host_defaults cfg)) h) as [_ Hs].
  { apply NewHost_wf with (max := hc_MaxPeers (host_defaults cfg)) in H0; [|done].
    induction Hr as [|h1 h2 h3 Hs _ IH]; [done|]. by apply IH, (host_step_wf _ _ h1 h2). }
  pose proof Hs as [Ha _ Hc _].
  split_and!; [exact Ha|exact Hc|]. intros a. unfold dial_targets. rewrite elem_of_union, elem_of_filter, elem_of_list_to_set.
  intros [[H1 H2]|Hin]; [by left|right]. apply list_elem_of_In, filter_In in Hin as [Hin Hne].
  apply list_elem_of_In, list_elem_of_fmap in Hin as (k & -> & Hk'). exists k.
  apply negb_true_iff, bool_decide_eq_false in Hne. apply (Dialable_known self (hc_MaxPeers (host_defaults cfg))) in Hk' as (H1 & H2 & H3); [|done].
  by split_and!.
Qed.

(** ** The duplicate filter *)
Section Seen.
Context `{C : Crypto} `{R : RlpCodec} `{SO : StoreOrder} {B : Type} `{K : Backend B}.
Implicit Types h : Host B.

(** A sequence of frames from connected peers, each with the time it arrives. *)
Fixpoint run_frames (fuel : nat) (frames : list (Address * Frame * Z)) h : option (Host B) :=
  match frames with
  | [] => Some h
  | (from, f, now) :: frames =>
      match handleFrame fuel from f now h with
      | None => None
      | Some (h, _) => run_frames fuel frames h
      end
  end.

(** The frame carries no block that claims the hash [key]. *)
Definition spares (key : Hash) (f : Frame) : Prop :=
  f_Type f = MsgBlockPayload → ∀ b, DecodeBlockPayload (f_Payload f) = Ok b → bp_Hash b ≠ key.

Definition same_slot (m m' : WireVote) : Prop :=
  wv_Type m = wv_Type m' ∧ wv_Height m = wv_Height m' ∧ wv_Round m = wv_Round m' ∧ wv_Validator m = wv_Validator m'.

Abbreviation grows h h' := (h_seenInv h ⊆ h_seenInv h').

Lemma send_to_seen id typ payload h : h_seenInv (send_to id typ payload h).1 = h_seenInv h.
Proof. unfold send_to. destruct (_ !! id) as [p|]; [|done]. by destruct (Send typ payload p). Qed.

Lemma call_app_seen f h h' r : call_app f h = Some (h', r) → h_seenInv h' = h_seenInv h.
Proof. unfold call_app. destruct f as [f|]; [|by intros [= <- _]]. by destruct (f _) as [[b r']|]; [|discriminate]; intros [= <- _]. Qed.

Lemma delivered_seen f h h' r (k : Host B → Host B) : (∀ h, h_seenInv (k h) = h_seenInv h) →
  match call_app f h with
  | None => None
  | Some (h, Err _) => Some (h, Ok tt)
  | Some (h, Ok _) => Some (k h, Ok tt)
  end = Some (h', r) → h_seenInv h' = h_seenInv h.
Proof.
  intros Hk. destruct (call_app f h) as [[h1 [x|e]]|] eqn:E; [| |done]; intros [= <- <-]; [rewrite Hk|]; by eapply call_app_seen.
Qed.

Lemma handleInventory_seen from payload h : grows h (handleInventory from payload h).1.
Proof.
  unfold handleInventory. destruct (DecodeInventory payload) as [items|]; [|done].
  assert (∀ missing h0, grows h0 (foldl want_item (h0, missing) items).1) as Hw.
  { induction items as [|it items IH]; intros missing h0; [done|]. cbn [foldl want_item].
    repeat case_match; try apply IH; (etrans; [|apply IH]); cbn; set_solver. }
  specialize (Hw [] h). destruct (foldl _ _ _) as [h' [|m ms]]; [done|]. by rewrite send_to_seen.
Qed.

Lemma serve_items_seen from items h : h_seenInv (serve_items from items h).1 = h_seenInv h.
Proof.
  revert h. induction items as [|it items IH]; intros h; [done|]. cbn [serve_items].
  assert (h_seenInv (serve_item from it h).1 = h_seenInv h) as <-.
  { unfold serve_item. repeat (case_match; try done); apply send_to_seen. }
  destruct (serve_item from it h) as [h' [?|e]]; [by apply IH|done].
Qed.

Lemma apply_blocks_seen from bs h h' : apply_blocks from bs h = Some h' → h_seenInv h' = h_seenInv h.
Proof.
  revert h. induction bs as [|b bs IH]; intros h; cbn [apply_blocks]; [by intros [= <-]|].
  destruct (bk_HasBlock _ _); [by apply IH|]. destruct (call_app _ h) as [[h1 r]|] eqn:E; [|done].
  apply call_app_seen in E as <-. apply IH.
Qed.

Lemma handlePeers_seen payload now h : h_seenInv (handlePeers payload now h).1 = h_seenInv h.
Proof.
  unfold handlePeers. destruct (DecodePeersMsg payload) as [peers|]; [|done]. cbn [fst].
  revert h. induction peers as [|pa peers IH]; intros h; [done|]. cbn [foldl]. rewrite IH. unfold learn_peer.
  by destruct (_ =? _).
Qed.

Lemma handleBlockPayload_seen from payload key h h' r :
  (∀ b, DecodeBlockPayload payload = Ok b → bp_Hash b ≠ key) → key ∈ h_seenInv h →
  handleBlockPayload from payload h = Some (h', r) → key ∈ h_seenInv h'.
Proof.
  intros Hb Hk. unfold handleBlockPayload. destruct (DecodeBlockPayload payload) as [m|]; [|by intros [= <- <-]].
  destruct (bk_HasBlock _ _); [by intros [= <- <-]|]. specialize (Hb m eq_refl).
  destruct (call_app _ h) as [[h1 [x|e]]|] eqn:E; [| |done]; apply call_app_seen in E; intros [= <- <-].
  - cbn. unfold raise_tip. repeat case_match; cbn; by rewrite E.
  - cbn. set_solver.
Qed.

Lemma handleFrame_seen fuel from f now key h h' r : spares key f → key ∈ h_seenInv h →
  handleFrame fuel from f now h = Some (h', r) → key ∈ h_seenInv h'.
Proof.
  intros Hf Hk. assert (∀ hr : Host B * res unit, grows h hr.1 → Some hr = Some (h', r) → key ∈ h_seenInv h') as Hp.
  { intros hr Hs [= ->]. set_solver. }
  assert (∀ h0 : Host B, h_seenInv h0 = h_seenInv h → grows h h0) as He by (by intros ? ->).
  unfold handleFrame. destruct (_ =? MsgPing); [apply Hp, He, send_to_seen|].
  destruct (_ =? MsgGetPeers); [apply Hp, He, send_to_seen|].
  destruct (_ =? MsgPeers); [apply Hp, He, handlePeers_seen|].
  destruct (_ =? MsgInventory); [apply Hp, handleInventory_seen|].
  destruct (_ =? MsgGetData).
  { apply Hp, He. unfold handleGetData. destruct (DecodeGetData _); [apply serve_items_seen|done]. }
  destruct (_ =? MsgTxPayload).
  { unfold handleTxPayload. destruct (DecodeTxPayload _); [|by intros [= <- <-]].
    destruct (bk_HasTx _ _); [by intros [= <- <-]|]. intros H. by apply delivered_seen in H as ->. }
  destruct (Z.eqb_spec (f_Type f) MsgBlockPayload); [by apply handleBlockPayload_seen; [apply Hf|]|].
  destruct (_ =? MsgGetBlocks).
  { unfold handleGetBlocks. destruct (DecodeGetBlocks _); [|by intros [= <- <-]].
    destruct (_ <? _); [by intros [= <- <-]|]. destruct (collect_blocks _ _ _ _); [|done]. apply Hp, He, send_to_seen. }
  destruct (_ =? MsgBlocks).
  { unfold handleBlocks. destruct (DecodeBlocksMsg _); [|by intros [= <- <-]].
    destruct (apply_blocks _ _ _) eqn:E; [|done]. intros [= <- <-]. by apply apply_blocks_seen in E as ->. }
  destruct (_ =? MsgProposal).
  { unfold handleProposal. destruct (DecodeWireProposal _); [|by intros [= <- <-]]. destruct (alreadySeen _ _); [by intros [= <- <-]|].
    intros H. apply delivered_seen in H as ->; [|done]. cbn. set_solver. }
  destruct (_ || _); [|by intros [= <- <-]].
  unfold handleVote. destruct (DecodeWireVote _); [|by intros [= <- <-]]. destruct (alreadySeen _ _); [by intros [= <- <-]|].
  intros H. apply delivered_seen in H as ->; [|done]. cbn. set_solver.
Qed.

Lemma run_frames_seen fuel frames key h h' : Forall (λ e, spares key e.1.2) frames → key ∈ h_seenInv h →
  run_frames fuel frames h = Some h' → key ∈ h_seenInv h'.
Proof.
  intros Hf. revert h. induction Hf as [|[[from f] now] frames H1 _ IH]; intros h Hk; cbn [run_frames]; [by intros [= <-]|].
  destruct (handleFrame _ _ _ _ _) as [[h1 r]|] eqn:E; [|done]. apply IH. by eapply handleFrame_seen.
Qed.

Lemma handleVote_marks from payload typ m h h' r : DecodeWireVote payload = Ok m →
  handleVote from payload typ h = Some (h', r) → voteSeenHash m ∈ h_seenInv h'.
Proof.
  intros Hm. unfold handleVote. rewrite Hm. unfold alreadySeen. case_bool_decide as Hs; [by intros [= <- <-]|].
  intros H. apply delivered_seen in H as ->; [|done]. cbn. set_solver.
Qed.
End Seen.

(** Votes whose fingerprints are the hashes of one string are of one slot. *)
Lemma voteSeenInput_slot m m' : wire_vote_ok m → wire_vote_ok m' → voteSeenInput m = voteSeenInput m' → same_slot m m'.
Proof.
  intros (_ & Hh & Hr & _ & Hv & _) (_ & Hh' & Hr' & _ & Hv' & _) H.
  apply app_inj_1 in H as [[= Ht] H]; [|done].
  apply app_inj_1 in H as [H1 H]; [|by rewrite !be_bytes_length]. apply app_inj_1 in H as [H2 H3]; [|by rewrite !be_bytes_length].
  split_and!; [done|by apply (be_bytes_inj 8)|by apply (be_bytes_inj 8)|by apply (be_bytes_inj 20)].
Qed.

(** C32. A host acts on one vote per validator, height, round and type: once a
    vote has been received, any other vote of the same slot that arrives later,
    from any peer and whatever came in between, is neither delivered nor
    relayed.  Excepted are runs in which a block message that cannot be
    applied names the vote's own fingerprint as its hash: the host then forgets
    the fingerprint.  Votes of different slots have different fingerprints,
    provided Keccak-256 does not collide on the two strings they are the
    hashes of. *)
Theorem vote_handled_once `{C : Crypto} `{CL : !CryptoLaws C} `{R : RlpCodec} `{SO : StoreOrder} {B : Type} `{K : Backend B}
    fuel from payload typ m (h h1 h2 : Host B) r frames from' payload' typ' m' :
  DecodeWireVote payload = Ok m → handleVote from payload typ h = Some (h1, r) →
  run_frames fuel frames h1 = Some h2 → Forall (λ e, spares (voteSeenHash m) e.1.2) frames →
  DecodeWireVote payload' = Ok m' → wire_vote_ok m → wire_vote_ok m' →
  (same_slot m m' → handleVote from' payload' typ' h2 = Some (h2, Ok tt)) ∧
  (¬ same_slot m m' → collision_free (λ x, x ∈ [voteSeenInput m; voteSeenInput m']) → voteSeenHash m ≠ voteSeenHash m').
Proof.
  intros Hm Hv Hrun Hf Hm' Ho Ho'. split.
  - intros (H1 & H2 & H3 & H4).
    apply (handleVote_marks _ _ _ m) in Hv; [|done]. eapply run_frames_seen in Hrun; [|done|done].
    unfold handleVote. rewrite Hm'. assert (voteSeenHash m' = voteSeenHash m) as ->.
    { unfold voteSeenHash, voteSeenInput. by rewrite H1, H2, H3, H4. }
    unfold alreadySeen. by rewrite bool_decide_true.
  - intros Hne Hcf He. apply Hne. apply voteSeenInput_slot; [done..|].
    by apply (keccak_hash_inj _ _ _ Hcf); [by left|by right; left|].
Qed.

(** ** The handshake between two hosts *)
Section Handshakes.
Context `{C : Crypto} `{CL : !CryptoLaws C} `{R : RlpCodec} {RL : RlpLaws C R} `{SO : StoreOrder}.
Context {B1 B2 : Type} `{K1 : Backend B1} `{K2 : Backend B2}.

Lemma buildHandshake_signed key nonce (h : Host B1) : 0 <= hc_ChainID (h_cfg h) → is_u64 (bk_Height (h_app h)) →
  port_ok (h_listenPort h) → bytes_ok nonce →
  ∃ sig digest, buildHandshake key nonce h =
      Ok (mkHandshake ProtocolVersion (Some (hc_ChainID (h_cfg h))) (bk_Height (h_app h)) (bk_HeadHash (h_app h))
            (h_listenPort h) (h_nodeID h) nonce sig) ∧
    (∀ s, Handshake_SignBytes (mkHandshake ProtocolVersion (Some (hc_ChainID (h_cfg h))) (bk_Height (h_app h))
            (bk_HeadHash (h_app h)) (h_listenPort h) (h_nodeID h) nonce s) = Ok digest) ∧
    length sig = 65%nat ∧ bytes_ok sig ∧ Ecrecover digest sig = Ok (pubkey_bytes key).
Proof using CL.
  intros Hc Hh Hp Hn. unfold buildHandshake, Handshake_SignBytes, encode_fields.
  cbn [hs_Version hs_ChainID hs_Height hs_HeadHash hs_ListenPort hs_NodeID hs_Nonce copyBig default from_option id].
  set (fields := [_; _; _; _; _; _; _; _]). assert (encodable fields = true) as ->.
  { subst fields. unfold is_u64, port_ok, ProtocolVersion in *. cbn [encodable forallb]. by rewrite !(proj2 (Z.leb_le _ _)) by lia. }
  cbn [rbind]. set (digest := Keccak256 _). assert (length digest = 32%nat) as Hl by apply keccak_length.
  destruct (sign_recovers digest key Hl (keccak_bytes _)) as (sig & Hs & Hsl & Hsb & _ & Hr).
  exists sig, digest. unfold Sign, Ecrecover. rewrite Hl, Hs. cbn [Nat.eqb negb rbind]. by rewrite Hr.
Qed.

(** C30. Hosts of one chain admit each other: the handshake a host builds and
    signs is accepted by every other host of the same chain that has room and
    is not yet connected to it, and is then filed there under the builder's
    address with the builder's chain height and head. *)
Theorem handshake_admits key nonce conn inbound now (h1 : Host B1) (h2 : Host B2) :
  hc_ChainID (h_cfg h1) = hc_ChainID (h_cfg h2) → 0 <= hc_ChainID (h_cfg h1) →
  is_u64 (bk_Height (h_app h1)) → is_hash (bk_HeadHash (h_app h1)) → port_ok (h_listenPort h1) →
  bytes_ok nonce → nonce ≠ [] →
  h_nodeID h1 = PubkeyToAddress key → h_nodeID h1 ≠ h_nodeID h2 →
  ps_active (h_store h2) !! h_nodeID h1 = None → Z.of_nat (size (ps_active (h_store h2))) < ps_max (h_store h2) →
  ∃ hs b h2' p, buildHandshake key nonce h1 = Ok hs ∧ Handshake_Encode hs = Ok b ∧
    negotiate (mkFrame MsgHandshake b) conn inbound now h2 = (h2', Ok (h_nodeID h1)) ∧
    ps_active (h_store h2') = <[h_nodeID h1 := p]> (ps_active (h_store h2)) ∧
    pr_Height p = bk_Height (h_app h1) ∧ pr_HeadHash p = bk_HeadHash (h_app h1) ∧ pr_out p = [] ∧ h_app h2' = h_app h2.
Proof using CL RL.
  intros Hc Hc0 Hh Hhh Hp Hn Hn0 Hid Hne Ha Hroom.
  destruct (buildHandshake_signed key nonce h1 Hc0 Hh Hp Hn) as (sig & digest & Hb & Hd & Hsl & Hsb & Hr).
  assert (is_addr (h_nodeID h1)) as Haddr by (rewrite Hid; apply PubkeyToAddress_is_addr).
  rewrite Hb. set (hs := mkHandshake _ _ _ _ _ _ _ _) in *.
  destruct (handshake_roundtrip hs) as (b & He & Hdec).
  { split; [by cbn|by exists (hc_ChainID (h_cfg h1))|exact Hh|exact Hhh|exact Hp|exact Haddr|exact (conj Hn Hsb)]. }
  exists hs, b. unfold negotiate. cbn [f_Type f_Payload]. rewrite Hdec, (Z.eqb_refl MsgHandshake). cbn [negb].
  assert (verifyHandshake hs h2 = Ok tt) as ->.
  { unfold verifyHandshake. rewrite (Hd sig : Handshake_SignBytes hs = Ok digest).
    subst hs. cbn [hs_Version hs_ChainID hs_Signature hs_Nonce hs_NodeID rbind]. rewrite Z.eqb_refl, bool_decide_true by by rewrite Hc.
    rewrite Hsl, Hr. destruct nonce as [|x nonce]; [done|]. cbn [negb orb Nat.eqb length rbind]. rewrite pubkey_length.
    cbn [negb Nat.eqb]. rewrite Hid. unfold PubkeyToAddress. by rewrite Z.eqb_refl. }
  change (hs_NodeID hs) with (h_nodeID h1). rewrite (proj2 (Z.eqb_neq (h_nodeID h1) (h_nodeID h2))), Ha by done. cbv zeta.
  set (addr := match SplitHostPort conn with Ok _ => _ | Err _ => _ end). set (p := mkPeer _ _ _ _ _ _ _).
  unfold AddActive. cbn [pr_ID p]. rewrite Ha, (proj2 (Z.leb_gt _ _)) by done. cbn [pr_RemoteAddr p]. clearbody addr.
  destruct addr; (do 2 eexists; split; [done|split; [done|split; [reflexivity|]]]); split_and!; try reflexivity; subst p; reflexivity.
Qed.
End Handshakes.

(** ** Evaluation *)
Definition listed_store : StoreOrder := {| range_known := map_to_list; range_active := map_to_list |}.

Lemma listed_store_laws : StoreOrderLaws listed_store.
Proof. split; intros m; reflexivity. Qed.

Definition no_handlers {B} : AppHandlers B := mkAppHandlers None None None None.
Definition small_config : HostConfig := mkHostConfig 2205 2 1000 2 true false [].
Definition lone_host (id : Address) : Host MemoryChain :=
  mkHost small_config id (NewPeerStore 2) no_handlers ∅ ∅ ∅ false 30303 (NewMemoryChain 5 [1]).

Section Witness.
Local Existing Instances spec_crypto spec_crypto_laws spec_rlp spec_rlp_laws listed_store listed_store_laws.

Lemma host_invariant_witness :
  Z.of_nat (size (ps_active (h_store (onPeerClosed (mkPeer 4 [49] 0 0 true [] false) false 9
    (with_app (NewMemoryChain 5 [1]) (mkHost small_config 3 (NewPeerStore 2) no_handlers ∅ ∅ ∅ false 0 (NewMemoryChain 5 [1]))))))) <= 2.
Proof.
  refine (proj1 (proj2 (host_invariant small_config 3 no_handlers None 0 (NewMemoryChain 5 [1]) _ _ eq_refl _))).
  eapply rtc_l; [apply step_app|]. apply rtc_once, step_closed.
Defined.

Definition first_vote : WireVote := mkWireVote 1 9 0 77 5 [1; 2].
Definition second_vote : WireVote := mkWireVote 1 9 0 78 5 [3; 4].

Lemma votes_ok : wire_vote_ok first_vote ∧ wire_vote_ok second_vote.
Proof.
  split; split_and!; try (unfold is_byte, is_u64, is_hash, is_addr; cbn; lia); repeat constructor; unfold is_byte; lia.
Qed.

(** The second vote of the slot, for another block, is not relayed. *)
Lemma vote_handled_once_witness : ∃ h1,
  handleVote 3 (WireVote_Encode first_vote) MsgPrevote (lone_host 2) = Some (h1, Ok tt) ∧
  handleVote 4 (WireVote_Encode second_vote) MsgPrevote h1 = Some (h1, Ok tt).
Proof.
  destruct votes_ok as [H1 H2]. pose proof (wire_vote_roundtrip first_vote H1) as D1.
  pose proof (wire_vote_roundtrip second_vote H2) as D2.
  assert (∃ h1, handleVote 3 (WireVote_Encode first_vote) MsgPrevote (lone_host 2) = Some (h1, Ok tt)) as [h1 Hv].
  { unfold handleVote. rewrite D1. unfold alreadySeen. rewrite bool_decide_false by apply not_elem_of_empty. by eexists. }
  exists h1. split; [exact Hv|].
  refine (proj1 (vote_handled_once 0 3 (WireVote_Encode first_vote) MsgPrevote first_vote (lone_host 2) h1 h1 (Ok tt) []
    4 (WireVote_Encode second_vote) MsgPrevote second_vote D1 Hv eq_refl (Forall_nil_2 _) D2 H1 H2) _).
  split_and!; reflexivity.
Defined.

Definition key_host (key : Z) : Host MemoryChain := lone_host (@PubkeyToAddress spec_crypto key).

Lemma handshake_admits_witness : ∃ hs b h2' p, buildHandshake (C := spec_crypto) (7 : Z) [1; 2; 3] (key_host 7) = Ok hs ∧ Handshake_Encode hs = Ok b ∧
  negotiate (mkFrame MsgHandshake b) [] true 0 (lone_host 2) = (h2', Ok (@PubkeyToAddress spec_crypto 7)) ∧
  ps_active (h_store h2') = {[ @PubkeyToAddress spec_crypto 7 := p ]} ∧ pr_HeadHash p = 5.
Proof.
  destruct (@handshake_admits spec_crypto spec_crypto_laws spec_rlp spec_rlp_laws MemoryChain MemoryChain _ (7 : Z) [1; 2; 3] []
    true 0 (key_host 7) (lone_host 2) eq_refl) as (hs & b & h2 & p & Hb & He & Hn & Ha & _ & Hp & _).
  - vm_decide.
  - split; [vm_decide|reflexivity].
  - split; [vm_decide|reflexivity].
  - split; [vm_decide|reflexivity].
  - repeat constructor; vm_decide.
  - discriminate.
  - exact eq_refl.
  - vm_decide.
  - apply lookup_empty.
  - vm_decide.
  - exists hs, b, h2, p. exact (conj Hb (conj He (conj Hn (conj Ha Hp)))).
Defined.
End Witness.
