(* ===== verification/P2PSync.v ===== *)
(** * Block requests and synchronisation

    The answer of [handleGetBlocks], and [SyncFromPeer] between two hosts: the
    request goes through the queue of the one that is behind and the frame
    format to the handler of the other, whose answer comes back the same way
    and is imported.  What the application of the first must do for that is an
    interface, which the in-memory chain of [p2p/backend.go] implements. *)
From S2P Require Import Prelude Types Toy DewTx ValidatorSet Votes Rlp EvmTx Smt P2PWire P2PHost P2PProps.

(** ** The answer to a block request *)
Section Answer.
Context {B : Type} `{K : Backend B}.

(** [bs] are the blocks the backend has from height [n] on. *)
Definition segment (n : Z) (bs : list BlockPayload) (b : B) : Prop :=
  ∀ i bl, bs !! i = Some bl →
    bp_Number bl = n + Z.of_nat i ∧ bk_BlockByNumber (n + Z.of_nat i) b = Some (bp_Raw bl, bp_Hash bl).

Lemma segment_cons n bl bs b : bp_Number bl = n → bk_BlockByNumber n b = Some (bp_Raw bl, bp_Hash bl) →
  segment (n + 1) bs b → segment n (bl :: bs) b.
Proof.
  intros Hn Hb Hs [|i] x Hx; cbn in Hx.
  - injection Hx as <-. by rewrite Z.add_0_r.
  - destruct (Hs i x Hx) as [H1 H2]. replace (n + Z.of_nat (S i)) with (n + 1 + Z.of_nat i) by lia. done.
Qed.

(** The loop over the heights up to [to] ends before they wrap. *)
Definition ends_before_wrap (to : Z) (b : B) : Prop := to < 2 ^ 64 - 1 ∨ (to = 2 ^ 64 - 1 ∧ bk_BlockByNumber to b = None).

Lemma collect_blocks_spec fuel n to b : 0 <= n → ends_before_wrap to b → (Z.to_nat (to - n + 1) < fuel)%nat →
  ∃ bs, collect_blocks fuel n to b = Some bs ∧ segment n bs b ∧ (length bs <= Z.to_nat (to - n + 1))%nat ∧
    ((length bs < Z.to_nat (to - n + 1))%nat → bk_BlockByNumber (n + Z.of_nat (length bs)) b = None).
Proof.
  revert n. induction fuel as [|fuel IH]; intros n Hn Hto Hf; [lia|]. cbn [collect_blocks].
  destruct (Z.ltb_spec to n) as [Hlt|Hge]; [exists []; split_and!; try done; cbn; lia|].
  destruct (bk_BlockByNumber n b) as [[raw hash]|] eqn:Hb.
  - assert (n < 2 ^ 64 - 1). { destruct Hto as [?|[-> Hto]]; [lia|]. destruct (decide (n = 2 ^ 64 - 1)); [congruence|lia]. }
    assert (n +₆₄ 1 = n + 1) as -> by (apply Z.mod_small; lia).
    destruct (IH (n + 1)) as (bs & Hc & Hs & Hl & Hnone); [lia|done|lia|]. rewrite Hc. eexists. split; [done|].
    split; [by apply segment_cons|]. cbn [length]. split; [lia|]. intros Hlt.
    replace (n + Z.of_nat (S (length bs))) with (n + 1 + Z.of_nat (length bs)) by lia. apply Hnone. lia.
  - exists []. split_and!; try done; cbn; [lia|]. intros _. by rewrite Z.add_0_r.
Qed.

(** A range past the end of the chain: all blocks from [n] on. *)
Lemma collect_blocks_all k n to b : 0 <= n → n + Z.of_nat k <= to < 2 ^ 64 →
  (∀ i, n <= i < n + Z.of_nat k → is_Some (bk_BlockByNumber i b)) → bk_BlockByNumber (n + Z.of_nat k) b = None →
  ∃ bs, collect_blocks (S k) n to b = Some bs ∧ segment n bs b ∧ length bs = k.
Proof.
  revert n. induction k as [|k IH]; intros n Hn Hto Hhas Hend; cbn [collect_blocks]; rewrite (proj2 (Z.ltb_ge to n)) by lia.
  - rewrite Z.add_0_r in Hend. rewrite Hend. by exists [].
  - destruct (Hhas n) as [[raw hash] Hb]; [lia|]. rewrite Hb. assert (n +₆₄ 1 = n + 1) as -> by (apply Z.mod_small; lia).
    destruct (IH (n + 1)) as (bs & Hc & Hs & Hl); [lia|lia|intros; apply Hhas; lia| |].
    { by replace (n + 1 + Z.of_nat k) with (n + Z.of_nat (S k)) by lia. }
    cbn [collect_blocks] in Hc. rewrite Hc. eexists. split; [done|]. split; [by apply segment_cons|]. cbn. lia.
Qed.
End Answer.

(** The number of heights a request is served for. *)
Definition span (from to max : Z) : nat := Z.to_nat (Z.min max (to - from + 1)).

Lemma clamp_span from to max : 0 <= from <= to → to - from < 2 ^ 64 - 1 → to < 2 ^ 64 → 0 < max < 2 ^ 64 →
  (clamp_range from to max = to ∨ clamp_range from to max < 2 ^ 64 - 1) ∧
  Z.to_nat (clamp_range from to max - from + 1) = span from to max.
Proof.
  intros Hf Hw Ht Hm. unfold clamp_range, span. assert ((to -₆₄ from) +₆₄ 1 = to - from + 1) as ->.
  { unfold u64. rewrite (Z.mod_small (to - from)) by lia. apply Z.mod_small. lia. }
  destruct (Z.ltb_spec max (to - from + 1)); [|split; [by left|lia]].
  unfold u64. rewrite (Z.mod_small (from + max)) by lia. rewrite Z.mod_small by lia. lia.
Qed.

(** The answer is of consecutive blocks from [lo] on, at most [max] of them. *)
Definition bounded_batch `{K : Backend B} (lo hi max : Z) (bs : list BlockPayload) (b : B) : Prop :=
  segment lo bs b ∧ Z.of_nat (length bs) <= max ∧ Z.of_nat (length bs) <= hi - lo + 1 ∧
  (Z.of_nat (length bs) = Z.min max (hi - lo + 1) ∨ bk_BlockByNumber (lo + Z.of_nat (length bs)) b = None).

Lemma handleGetBlocks_spec `{C : Crypto} `{R : RlpCodec} {B : Type} `{K : Backend B} from payload lo hi (h : Host B) :
  DecodeGetBlocks payload = Ok (mkGetBlocks lo hi) → 0 <= lo <= hi → hi - lo < 2 ^ 64 - 1 → ends_before_wrap hi (h_app h) →
  0 < hc_MaxBlocksPerRequest (h_cfg h) < 2 ^ 64 →
  let max := hc_MaxBlocksPerRequest (h_cfg h) in
  ∃ bs, handleGetBlocks (S (Z.to_nat max)) from payload h = Some (send_to from MsgBlocks (BlocksMsg_Encode bs) h) ∧
    bounded_batch lo hi max bs (h_app h).
Proof.
  intros Hd Hlo Hw Hhi Hmax max. unfold handleGetBlocks. rewrite Hd. cbn [gb_From gb_To].
  rewrite (proj2 (Z.ltb_ge hi lo)) by lia. destruct (clamp_span lo hi max Hlo Hw) as [Hc Hs]; [destruct Hhi; lia|done|].
  destruct (collect_blocks_spec (S (Z.to_nat max)) lo (clamp_range lo hi max) (h_app h)) as (bs & Hb & Hseg & Hl & Hn);
    [lia|destruct Hc as [-> | Hc]; [done|by left]|rewrite Hs; unfold span; lia|].
  fold max. rewrite Hb. exists bs. split; [done|]. rewrite Hs in *. unfold span in *. split; [done|]. split_and!; [lia|lia|].
  destruct (decide (Z.of_nat (length bs) = Z.min max (hi - lo + 1))); [by left|right; apply Hn; lia].
Qed.

(** The count of heights from 0 to 2^64 - 1 wraps to 0, which is within every
    limit. *)
Lemma handleGetBlocks_wraps `{C : Crypto} `{R : RlpCodec} {B : Type} `{K : Backend B} from payload k (h : Host B) :
  DecodeGetBlocks payload = Ok (mkGetBlocks 0 (2 ^ 64 - 1)) → 0 < hc_MaxBlocksPerRequest (h_cfg h) → Z.of_nat k < 2 ^ 64 →
  (∀ i, 0 <= i < Z.of_nat k → is_Some (bk_BlockByNumber i (h_app h))) → bk_BlockByNumber (Z.of_nat k) (h_app h) = None →
  ∃ bs, handleGetBlocks (S k) from payload h = Some (send_to from MsgBlocks (BlocksMsg_Encode bs) h) ∧
    segment 0 bs (h_app h) ∧ length bs = k.
Proof.
  intros Hd Hmax Hk Hhas Hend. unfold handleGetBlocks. rewrite Hd. cbn [gb_From gb_To].
  change (2 ^ 64 - 1 <? 0) with false. assert (clamp_range 0 (2 ^ 64 - 1) (hc_MaxBlocksPerRequest (h_cfg h)) = 2 ^ 64 - 1) as ->.
  { unfold clamp_range. change ((2 ^ 64 - 1 -₆₄ 0) +₆₄ 1) with 0. by rewrite (proj2 (Z.ltb_ge _ _)) by lia. }
  destruct (collect_blocks_all k 0 (2 ^ 64 - 1) (h_app h)) as (bs & Hc & Hs & Hl); [lia|lia|done|done|].
  cbv zeta. rewrite Hc. by exists bs.
Qed.

(** C23. A block request is answered with consecutive blocks.  For any range of
    heights [lo] to [hi] but one, the handler ends, sends the requested blocks
    from the first height on in order and as the chain has them, at most as
    many as configured, and fewer than requested only at the configured limit
    or at the first height the chain does not have.  The exception is the range
    of all numbers of 64 bits: its length wraps to 0, the limit does not apply
    and the whole chain is sent in one message.  No block at height 2^64 - 1
    is assumed where the range goes up to it. *)
Theorem GetBlocks_bounded `{C : Crypto} `{R : RlpCodec} {B : Type} `{K : Backend B} from payload lo hi (h : Host B) :
  DecodeGetBlocks payload = Ok (mkGetBlocks lo hi) → 0 <= lo <= hi → ends_before_wrap hi (h_app h) →
  0 < hc_MaxBlocksPerRequest (h_cfg h) < 2 ^ 64 →
  let max := hc_MaxBlocksPerRequest (h_cfg h) in
  (hi - lo < 2 ^ 64 - 1 →
     ∃ bs, handleGetBlocks (S (Z.to_nat max)) from payload h = Some (send_to from MsgBlocks (BlocksMsg_Encode bs) h) ∧
       bounded_batch lo hi max bs (h_app h)) ∧
  (hi - lo = 2 ^ 64 - 1 → ∀ k, Z.of_nat k < 2 ^ 64 →
     (∀ i, 0 <= i < Z.of_nat k → is_Some (bk_BlockByNumber i (h_app h))) → bk_BlockByNumber (Z.of_nat k) (h_app h) = None →
     ∃ bs, handleGetBlocks (S k) from payload h = Some (send_to from MsgBlocks (BlocksMsg_Encode bs) h) ∧
       segment 0 bs (h_app h) ∧ length bs = k).
Proof.
  intros Hd Hlo He Hmax max. split; [intros Hw; by apply handleGetBlocks_spec|].
  intros Hw. assert (lo = 0 ∧ hi = 2 ^ 64 - 1) as [-> ->] by (destruct He; lia).
  intros. by apply handleGetBlocks_wraps; [|lia|..].
Qed.

(** ** What synchronisation needs of the application

    [chain] is the chain of the network by height, [holds n] says that the
    application has its blocks up to height [n] and no others. *)
Class SyncApp {B : Type} `{K : Backend B} (chain : list (list Z * Hash))
    (onBlock : Z → Hash → list Z → Address → B → option (B * res unit)) (holds : Z → B → Prop) : Prop := {
  holds_height : ∀ n b, holds n b → bk_Height b = n;
  holds_block : ∀ n b i, holds n b → 0 <= i <= n → is_Some (bk_BlockByNumber i b);
  holds_new : ∀ n b i raw hash, holds n b → n < Z.of_nat i → chain !! i = Some (raw, hash) → bk_HasBlock hash b = false;
  holds_import : ∀ n b raw hash from, holds n b → 0 <= n → chain !! Z.to_nat (n + 1) = Some (raw, hash) →
    ∃ b', onBlock (n + 1) hash raw from b = Some (b', Ok tt) ∧ holds (n + 1) b';
}.

(** A frame from one host to the other; each side has its own size limit. *)
Definition carry (writeMax readMax : Z) (m : outMsg) : option Frame :=
  match WriteFrame (om_typ m) (om_payload m) writeMax with
  | Err _ => None
  | Ok b => match ReadFrame b readMax with Ok (f, _) => Some f | Err _ => None end
  end.

Section Exchange.
Context `{C : Crypto} `{R : RlpCodec} `{SO : StoreOrder} {B1 B2 : Type} `{K1 : Backend B1} `{K2 : Backend B2}.

(** The request of the host at [self] reaches the peer, and its answer comes back. *)
Definition exchange (fuel : nat) (now : Z) (self : Address) (server : Host B2) (peer : Address) (_ : list Z) (h : Host B1)
    : option (Host B1) :=
  '(m, h) ← next_out peer h;
  f ← carry (hc_MaxMsgSize (h_cfg h)) (hc_MaxMsgSize (h_cfg server)) m;
  '(server, _) ← handleFrame fuel self f now server;
  '(m, server) ← next_out self server;
  f ← carry (hc_MaxMsgSize (h_cfg server)) (hc_MaxMsgSize (h_cfg h)) m;
  '(h, _) ← handleFrame fuel peer f now h;
  Some h.
End Exchange.

Lemma carry_fits maxSize m : limit_ok maxSize → fits maxSize (mkFrame (om_typ m) (om_payload m)) →
  carry maxSize maxSize m = Some (mkFrame (om_typ m) (om_payload m)).
Proof.
  intros Hm Hf. destruct (ReadFrame_WriteFrame _ _ [] Hm Hf) as (b & Hw & Hr). cbn [f_Type f_Payload] in Hw.
  unfold carry. rewrite app_nil_r in Hr. by rewrite Hw, Hr.
Qed.

(** A connected peer with nothing queued. *)
Definition idle {B} (id : Address) (h : Host B) (p : Peer) : Prop :=
  ps_active (h_store h) !! id = Some p ∧ pr_closed p = false ∧ pr_out p = [].

(** What is sent to an idle peer is the next message out, and the peer is idle again. *)
Lemma send_next {B} id typ payload (h : Host B) p : idle id h p →
  ∃ h1, send_to id typ payload h = (h1, Ok tt) ∧ next_out id h1 = Some (mkOutMsg typ payload, h) ∧ h_app h1 = h_app h ∧
    h_cfg h1 = h_cfg h.
Proof.
  intros (Ha & Hc & Ho). unfold send_to. rewrite Ha. unfold Send. rewrite Hc, Ho.
  assert ((length (@nil outMsg) <? outQueue)%nat = true) as -> by reflexivity. eexists. split; [done|].
  split; [|done]. unfold next_out. destruct h as [cfg nid [kn ac mx] hd se bo re di lp ap]. cbn in *.
  rewrite lookup_insert_eq. cbn. rewrite insert_insert_eq, insert_id; [done|]. rewrite Ha. destruct p; cbn in *. by subst.
Qed.

(** The peer at the other end has [chain] up to height [tip], and what the two
    hosts send each other fits the message size, which is the same for both: a
    batch that does not fit closes the connection. *)
Record serving `{C : Crypto} `{R : RlpCodec} {B1 B2 : Type} `{K2 : Backend B2} (chain : list (list Z * Hash)) (tip : Z)
    (self : Address) (h : Host B1) (server : Host B2) : Prop := {
  sv_idle : ∃ q, idle self server q;
  sv_length : Z.of_nat (length chain) = tip + 1;
  sv_chain : Forall (λ e, bytes_ok e.1 ∧ is_hash e.2) chain;
  sv_blocks : ∀ i, 0 <= i <= tip → bk_BlockByNumber i (h_app server) = chain !! Z.to_nat i;
  sv_batch : 0 < hc_MaxBlocksPerRequest (h_cfg server) < 2 ^ 64;
  sv_asked : 0 < hc_MaxBlocksPerRequest (h_cfg h) ∧ tip + hc_MaxBlocksPerRequest (h_cfg h) < 2 ^ 64;
  sv_size : limit_ok (hc_MaxMsgSize (h_cfg h)) ∧ hc_MaxMsgSize (h_cfg server) = hc_MaxMsgSize (h_cfg h);
  sv_request : ∀ lo hi, 0 <= lo <= hi → hi <= tip →
    fits (hc_MaxMsgSize (h_cfg h)) (mkFrame MsgGetBlocks (GetBlocks_Encode (mkGetBlocks lo hi)));
  sv_answer : ∀ n bs, 0 <= n → segment n bs (h_app server) → n + Z.of_nat (length bs) <= tip + 1 →
    Z.of_nat (length bs) <= hc_MaxBlocksPerRequest (h_cfg server) →
    fits (hc_MaxMsgSize (h_cfg h)) (mkFrame MsgBlocks (BlocksMsg_Encode bs));
}.

Section Sync.
Context `{C : Crypto} `{R : RlpCodec} {RL : RlpLaws C R} `{SO : StoreOrder} {B1 B2 : Type} `{K1 : Backend B1} `{K2 : Backend B2}.
Context (chain : list (list Z * Hash)) (onBlock : Z → Hash → list Z → Address → B1 → option (B1 * res unit)).
Context (holds : Z → B1 → Prop) {SA : SyncApp chain onBlock holds}.
Implicit Types h : Host B1.

Lemma apply_blocks_chain from bs h n : holds n (h_app h) → 0 <= n → OnBlock (h_handlers h) = Some onBlock →
  (∀ i bl, bs !! i = Some bl → bp_Number bl = n + 1 + Z.of_nat i ∧ chain !! Z.to_nat (n + 1 + Z.of_nat i) = Some (bp_Raw bl, bp_Hash bl)) →
  ∃ b', apply_blocks from bs h = Some (with_app b' h) ∧ holds (n + Z.of_nat (length bs)) b'.
Proof using SA.
  revert h n. induction bs as [|bl bs IH]; intros h n Hh Hn Ho Hbs; cbn [apply_blocks].
  { exists (h_app h). rewrite Z.add_0_r. by destruct h. }
  destruct (Hbs 0%nat bl eq_refl) as [Hnum Hc]. rewrite Z.add_0_r in Hnum, Hc.
  rewrite (holds_new n (h_app h) (Z.to_nat (n + 1)) (bp_Raw bl)) by (done || lia).
  destruct (holds_import n (h_app h) (bp_Raw bl) (bp_Hash bl) from Hh Hn Hc) as (b1 & Hi & Hh1).
  rewrite Ho. cbn [fmap option_fmap option_map call_app]. rewrite Hnum, Hi.
  destruct (IH (with_app b1 h) (n + 1)) as (b' & Ha & Hb'); [done|lia|done| |].
  - intros i x Hx. destruct (Hbs (S i) x Hx) as [H1 H2].
    replace (n + 1 + 1 + Z.of_nat i) with (n + 1 + Z.of_nat (S i)) by lia. done.
  - exists b'. rewrite Ha. split; [done|]. cbn [length]. by replace (n + Z.of_nat (S (length bs))) with (n + 1 + Z.of_nat (length bs)) by lia.
Qed.

Context (tip now : Z) (self peer : Address) (server : Host B2).

Lemma segment_payload h n bs : serving chain tip self h server → 0 <= n → n + Z.of_nat (length bs) <= tip + 1 → tip < 2 ^ 64 →
  segment n bs (h_app server) → Forall block_payload_ok bs ∧
  (∀ i bl, bs !! i = Some bl → bp_Number bl = n + Z.of_nat i ∧ chain !! Z.to_nat (n + Z.of_nat i) = Some (bp_Raw bl, bp_Hash bl)).
Proof.
  intros Hs Hn Hl Ht Hseg.
  assert (∀ i bl, bs !! i = Some bl → bp_Number bl = n + Z.of_nat i ∧ chain !! Z.to_nat (n + Z.of_nat i) = Some (bp_Raw bl, bp_Hash bl)) as Hc.
  { intros i bl Hi. destruct (Hseg i bl Hi) as [H1 H2]. split; [done|]. apply lookup_lt_Some in Hi.
    by rewrite <-(sv_blocks _ _ _ _ _ Hs) by lia. }
  split; [|done]. apply Forall_lookup. intros i bl Hi. destruct (Hc i bl Hi) as [H1 H2]. apply lookup_lt_Some in Hi.
  destruct (proj1 (Forall_lookup _ _) (sv_chain _ _ _ _ _ Hs) _ _ H2) as [H3 H4]. split_and!; [|done|done]. rewrite H1. unfold is_u64. lia.
Qed.

Lemma sync_round h n p hi x : serving chain tip self h server → holds n (h_app h) → 0 <= n → n + 1 <= hi <= tip →
  idle peer h p → OnBlock (h_handlers h) = Some onBlock →
  ∃ h1 b' n', send_to peer MsgGetBlocks (GetBlocks_Encode (mkGetBlocks (n + 1) hi)) h = (h1, Ok tt) ∧
    exchange (S (Z.to_nat (hc_MaxBlocksPerRequest (h_cfg server)))) now self server peer x h1 = Some (with_app b' h) ∧
    holds n' b' ∧ n < n' <= tip.
Proof using RL SA.
  intros Hs Hh Hn Hhi Hp Ho. destruct (send_next peer MsgGetBlocks (GetBlocks_Encode (mkGetBlocks (n + 1) hi)) h p Hp)
    as (h1 & Hsend & Hnext & _ & _).
  pose proof (sv_asked _ _ _ _ _ Hs) as Hask. destruct (sv_size _ _ _ _ _ Hs) as [Hlim Hsz].
  assert (tip < 2 ^ 64 - 1) as Ht by lia.
  destruct (handleGetBlocks_spec self (GetBlocks_Encode (mkGetBlocks (n + 1) hi)) (n + 1) hi server)
    as (bs & Hans & Hseg & Hmax & Hlen & Hfull); [|lia|lia|left; lia|apply Hs|].
  { apply get_blocks_roundtrip. unfold get_blocks_ok, is_u64. cbn. lia. }
  destruct (segment_payload h (n + 1) bs Hs) as [Hok Hc]; [lia|lia|lia|done|].
  destruct (sv_idle _ _ _ _ _ Hs) as [q Hq]. destruct (send_next self MsgBlocks (BlocksMsg_Encode bs) server q Hq)
    as (s1 & Hs1 & Hn1 & _ & _).
  destruct (apply_blocks_chain peer bs h n Hh Hn Ho Hc) as (b' & Happ & Hb').
  exists h1, b', (n + Z.of_nat (length bs)). split; [done|]. split.
  - unfold exchange. rewrite Hnext. cbn [mbind option_bind]. rewrite Hsz, carry_fits; [|done|apply (sv_request _ _ _ _ _ Hs); lia].
    cbn [mbind option_bind om_typ om_payload].
    change (handleFrame _ self _ now server) with
      (handleGetBlocks (S (Z.to_nat (hc_MaxBlocksPerRequest (h_cfg server)))) self (GetBlocks_Encode (mkGetBlocks (n + 1) hi)) server).
    rewrite Hans, Hs1. cbn [mbind option_bind]. rewrite Hn1. cbn [mbind option_bind]. rewrite Hsz, carry_fits;
      [|done|apply (sv_answer _ _ _ _ _ Hs (n + 1)); [lia|done|lia|done]].
    cbn [mbind option_bind om_typ om_payload].
    change (handleFrame _ peer _ now h) with (handleBlocks peer (BlocksMsg_Encode bs) h). unfold handleBlocks.
    assert (DecodeBlocksMsg (BlocksMsg_Encode bs) = Ok bs) as ->; [|by rewrite Happ].
    by apply (list_roundtrip dec_block_msg block_item block_payload_ok); [apply block_item_spec|].
  - split; [done|]. destruct bs as [|bl bs]; [|cbn [length] in *; lia]. cbn [length] in *.
    destruct Hfull as [Hz|Hnone]; [pose proof (sv_batch _ _ _ _ _ Hs); lia|]. rewrite Z.add_0_r in Hnone.
    rewrite (sv_blocks _ _ _ _ _ Hs) in Hnone by lia. apply lookup_ge_None in Hnone. pose proof (sv_length _ _ _ _ _ Hs). lia.
Qed.

Lemma nextSyncFrom_holds n (b : B1) : holds n b → 0 <= n < 2 ^ 64 - 1 → nextSyncFrom b = n + 1.
Proof using SA.
  intros Hh Hn. unfold nextSyncFrom. rewrite (holds_height n b Hh).
  destruct (List.find _ _) as [i|] eqn:E; [|by apply Z.mod_small; lia].
  apply find_some in E as [Hi%list_elem_of_In%elem_of_seqZ Hb%bool_decide_eq_true].
  destruct (holds_block n b i Hh) as [y Hy]; [lia|]. congruence.
Qed.

Lemma sync_loop k h n p : (Z.to_nat (tip - n) < k)%nat → serving chain tip self h server → holds n (h_app h) → 0 <= n <= tip →
  idle peer h p → pr_Height p = tip → OnBlock (h_handlers h) = Some onBlock →
  ∃ b', SyncFromPeer k (exchange (S (Z.to_nat (hc_MaxBlocksPerRequest (h_cfg server)))) now self server) peer h =
          Some (with_app b' h, Ok tt) ∧ holds tip b'.
Proof using RL SA.
  revert h n. induction k as [|k IH]; intros h n Hk Hs Hh Hn Hp Htip Ho; [lia|]. cbn [SyncFromPeer].
  pose proof (sv_asked _ _ _ _ _ Hs) as Hask. 
  rewrite (proj1 Hp), Htip, (holds_height n _ Hh), (proj2 (Z.ltb_ge tip n)) by lia.
  destruct (Z.eqb_spec tip n) as [->|Hne].
  { exists (h_app h). unfold has_number. rewrite bool_decide_true by (apply (holds_block n); [done|lia]). cbn [andb]. by destruct h. }
  cbn [andb]. rewrite (nextSyncFrom_holds n) by (done || lia). rewrite (proj2 (Z.ltb_ge tip (n + 1))) by lia.
  set (to := (n + 1 +₆₄ _) -₆₄ 1).
  assert (to = n + hc_MaxBlocksPerRequest (h_cfg h)) as ->.
  { unfold to, u64. rewrite (Z.mod_small (n + 1 + _)), Z.mod_small by lia. lia. }
  set (hi := Z.min _ tip). destruct (sync_round h n p hi (GetBlocks_Encode (mkGetBlocks (n + 1) hi)) Hs Hh)
    as (h1 & b' & n' & Hsend & Hex & Hh' & Hn'); [lia|lia|done|done|].
  rewrite Hsend, Hex. cbn [h_app with_app]. rewrite (holds_height n' _ Hh'), (proj2 (Z.ltb_lt n n')) by lia. cbn [orb].
  destruct (IH (with_app b' h) n') as (b2 & Hrun & Hb2); [lia| |done|lia|done|done|done|].
  - destruct Hs. by split.
  - exists b2. by rewrite Hrun.
Qed.
End Sync.

(** Synchronisation catches up: a host that has the first blocks of the
    chain and is connected to a peer that has all of it ends [SyncFromPeer]
    without error and with every block up to the peer's tip, whatever the batch
    sizes of the two, provided what they send fits the message size. *)
Theorem sync_catches_up `{C : Crypto} `{R : RlpCodec} `{RL : !RlpLaws C R} `{SO : StoreOrder} {B1 B2 : Type}
    `{K1 : Backend B1} `{K2 : Backend B2} chain onBlock (holds : Z → B1 → Prop) `{SA : !SyncApp chain onBlock holds}
    tip now self peer (server : Host B2) (h : Host B1) n p :
  serving chain tip self h server → holds n (h_app h) → 0 <= n <= tip →
  idle peer h p → pr_Height p = tip → OnBlock (h_handlers h) = Some onBlock →
  ∃ b', SyncFromPeer (S (Z.to_nat (tip - n)))
          (exchange (S (Z.to_nat (hc_MaxBlocksPerRequest (h_cfg server)))) now self server) peer h =
        Some (with_app b' h, Ok tt) ∧ holds tip b'.
Proof. intros. apply (sync_loop chain onBlock holds tip now self peer server _ h n p); (done || lia). Qed.

(** ** The in-memory chain is such an application *)
Definition memory_onBlock (number : Z) (hash : Hash) (raw : list Z) (_ : Address) (m : MemoryChain)
    : option (MemoryChain * res unit) := Some (AddBlock number hash raw m, Ok tt).

Record memory_holds (chain : list (list Z * Hash)) (n : Z) (m : MemoryChain) : Prop := {
  mh_height : mc_height m = n;
  mh_blocks : ∀ i, 0 <= i <= n → ∃ raw hash, chain !! Z.to_nat i = Some (raw, hash) ∧ mc_blocks m !! i = Some (mkBlockRec hash raw);
  mh_hashes : ∀ hash j, mc_byHash m !! hash = Some j → ∃ i raw, Z.of_nat i <= n ∧ chain !! i = Some (raw, hash);
}.

#[export] Instance memory_sync chain : NoDup chain.*2 → SyncApp chain memory_onBlock (memory_holds chain).
Proof.
  intros Hnd. split.
  - by intros n b [].
  - intros n b i [_ Hb _] Hi. destruct (Hb i Hi) as (raw & hash & _ & H). cbn. rewrite H. by eexists.
  - intros n b i raw hash [_ _ Hh] Hi Hc. cbn. apply bool_decide_eq_false. intros [j Hj].
    destruct (Hh _ _ Hj) as (k & raw' & Hk & Hc'). enough (i = k) by lia.
    eapply NoDup_lookup; [exact Hnd|by rewrite list_lookup_fmap, Hc|by rewrite list_lookup_fmap, Hc'].
  - intros n b raw hash from [Hn Hb Hh] Hn0 Hc. eexists. split; [done|]. split; cbn.
    + rewrite Hn, (proj2 (Z.ltb_lt n (n + 1))); lia.
    + intros i Hi. destruct (decide (i = n + 1)) as [->|]; [exists raw, hash; by rewrite lookup_insert_eq|].
      rewrite lookup_insert_ne by done. apply Hb. lia.
    + intros x j. rewrite lookup_insert_Some. intros [[<- <-]|[_ Hj]].
      * exists (Z.to_nat (n + 1)), raw. split; [lia|done].
      * destruct (Hh _ _ Hj) as (i & r & ? & ?). exists i, r. split; [lia|done].
Qed.

(** ** Evaluation *)
Section Witness.
Local Existing Instances spec_crypto spec_crypto_laws spec_rlp spec_rlp_laws listed_store.

Definition three_blocks : list (list Z * Hash) := [([1], 5); ([2], 6); ([3], 7)].
Definition full_chain : MemoryChain := AddBlock 2 7 [3] (AddBlock 1 6 [2] (NewMemoryChain 5 [1])).

Definition peer_host (id other height : Z) (app : MemoryChain) : Host MemoryChain :=
  mkHost small_config id (mkPeerStore ∅ {[other := mkPeer other [49] height 0 false [] false]} 2)
    (mkAppHandlers None (Some memory_onBlock) None None) ∅ ∅ ∅ false 30303 app.

(** A limit of two, which the request of all heights evades. *)
Lemma GetBlocks_bounded_witness :
  (∃ bs, handleGetBlocks 3 3 (GetBlocks_Encode (mkGetBlocks 0 2)) (peer_host 4 3 0 full_chain) =
    Some (send_to 3 MsgBlocks (BlocksMsg_Encode bs) (peer_host 4 3 0 full_chain)) ∧ Z.of_nat (length bs) <= 2) ∧
  (∃ bs, handleGetBlocks 4 3 (GetBlocks_Encode (mkGetBlocks 0 (2 ^ 64 - 1))) (peer_host 4 3 0 full_chain) =
    Some (send_to 3 MsgBlocks (BlocksMsg_Encode bs) (peer_host 4 3 0 full_chain)) ∧ length bs = 3%nat).
Proof.
  split.
  - destruct (GetBlocks_bounded 3 (GetBlocks_Encode (mkGetBlocks 0 2)) 0 2 (peer_host 4 3 0 full_chain))
      as [(bs & H1 & _ & H2 & _) _]; [|cbn; lia|left; lia|cbn; lia|lia|].
    + apply get_blocks_roundtrip. unfold get_blocks_ok, is_u64. cbn. lia.
    + exists bs. exact (conj H1 H2).
  - destruct (GetBlocks_bounded 3 (GetBlocks_Encode (mkGetBlocks 0 (2 ^ 64 - 1))) 0 (2 ^ 64 - 1) (peer_host 4 3 0 full_chain))
      as [_ H]; [|lia|right; by split|cbn; lia|].
    + apply get_blocks_roundtrip. unfold get_blocks_ok, is_u64. cbn. lia.
    + destruct (H eq_refl 3%nat) as (bs & H1 & _ & H2); [lia| |vm_compute; reflexivity|].
      * intros i Hi. assert (i = 0 ∨ i = 1 ∨ i = 2) as [-> | [-> | ->]] by lia; vm_compute; by eexists.
      * exists bs. exact (conj H1 H2).
Defined.

Lemma full_chain_block i : 0 <= i <= 2 → bk_BlockByNumber i full_chain = three_blocks !! Z.to_nat i.
Proof. intros Hi. assert (i = 0 ∨ i = 1 ∨ i = 2) as [-> | [-> | ->]] by lia; vm_decide. Qed.

Lemma sample_serving app : serving three_blocks 2 3 (peer_host 3 4 2 app) (peer_host 4 3 0 full_chain).
Proof.
  split; try (cbn; lia).
  - by eexists.
  - repeat constructor; unfold is_byte, is_hash; cbn; lia.
  - exact full_chain_block.
  - split; [split; reflexivity|reflexivity].
  - intros lo hi H1 H2. assert (lo = 0 ∨ lo = 1 ∨ lo = 2) as [-> | [-> | ->]] by lia;
      assert (hi = 0 ∨ hi = 1 ∨ hi = 2) as [-> | [-> | ->]] by lia; unfold fits; vm_decide.
  - intros n bs Hn Hs H1 H2. cbn in H2.
    assert (∀ i bl, bs !! i = Some bl → ∃ raw hash, three_blocks !! Z.to_nat (n + Z.of_nat i) = Some (raw, hash) ∧
      bl = mkBlockPayload (n + Z.of_nat i) hash raw) as Hb.
    { intros i [num hash raw] Hi. destruct (Hs i _ Hi) as [Hnum Hblk]. apply lookup_lt_Some in Hi. cbn in Hnum. subst num.
      rewrite full_chain_block in Hblk by lia. by exists raw, hash. }
    destruct bs as [|b1 [|b2 [|b3 bs]]]; cbn [length] in *; [unfold fits; vm_decide| | |lia].
    + destruct (Hb 0%nat _ eq_refl) as (r & x & H & ->). rewrite Z.add_0_r in *.
      assert (n = 0 ∨ n = 1 ∨ n = 2) as [-> | [-> | ->]] by lia; injection H as <- <-; unfold fits; vm_decide.
    + destruct (Hb 0%nat _ eq_refl) as (r & x & H & ->). destruct (Hb 1%nat _ eq_refl) as (r' & x' & H' & ->).
      assert (n = 0 ∨ n = 1) as [-> | ->] by lia; injection H as <- <-; injection H' as <- <-; unfold fits; vm_decide.
Qed.

(** A host with the genesis block syncs two more from a peer. *)
Lemma sync_catches_up_witness : ∃ b',
  SyncFromPeer 3 (exchange 3 0 3 (peer_host 4 3 0 full_chain)) 4 (peer_host 3 4 2 (NewMemoryChain 5 [1])) =
    Some (peer_host 3 4 2 b', Ok tt) ∧ memory_holds three_blocks 2 b'.
Proof.
  refine (@sync_catches_up spec_crypto spec_rlp spec_rlp_laws listed_store MemoryChain MemoryChain _ _ three_blocks
    memory_onBlock (memory_holds three_blocks) (memory_sync three_blocks _) 2 0 3 4 (peer_host 4 3 0 full_chain)
    (peer_host 3 4 2 (NewMemoryChain 5 [1])) 0 (mkPeer 4 [49] 2 0 false [] false) (sample_serving _) _ _ _ eq_refl eq_refl).
  - vm_decide.
  - split; [reflexivity| |].
    + intros i Hi. assert (i = 0) as -> by lia. exists [1], 5. split; reflexivity.
    + intros hash j Hj. change (({[5 := 0]} : gmap Hash Z) !! hash = Some j) in Hj. apply lookup_singleton_Some in Hj as [<- <-]. exists 0%nat, [1]. split; [lia|reflexivity].
  - lia.
  - split_and!; reflexivity.
Defined.
End Witness.
