(* ===== verification/Rpc.v ===== *)
(** * JSON-RPC text formats and polling filters

    Models [rpc/hexutil.go] (quantities, byte strings, hashes, block tags) and
    [rpc/filter.go] (the installed filters, their expiry and limit, and the
    polls) over the chain node.  Text is a list of ASCII codes; JSON values are
    given as parsed, block and log objects are not rendered.  The clock and the
    random bytes of an identifier are arguments. *)
From S2P Require Import Prelude Types Toy DewTx Mempool Rlp EvmTx Smt StateDB StateRevert.
From S2P Require Import StateCommit NativeState Staking NativeExec Vm ChainStore Select Chain.
From S2P Require Import ChainOpen.

(** ** Text ([strings], [encoding/hex], [strconv], [fmt]) *)
Definition is_space (c : Z) : bool := ((9 <=? c) && (c <=? 13)) || (c =? 32).

Fixpoint trim_left (s : list Z) : list Z :=
  match s with [] => [] | c :: r => if is_space c then trim_left r else s end.

Definition TrimSpace (s : list Z) : list Z := rev (trim_left (rev (trim_left s))).

Definition HasPrefix (p s : list Z) : bool := bool_decide (take (length p) s = p).
Definition TrimPrefix (p s : list Z) : list Z := if HasPrefix p s then drop (length p) s else s.

Definition lower (c : Z) : Z := if (65 <=? c) && (c <=? 90) then c + 32 else c.

Definition ox : list Z := [48; 120].
Definition OX : list Z := [48; 88].

Definition hex_digit (d : Z) : Z := if d <? 10 then 48 + d else 87 + d.

(** The value of a digit in bases up to 16. *)
Definition digit_value (c : Z) : Z :=
  if (48 <=? c) && (c <=? 57) then c - 48
  else if (97 <=? c) && (c <=? 102) then c - 87
  else if (65 <=? c) && (c <=? 70) then c - 55 else 16.

Definition hex_EncodeToString (b : list Z) : list Z := concat (map (λ x, [hex_digit (x / 16); hex_digit (x mod 16)]) b).

Fixpoint hex_DecodeString (s : list Z) : res (list Z) :=
  match s with
  | [] => Ok []
  | [_] => Err "encoding/hex: odd length hex string"
  | a :: b :: s =>
      if (digit_value a <? 16) && (digit_value b <? 16) then
        let? r := hex_DecodeString s in Ok (digit_value a * 16 + digit_value b :: r)
      else Err "encoding/hex: invalid byte"
  end.

(** [fmt] with the verb x, for numbers of at most [fuel] digits. *)
Fixpoint hex_number (fuel : nat) (n : Z) : list Z :=
  match fuel with
  | O => []
  | S fuel => (if n <? 16 then [] else hex_number fuel (n / 16)) ++ [hex_digit (n mod 16)]
  end.

Definition parse_digits (base : Z) (s : list Z) : Z := foldl (λ acc c, acc * base + digit_value c) 0 s.

(** [strconv.ParseUint] with 64 bits, in base 10 or 16. *)
Definition ParseUint (base : Z) (s : list Z) : res Z :=
  match s with
  | [] => Err "invalid syntax"
  | _ =>
      if negb (forallb (λ c, digit_value c <? base) s) then Err "invalid syntax"
      else let n := parse_digits base s in if n <? 2 ^ 64 then Ok n else Err "value out of range"
  end.

(** ** Quantities and byte strings *)
Definition EncodeUint64 (n : Z) : list Z := ox ++ hex_number 16 n.

Definition EncodeBytes (b : list Z) : list Z := match b with [] => ox | _ => ox ++ hex_EncodeToString b end.

Definition Hash_Hex (h : Hash) : list Z := ox ++ hex_EncodeToString (hash_bytes h).
Definition EncodeHash (h : Hash) : list Z := Hash_Hex h.

Definition DecodeUint64 (s : list Z) : res Z :=
  let s := TrimSpace s in
  match s with
  | [] => Err "empty number"
  | _ => if HasPrefix ox s || HasPrefix OX s then ParseUint 16 (drop 2 s) else ParseUint 10 s
  end.

(** A leading zero for a text of odd length. *)
Definition even_length (s : list Z) : list Z := if Nat.odd (length s) then 48 :: s else s.

Definition DecodeBytes (s : list Z) : res (list Z) :=
  let s := TrimSpace s in
  if bool_decide (s = []) || bool_decide (s = ox) then Ok []
  else hex_DecodeString (even_length (TrimPrefix OX (TrimPrefix ox s))).

Definition DecodeHash (s : list Z) : res Hash :=
  let s := TrimPrefix OX (TrimPrefix ox (TrimSpace s)) in
  match s with
  | [] => Ok 0
  | _ =>
      let s := even_length s in
      if (64 <? length s)%nat then Err "types: hash must be at most 32 bytes (64 hex chars)" else
      let s := replicate (64 - length s) 48 ++ s in
      match hex_DecodeString s with
      | Err _ => Err "types: invalid hash hex"
      | Ok b => Ok (BytesToHash b)
      end
  end.

Definition HexToHash (s : list Z) : res Hash :=
  let s := TrimPrefix OX (TrimPrefix ox (TrimSpace s)) in
  if negb (length s =? 64)%nat then Err "types: hash must be 32 bytes (64 hex chars)" else
  match hex_DecodeString s with
  | Err _ => Err "types: invalid hash hex"
  | Ok b => Ok (BytesToHash b)
  end.

(** ** JSON values and block tags *)

(** [JFloat n frac] is a JSON number with integer part [n] rounded down;
    [JNumber] a [json.Number] with what [Int64] gives for it; [JOther] a
    boolean or an object. *)
Inductive jvalue : Type :=
  | JNull
  | JString (s : list Z)
  | JArray (l : list jvalue)
  | JFloat (n : Z) (frac : bool)
  | JNumber (n : res Z)
  | JOther (s : list Z).

Definition LatestBlock : Z := -1.
Definition EarliestBlock : Z := -2.
Definition PendingBlock : Z := -3.

(** What the conversion of 2^63 to [int64] gives depends on the machine. *)
Definition ParseBlockNumber (int64_overflow : Z) (v : jvalue) : res Z :=
  match v with
  | JNull => Ok LatestBlock
  | JString x =>
      let l := map lower x in
      if bool_decide (l = str_bytes "latest") || bool_decide (l = []) then Ok LatestBlock else
      if bool_decide (l = str_bytes "earliest") then Ok EarliestBlock else
      if bool_decide (l = str_bytes "pending") then Ok PendingBlock else
      let? n := DecodeUint64 x in
      if 2 ^ 63 - 1 <? n then Err "block number exceeds max int64" else Ok n
  | JFloat n _ =>
      if (n <? 0) || (2 ^ 63 <? n) then Err "invalid block number"
      else Ok (if n =? 2 ^ 63 then int64_overflow else n)
  | JNumber r => let? n := r in if n <? 0 then Err "invalid block number" else Ok n
  | _ => Err "invalid block number"
  end.

Definition ResolveBlockNumber (tag head : Z) : res Z :=
  if (tag =? LatestBlock) || (tag =? PendingBlock) then Ok head else
  if tag =? EarliestBlock then Ok 0 else
  if tag <? 0 then Err "invalid block tag" else
  if head <? tag then Err "block not found" else Ok tag.

(** ** Installed filters *)
Definition MaxFilters : Z := 128.
Definition FilterIdleTTL : Z := 5 * 60 * 1000000000.

Inductive filterKind : Type := filterLogs | filterBlocks | filterPending.

(** [nil] and empty topic levels both match everything. *)
Record installedFilter : Type := mkInstalledFilter {
  if_id : list Z;
  if_kind : filterKind;
  if_addrs : list Address;
  if_topics : list (list Hash);
  if_fromTag : jvalue;
  if_toTag : jvalue;
  if_lastPolled : Z;
  if_lastAccess : Z;
}.

Abbreviation filterStore := (gmap (list Z) installedFilter).

Definition purgeExpiredLocked (now : Z) (s : filterStore) : filterStore :=
  filter (λ e, (if_lastAccess e.2 <? now - FilterIdleTTL) = false) s.

(** A fresh access time, and the identifier [id] when there is none yet. *)
Definition touched (f : installedFilter) (id : list Z) (now : Z) : installedFilter :=
  mkInstalledFilter id (if_kind f) (if_addrs f) (if_topics f) (if_fromTag f) (if_toTag f) (if_lastPolled f) now.

Definition install (f : installedFilter) (rnd : list Z) (now : Z) (s : filterStore) : filterStore * res (list Z) :=
  let s := purgeExpiredLocked now s in
  if MaxFilters <=? Z.of_nat (size s) then (s, Err "too many filters") else
  let id := match if_id f with [] => EncodeBytes rnd | id => id end in
  (<[id := touched f id now]> s, Ok id).

Definition snapshot (id : list Z) (now : Z) (s : filterStore) : filterStore * res installedFilter :=
  let s := purgeExpiredLocked now s in
  match s !! id with
  | None => (s, Err "filter not found")
  | Some f => let f := touched f (if_id f) now in (<[id := f]> s, Ok f)
  end.

Definition advance (id : list Z) (tip now : Z) (s : filterStore) : filterStore :=
  match s !! id with
  | None => s
  | Some f =>
      <[id := mkInstalledFilter (if_id f) (if_kind f) (if_addrs f) (if_topics f) (if_fromTag f) (if_toTag f) tip now]> s
  end.

Definition uninstall (id : list Z) (now : Z) (s : filterStore) : filterStore * bool :=
  let s := purgeExpiredLocked now s in
  match s !! id with None => (s, false) | Some _ => (delete id s, true) end.

(** ** The filter methods *)

(** [fmt.Sprint] of a JSON value, and [crypto.HexToAddress]. *)
Class Rendering : Type := {
  Sprint : jvalue → list Z;
  HexToAddress : list Z → res Address;
}.
Class RenderingLaws (F : Rendering) : Prop := { sprint_string : ∀ s, Sprint (JString s) = s }.

Inductive filterResult : Type :=
  | NoChanges
  | Hashes (l : list (list Z))
  | Logs (l : list IndexedLog).

Section Filters.
Context `{F : Rendering}.

Fixpoint parse_addresses (l : list jvalue) : res (list Address) :=
  match l with
  | [] => Ok []
  | x :: l => let? a := HexToAddress (Sprint x) in let? r := parse_addresses l in Ok (a :: r)
  end.

(** The alternatives of one topic level; nulls are left out. *)
Fixpoint parse_alternatives (l : list jvalue) : res (list Hash) :=
  match l with
  | [] => Ok []
  | JNull :: l => parse_alternatives l
  | x :: l => let? h := DecodeHash (Sprint x) in let? r := parse_alternatives l in Ok (h :: r)
  end.

(** A level that is neither null, a string nor a list is skipped. *)
Fixpoint parse_topics (l : list jvalue) : res (list (list Hash)) :=
  match l with
  | [] => Ok []
  | JNull :: l => let? r := parse_topics l in Ok ([] :: r)
  | JString s :: l => let? h := DecodeHash s in let? r := parse_topics l in Ok ([h] :: r)
  | JArray a :: l => let? alts := parse_alternatives a in let? r := parse_topics l in Ok (alts :: r)
  | _ :: l => parse_topics l
  end.

Definition parseLogFilterObject (q : gmap (list Z) jvalue) : res (list Address * list (list Hash)) :=
  let? addrs := match q !! str_bytes "address" with
                | Some (JString t) => let? a := HexToAddress t in Ok [a]
                | Some (JArray t) => parse_addresses t
                | _ => Ok []
                end in
  let? topics := match q !! str_bytes "topics" with Some (JArray v) => parse_topics v | _ => Ok [] end in
  Ok (addrs, topics).

Definition tag_of (key : list Z) (q : gmap (list Z) jvalue) : jvalue := default JNull (q !! key).

Definition ethNewFilter (q : option (gmap (list Z) jvalue)) (rnd : list Z) (now : Z) (n : ChainNode) (s : filterStore)
    : filterStore * res (list Z) :=
  let tip := Number (n_header n) in
  match q with
  | None => install (mkInstalledFilter [] filterLogs [] [] JNull JNull tip 0) rnd now s
  | Some q =>
      match parseLogFilterObject q with
      | Err e => (s, Err e)
      | Ok (addrs, topics) =>
          install (mkInstalledFilter [] filterLogs addrs topics (tag_of (str_bytes "fromBlock") q)
                     (tag_of (str_bytes "toBlock") q) tip 0) rnd now s
      end
  end.
End Filters.

Definition ethNewBlockFilter (rnd : list Z) (now : Z) (n : ChainNode) (s : filterStore) : filterStore * res (list Z) :=
  install (mkInstalledFilter [] filterBlocks [] [] JNull JNull (Number (n_header n)) 0) rnd now s.

Definition ethNewPendingTransactionFilter (rnd : list Z) (now : Z) (n : ChainNode) (s : filterStore)
    : filterStore * res (list Z) :=
  install (mkInstalledFilter [] filterPending [] [] JNull JNull (Number (n_header n)) 0) rnd now s.

Definition ethUninstallFilter (id : list Z) (now : Z) (s : filterStore) : filterStore * bool := uninstall id now s.

Section Polls.
Context `{C : Crypto} `{D : AccountCodec} `{R : RlpCodec} `{E : EthCodec} `{K : DewTxCodec}.

(** [Node.GetBlockByNumber] and [Node.GetBlockByHash]: what is not in memory is
    loaded from the store and kept. *)
Definition GetBlockByNumber (num : Z) (n : ChainNode) : ChainNode * option Block :=
  match (h ← n_blockNum n !! num; n_blocks n !! h) with
  | Some b => (n, Some b)
  | None => loadBlockByNumberLocked num n
  end.

Definition GetBlockByHash (hash : Hash) (n : ChainNode) : ChainNode * option Block :=
  match n_blocks n !! hash with
  | Some b => (n, Some b)
  | None => loadBlockByHashLocked hash n
  end.

(** The loop over the new heights. *)
Definition block_hash (st : ChainNode * list (list Z)) (h : Z) : ChainNode * list (list Z) :=
  let '(n, hashes) := st in
  match GetBlockByNumber h n with
  | (n, None) => (n, hashes)
  | (n, Some b) => (n, hashes ++ [EncodeHash (Block_Hash b)])
  end.

(** What [ethGetFilterChanges] asks the node between its two critical sections
    on the filters, [snapshot] and [advance]: the changes up to the height [tip]
    it has read.  [None]: the log query has not ended within the fuel. *)
Definition changes_answer (fuel : nat) (snap : installedFilter) (tip : Z) (n : ChainNode)
    : option (ChainNode * filterResult) :=
  let from := if_lastPolled snap +₆₄ 1 in
  match if_kind snap with
  | filterPending => Some (n, NoChanges)
  | filterBlocks =>
      if tip <? from then Some (n, Hashes [])
      else let '(n, hashes) := foldl block_hash (n, []) (seqZ from (tip - from + 1)) in Some (n, Hashes hashes)
  | filterLogs =>
      if tip <? from then Some (n, Logs []) else
      match FilterLogs fuel from tip (if_addrs snap) (if_topics snap) n with
      | None => None
      | Some (n, logs) => Some (n, Logs logs)
      end
  end.

(** The request when no other comes in between. *)
Definition ethGetFilterChanges (fuel : nat) (id : list Z) (now : Z) (n : ChainNode) (s : filterStore)
    : option (ChainNode * filterStore * res filterResult) :=
  match snapshot id now s with
  | (s, Err e) => Some (n, s, Err e)
  | (s, Ok snap) =>
      let tip := Number (n_header n) in
      match changes_answer fuel snap tip n with
      | None => None
      | Some (n, r) => Some (n, advance (if_id snap) tip now s, Ok r)
      end
  end.

Definition resolve_tag (int64_overflow : Z) (v : jvalue) (head absent : Z) : res Z :=
  match v with
  | JNull => Ok absent
  | _ => let? tag := ParseBlockNumber int64_overflow v in ResolveBlockNumber tag head
  end.

Definition ethGetFilterLogs (int64_overflow : Z) (fuel : nat) (id : list Z) (now : Z) (n : ChainNode) (s : filterStore)
    : option (ChainNode * filterStore * res (list IndexedLog)) :=
  match snapshot id now s with
  | (s, Err e) => Some (n, s, Err e)
  | (s, Ok snap) =>
      match if_kind snap with
      | filterLogs =>
          let head := Number (n_header n) in
          match (let? from := resolve_tag int64_overflow (if_fromTag snap) head 0 in
                 let? to := resolve_tag int64_overflow (if_toTag snap) head head in Ok (from, to)) with
          | Err e => Some (n, s, Err e)
          | Ok (from, to) =>
              match FilterLogs fuel from to (if_addrs snap) (if_topics snap) n with
              | None => None
              | Some (n, logs) => Some (n, s, Ok logs)
              end
          end
      | _ => Some (n, s, Err "not a log filter")
      end
  end.
End Polls.
