(* ===== verification/RpcProps.v ===== *)
(** * Properties of the JSON-RPC formats and filters

    Encoded numbers, byte strings and hashes decode to themselves, block tags
    resolve within the chain, the number of filters is limited, and a sequence
    of polls of a block filter reports every new block exactly once. *)
From S2P Require Import Prelude Types Toy DewTx Mempool Rlp EvmTx Smt StateDB StateRevert.
From S2P Require Import StateCommit NativeState Staking NativeExec Vm ChainStore Select Chain.
From S2P Require Import ChainOpen Rpc.

(** ** Round trips *)
Definition hex_text (s : list Z) : Prop := Forall (λ c, (48 <= c <= 57) ∨ (97 <= c <= 102)) s.

Lemma hex_digit_text d : 0 <= d < 16 → hex_text [hex_digit d] ∧ digit_value (hex_digit d) = d.
Proof.
  intros Hd. unfold hex_digit. destruct (Z.ltb_spec d 10); (split; [apply Forall_singleton; lia|]); unfold digit_value.
  - rewrite !(proj2 (Z.leb_le _ _)) by lia. cbn [andb]. lia.
  - rewrite (proj2 (Z.leb_gt (87 + d) 57)) by lia. rewrite andb_false_r, !(proj2 (Z.leb_le _ _)) by lia. cbn [andb]. lia.
Qed.

Lemma hex_encode_text b : bytes_ok b → hex_text (hex_EncodeToString b) ∧ hex_DecodeString (hex_EncodeToString b) = Ok b
  ∧ length (hex_EncodeToString b) = (2 * length b)%nat.
Proof.
  induction 1 as [|x b Hx _ (IH1 & IH2 & IH3)]; [split_and!; [constructor|done|done]|]. unfold is_byte in Hx.
  destruct (hex_digit_text (x / 16)) as [H1 H2]; [zlia|]. destruct (hex_digit_text (x mod 16)) as [H3 H4]; [zlia|].
  change (hex_EncodeToString (x :: b)) with ([hex_digit (x / 16)] ++ [hex_digit (x mod 16)] ++ hex_EncodeToString b). split_and!.
  - by apply Forall_app_2; [|apply Forall_app_2].
  - cbn [app hex_DecodeString]. rewrite H2, H4, !(proj2 (Z.ltb_lt _ _)) by zlia. cbn [andb]. rewrite IH2. cbn [rbind].
    do 2 f_equal. zlia.
  - rewrite !length_app, IH3. cbn [length]. lia.
Qed.

Lemma trim_left_id s : Forall (λ c, is_space c = false) s → trim_left s = s.
Proof. intros H. destruct H as [|c s Hc _]; [done|]. cbn. by rewrite Hc. Qed.

Lemma TrimSpace_id s : Forall (λ c, is_space c = false) s → TrimSpace s = s.
Proof.
  intros H. unfold TrimSpace. rewrite (trim_left_id s), trim_left_id, rev_involutive; [done| |done].
  by apply Forall_rev.
Qed.

Lemma hex_not_space s : hex_text s → Forall (λ c, is_space c = false) s.
Proof.
  intros H. apply (Forall_impl _ _ _ H). intros c Hc. unfold is_space.
  rewrite (proj2 (Z.leb_gt c 13)), (proj2 (Z.eqb_neq c 32)) by lia. by rewrite andb_false_r.
Qed.

Lemma TrimSpace_ox s : hex_text s → TrimSpace (ox ++ s) = ox ++ s.
Proof.
  intros H. apply TrimSpace_id, Forall_app_2; [repeat constructor|by apply hex_not_space].
Qed.

Lemma TrimPrefix_ox s : TrimPrefix ox (ox ++ s) = s.
Proof. unfold TrimPrefix, HasPrefix. by rewrite take_app_length, bool_decide_true, drop_app_length by done. Qed.

Lemma TrimPrefix_OX s : hex_text s → TrimPrefix OX s = s.
Proof.
  intros H. unfold TrimPrefix, HasPrefix. rewrite bool_decide_false; [done|]. intros Ht.
  assert (88 ∈ s) as Hx. { rewrite <-(take_drop (length OX) s), Ht. apply elem_of_app. left. by right; left. }
  eapply Forall_forall in H; [|exact Hx]. cbn in H. lia.
Qed.

Lemma parse_hex_number fuel n : (0 < fuel)%nat → 0 <= n < 16 ^ Z.of_nat fuel →
  hex_text (hex_number fuel n) ∧ parse_digits 16 (hex_number fuel n) = n ∧ hex_number fuel n ≠ [].
Proof.
  revert n. induction fuel as [|fuel IH]; intros n Hf Hn; [lia|]. cbn [hex_number].
  destruct (hex_digit_text (n mod 16)) as [H1 H2]; [zlia|]. destruct (Z.ltb_spec n 16) as [Hlt|Hge].
  - split_and!; [exact H1| |done]. unfold parse_digits. cbn [app foldl]. rewrite H2. zlia.
  - rewrite Nat2Z.inj_succ, Z.pow_succ_r in Hn by lia.
    assert (0 < fuel)%nat as Hf'. { destruct fuel; [cbn in Hn; lia|lia]. }
    destruct (IH (n / 16) Hf') as (H3 & H4 & _); [zlia|]. split_and!; [by apply Forall_app_2| |by destruct (hex_number fuel (n / 16))].
    unfold parse_digits in *. rewrite foldl_app, H4. cbn [foldl]. rewrite H2. zlia.
Qed.

Lemma digits_hex s : hex_text s → forallb (λ c, digit_value c <? 16) s = true.
Proof.
  intros H. apply forallb_forall. intros c Hc. eapply List.Forall_forall in H; [|exact Hc]. cbn in H. unfold digit_value.
  repeat case_match; zbool; lia.
Qed.

Lemma rpc_text :
  (∀ n, is_u64 n → DecodeUint64 (EncodeUint64 n) = Ok n) ∧
  (∀ b, bytes_ok b → DecodeBytes (EncodeBytes b) = Ok b) ∧
  (∀ h, is_hash h → DecodeHash (EncodeHash h) = Ok h ∧ HexToHash (Hash_Hex h) = Ok h).
Proof.
  split_and!.
  - intros n Hn. destruct (parse_hex_number 16 n) as (H1 & H2 & H3); [lia|exact Hn|].
    unfold DecodeUint64, EncodeUint64. rewrite TrimSpace_ox by done. cbn [ox app]. unfold HasPrefix at 1.
    rewrite bool_decide_true by done. cbn [orb]. change (drop 2 (48 :: 120 :: hex_number 16 n)) with (hex_number 16 n).
    unfold ParseUint. destruct (hex_number 16 n) as [|c s]; [done|].
    rewrite digits_hex by done. cbn [negb]. cbv zeta.
    rewrite H2, (proj2 (Z.ltb_lt _ _)); [done|apply Hn].
  - intros b Hb. destruct (hex_encode_text b Hb) as (H1 & H2 & H3). unfold DecodeBytes, EncodeBytes.
    destruct b as [|x b]; [done|]. rewrite TrimSpace_ox by done. rewrite bool_decide_false by done.
    rewrite bool_decide_false. 2:{ intros He. apply (f_equal length) in He. rewrite length_app, H3 in He. cbn in He. lia. }
    cbn [orb]. rewrite TrimPrefix_ox, TrimPrefix_OX by done. unfold even_length.
    rewrite H3, Nat.odd_mul. cbn [andb Nat.odd Nat.even negb]. exact H2.
  - intros h Hh. destruct (hex_encode_text (hash_bytes h) (be_bytes_ok _ _)) as (H1 & H2 & H3).
    unfold hash_bytes at 2 in H3. rewrite be_bytes_length in H3. unfold EncodeHash, DecodeHash, HexToHash, Hash_Hex.
    rewrite TrimSpace_ox, TrimPrefix_ox, TrimPrefix_OX by done. generalize dependent (hex_EncodeToString (hash_bytes h)).
    intros s Hs Hd Hl. rewrite Hl. cbn [Nat.eqb Nat.mul Nat.add negb]. split.
    + destruct s as [|c s]; [done|]. unfold even_length. rewrite Hl. cbn [Nat.odd Nat.even Nat.mul Nat.add negb].
      rewrite Hl. cbn [Nat.ltb Nat.leb Nat.mul Nat.add Nat.sub replicate app]. rewrite Hd. by rewrite BytesToHash_hash_bytes.
    + rewrite Hd. by rewrite BytesToHash_hash_bytes.
Qed.

(** C29. The text formats of the interface are faithful: a 64-bit number, a byte
    string and a hash decode to themselves from what the encoders print. *)
Theorem rpc_text_roundtrip :
  (∀ n, is_u64 n → DecodeUint64 (EncodeUint64 n) = Ok n) ∧
  (∀ b, bytes_ok b → DecodeBytes (EncodeBytes b) = Ok b) ∧
  (∀ h, is_hash h → DecodeHash (EncodeHash h) = Ok h ∧ HexToHash (Hash_Hex h) = Ok h).
Proof. exact rpc_text. Qed.

(** ** Block tags *)
Lemma ParseUint_bound base s n : ParseUint base s = Ok n → 0 < base → 0 <= n < 2 ^ 64.
Proof.
  intros H Hb. unfold ParseUint in H. destruct s as [|c s]; [done|].
  destruct (negb (forallb _ _)); [done|]. destruct (Z.ltb_spec (parse_digits base (c :: s)) (2 ^ 64)); [|done].
  injection H as <-. split; [|done]. unfold parse_digits.
  assert (∀ l acc, 0 <= acc → 0 <= foldl (λ a x, a * base + digit_value x) acc l) as Hp; [|apply Hp; lia].
  induction l as [|x l IH]; intros acc Ha; [done|]. apply IH. assert (0 <= digit_value x); [|nia].
  unfold digit_value. repeat case_match; zbool; lia.
Qed.

Lemma Resolve_bound tag head n : 0 <= head → ResolveBlockNumber tag head = Ok n → 0 <= n <= head.
Proof. intros Hh. unfold ResolveBlockNumber. repeat case_match; intros [= <-]; zbool; lia. Qed.

Lemma digits_not_tag n t : is_u64 n → t ∈ [str_bytes "latest"; []; str_bytes "earliest"; str_bytes "pending"] →
  map lower (EncodeUint64 n) ≠ t.
Proof.
  intros _ Ht He. assert (head t = Some 48) as H by by rewrite <-He.
  rewrite !elem_of_cons, elem_of_nil in Ht. destruct Ht as [-> |[-> |[-> |[-> |[]]]]]; discriminate H.
Qed.

(** ** The limit on filters *)
Definition filters_ok (s : filterStore) : Prop := Z.of_nat (size s) <= MaxFilters.

Lemma purge_size now s : (size (purgeExpiredLocked now s) <= size s)%nat.
Proof. apply map_subseteq_size, map_filter_subseteq. Qed.

Lemma purge_ok now s : filters_ok s → filters_ok (purgeExpiredLocked now s).
Proof. unfold filters_ok. pose proof (purge_size now s). lia. Qed.

Lemma install_ok f rnd now s : filters_ok s → filters_ok (install f rnd now s).1.
Proof.
  intros Hs%(purge_ok now). unfold install. destruct (Z.leb_spec MaxFilters (Z.of_nat (size (purgeExpiredLocked now s)))); [done|].
  cbn [fst]. unfold filters_ok in *. rewrite map_size_insert. case_match; unfold Datatypes.id; lia.
Qed.

Lemma insert_known_ok (id : list Z) (f : installedFilter) (s : filterStore) : is_Some (s !! id) → filters_ok s → filters_ok (<[id := f]> s).
Proof. intros Hi Hs. unfold filters_ok. by rewrite map_size_insert_Some. Qed.

Lemma snapshot_ok id now s : filters_ok s → filters_ok (snapshot id now s).1.
Proof.
  intros Hs%(purge_ok now). unfold snapshot. destruct (purgeExpiredLocked now s !! id) eqn:E; [|done]. apply insert_known_ok; [eauto|done].
Qed.

Lemma advance_ok id tip now s : filters_ok s → filters_ok (advance id tip now s).
Proof. intros Hs. unfold advance. destruct (s !! id) eqn:E; [|done]. apply insert_known_ok; [eauto|done]. Qed.

Lemma uninstall_ok id now s : filters_ok s → filters_ok (uninstall id now s).1.
Proof.
  intros Hs%(purge_ok now). unfold uninstall. destruct (purgeExpiredLocked now s !! id) eqn:E; [|done].
  unfold filters_ok in *. cbn [fst]. rewrite map_size_delete. case_match; unfold Datatypes.id; lia.
Qed.

Section Limit.
Context `{C : Crypto} `{D : AccountCodec} `{R : RlpCodec} `{E : EthCodec} `{K : DewTxCodec} `{F : Rendering}.

(** One request to the filter methods, or one of the two critical sections of
    [ethGetFilterChanges]. *)
Inductive filter_call : filterStore → filterStore → Prop :=
| call_new q rnd now n s : filter_call s (ethNewFilter q rnd now n s).1
| call_new_block rnd now n s : filter_call s (ethNewBlockFilter rnd now n s).1
| call_new_pending rnd now n s : filter_call s (ethNewPendingTransactionFilter rnd now n s).1
| call_uninstall id now s : filter_call s (ethUninstallFilter id now s).1
| call_changes fuel id now n s n' s' r : ethGetFilterChanges fuel id now n s = Some (n', s', r) → filter_call s s'
| call_snapshot id now s : filter_call s (snapshot id now s).1
| call_advance id tip now s : filter_call s (advance id tip now s)
| call_logs ov fuel id now n s n' s' r : ethGetFilterLogs ov fuel id now n s = Some (n', s', r) → filter_call s s'.

Lemma changes_ok fuel id now n s n' s' r : filters_ok s → ethGetFilterChanges fuel id now n s = Some (n', s', r) → filters_ok s'.
Proof.
  intros Hs%(snapshot_ok id now). unfold ethGetFilterChanges. destruct (snapshot id now s) as [s1 [snap|e]]; cbn [fst] in Hs;
    [|by intros [= _ <- _]].
  destruct (changes_answer _ _ _ _) as [[n1 x]|]; [|done]. intros [= _ <- _]. by apply advance_ok.
Qed.

Lemma filter_call_ok s s' : filter_call s s' → filters_ok s → filters_ok s'.
Proof.
  intros Hc Hs. destruct Hc.
  - unfold ethNewFilter. repeat case_match; try done; by apply install_ok.
  - by apply install_ok.
  - by apply install_ok.
  - by apply uninstall_ok.
  - by eapply changes_ok.
  - by apply snapshot_ok.
  - by apply advance_ok.
  - revert H. apply (snapshot_ok id now) in Hs. unfold ethGetFilterLogs. destruct (snapshot id now s) as [s1 [snap|e]]; cbn [fst] in Hs;
      [|by intros [= _ <- _]]. repeat case_match; try done; by intros [= _ <- _].
Qed.

(** C28. The interface keeps its bounds: a block tag resolves to a height of the
    chain or is refused, a number in range is resolved to itself and a number
    above the head is refused, and whatever requests arrive there are never
    more than 128 filters. *)
Theorem rpc_bounds :
  (∀ ov head v tag n, 0 <= head → ParseBlockNumber ov v = Ok tag → ResolveBlockNumber tag head = Ok n → 0 <= n <= head) ∧
  (∀ ov head n, is_u64 n → n < 2 ^ 63 → ParseBlockNumber ov (JString (EncodeUint64 n)) = Ok n ∧
     ResolveBlockNumber n head = if head <? n then Err "block not found" else Ok n) ∧
  (∀ s, rtc filter_call ∅ s → Z.of_nat (size s) <= MaxFilters).
Proof.
  split_and!.
  - intros ov head v tag n Hh _. by apply Resolve_bound.
  - intros ov head n Hn Hmax. split.
    + unfold ParseBlockNumber. cbv zeta. rewrite !bool_decide_false by (apply digits_not_tag; [done|rewrite !elem_of_cons; tauto]).
      cbn [orb]. rewrite (proj1 rpc_text) by done. cbn [rbind]. by rewrite (proj2 (Z.ltb_ge _ _)) by lia.
    + unfold ResolveBlockNumber, LatestBlock, EarliestBlock, PendingBlock. destruct Hn as [Hn _].
      rewrite !(proj2 (Z.eqb_neq n _)) by lia. cbn [orb]. by rewrite (proj2 (Z.ltb_ge n 0)) by lia.
  - intros s Hs. enough (filters_ok s) by done. remember (∅ : filterStore) as s0 eqn:He.
    assert (filters_ok s0) as H0 by (by rewrite He). clear He. induction Hs as [|s1 s2 s3 Hc _ IH]; [done|].
    by apply IH, (filter_call_ok s1 s2).
Qed.
End Limit.

(** ** Polls *)
Section Polling.
Context `{C : Crypto} {CL : CryptoLaws C} `{D : AccountCodec} `{R : RlpCodec} `{E : EthCodec} `{K : DewTxCodec}.

(** The chain by height. *)
Context (blk : Z → Block).
Implicit Types m : ChainNode.

(** The node has the block of height [h] in memory, or on disk. *)
Definition held m (h : Z) : Prop :=
  (n_blockNum m !! h = Some (Block_Hash (blk h)) ∧ n_blocks m !! Block_Hash (blk h) = Some (blk h)) ∨
  (n_db m !! canonicalKey h = Some (hash_bytes (Block_Hash (blk h))) ∧
   readBlockFromDB (n_db m) (Block_Hash (blk h)) = Ok (blk h) ∧
   (n_blockNum m !! h = None ∨ n_blockNum m !! h = Some (Block_Hash (blk h))) ∧
   (n_blocks m !! Block_Hash (blk h) = None ∨ n_blocks m !! Block_Hash (blk h) = Some (blk h))).

Abbreviation within m h := (0 <= h <= Number (n_header m)).

Record chain_of m : Prop := {
  co_held : ∀ h, within m h → held m h;
  co_number : ∀ h, within m h → Number (header (blk h)) = h;
  co_distinct : ∀ h h', within m h → within m h' → Block_Hash (blk h) = Block_Hash (blk h') → h = h';
}.

Lemma chain_of_loaded m h : chain_of m → within m h →
  chain_of (with_blocks (<[Block_Hash (blk h) := blk h]> (n_blocks m)) (<[h := Block_Hash (blk h)]> (n_blockNum m)) m).
Proof.
  intros [Hh Hn Hd] Hw. split; [|exact Hn|exact Hd]. intros h' Hw'. change (within m h') in Hw'.
  unfold held. cbn [n_blockNum n_blocks with_blocks]. destruct (decide (h' = h)) as [->|Hne].
  { left. by rewrite !lookup_insert_eq. }
  assert (Block_Hash (blk h) ≠ Block_Hash (blk h')) as Hneq by (intros He; apply Hne; symmetry; by apply Hd).
  rewrite !lookup_insert_ne by (done || lia). exact (Hh h' Hw').
Qed.

Lemma GetBlockByNumber_held m h : chain_of m → within m h →
  ∃ m', GetBlockByNumber h m = (m', Some (blk h)) ∧ chain_of m' ∧ n_header m' = n_header m.
Proof using CL.
  intros Hc Hw. pose proof (chain_of_loaded m h Hc Hw) as Hl. unfold GetBlockByNumber, loadBlockByNumberLocked, loadBlockByHashLocked.
  set (bh := Block_Hash (blk h)) in *. assert (is_hash bh) as Hbh by apply Keccak256Hash_is_hash.
  destruct (co_held m Hc h Hw) as [[H1 H2]|(Hcan & Hread & Hnum & Hblk)];
    [change (Block_Hash (blk h)) with bh in H1, H2|change (Block_Hash (blk h)) with bh in Hcan, Hread, Hnum, Hblk].
  { rewrite H1. cbn [mbind option_bind]. rewrite H2. by exists m. }
  destruct (n_blockNum m !! h ≫= λ x, n_blocks m !! x) as [b|] eqn:Hm.
  { destruct Hnum as [Hnum|Hnum]; rewrite Hnum in Hm; [done|]. cbn [mbind option_bind] in Hm.
    destruct Hblk as [Hblk|Hblk]; rewrite Hblk in Hm; [done|]. injection Hm as <-. by exists m. }
  rewrite Hcan, BytesToHash_hash_bytes by done. cbn [n_blocks n_blockNum with_blocks].
  destruct Hblk as [Hblk|Hblk]; rewrite Hblk.
  - change (n_db (with_blocks _ _ m)) with (n_db m). rewrite Hread, (co_number m Hc h Hw), lookup_insert_eq, Z.eqb_refl.
    eexists. split; [reflexivity|]. cbn [n_blocks n_blockNum with_blocks]. rewrite insert_insert_eq. by split.
  - rewrite insert_id in Hl by done. by eexists.
Qed.

Definition hash_text (h : Z) : list Z := EncodeHash (Block_Hash (blk h)).

Lemma block_hashes from k m acc : chain_of m → 0 <= from → from + Z.of_nat k <= Number (n_header m) + 1 →
  ∃ m', foldl block_hash (m, acc) (seqZ from (Z.of_nat k)) = (m', acc ++ map hash_text (seqZ from (Z.of_nat k))) ∧
    n_header m' = n_header m.
Proof using CL.
  revert from m acc. induction k as [|k IH]; intros from m acc Hc Hf Hk; [exists m; by rewrite app_nil_r|].
  rewrite seqZ_cons by lia. replace (Z.pred (Z.of_nat (S k))) with (Z.of_nat k) by lia. cbn [foldl map block_hash].
  destruct (GetBlockByNumber_held m from Hc) as (m1 & -> & Hc1 & Hh1); [lia|].
  destruct (IH (Z.succ from) m1 (acc ++ [hash_text from]) Hc1) as (m' & H1 & H2); [lia|rewrite Hh1; lia|].
  exists m'. rewrite H2, Hh1. split; [|done]. etrans; [exact H1|]. by rewrite <-app_assoc.
Qed.

(** A block filter that has reported everything up to height [l]. *)
Definition cursor (s : filterStore) (id : list Z) (t l : Z) : Prop :=
  ∃ f, s !! id = Some f ∧ if_kind f = filterBlocks ∧ if_id f = id ∧ if_lastPolled f = l ∧ if_lastAccess f = t.

(** The answer of a poll. *)
Lemma answer_blocks fuel snap tip m : if_kind snap = filterBlocks → 0 <= if_lastPolled snap <= tip →
  tip <= Number (n_header m) → tip < 2 ^ 64 - 1 → chain_of m →
  ∃ m', changes_answer fuel snap tip m = Some (m', Hashes (map hash_text (seqZ (if_lastPolled snap + 1) (tip - if_lastPolled snap)))).
Proof using CL.
  intros Hk Hl Hm Hmax Hc. unfold changes_answer. rewrite Hk. set (l := if_lastPolled snap) in *.
  assert (l +₆₄ 1 = l + 1) as -> by (apply Z.mod_small; lia). cbv zeta.
  destruct (Z.ltb_spec tip (l + 1)) as [Hlt|Hge].
  - exists m. replace (tip - l) with 0 by lia. done.
  - destruct (block_hashes (l + 1) (Z.to_nat (tip - l)) m [] Hc) as (m' & Hf & Hh'); [lia|lia|].
    rewrite Z2Nat.id in Hf by lia. replace (tip - (l + 1) + 1) with (tip - l) by lia. rewrite Hf. by exists m'.
Qed.

(** *** Other requests *)

(** A critical section of the filter store. *)
Inductive store_op : Type :=
| OpInstall (f : installedFilter) (rnd : list Z) (now : Z)
| OpSnapshot (id : list Z) (now : Z)
| OpAdvance (id : list Z) (tip now : Z)
| OpUninstall (id : list Z) (now : Z).

Definition apply_op (s : filterStore) (op : store_op) : filterStore :=
  match op with
  | OpInstall f rnd now => (install f rnd now s).1
  | OpSnapshot id now => (snapshot id now s).1
  | OpAdvance id tip now => advance id tip now s
  | OpUninstall id now => (uninstall id now s).1
  end.

(** It is not about the filter [id], last used at [t], and happens while that
    filter lives. *)
Definition foreign (id : list Z) (t : Z) (op : store_op) : Prop :=
  match op with
  | OpInstall f rnd now => match if_id f with [] => EncodeBytes rnd | i => i end ≠ id ∧ now - FilterIdleTTL <= t
  | OpSnapshot i now | OpUninstall i now => i ≠ id ∧ now - FilterIdleTTL <= t
  | OpAdvance i _ _ => i ≠ id
  end.

Lemma purge_keeps now s id f : s !! id = Some f → now - FilterIdleTTL <= if_lastAccess f →
  purgeExpiredLocked now s !! id = Some f.
Proof. intros Hs Ht. apply map_lookup_filter_Some. split; [done|]. cbn. apply Z.ltb_ge. lia. Qed.

Lemma foreign_keeps id op s f : foreign id (if_lastAccess f) op → s !! id = Some f → apply_op s op !! id = Some f.
Proof.
  destruct op as [g rnd now|i now|i tip now|i now]; cbn [foreign apply_op]; intros Hf Hs.
  - destruct Hf as [Hi Ht]. pose proof (purge_keeps now s id f Hs Ht). unfold install. cbv zeta. destruct (_ <=? _); [done|]. cbn [fst].
    by rewrite lookup_insert_ne.
  - destruct Hf as [Hi Ht]. pose proof (purge_keeps now s id f Hs Ht). unfold snapshot. case_match; [|done]. cbn [fst].
    by rewrite lookup_insert_ne.
  - unfold advance. case_match; [|done]. by rewrite lookup_insert_ne.
  - destruct Hf as [Hi Ht]. pose proof (purge_keeps now s id f Hs Ht). unfold uninstall. case_match; [|done]. cbn [fst].
    by rewrite lookup_delete_ne.
Qed.

Lemma foreign_all id ops s f : Forall (foreign id (if_lastAccess f)) ops → s !! id = Some f →
  foldl apply_op s ops !! id = Some f.
Proof. intros Hf. revert s. induction Hf as [|op ops Hop _ IH]; intros s Hs; [done|]. by apply IH, foreign_keeps. Qed.

(** One poll: what others did before it, the time of its first critical
    section, the node when it reads the height, what others do meanwhile, the
    node when it reads the blocks, and the time of its second section. *)
Record poll : Type := mkPoll {
  pl_before : list store_op;
  pl_time : Z;
  pl_tip : ChainNode;
  pl_during : list store_op;
  pl_node : ChainNode;
  pl_done : Z;
}.

Definition tip_of (p : poll) : Z := Number (n_header (pl_tip p)).

Fixpoint poll_all (fuel : nat) (id : list Z) (polls : list poll) (s : filterStore)
    : option (filterStore * list (list Z)) :=
  match polls with
  | [] => Some (s, [])
  | p :: polls =>
      match snapshot id (pl_time p) (foldl apply_op s (pl_before p)) with
      | (_, Err _) => None
      | (s, Ok snap) =>
          let s := foldl apply_op s (pl_during p) in
          match changes_answer fuel snap (tip_of p) (pl_node p) with
          | Some (_, Hashes l) =>
              match poll_all fuel id polls (advance (if_id snap) (tip_of p) (pl_done p) s) with
              | Some (s, ls) => Some (s, l ++ ls)
              | None => None
              end
          | _ => None
          end
      end
  end.

(** From time [t] and height [l] on the client polls the filter [id] before it
    expires, one poll after the other, while other requests are about other
    filters and the node's chain grows, up to height [e]. *)
Inductive regular (id : list Z) : Z → Z → list poll → Z → Prop :=
| regular_nil t l : regular id t l [] l
| regular_cons t l p polls e :
    Forall (foreign id t) (pl_before p) → pl_time p - FilterIdleTTL <= t → Forall (foreign id (pl_time p)) (pl_during p) →
    l <= tip_of p < 2 ^ 64 - 1 → tip_of p <= Number (n_header (pl_node p)) → chain_of (pl_node p) →
    regular id (pl_done p) (tip_of p) polls e → regular id t l (p :: polls) e.

Lemma regular_le id t l polls e : regular id t l polls e → l <= e.
Proof. induction 1; lia. Qed.

Lemma snapshot_cursor id now s t l : cursor s id t l → now - FilterIdleTTL <= t →
  ∃ s' snap, snapshot id now s = (s', Ok snap) ∧ s' !! id = Some snap ∧
    if_kind snap = filterBlocks ∧ if_id snap = id ∧ if_lastPolled snap = l ∧ if_lastAccess snap = now.
Proof.
  intros (f & Hs & Hk & Hi & Hl & Ha) Ht. unfold snapshot. rewrite (purge_keeps now s id f Hs) by (by rewrite Ha).
  do 2 eexists. split; [reflexivity|]. rewrite lookup_insert_eq, Hi. by split_and!.
Qed.

Lemma poll_all_cursor fuel id polls s t l e : regular id t l polls e → 0 <= l → cursor s id t l →
  ∃ s', poll_all fuel id polls s = Some (s', map hash_text (seqZ (l + 1) (e - l))).
Proof using CL.
  intros Hr. revert s. induction Hr as [t l|t l p polls e Hb Ht Hdu Hl Hn Hc Hr IH]; intros s Hl0 Hcur.
  - exists s. cbn [poll_all]. by rewrite Z.sub_diag.
  - cbn [poll_all]. destruct Hcur as (f & Hs & Hk & Hi & Hlp & Ha).
    destruct (snapshot_cursor id (pl_time p) (foldl apply_op s (pl_before p)) t l) as (s1 & snap & -> & Hs1 & Hk1 & Hi1 & Hl1 & Ha1);
      [exists f; split_and!; [apply foreign_all; [by rewrite Ha|done]|done..]|done|].
    assert (foldl apply_op s1 (pl_during p) !! id = Some snap) as Hs2 by (apply foreign_all; [by rewrite Ha1|done]).
    cbv zeta. destruct (answer_blocks fuel snap (tip_of p) (pl_node p)) as (m' & ->); [done|rewrite Hl1; lia|done|lia|done|].
    destruct (IH (advance (if_id snap) (tip_of p) (pl_done p) (foldl apply_op s1 (pl_during p)))) as (s2 & ->); [lia| |].
    { rewrite Hi1. unfold advance. rewrite Hs2. eexists. rewrite lookup_insert_eq. by split_and!. }
    exists s2. do 2 f_equal. rewrite Hl1, <-map_app. f_equal.
    pose proof (regular_le _ _ _ _ _ Hr). replace (e - l) with ((tip_of p - l) + (e - tip_of p)) by lia.
    rewrite seqZ_app by lia. do 2 f_equal. lia.
Qed.

(** C26. A block filter reports every block exactly once: from its installation
    on, as long as the client polls before the filter expires and waits for
    each answer before it polls again, the polls together return the hashes of
    all blocks the chain has grown by, in order, without a gap and without a
    repetition, whether the node has them in memory or loads them from disk.
    Requests for other filters may come before a poll and between its two
    critical sections, and the chain may grow at any time. *)
Theorem polls_exactly_once fuel rnd t m0 s s1 id polls e :
  ethNewBlockFilter rnd t m0 s = (s1, Ok id) → 0 <= Number (n_header m0) →
  regular id t (Number (n_header m0)) polls e →
  ∃ s2, poll_all fuel id polls s1 = Some (s2, map hash_text (seqZ (Number (n_header m0) + 1) (e - Number (n_header m0)))).
Proof using CL.
  intros Hn Hm Hr. apply (poll_all_cursor fuel id polls s1 t _ e Hr Hm). unfold ethNewBlockFilter, install in Hn.
  destruct (_ <=? _); [done|]. injection Hn as <- <-. eexists. rewrite lookup_insert_eq. by split_and!.
Qed.
End Polling.

(** ** Evaluation *)
Lemma rpc_text_roundtrip_witness :
  DecodeUint64 (EncodeUint64 48879) = Ok 48879 ∧ DecodeBytes (EncodeBytes [222; 173]) = Ok [222; 173] ∧
  HexToHash (Hash_Hex 7) = Ok 7.
Proof.
  destruct rpc_text_roundtrip as (H1 & H2 & H3). split_and!.
  - apply H1. split; [vm_decide|reflexivity].
  - apply H2. repeat constructor; vm_decide.
  - apply H3. split; [vm_decide|reflexivity].
Defined.

Section Witness.
Local Existing Instances spec_crypto spec_crypto_laws spec_rlp spec_rlp_laws toy_codec toy_eth toy_dewtx_codec.

Definition plain_rendering : Rendering := {| Sprint v := match v with JString s => s | _ => [] end; HexToAddress _ := Err "" |}.
Local Existing Instance plain_rendering.

Definition one_filter : filterStore := (ethNewPendingTransactionFilter [1] 0
  (mkChainNode None 2205 (New ∅) (mkHeader 0 0 0 0 0 0 0 0 None [] 0) ∅ ∅ ∅ ∅ [] 1 1 true true false false (NewPool DefaultConfig) true []) ∅).1.

Lemma rpc_bounds_witness :
  ParseBlockNumber 0 (JString (EncodeUint64 9)) = Ok 9 ∧ ResolveBlockNumber 9 8 = Err "block not found" ∧
  Z.of_nat (size one_filter) <= MaxFilters.
Proof.
  destruct (rpc_bounds (F := plain_rendering)) as (_ & H2 & H3). destruct (H2 0 8 9) as [H4 H5]; [split; [vm_decide|reflexivity]|reflexivity|].
  split_and!; [exact H4|exact H5|]. apply H3. eapply rtc_once. apply call_new_pending.
Defined.

Definition block_at (h : Z) : Block := mkBlock (mkHeader 0 0 0 0 h 0 0 0 None [] 0) [].
Definition node_at (h : Z) : ChainNode :=
  mkChainNode None 2205 (New ∅) (header (block_at h))
    (<[Block_Hash (block_at 1) := block_at 1]> {[Block_Hash (block_at 0) := block_at 0]})
    (<[1 := Block_Hash (block_at 1)]> {[0 := Block_Hash (block_at 0)]})
    ∅ ∅ [] 1 1 true true false false (NewPool DefaultConfig) true [].

Lemma node_chain h : 0 <= h <= 1 → chain_of block_at (node_at h).
Proof.
  intros Hh. assert (Block_Hash (block_at 0) ≠ Block_Hash (block_at 1)) as Hd by (vm_compute; discriminate).
  assert (∀ i, 0 <= i <= Number (n_header (node_at h)) → i = 0 ∨ i = 1) as Hi by (intros i; cbn; lia). split.
  - intros i [-> | ->]%Hi; left; unfold node_at; cbn [n_blockNum n_blocks].
    + split; [reflexivity|]. rewrite lookup_insert_ne by done. apply lookup_singleton_eq.
    + split; [reflexivity|]. apply lookup_insert_eq.
  - reflexivity.
  - intros i j [-> | ->]%Hi [-> | ->]%Hi He; [reflexivity|by destruct Hd|by destruct Hd|reflexivity].
Qed.

(** A filter installed at genesis reports block 1 in the second poll, while
    another client installs a filter and polls it. *)
Definition other_install : store_op := OpInstall (mkInstalledFilter [] filterBlocks [] [] JNull JNull 0 0) [7] 6.
Definition sample_polls : list poll :=
  [mkPoll [] 5 (node_at 0) [other_install] (node_at 1) 7;
   mkPoll [OpSnapshot (EncodeBytes [7]) 8] 9 (node_at 1) [OpAdvance (EncodeBytes [7]) 1 9] (node_at 1) 10].

Lemma polls_exactly_once_witness : ∃ s1 id s2, ethNewBlockFilter [1; 2] 0 (node_at 0) ∅ = (s1, Ok id) ∧
  poll_all 1 id sample_polls s1 = Some (s2, [EncodeHash (Block_Hash (block_at 1))]).
Proof.
  set (id := EncodeBytes [1; 2]).
  assert (ethNewBlockFilter [1; 2] 0 (node_at 0) ∅ =
    ({[id := mkInstalledFilter id filterBlocks [] [] JNull JNull 0 0]}, Ok id)) as Hn by (vm_compute; reflexivity).
  assert (EncodeBytes [7] ≠ id) as Hne by (vm_compute; discriminate).
  destruct (polls_exactly_once block_at 1 [1; 2] 0 (node_at 0) ∅ _ _ sample_polls 1 Hn) as [s2 H].
  - vm_decide.
  - apply regular_cons; [constructor|vm_decide| |split; [vm_decide|reflexivity]|vm_decide|apply node_chain; lia|].
    + constructor; [|constructor]. split; [exact Hne|vm_decide].
    + apply regular_cons; [|vm_decide| |split; [vm_decide|reflexivity]|vm_decide|apply node_chain; lia|apply regular_nil].
      * constructor; [|constructor]. split; [exact Hne|vm_decide].
      * constructor; [exact Hne|constructor].
  - eexists _, _, s2. split; [exact Hn|exact H].
Defined.
End Witness.
