(* ===== verification/NodeP2P.v ===== *)
(** * The chain node behind the peer-to-peer host

    Models [node/p2p.go], the adapter that serves the node's blocks and pending
    transactions to the host, and the handlers of a full node in
    [node/stack.go].  The node is shown to be an application that the
    synchronisation of [P2PSync.v] can feed: a node imports the chain of its
    peer up to the tip. *)
From S2P Require Import Prelude Types Toy DewTx Mempool ValidatorSet Votes Rlp EvmTx Smt StateDB StateRevert.
From S2P Require Import StateCommit NativeState Staking NativeExec Vm ChainStore Select Chain.
From S2P Require Import ChainRead ChainImport ChainOpen ChainDurable P2PWire P2PHost P2PProps P2PSync Rpc.

Section Adapter.
Context `{C : Crypto} `{D : AccountCodec} `{R : RlpCodec} `{E : EthCodec} `{K : DewTxCodec} `{V : EVM}
  `{SO : SenderOrder} `{PO : PoolOrder}.

(** [P2PBackend]; a block that a lookup loads from disk is also kept in memory,
    which later lookups do not tell apart. *)
#[export] Instance P2PBackend : Backend ChainNode := {|
  bk_Height n := Number (n_header n);
  bk_HeadHash n := Header_Hash (n_header n);
  bk_BlockByNumber num n := (λ b, (Block_MarshalBinary b, Block_Hash b)) <$> (GetBlockByNumber num n).2;
  bk_BlockByHash h n := (λ b, (Block_MarshalBinary b, Number (header b))) <$> (GetBlockByHash h n).2;
  bk_HasBlock h n := bool_decide (is_Some (GetBlockByHash h n).2);
  bk_HasTx h n := bool_decide (is_Some (byHash (n_pool n) !! h));
  bk_GetTx h n := e_Raw <$> byHash (n_pool n) !! h;
|}.

(** [appHandlers] of a node that is not a validator. *)
Definition node_OnBlock (_ : Z) (_ : Hash) (raw : list Z) (_ : Address) (n : ChainNode) : option (ChainNode * res unit) :=
  match UnmarshalBlockBinary raw with
  | Err e => Some (n, Err e)
  | Ok blk => importCommittedBlockLocked (Some blk) n
  end.

Definition node_OnTx (now : Z) (hash : Hash) (raw : list Z) (_ : Address) (n : ChainNode) : option (ChainNode * res unit) :=
  if bk_HasTx hash n then Some (n, Ok tt) else
  match SendRawTransaction raw now n with
  | None => None
  | Some (n, (_, None)) => Some (n, Ok tt)
  | Some (n, (_, Some _)) => Some (n, Err "node: transaction refused")
  end.

Definition appHandlers (now : Z) : AppHandlers ChainNode := mkAppHandlers (Some (node_OnTx now)) (Some node_OnBlock) None None.
End Adapter.

(** ** Execution does not touch the key-value store *)

(** The interpreter reads and writes the state database, never the store under it. *)
Class StoreKept (V : EVM) : Prop := {
  call_keeps : ∀ x o p f t d g v s, db (evm_Call x o p f t d g v s).1 = db s;
  create_keeps : ∀ x o p f d g v s, db (evm_Create x o p f d g v s).1 = db s;
}.

Section Store.
Context `{C : Crypto} `{D : AccountCodec} `{R : RlpCodec} `{E : EthCodec} `{K : DewTxCodec} `{V : EVM} {VL : StoreKept V}.

Lemma getAccount_db a s : db (getAccount a s).1 = db s.
Proof. unfold getAccount. repeat case_match; done. Qed.

Lemma noteRead_db k s : db (noteRead k s) = db s.
Proof. unfold noteRead. repeat case_match; done. Qed.

Lemma noteWrite_db k s : db (noteWrite k s) = db s.
Proof. unfold noteWrite. repeat case_match; done. Qed.

Lemma GetNonce_db a s : db (GetNonce a s).1 = db s.
Proof. unfold GetNonce. pose proof (getAccount_db a (noteRead (AccountKey a) s)) as H. rewrite noteRead_db in H. destruct (getAccount _ _). exact H. Qed.

Lemma GetBalance_db a s : db (GetBalance a s).1 = db s.
Proof. unfold GetBalance. pose proof (getAccount_db a (noteRead (AccountKey a) s)) as H. rewrite noteRead_db in H. destruct (getAccount _ _). exact H. Qed.

Lemma GetOrNewAccount_db a s : db (GetOrNewAccount a s).1 = db s.
Proof.
  unfold GetOrNewAccount. pose proof (getAccount_db a s) as H. destruct (getAccount a s) as [s1 [acc|]]; exact H.
Qed.

Lemma change_balance_db a f s : db (change_balance a f s).1 = db s.
Proof.
  unfold change_balance. pose proof (GetOrNewAccount_db a (noteWrite (AccountKey a) s)) as H. rewrite noteWrite_db in H.
  destruct (GetOrNewAccount _ _). exact H.
Qed.

Lemma SetNonceJournaled_db a x s : db (SetNonceJournaled a x s) = db s.
Proof.
  unfold SetNonceJournaled. pose proof (GetOrNewAccount_db a (noteWrite (AccountKey a) s)) as H. rewrite noteWrite_db in H.
  destruct (GetOrNewAccount _ _). exact H.
Qed.

Lemma SetState_db a k v s : db (SetState a k v s) = db s.
Proof.
  pose proof (GetOrNewAccount_db a (noteWrite (StorageKeyAccess a k) s)) as H. rewrite noteWrite_db in H. exact H.
Qed.

Lemma AddAddress_db a s : db (AddAddressToAccessList a s) = db s.
Proof. unfold AddAddressToAccessList. repeat case_match; done. Qed.

Lemma Prepare_db a b c l s : db (Prepare a b c l s) = db s.
Proof.
  unfold Prepare. cbn [db set_refund set_newContracts]. rewrite AddAddress_db.
  assert (∀ l s, db (foldl (λ st a, AddAddressToAccessList a st) s l) = db s) as Hl.
  { clear. induction l as [|x l IH]; intros s; [done|]. cbn [foldl]. by rewrite IH, AddAddress_db. }
  rewrite Hl. destruct c; rewrite !AddAddress_db; done.
Qed.

Lemma Finalise_db b s : db (Finalise b s) = db s.
Proof.
  unfold Finalise. cbn. assert (∀ l s, db (foldl drop_if_empty s l) = db s) as Hl.
  { induction l as [|x l IH]; intros s0; [done|]. cbn [foldl]. rewrite IH. unfold drop_if_empty, Empty.
    pose proof (getAccount_db x s0) as H. destruct (getAccount x s0) as [s1 o]. cbn [fst] in H. repeat case_match; exact H. }
  destruct b; [rewrite Hl|]; unfold process_suicides; repeat case_match; done.
Qed.

Lemma DistributeProposerIncome_db p x b s : db (DistributeProposerIncome p x b s) = db s.
Proof.
  unfold DistributeProposerIncome, IncreaseRewardIndex, sset. cbn [ns_AddBalance ns_SetState StateDB_native].
  repeat case_match; rewrite ?SetState_db; unfold AddBalancePrev; rewrite ?change_balance_db; done.
Qed.

Lemma ApplyMessage_db x msg s : db (ApplyMessage x msg s).1 = db s.
Proof using VL.
  unfold ApplyMessage. destruct (_ =? 0); [done|]. destruct (_ <=? _); [done|].
  pose proof (GetBalance_db (m_From msg) s) as H1. destruct (GetBalance _ s) as [s1 bal]. destruct (_ <? _); [done|].
  pose proof (GetBalance_db (m_From msg) s1) as H2. destruct (GetBalance _ s1) as [s2 bal2]. cbn [fst] in *.
  destruct (_ <? _); [cbn; congruence|]. set (s3 := prepare_message _ _ _ _).
  assert (db s3 = db s) as H3.
  { unfold s3, prepare_message, SubBalance. rewrite Prepare_db. cbn [db ClearLogs set_logs]. rewrite change_balance_db. congruence. }
  assert (db (run_message x msg s3).1 = db s) as H4.
  { unfold run_message. destruct (m_To msg) as [to|].
    - pose proof (GetNonce_db (m_From msg) s3) as H. destruct (GetNonce _ s3) as [s4 nonce]. cbn [fst] in H.
      pose proof (call_keeps x (m_From msg) (u256 (default 0 (m_GasPrice msg))) (m_From msg) to (m_Data msg) (m_GasLimit msg)
        (default 0 (m_Value msg)) (SetNonceJournaled (m_From msg) (nonce +₆₄ 1) s4)) as Hc.
      destruct (evm_Call _ _ _ _ _ _ _ _ _). cbn [fst] in *. rewrite Hc, SetNonceJournaled_db. congruence.
    - pose proof (create_keeps x (m_From msg) (u256 (default 0 (m_GasPrice msg))) (m_From msg) (m_Data msg) (m_GasLimit msg)
        (default 0 (m_Value msg)) s3) as Hc.
      destruct (evm_Create _ _ _ _ _ _ _ _) as [s4 [out addr]]. cbn [fst] in *. congruence. }
  destruct (run_message x msg s3) as [s4 [out created]]. cbn [fst] in *. cbn [db ClearLogs set_logs].
  set (s5 := settle_gas _ _ _ _ _ _). assert (db s5 = db s) as H5.
  { unfold s5, settle_gas. repeat case_match; rewrite ?DistributeProposerIncome_db; unfold AddBalancePrev;
      rewrite ?change_balance_db; done. }
  destruct (m_NoFinalise msg); [done|]. by rewrite Finalise_db.
Qed.

Lemma executeEVMTx_db n hdr tx i c s s' r : executeEVMTxLocked n hdr tx i c s = Some (s', r) → db s' = db s.
Proof using VL.
  unfold executeEVMTxLocked. destruct (rbind _ _) as [[t from]|e]; [|by intros [= <- <-]].
  destruct (wrong_chain _ _); [by intros [= <- <-]|]. pose proof (GetNonce_db from s) as H1. destruct (GetNonce from s) as [s1 nonce].
  destruct (negb _); [by intros [= <- <-]|]. destruct (effectiveGasPrice _ _) as [[price|]|]; [| |done]; cbn [mbind option_bind];
    [|by intros [= <- <-]].
  destruct (MustFromBig _); [|done]. cbn [mbind option_bind].
  match goal with |- context [ApplyMessage ?x ?m s1] => pose proof (ApplyMessage_db x m s1) as H2; destruct (ApplyMessage x m s1) end.
  cbn [fst] in *. intros [= <- <-]. congruence.
Qed.

Lemma execute_txs_db n hdr i c txs s s' r : execute_txs n hdr i c txs s = Some (s', r) → db s' = db s.
Proof using VL.
  revert i c s s' r. induction txs as [|tx txs IH]; intros i c s s' r; cbn [execute_txs]; [by intros [= <- <-]|].
  destruct (executeEVMTxLocked _ _ _ _ _ _) as [[s1 [[x used]|e]]|] eqn:H1; [| |done]; cbn [mbind option_bind];
    apply executeEVMTx_db in H1; [|by intros [= <- <-]].
  destruct (execute_txs _ _ _ _ _ s1) as [[s2 rs]|] eqn:H2; [|done]. cbn [mbind option_bind]. intros [= <- <-].
  apply IH in H2. congruence.
Qed.
End Store.

(** ** What an import leaves in the store *)
Section Feeding.
Context `{C : Crypto} {CL : CryptoLaws C} `{D : AccountCodec} `{R : RlpCodec} {RL : RlpLaws C R} `{E : EthCodec} `{K : DewTxCodec}
  `{V : EVM} {VL : StoreKept V}.
Implicit Types m : ChainNode.

Lemma headerKey_inj h h' : is_hash h → is_hash h' → headerKey h = headerKey h' → h = h'.
Proof. intros H1 H2 H. apply (be_bytes_inj 32); [done|done|]. exact (f_equal (@tail Z) H). Qed.

Lemma Block_Hash_is_hash b : is_hash (Block_Hash b).
Proof using CL. apply Keccak256Hash_is_hash. Qed.

(** A header that is not the block's own is where it was. *)
Lemma writeChainKeys_header w0 w b rs h : writeChainKeys w0 b rs = Ok w → is_hash h → h ≠ Block_Hash b →
  w !! headerKey h = w0 !! headerKey h.
Proof using CL.
  intros Hw Hh Hne. assert (headerKey (Block_Hash b) ≠ headerKey h) as Hk.
  { intros He. apply Hne. symmetry. apply headerKey_inj; [apply Block_Hash_is_hash|done|done]. }
  unfold writeChainKeys in Hw. destruct (write_results _ _ _ _) as [w1|] eqn:Hr; cbn [rbind] in Hw; [|done]. injection Hw as <-.
  unfold putLogIndexVersion. rewrite !put_other by by apply tag_ne.
  rewrite (write_results_other _ _ _ _ _ _ Hr) by (done || (intros ix _; by apply not_of_tag)).
  rewrite !put_other by by apply tag_ne. by apply put_other.
Qed.

Lemma persist_header b rs m m' h : persistBlockLocked b rs m = (m', Ok tt) → is_hash h → h ≠ Block_Hash b →
  n_db m' !! headerKey h = n_db m !! headerKey h.
Proof using CL.
  intros Hp Hh Hne. unfold persistBlockLocked in Hp. set (l := imap _ _) in Hp.
  destruct (writeChainKeys _ b l) as [w|] eqn:Hw; [|done]. injection Hp as <-.
  pose proof (writeChainKeys_header _ _ _ _ _ Hw Hh Hne) as Hk. rewrite flush_other in Hk.
  2: { rewrite !elem_of_cons, elem_of_nil. change (tag (headerKey h)) with prefixHeader. intros [H|[H|[H|[]]]]; discriminate H. }
  unfold commitBlockLocked. set (m0 := set_head _ _). assert (n_db m0 = w) as H0 by done. clearbody m0.
  generalize (indexed l) at 2. intros l'.
  assert (n_db (foldl (commit_result (header b) (Block_Hash b)) m0 l') = w) as H1.
  { revert m0 H0. induction l' as [|[i x] l' IH]; intros m0 H0; [done|]. by apply IH. }
  change (n_db (emit _ ?m1)) with (n_db m1). rewrite H1. exact Hk.
Qed.

(** A new block that is imported becomes the head. *)
Lemma import_new b m m' : importCommittedBlockLocked (Some b) m = Some (m', Ok tt) → n_blockNum m !! Number (header b) = None →
  Number (header b) = Number (n_header m) +₆₄ 1 ∧ n_header m' = header b ∧ n_blocks m' = <[Block_Hash b := b]> (n_blocks m) ∧
  n_blockNum m' = <[Number (header b) := Block_Hash b]> (n_blockNum m) ∧
  (∀ h, is_hash h → h ≠ Block_Hash b → n_db m' !! headerKey h = n_db m !! headerKey h).
Proof using CL VL.
  unfold importCommittedBlockLocked. intros H Hb. rewrite Hb in H.
  assert (∀ snap err x, roll_back snap err x ≠ Some (m', Ok tt)) as Hrb.
  { intros snap err x. unfold roll_back. destruct (RevertToSnapshot _ _); discriminate. }
  destruct (Number (header b) =? _) eqn:Hnum; cbn [negb] in H; [|done]. apply Z.eqb_eq in Hnum.
  destruct (ParentHash _ =? _); cbn [negb] in H; [|done]. rewrite (surjective_pairing (Snapshot _)) in H.
  destruct (executeBlockTxsLocked _ _ _ _) as [[s r]|] eqn:Hex; cbn [mbind option_bind] in H; [|done].
  apply execute_txs_db in Hex. change (db s = n_db m) in Hex.
  destruct r as [[results total]|e]; [|by apply Hrb in H]. destruct (total =? _); cbn [negb] in H; [|by apply Hrb in H].
  assert (db (IntermediateRoot s).1 = db s) as Hi.
  { unfold IntermediateRoot, collectLeaves. by destruct (merged_leaves s). }
  destruct (IntermediateRoot s) as [s1 root]. cbn [fst] in Hi. destruct (root =? _); cbn [negb] in H; [|by apply Hrb in H].
  change (with_statedb s1 (with_statedb s m)) with (with_statedb s1 m) in H. unfold persist_or_roll_back in H.
  destruct (persistBlockLocked b results (with_statedb s1 m)) as [m1 [[]|e]] eqn:Hp; [|by apply Hrb in H]. injection H as ->.
  destruct (persist_extends m b results _ m' s1 Hp eq_refl) as (H1 & H2 & H3 & _). split_and!; [done..|].
  intros h Hh Hne. rewrite (persist_header _ _ _ _ h Hp Hh Hne). change (n_db (with_statedb s1 m)) with (db s1). congruence.
Qed.

(** ** A node and the chain it can import *)
Fixpoint imports m (bs : list Block) : option ChainNode :=
  match bs with
  | [] => Some m
  | b :: bs =>
      match importCommittedBlockLocked (Some b) m with
      | Some (m, Ok _) => imports m bs
      | _ => None
      end
  end.

Context (g : ChainNode) (blocks : list Block).

(** The node [g] is at block 0 and can import the others, which it does not know. *)
Record importable : Prop := {
  im_head : ∃ gen, blocks !! 0%nat = Some gen ∧ n_header g = header gen ∧ Number (header gen) = 0 ∧
    n_blockNum g !! 0 = Some (Block_Hash gen) ∧ n_blocks g !! Block_Hash gen = Some gen;
  im_numbers : ∀ i, 0 < i → n_blockNum g !! i = None;
  im_unknown : ∀ i b, blocks !! S i = Some b → n_blocks g !! Block_Hash b = None ∧ n_db g !! headerKey (Block_Hash b) = None;
  im_distinct : NoDup (map Block_Hash blocks);
  im_wire : Forall block_ok blocks;
  im_length : Z.of_nat (length blocks) < 2 ^ 64;
  im_valid : is_Some (imports g (tail blocks));
}.

(** The first [k] blocks after genesis have been imported. *)
Record at_height (k : nat) m : Prop := {
  ah_run : imports g (take k (tail blocks)) = Some m;
  ah_head : ∃ b, blocks !! k = Some b ∧ n_header m = header b ∧ Number (header b) = Z.of_nat k;
  ah_have : ∀ i b, blocks !! i = Some b → (i <= k)%nat →
    n_blockNum m !! Z.of_nat i = Some (Block_Hash b) ∧ n_blocks m !! Block_Hash b = Some b;
  ah_numbers : ∀ i, Z.of_nat k < i → n_blockNum m !! i = None;
  ah_unknown : ∀ i b, blocks !! i = Some b → (k < i)%nat →
    n_blocks m !! Block_Hash b = None ∧ n_db m !! headerKey (Block_Hash b) = None;
}.

Lemma imports_app m l1 l2 : imports m (l1 ++ l2) = m' ← imports m l1; imports m' l2.
Proof.
  revert m. induction l1 as [|b l1 IH]; intros m; [done|]. cbn [imports app].
  destruct (importCommittedBlockLocked (Some b) m) as [[m1 [x|e]]|]; [apply IH|done..].
Qed.

Lemma distinct_hash i j b b' : NoDup (map Block_Hash blocks) → blocks !! i = Some b → blocks !! j = Some b' →
  Block_Hash b = Block_Hash b' → i = j.
Proof.
  intros Hn Hi Hj He. eapply NoDup_lookup; [exact Hn|by rewrite list_lookup_fmap, Hi|]. rewrite list_lookup_fmap, Hj. cbn. by f_equal.
Qed.

Lemma at_height_start : importable → at_height 0 g.
Proof.
  intros Him. destruct (im_head Him) as (gen & H0 & Hh & Hn & Hnum & Hblk). split.
  - by rewrite take_0.
  - by exists gen.
  - intros i b Hi Hle. assert (i = 0%nat) as -> by lia. rewrite H0 in Hi. by injection Hi as <-.
  - intros i Hi. apply (im_numbers Him). lia.
  - intros [|i] b Hi Hlt; [lia|]. by apply (im_unknown Him i).
Qed.

Lemma at_height_next k m b : importable → at_height k m → blocks !! S k = Some b →
  ∃ m', importCommittedBlockLocked (Some b) m = Some (m', Ok tt) ∧ at_height (S k) m'.
Proof using CL VL.
  intros Him [Hrun (b0 & Hb0 & Hh0 & Hn0) Hhave Hnum Hunk] Hb. pose proof (im_distinct Him) as Hd.
  assert (tail blocks !! k = Some b) as Ht by (destruct blocks; done).
  assert (∃ m', importCommittedBlockLocked (Some b) m = Some (m', Ok tt)) as [m' Hi].
  { destruct (im_valid Him) as [e He]. rewrite <-(take_drop_middle _ _ _ Ht), imports_app, Hrun in He.
    cbn [mbind option_bind imports] in He. destruct (importCommittedBlockLocked (Some b) m) as [[m' [[]|]]|]; [by exists m'|done..]. }
  assert (Number (header b) = Z.of_nat (S k)) as Hbn.
  { unfold importCommittedBlockLocked in Hi. destruct (n_blockNum m !! Number (header b)) as [h|] eqn:Hx.
    - exfalso. destruct (Z.eqb_spec h (Block_Hash b)) as [->|]; [|done].
      assert (0 <= Number (header b) <= Z.of_nat k) as Hr.
      { pose proof (proj1 (Forall_lookup _ _) (im_wire Him) _ _ Hb) as [Hok _ _]. split; [apply (hok_nums _ Hok)|].
        apply Z.le_ngt. intros Hgt. by rewrite (Hnum _ Hgt) in Hx. }
      assert (is_Some (blocks !! Z.to_nat (Number (header b)))) as [b1 Hb1].
      { apply lookup_lt_is_Some. apply lookup_lt_Some in Hb. lia. }
      destruct (Hhave _ _ Hb1) as [Hx1 _]; [lia|]. rewrite Z2Nat.id, Hx in Hx1 by lia. injection Hx1 as Hx1.
      pose proof (distinct_hash _ _ _ _ Hd Hb Hb1 Hx1). lia.
    - destruct (Number (header b) =? _) eqn:He; cbn [negb] in Hi; [|done]. apply Z.eqb_eq in He. rewrite He, Hh0, Hn0.
      apply lookup_lt_Some in Hb. pose proof (im_length Him). unfold u64. rewrite Z.mod_small; lia. }
  destruct (import_new b m m' Hi) as (_ & Hh & Hblk & Hnm & Hdb); [apply Hnum; lia|].
  exists m'. split; [done|]. rewrite Hbn in Hnm. split.
  - rewrite (take_S_r _ _ _ Ht), imports_app, Hrun. cbn [mbind option_bind imports]. by rewrite Hi.
  - by exists b.
  - intros i x Hx Hle. rewrite Hnm, Hblk. destruct (decide (i = S k)) as [->|Hne].
    + rewrite Hb in Hx. injection Hx as <-. by rewrite !lookup_insert_eq.
    + rewrite !lookup_insert_ne; [apply Hhave; [done|lia]| |lia]. intros He. by apply Hne, (distinct_hash i (S k) x b).
  - intros i Hlt. rewrite Hnm, lookup_insert_ne by lia. apply Hnum. lia.
  - intros i x Hx Hlt. assert (Block_Hash x ≠ Block_Hash b) as Hne.
    { intros He. pose proof (distinct_hash i (S k) x b Hd Hx Hb He). lia. }
    rewrite Hblk, lookup_insert_ne by (by apply not_eq_sym). destruct (Hunk i x Hx) as [H1 H2]; [lia|].
    rewrite Hdb by (done || apply Block_Hash_is_hash). done.
Qed.

(** What the node's peers see of the blocks. *)
Definition payloads : list (list Z * Hash) := map (λ b, (Block_MarshalBinary b, Block_Hash b)) blocks.

Definition node_holds (n : Z) m : Prop := 0 <= n ∧ at_height (Z.to_nat n) m.

Lemma payload_block i raw hash : payloads !! i = Some (raw, hash) →
  ∃ b, blocks !! i = Some b ∧ raw = Block_MarshalBinary b ∧ hash = Block_Hash b.
Proof. unfold payloads. rewrite list_lookup_fmap, fmap_Some. intros (b & Hb & [= -> ->]). by exists b. Qed.

Lemma node_sync : importable → SyncApp payloads node_OnBlock node_holds.
Proof using CL RL VL.
  intros Him. split.
  - intros n m [Hn [_ (b & _ & Hh & Hb) _ _ _]]. cbn. rewrite Hh, Hb. lia.
  - intros n m i [Hn [_ (b0 & Hb0 & _) Hhave _ _]] Hi. assert (is_Some (blocks !! Z.to_nat i)) as [b Hb].
    { apply lookup_lt_is_Some. apply lookup_lt_Some in Hb0. lia. }
    destruct (Hhave _ _ Hb) as [H1 H2]; [lia|]. rewrite Z2Nat.id in H1 by lia. cbn. unfold GetBlockByNumber.
    rewrite H1. cbn [mbind option_bind]. rewrite H2. by eexists.
  - intros n m i raw hash [Hn [_ _ _ _ Hunk]] Hi (b & Hb & -> & ->)%payload_block.
    change (bool_decide (is_Some (GetBlockByHash (Block_Hash b) m).2) = false). apply bool_decide_eq_false.
    destruct (Hunk i b Hb) as [H1 H2]; [lia|]. unfold GetBlockByHash, loadBlockByHashLocked. rewrite H1.
    unfold readBlockFromDB, get. rewrite H2. cbn [rbind snd]. by intros [? [=]].
  - intros n m raw hash from [Hn Hm] _ (b & Hb & -> & ->)%payload_block. unfold node_OnBlock.
    rewrite block_roundtrip by (eapply Forall_lookup; [apply Him|exact Hb]). rewrite Z2Nat.inj_add in Hb by lia.
    replace (Z.to_nat n + Z.to_nat 1)%nat with (S (Z.to_nat n)) in Hb by lia.
    destruct (at_height_next _ _ _ Him Hm Hb) as (m' & Hi & Hm'). exists m'. split; [done|]. split; [lia|].
    by replace (Z.to_nat (n + 1)) with (S (Z.to_nat n)) by lia.
Qed.
End Feeding.

(** C11. A full node follows its peers: a node that is at block 0 of a valid
    chain and connected to a peer that has all of it ends [SyncFromPeer] without
    error, with every block imported in order through the same checks and
    execution as any other block, and with the peer's tip as its head.  The
    peer answers each request before anything else happens on the connection,
    the two hosts have the same maximum message size, and every batch of
    blocks the peer may answer with fits it ([serving]); deadlines are not
    modelled. *)
Theorem node_syncs `{C : Crypto} `{CL : !CryptoLaws C} `{D : AccountCodec} `{R : RlpCodec} `{RL : !RlpLaws C R} `{E : EthCodec}
    `{K : DewTxCodec} `{V : EVM} `{VL : !StoreKept V} `{SO : SenderOrder} `{PO : PoolOrder} `{HO : StoreOrder}
    {B2 : Type} `{K2 : Backend B2} (blocks : list Block) tip now self peer (server : Host B2) (h : Host ChainNode) p t :
  importable (h_app h) blocks → serving (payloads blocks) tip self h server →
  h_handlers h = appHandlers t → idle peer h p → pr_Height p = tip →
  ∃ m, SyncFromPeer (S (Z.to_nat tip)) (exchange (S (Z.to_nat (hc_MaxBlocksPerRequest (h_cfg server)))) now self server) peer h =
         Some (with_app m h, Ok tt) ∧
    imports (h_app h) (tail blocks) = Some m ∧
    (∃ b, last blocks = Some b ∧ n_header m = header b ∧ Number (header b) = tip) ∧
    (∀ i b, blocks !! i = Some b → n_blockNum m !! Z.of_nat i = Some (Block_Hash b) ∧ n_blocks m !! Block_Hash b = Some b).
Proof.
  intros Him Hs Hh Hp Ht. pose proof (sv_length _ _ _ _ _ Hs) as Hl. unfold payloads in Hl. rewrite length_map in Hl.
  destruct (im_head _ _ Him) as (gen & Hg & _). apply lookup_lt_Some in Hg.
  destruct (sync_loop (payloads blocks) node_OnBlock (node_holds (h_app h) blocks) (SA := node_sync (h_app h) blocks Him) tip now self
    peer server (S (Z.to_nat tip)) h 0 p) as (m & Hrun & _ & [Hi (b & Hb & Hhd & Hn) Hhave _ _]);
    [lia|done|split; [lia|by apply at_height_start]|lia|done|done|by rewrite Hh|].
  exists m. split; [done|]. rewrite take_ge in Hi by (destruct blocks; cbn in *; lia). split; [done|]. split.
  - exists b. split_and!; [|done|lia]. rewrite last_lookup. by replace (pred (length blocks)) with (Z.to_nat tip) by lia.
  - intros i x Hx. apply Hhave; [done|]. apply lookup_lt_Some in Hx. lia.
Qed.

(** ** Evaluation *)
Section Witness.
Local Existing Instances spec_crypto spec_crypto_laws spec_rlp spec_rlp_laws toy_codec toy_eth toy_dewtx_codec idle_evm listed_store
  listed_order listed_senders.

Lemma idle_store_kept : StoreKept idle_evm.
Proof. by split. Qed.
Local Existing Instance idle_store_kept.

(** The root of the empty state under the hash of the evaluation. *)
Definition empty_root : Hash := 1452485151.

Definition genesis_block : Block :=
  mkBlock (mkHeader 0 empty_root EmptyTxRoot EmptyReceiptRoot 0 1000 30000000 0 (Some 1000000000) [] 0) [].
Definition first_block : Block :=
  mkBlock (mkHeader (Block_Hash genesis_block) empty_root EmptyTxRoot EmptyReceiptRoot 1 1001 30000000 0 (Some 1000000000) [] 0) [].

Definition genesis_node : ChainNode :=
  mkChainNode None 2205 (New ∅) (header genesis_block) {[Block_Hash genesis_block := genesis_block]}
    {[0 := Block_Hash genesis_block]} ∅ ∅ [] 1000000000 1000000000 true true false false (NewPool DefaultConfig) true [].

Lemma empty_block_ok ph num t : is_hash ph → is_u64 num → is_u64 t →
  block_ok (mkBlock (mkHeader ph empty_root EmptyTxRoot EmptyReceiptRoot num t 30000000 0 (Some 1000000000) [] 0) []).
Proof.
  intros Hp Hn Ht. split.
  - split; cbn [header ParentHash StateRoot TxRoot ReceiptRoot Number Timestamp GasLimit GasUsed BaseFee ExtraData Proposer].
    + split_and!; [done|split; [vm_decide|reflexivity]|apply Keccak256Hash_is_hash|apply Keccak256Hash_is_hash].
    + split_and!; [done|done|split; [vm_decide|reflexivity]|split; [vm_decide|reflexivity]].
    + exists 1000000000. split; [reflexivity|lia].
    + constructor.
    + split; [vm_decide|reflexivity].
  - split; vm_compute; discriminate.
  - constructor.
Qed.

Lemma genesis_importable : importable genesis_node [genesis_block; first_block].
Proof.
  split.
  - exists genesis_block. split_and!; reflexivity.
  - intros i Hi. apply lookup_singleton_ne. lia.
  - intros [|i] b Hb; [|done]. injection Hb as <-. split; vm_decide.
  - vm_decide.
  - apply Forall_cons_2; [|apply Forall_singleton]; apply empty_block_ok; split; vm_decide || reflexivity.
  - reflexivity.
  - vm_decide.
Qed.

Definition two_blocks : MemoryChain :=
  AddBlock 1 (Block_Hash first_block) (Block_MarshalBinary first_block)
    (NewMemoryChain (Block_Hash genesis_block) (Block_MarshalBinary genesis_block)).

Definition following_host : Host ChainNode :=
  mkHost small_config 3 (mkPeerStore ∅ {[4 := mkPeer 4 [49] 1 0 false [] false]} 2) (appHandlers 0) ∅ ∅ ∅ false 30303 genesis_node.

Lemma two_blocks_at i : 0 <= i <= 1 → bk_BlockByNumber i two_blocks = payloads [genesis_block; first_block] !! Z.to_nat i.
Proof. intros Hi. assert (i = 0 ∨ i = 1) as [-> | ->] by lia; vm_decide. Qed.

Lemma two_blocks_serving : serving (payloads [genesis_block; first_block]) 1 3 following_host (peer_host 4 3 0 two_blocks).
Proof.
  split.
  - exists (mkPeer 3 [49] 0 0 false [] false). split_and!; reflexivity.
  - reflexivity.
  - assert (Forall (λ b, block_ok b) [genesis_block; first_block]) as Hok by apply genesis_importable.
    apply Forall_map, (Forall_impl _ _ _ Hok). intros b Hb. split; [exact (rlp_encode_bytes _ (block_item_ok b Hb))|apply Block_Hash_is_hash].
  - exact two_blocks_at.
  - split; reflexivity.
  - split; reflexivity.
  - split; [split; reflexivity|reflexivity].
  - intros lo hi H1 H2. assert (lo = 0 ∨ lo = 1) as [-> | ->] by lia;
      assert (hi = 0 ∨ hi = 1) as [-> | ->] by lia; unfold fits; vm_decide.
  - intros n bs Hn Hs H1 H2. cbn in H2.
    assert (∀ i bl, bs !! i = Some bl → ∃ e, payloads [genesis_block; first_block] !! Z.to_nat (n + Z.of_nat i) = Some e ∧
      bl = mkBlockPayload (n + Z.of_nat i) e.2 e.1) as Hb.
    { intros i [num hash raw] Hi. destruct (Hs i _ Hi) as [Hnum Hblk]. apply lookup_lt_Some in Hi. cbn [bp_Number] in Hnum. subst num.
      change (h_app (peer_host 4 3 0 two_blocks)) with two_blocks in Hblk. rewrite two_blocks_at in Hblk by lia. by exists (raw, hash). }
    destruct bs as [|b1 [|b2 [|b3 bs]]]; cbn [length] in *; [unfold fits; vm_decide| | |lia].
    + destruct (Hb 0%nat _ eq_refl) as (e & H & ->). rewrite Z.add_0_r in *.
      assert (n = 0 ∨ n = 1) as [-> | ->] by lia; injection H as <-; unfold fits; vm_decide.
    + destruct (Hb 0%nat _ eq_refl) as (e & H & ->). destruct (Hb 1%nat _ eq_refl) as (e' & H' & ->).
      assert (n = 0) as -> by lia; injection H as <-; injection H' as <-; unfold fits; vm_decide.
Qed.

(** A node at genesis imports the block its peer has. *)
Lemma node_syncs_witness : ∃ m,
  SyncFromPeer 2 (exchange 3 0 3 (peer_host 4 3 0 two_blocks)) 4 following_host = Some (with_app m following_host, Ok tt) ∧
  n_blockNum m !! 1 = Some (Block_Hash first_block).
Proof.
  destruct (node_syncs [genesis_block; first_block] 1 0 3 4 (peer_host 4 3 0 two_blocks) following_host
    (mkPeer 4 [49] 1 0 false [] false) 0 genesis_importable two_blocks_serving eq_refl) as (m & H1 & _ & _ & H2).
  - split_and!; reflexivity.
  - reflexivity.
  - exists m. split; [exact H1|]. exact (proj1 (H2 1%nat first_block eq_refl)).
Defined.
End Witness.
