(* ===== verification/Indexer.v ===== *)
(** * The history indexer

    Models [indexer/ingest.go] with the tables of [indexer/store.go] and the
    parsing of [indexer/rpcclient.go].  A table is a finite map from its key to
    its row, a statement with a conflict clause an insertion; an SQL
    transaction works on a copy that replaces the store when it commits.  The
    node the indexer queries is an argument: what it answers to each request,
    as parsed JSON. *)
From S2P Require Import Prelude Types P2PHost Rpc.

(** ** Rows and tables *)
Record BlockRow : Type := mkBlockRow {
  bw_Number : Z;
  bw_Hash : list Z;
  bw_Timestamp : Z;
  bw_TxCount : Z;
  bw_GasUsed : Z;
}.

Record TxRow : Type := mkTxRow {
  tw_Hash : list Z;
  tw_BlockNumber : Z;
  tw_TxIndex : Z;
  tw_From : list Z;
  tw_To : list Z;
  tw_Value : list Z;
  tw_Status : option Z;
  tw_GasUsed : option Z;
}.

Record TransferRow : Type := mkTransferRow {
  rw_BlockNumber : Z;
  rw_TxHash : list Z;
  rw_LogIndex : Z;
  rw_Token : list Z;
  rw_From : list Z;
  rw_To : list Z;
  rw_Amount : list Z;
}.

Record ContractRecord : Type := mkContractRecord {
  cr_Address : list Z;
  cr_Name : list Z;
  cr_ABIJSON : list Z;
  cr_Source : list Z;
  cr_Compiler : list Z;
  cr_CreatedAt : Z;
  cr_UpdatedAt : Z;
}.

Record Store : Type := mkStore {
  st_meta : gmap (list Z) (list Z);
  st_blocks : gmap Z BlockRow;
  st_txs : gmap (list Z) TxRow;
  st_transfers : gmap (list Z * Z) TransferRow;
  st_contracts : gmap (list Z) ContractRecord;
}.

Definition OpenStore : Store := mkStore ∅ ∅ ∅ ∅ ∅.

(** The driver refuses an unsigned number with the high bit set. *)
Definition sql_uint (n : Z) : bool := n <? 2 ^ 63.

Definition normalizeAddr (a : list Z) : list Z := map lower (TrimSpace a).

(** [int] of a [uint64]. *)
Definition int64 (n : Z) : Z := if n <? 2 ^ 63 then n else n - 2 ^ 64.

Definition lastIndexedKey : list Z := str_bytes "last_indexed_block".

Definition getMeta (key : list Z) (s : Store) : option (list Z) := st_meta s !! key.
Definition setMetaTx (key value : list Z) (s : Store) : Store :=
  mkStore (<[key := value]> (st_meta s)) (st_blocks s) (st_txs s) (st_transfers s) (st_contracts s).

(** [fmt.Sscanf] of an unsigned decimal: the digits after leading space. *)
Fixpoint leading_digits (s : list Z) : list Z :=
  match s with [] => [] | c :: s => if is_digit c then c :: leading_digits s else [] end.

Definition Sscanf_d (s : list Z) : res Z :=
  match leading_digits (trim_left s) with
  | [] => Err "expected integer"
  | ds => let n := parse_digits 10 ds in if n <? 2 ^ 64 then Ok n else Err "unsigned integer overflow"
  end.

Definition LastIndexedBlock (s : Store) : res Z :=
  match getMeta lastIndexedKey s with
  | None | Some [] => Ok 0
  | Some v => Sscanf_d v
  end.

Definition insertBlock (b : BlockRow) (s : Store) : res Store :=
  if sql_uint (bw_Number b) && sql_uint (bw_Timestamp b) && sql_uint (bw_GasUsed b)
  then Ok (mkStore (st_meta s) (<[bw_Number b := b]> (st_blocks s)) (st_txs s) (st_transfers s) (st_contracts s))
  else Err "uint64 values with high bit set are not supported".

Definition insertTx (r : TxRow) (s : Store) : res Store :=
  if sql_uint (tw_BlockNumber r) && match tw_GasUsed r with Some g => sql_uint g | None => true end
  then Ok (mkStore (st_meta s) (st_blocks s) (<[tw_Hash r := r]> (st_txs s)) (st_transfers s) (st_contracts s))
  else Err "uint64 values with high bit set are not supported".

Definition insertTransfer (r : TransferRow) (s : Store) : res Store :=
  if sql_uint (rw_BlockNumber r)
  then Ok (mkStore (st_meta s) (st_blocks s) (st_txs s) (<[(rw_TxHash r, rw_LogIndex r) := r]> (st_transfers s)) (st_contracts s))
  else Err "uint64 values with high bit set are not supported".

(** The length of a text is counted in characters; texts are ASCII. *)
Definition UpsertContract (r : ContractRecord) (now : Z) (s : Store) : res Store :=
  let a := normalizeAddr (cr_Address r) in
  match a with
  | [] => Err "empty address"
  | _ =>
      if (128 <? length (cr_Name r))%nat then Err "name too long" else
      if (64 <? length (cr_Compiler r))%nat then Err "compiler too long" else
      let created := match st_contracts s !! a with Some old => cr_CreatedAt old | None => now end in
      Ok (mkStore (st_meta s) (st_blocks s) (st_txs s) (st_transfers s)
            (<[a := mkContractRecord a (cr_Name r) (cr_ABIJSON r) (cr_Source r) (cr_Compiler r) created now]> (st_contracts s)))
  end.

Definition GetContract (addr : list Z) (s : Store) : option ContractRecord := st_contracts s !! normalizeAddr addr.

(** *** Queries *)
Definition page_limit (limit : Z) : nat := if (limit <=? 0) || (100 <? limit) then 50 else Z.to_nat limit.

(** Newest first. *)
Definition tx_newer (a b : TxRow) : Prop :=
  tw_BlockNumber b < tw_BlockNumber a ∨ (tw_BlockNumber b = tw_BlockNumber a ∧ tw_TxIndex b <= tw_TxIndex a).
#[export] Instance tx_newer_dec a b : Decision (tx_newer a b).
Proof. unfold tx_newer. apply _. Defined.

Definition AddressTxs (addr : list Z) (limit offset : Z) (s : Store) : list TxRow :=
  let a := normalizeAddr addr in
  let rows := merge_sort tx_newer (filter (λ r, tw_From r = a ∨ tw_To r = a) (map_to_list (st_txs s)).*2) in
  take (page_limit limit) (drop (Z.to_nat offset) rows).

Definition transfer_newer (a b : TransferRow) : Prop :=
  rw_BlockNumber b < rw_BlockNumber a ∨ (rw_BlockNumber b = rw_BlockNumber a ∧ rw_LogIndex b <= rw_LogIndex a).
#[export] Instance transfer_newer_dec a b : Decision (transfer_newer a b).
Proof. unfold transfer_newer. apply _. Defined.

Definition AddressTransfers (addr : list Z) (limit offset : Z) (s : Store) : list TransferRow :=
  let a := normalizeAddr addr in
  let rows := merge_sort transfer_newer (filter (λ r, rw_From r = a ∨ rw_To r = a) (map_to_list (st_transfers s)).*2) in
  take (page_limit limit) (drop (Z.to_nat offset) rows).

Definition MaxBlock (s : Store) : Z := foldr Z.max 0 (map_to_list (st_blocks s)).*1.

(** ** Answers of the node *)
Record rpcTx : Type := mkRpcTx {
  rt_Hash : list Z;
  rt_From : list Z;
  rt_To : option (list Z);
  rt_Value : list Z;
  rt_Index : list Z;
}.

Record rpcLog : Type := mkRpcLog {
  rl_Address : list Z;
  rl_Topics : list (list Z);
  rl_Data : list Z;
  rl_LogIndex : list Z;
}.

Record rpcReceipt : Type := mkRpcReceipt {
  rr_Status : list Z;
  rr_GasUsed : list Z;
  rr_TransactionIndex : list Z;
  rr_Logs : list rpcLog;
  rr_From : list Z;
  rr_To : option (list Z);
}.

(** The transactions of a block: full objects, bare hashes, or neither. *)
Inductive rpcTxs : Type := FullTxs (l : list rpcTx) | TxHashes (l : list (list Z)) | BadTxs.

Record rpcBlock : Type := mkRpcBlock {
  rb_Hash : list Z;
  rb_Timestamp : list Z;
  rb_GasUsed : list Z;
  rb_Transactions : rpcTxs;
}.

Record rpcNode : Type := mkRpcNode {
  rn_blockNumber : res Z;
  rn_getBlock : Z → res (option rpcBlock);
  rn_getReceipt : list Z → res (option rpcReceipt);
}.

(** [big.Int.SetString] in base 16 and its low 64 bits. *)
Definition parseHexUint64 (s : list Z) : res Z :=
  match TrimPrefix ox (map lower s) with
  | [] => Ok 0
  | c :: r =>
      let ds := if (c =? 43) || (c =? 45) then r else c :: r in
      match ds with
      | [] => Err "invalid hex uint"
      | _ => if forallb (λ d, digit_value d <? 16) ds then Ok (u64 (parse_digits 16 ds)) else Err "invalid hex uint"
      end
  end.

Definition topicWordToAddr (topic : list Z) : list Z :=
  let h := TrimPrefix ox (map lower topic) in
  if (length h <? 40)%nat then ox ++ h else ox ++ drop (length h - 40) h.

(** ** Ingest *)
Section Ingest.
Context (transferTopic0 : list Z).

(** A log that is not a token transfer is skipped. *)
Definition indexLog (blockNum : Z) (txHash : list Z) (lg : rpcLog) (s : Store) : res Store :=
  match rl_Topics lg with
  | [] => Ok s
  | t0 :: rest =>
      if negb (bool_decide (map lower t0 = transferTopic0)) then Ok s else
      match rest with
      | from :: to :: _ =>
          let? logIdx := parseHexUint64 (rl_LogIndex lg) in
          insertTransfer (mkTransferRow blockNum (map lower txHash) (int64 logIdx) (normalizeAddr (rl_Address lg))
            (normalizeAddr (topicWordToAddr from)) (normalizeAddr (topicWordToAddr to))
            (match rl_Data lg with [] => str_bytes "0x0" | d => d end)) s
      | _ => Ok s
      end
  end.

Fixpoint index_logs (blockNum : Z) (txHash : list Z) (lgs : list rpcLog) (s : Store) : res Store :=
  match lgs with [] => Ok s | lg :: lgs => let? s := indexLog blockNum txHash lg s in index_logs blockNum txHash lgs s end.

Definition zeroAddr : list Z := ox ++ replicate 40 48.

Definition or_else (a b : list Z) : list Z := match a with [] => b | _ => a end.

(** The row before the receipt: [ft] is the full transaction, if known. *)
Definition base_row (num i : Z) (h : list Z) (ft : option rpcTx) : TxRow :=
  match ft with
  | None => mkTxRow h num i [] [] (str_bytes "0x0") None None
  | Some t =>
      mkTxRow h num (match rt_Index t with [] => i | x => match parseHexUint64 x with Ok idx => int64 idx | Err _ => i end end)
        (normalizeAddr (rt_From t)) (match rt_To t with Some a => normalizeAddr a | None => [] end)
        (or_else (rt_Value t) (str_bytes "0x0")) None None
  end.

Definition receipt_row (r : rpcReceipt) (row : TxRow) : TxRow :=
  mkTxRow (tw_Hash row) (tw_BlockNumber row)
    (match parseHexUint64 (rr_TransactionIndex r) with Ok idx => int64 idx | Err _ => tw_TxIndex row end)
    (match rr_From r with [] => tw_From row | f => normalizeAddr f end)
    (match rr_To r with Some a => normalizeAddr a | None => tw_To row end) (tw_Value row)
    (match parseHexUint64 (rr_Status r) with Ok st => Some (int64 st) | Err _ => None end)
    (match parseHexUint64 (rr_GasUsed r) with Ok gu => Some gu | Err _ => None end).

Definition fill_from (row : TxRow) : TxRow :=
  mkTxRow (tw_Hash row) (tw_BlockNumber row) (tw_TxIndex row) (or_else (tw_From row) zeroAddr) (tw_To row) (tw_Value row)
    (tw_Status row) (tw_GasUsed row).

(** One turn of the loop over the transactions. *)
Definition index_tx (node : rpcNode) (txMap : gmap (list Z) rpcTx) (num i : Z) (hash : list Z) (s : Store) : res Store :=
  let h := map lower hash in
  let row := base_row num i h (txMap !! h) in
  let? rcpt := rn_getReceipt node h in
  match rcpt with
  | None => insertTx (fill_from row) s
  | Some r => let? s := index_logs num h (rr_Logs r) s in insertTx (fill_from (receipt_row r row)) s
  end.

Fixpoint index_txs (node : rpcNode) (txMap : gmap (list Z) rpcTx) (num i : Z) (hashes : list (list Z)) (s : Store) : res Store :=
  match hashes with
  | [] => Ok s
  | h :: hashes => let? s := index_tx node txMap num i h s in index_txs node txMap num (i + 1) hashes s
  end.

Definition tx_hashes (t : rpcTxs) : res (list (list Z)) :=
  match t with FullTxs l => Ok (map rt_Hash l) | TxHashes l => Ok l | BadTxs => Err "transactions" end.

Definition tx_map (t : rpcTxs) : gmap (list Z) rpcTx :=
  match t with FullTxs l => foldl (λ m t, <[map lower (rt_Hash t) := t]> m) ∅ l | _ => ∅ end.

(** The transaction around one block: all of its rows and the new tip, or nothing. *)
Definition indexBlock (node : rpcNode) (num : Z) (s : Store) : Store * res unit :=
  match (let? blk := rn_getBlock node num in
         match blk with
         | None => Err "block not found"
         | Some blk =>
             let? ts := parseHexUint64 (rb_Timestamp blk) in
             let? gasUsed := parseHexUint64 (rb_GasUsed blk) in
             let? hashes := tx_hashes (rb_Transactions blk) in
             let? s := insertBlock (mkBlockRow num (map lower (rb_Hash blk)) ts (Z.of_nat (length hashes)) gasUsed) s in
             let? s := index_txs node (tx_map (rb_Transactions blk)) num 0 hashes s in
             Ok (setMetaTx lastIndexedKey (decimal 20 num) s)
         end) with
  | Err e => (s, Err e)
  | Ok s => (s, Ok tt)
  end.

Record IndexerConfig : Type := mkIndexerConfig { ic_StartBlock : Z; ic_MaxBlocksPerTick : Z }.

(** The defaults of [New]. *)
Definition indexer_defaults (c : IndexerConfig) : IndexerConfig :=
  mkIndexerConfig (ic_StartBlock c) (if ic_MaxBlocksPerTick c <=? 0 then 64 else ic_MaxBlocksPerTick c).

Record Indexer : Type := mkIndexer { ix_cfg : IndexerConfig; ix_store : Store; ix_tip : Z; ix_indexed : Z }.

Definition New (cfg : IndexerConfig) (s : Store) : Indexer :=
  mkIndexer (indexer_defaults cfg) s 0 (match LastIndexedBlock s with Ok n => n | Err _ => 0 end).

(** The loop of [catchUp]; at most [n] blocks. *)
Fixpoint index_range (n : nat) (node : rpcNode) (next tip : Z) (ix : Indexer) : Indexer * res unit :=
  match n with
  | O => (ix, Ok tt)
  | S n =>
      if tip <? next then (ix, Ok tt) else
      match indexBlock node next (ix_store ix) with
      | (s, Err e) => (mkIndexer (ix_cfg ix) s (ix_tip ix) (ix_indexed ix), Err e)
      | (s, Ok _) => index_range n node (next +₆₄ 1) tip (mkIndexer (ix_cfg ix) s (ix_tip ix) next)
      end
  end.

Definition catchUp (node : rpcNode) (ix : Indexer) : Indexer * res unit :=
  match rn_blockNumber node with
  | Err e => (ix, Err e)
  | Ok tip =>
      let ix := mkIndexer (ix_cfg ix) (ix_store ix) tip (ix_indexed ix) in
      match LastIndexedBlock (ix_store ix) with
      | Err e => (ix, Err e)
      | Ok last =>
          let next := match getMeta lastIndexedKey (ix_store ix) with
                      | None => ic_StartBlock (ix_cfg ix)
                      | Some _ => last +₆₄ 1
                      end in
          index_range (Z.to_nat (ic_MaxBlocksPerTick (ix_cfg ix))) node next tip ix
      end
  end.

(** The rounds of [CatchUpOnce]. *)
Definition catchUpRounds : nat := Z.to_nat 10000.

(** [CatchUpOnce] with [rounds] left. *)
Fixpoint CatchUpOnce (rounds : nat) (node : rpcNode) (ix : Indexer) : Indexer * res unit :=
  match rounds with
  | O => (ix, Err "indexer: catch-up exceeded rounds")
  | S rounds =>
      let before := ix_indexed ix in
      match catchUp node ix with
      | (ix, Err e) => (ix, Err e)
      | (ix, Ok _) =>
          if ix_tip ix <=? ix_indexed ix then (ix, Ok tt) else
          if ix_indexed ix =? before then (ix, Ok tt) else CatchUpOnce rounds node ix
      end
  end.

Definition lag (ix : Indexer) : Z := if ix_indexed ix <? ix_tip ix then ix_tip ix - ix_indexed ix else 0.
End Ingest.
