(* ===== verification/IndexerProps.v ===== *)
(** * Completeness of the history indexer

    Whatever requests fail in between, the block number the indexer remembers
    as its tip never runs ahead of what it has stored, and against a node that
    answers it reaches the tip of the chain. *)
From S2P Require Import Prelude Types P2PHost Rpc Indexer.

(** ** The remembered tip is readable *)
Lemma is_digit_value d : 0 <= d < 10 → is_digit (48 + d) = true ∧ digit_value (48 + d) = d ∧ is_space (48 + d) = false.
Proof.
  intros Hd. unfold is_digit, digit_value, is_space. rewrite !(proj2 (Z.leb_le 48 (48 + d))), !(proj2 (Z.leb_le (48 + d) 57)) by lia.
  rewrite (proj2 (Z.leb_gt (48 + d) 13)), (proj2 (Z.eqb_neq (48 + d) 32)) by lia. rewrite andb_false_r. split_and!; [done|cbn; lia|done].
Qed.

Definition digits (s : list Z) : Prop := Forall (λ c, is_digit c = true ∧ is_space c = false) s.

Lemma decimal_digits fuel n : (0 < fuel)%nat → 0 <= n < 10 ^ Z.of_nat fuel →
  digits (decimal fuel n) ∧ parse_digits 10 (decimal fuel n) = n ∧ decimal fuel n ≠ [].
Proof.
  revert n. induction fuel as [|fuel IH]; intros n Hf Hn; [lia|]. cbn [decimal].
  destruct (is_digit_value (n mod 10)) as (H1 & H2 & H3); [zlia|].
  assert (digits [48 + n mod 10]) as Hd by (apply Forall_singleton; done). destruct (Z.ltb_spec n 10) as [Hlt|Hge].
  - split_and!; [exact Hd| |done]. unfold parse_digits. cbn [app foldl]. rewrite H2. zlia.
  - rewrite Nat2Z.inj_succ, Z.pow_succ_r in Hn by lia.
    assert (0 < fuel)%nat as Hf'. { destruct fuel; [cbn in Hn; lia|lia]. }
    destruct (IH (n / 10) Hf') as (H4 & H5 & _); [zlia|].
    split_and!; [by apply Forall_app_2| |by destruct (decimal fuel (n / 10))].
    unfold parse_digits in *. rewrite foldl_app, H5. cbn [foldl]. rewrite H2. zlia.
Qed.

Lemma leading_digits_all s : digits s → leading_digits s = s.
Proof. induction 1 as [|c s [Hc _] _ IH]; [done|]. cbn. by rewrite Hc, IH. Qed.

Lemma Sscanf_decimal n : is_u64 n → Sscanf_d (decimal 20 n) = Ok n.
Proof.
  intros Hn. unfold is_u64 in Hn. destruct (decimal_digits 20 n) as (H1 & H2 & H3); [lia|lia|]. unfold Sscanf_d.
  assert (trim_left (decimal 20 n) = decimal 20 n) as ->.
  { destruct (decimal 20 n) as [|c s]; [done|]. apply Forall_cons in H1 as [[_ Hc] _]. cbn. by rewrite Hc. }
  rewrite leading_digits_all by done. destruct (decimal 20 n) as [|c s]; [done|]. rewrite H2.
  by rewrite (proj2 (Z.ltb_lt _ _)) by lia.
Qed.

Definition remembers (s : Store) (k : Z) : Prop := st_meta s !! lastIndexedKey = Some (decimal 20 k).

Lemma LastIndexedBlock_remembers s k : is_u64 k → remembers s k → LastIndexedBlock s = Ok k.
Proof.
  intros Hk Hs. unfold LastIndexedBlock, getMeta. rewrite Hs. pose proof (Sscanf_decimal k Hk) as Hd.
  destruct (decimal 20 k) as [|c r] eqn:E; [|exact Hd]. unfold is_u64 in Hk.
  destruct (decimal_digits 20 k) as (_ & _ & H3); [lia|lia|]. by rewrite E in H3.
Qed.

Lemma lower_lower h : map lower (map lower h) = map lower h.
Proof.
  induction h as [|c h IH]; [done|]. cbn [map]. rewrite IH. f_equal. unfold lower.
  repeat match goal with |- context [if ?b then _ else _] => destruct b eqn:? end; lia.
Qed.

Section Complete.
Context (topic0 : list Z).

(** The chain as a node would answer for it. *)
Context (chain : Z → option rpcBlock) (receipts : list Z → option rpcReceipt).

Definition hashes_of (num : Z) : list (list Z) :=
  match chain num with
  | Some b => match tx_hashes (rb_Transactions b) with Ok l => l | Err _ => [] end
  | None => []
  end.

(** A transaction is in one block. *)
Definition one_block : Prop :=
  ∀ num num' h h', h ∈ hashes_of num → h' ∈ hashes_of num' → map lower h = map lower h' → num = num'.

(** What the node answers is true of the chain; it may fail to answer. *)
Definition truthful (node : rpcNode) : Prop :=
  (∀ num b, rn_getBlock node num = Ok (Some b) → chain num = Some b) ∧ (∀ h r, rn_getReceipt node h = Ok r → receipts h = r).

(** The index of a log that is a token transfer. *)
Definition transfer_index (lg : rpcLog) : option Z :=
  match rl_Topics lg with
  | t0 :: _ :: _ :: _ =>
      if bool_decide (map lower t0 = topic0)
      then match parseHexUint64 (rl_LogIndex lg) with Ok i => Some (int64 i) | Err _ => None end else None
  | _ => None
  end.

(** The transfers among [lgs], logs of the transaction [h] of block [num], have rows. *)
Definition logs_stored (num : Z) (h : list Z) (lgs : list rpcLog) (s : Store) : Prop :=
  ∀ lg i, lg ∈ lgs → transfer_index lg = Some i →
    ∃ row, st_transfers s !! (map lower h, i) = Some row ∧ rw_BlockNumber row = num.

(** The transaction with hash [h] of block [num] and its transfers have rows. *)
Definition tx_stored (num : Z) (s : Store) (h : list Z) : Prop :=
  (∃ row, st_txs s !! map lower h = Some row ∧ tw_BlockNumber row = num) ∧
  (∀ r, receipts (map lower h) = Some r → logs_stored num h (rr_Logs r) s).

Definition block_row (num : Z) (s : Store) : Prop :=
  ∃ b ts gas, chain num = Some b ∧ parseHexUint64 (rb_Timestamp b) = Ok ts ∧ parseHexUint64 (rb_GasUsed b) = Ok gas ∧
    st_blocks s !! num = Some (mkBlockRow num (map lower (rb_Hash b)) ts (Z.of_nat (length (hashes_of num))) gas).

Definition block_stored (num : Z) (s : Store) : Prop := block_row num s ∧ Forall (tx_stored num s) (hashes_of num).

(** ** What the rows of one block change *)

(** [s'] comes from [s] by rows of block [num] for transactions of [hs]. *)
Record touches (num : Z) (hs : list (list Z)) (s s' : Store) : Prop := {
  to_meta : st_meta s' = st_meta s;
  to_blocks : st_blocks s' = st_blocks s;
  to_txs : ∀ k, st_txs s' !! k = st_txs s !! k ∨
    (k ∈ map (map lower) hs ∧ ∃ row, st_txs s' !! k = Some row ∧ tw_BlockNumber row = num);
  to_transfers : ∀ k i, st_transfers s' !! (k, i) = st_transfers s !! (k, i) ∨
    (k ∈ map (map lower) hs ∧ ∃ row, st_transfers s' !! (k, i) = Some row ∧ rw_BlockNumber row = num);
}.

Lemma touches_refl num hs s : touches num hs s s.
Proof. split; by try left. Qed.

Lemma touches_trans num hs s1 s2 s3 : touches num hs s1 s2 → touches num hs s2 s3 → touches num hs s1 s3.
Proof.
  intros [A1 A2 A3 A4] [B1 B2 B3 B4]. split; [congruence|congruence| |].
  - intros k. destruct (B3 k) as [->|]; [apply A3|by right].
  - intros k i. destruct (B4 k i) as [->|]; [apply A4|by right].
Qed.

Lemma touches_mono num hs hs' s s' : hs ⊆ hs' → touches num hs s s' → touches num hs' s s'.
Proof.
  intros Hsub [A1 A2 A3 A4]. assert (∀ k, k ∈ map (map lower) hs → k ∈ map (map lower) hs') as Hin.
  { intros k (h & -> & Hh)%list_elem_of_fmap. apply list_elem_of_fmap. eauto. }
  split; [done|done| |]; [intros k; destruct (A3 k) as [|[]]|intros k i; destruct (A4 k i) as [|[]]]; eauto.
Qed.

(** Rows of the same block only replace rows of that block. *)
Lemma touches_logs num hs h lgs s s' : touches num hs s s' → logs_stored num h lgs s → logs_stored num h lgs s'.
Proof.
  intros T H lg i Hlg Hi. destruct (H lg i Hlg Hi) as (row & Hrow & Hnum).
  destruct (to_transfers _ _ _ _ T (map lower h) i) as [->|[_ ?]]; eauto.
Qed.

Lemma touches_tx num hs h s s' : touches num hs s s' → tx_stored num s h → tx_stored num s' h.
Proof.
  intros T [(row & Hrow & Hnum) Hl]. split.
  - destruct (to_txs _ _ _ _ T (map lower h)) as [->|[_ ?]]; eauto.
  - intros r Hr. eauto using touches_logs.
Qed.

Lemma indexLog_spec num h lg s s' : indexLog topic0 num (map lower h) lg s = Ok s' →
  touches num [h] s s' ∧ logs_stored num h [lg] s'.
Proof.
  assert (transfer_index lg = None → touches num [h] s s ∧ logs_stored num h [lg] s) as Hskip.
  { intros Hno. split; [apply touches_refl|]. intros lg' i ->%list_elem_of_singleton Hi. congruence. }
  unfold indexLog. unfold transfer_index in Hskip. destruct (rl_Topics lg) as [|t0 rest] eqn:Et; [intros [= <-]; auto|].
  destruct (bool_decide (map lower t0 = topic0)) eqn:Eb; cbn [negb].
  2: { intros [= <-]. apply Hskip. by destruct rest as [|? [|]]. }
  destruct rest as [|from [|to rest]]; [intros [= <-]; auto|intros [= <-]; auto|].
  destruct (parseHexUint64 (rl_LogIndex lg)) as [idx|e] eqn:Ep; [|done]. cbn [rbind]. unfold insertTransfer.
  destruct (sql_uint _); [|done]. intros [= <-]. cbn [rw_TxHash rw_LogIndex]. rewrite lower_lower. split.
  - split; [done|done|by left|]. intros k i. cbn [st_transfers].
    destruct (decide ((k, i) = (map lower h, int64 idx))) as [[= -> ->]|Hne].
    + right. split; [by left|]. rewrite lookup_insert_eq. eexists. split; [done|done].
    + left. by rewrite lookup_insert_ne.
  - intros lg' i ->%list_elem_of_singleton Hi. unfold transfer_index in Hi. rewrite Et, Eb, Ep in Hi. injection Hi as <-.
    cbn [st_transfers]. rewrite lookup_insert_eq. eexists. split; [done|done].
Qed.

Lemma index_logs_spec num h lgs s s' : index_logs topic0 num (map lower h) lgs s = Ok s' →
  touches num [h] s s' ∧ logs_stored num h lgs s'.
Proof.
  revert s. induction lgs as [|lg lgs IH]; intros s.
  - intros [= <-]. split; [apply touches_refl|]. by intros lg i ?%not_elem_of_nil.
  - cbn [index_logs]. destruct (indexLog _ _ _ _ s) as [s1|e] eqn:E1; [|done]. cbn [rbind]. intros H.
    apply indexLog_spec in E1 as [T1 L1]. apply IH in H as [T2 L2]. split; [by eapply touches_trans|].
    intros lg' i [->|Hin]%elem_of_cons Hi; [|by eapply L2]. eapply (touches_logs _ _ _ [lg]); [exact T2|exact L1|by left|done].
Qed.

Lemma insertTx_spec num h row s s' : tw_Hash row = map lower h → tw_BlockNumber row = num → insertTx row s = Ok s' →
  touches num [h] s s' ∧ st_txs s' !! map lower h = Some row ∧ st_transfers s' = st_transfers s.
Proof.
  intros Hh Hn. unfold insertTx. destruct (_ && _); [|done]. intros [= <-]. cbn [st_txs]. rewrite Hh.
  split_and!; [|by rewrite lookup_insert_eq|done]. split; [done|done| |by left]. intros k. cbn [st_txs].
  destruct (decide (k = map lower h)) as [->|Hne]; [right|left; by rewrite lookup_insert_ne].
  split; [by left|]. rewrite lookup_insert_eq. eauto.
Qed.

Lemma index_tx_spec node m num i h s s' : truthful node → index_tx topic0 node m num i h s = Ok s' →
  touches num [h] s s' ∧ tx_stored num s' h.
Proof.
  intros [_ Hr]. unfold index_tx. destruct (rn_getReceipt node (map lower h)) as [rcpt|e] eqn:Er; [|done]. cbn [rbind].
  apply Hr in Er. assert (∀ ft, tw_Hash (base_row num i (map lower h) ft) = map lower h ∧ tw_BlockNumber (base_row num i (map lower h) ft) = num)
    as Hbase by (by intros [t|]). destruct (Hbase (m !! map lower h)) as [Hh Hn]. destruct rcpt as [r|].
  - destruct (index_logs _ _ _ _ s) as [s1|e] eqn:El; [|done]. cbn [rbind]. intros H. apply index_logs_spec in El as [T1 L1].
    apply (insertTx_spec num h) in H as (T2 & Hrow & _); [|exact Hh|exact Hn]. split; [by eapply touches_trans|]. split; [by eexists|].
    intros r' Hr'. rewrite Hr' in Er. injection Er as ->. eauto using touches_logs.
  - intros H. apply (insertTx_spec num h) in H as (T2 & Hrow & _); [|exact Hh|exact Hn]. split; [done|]. split; [by eexists|].
    intros r' Hr'. congruence.
Qed.

Lemma index_txs_spec node m num hs i s s' : truthful node → index_txs topic0 node m num i hs s = Ok s' →
  touches num hs s s' ∧ Forall (tx_stored num s') hs.
Proof.
  intros Ht. revert i s. induction hs as [|h hs IH]; intros i s; [intros [= <-]; split; [apply touches_refl|done]|].
  cbn [index_txs]. destruct (index_tx _ _ _ _ _ _ s) as [s1|e] eqn:E1; [|done]. cbn [rbind]. intros H.
  apply index_tx_spec in E1 as [T1 X1]; [|done]. apply IH in H as [T2 X2]. split.
  - eapply touches_trans; [eapply touches_mono; [|exact T1]|eapply touches_mono; [|exact T2]]; set_solver.
  - constructor; [by eapply touches_tx|done].
Qed.

(** Rows of another block are left alone when no transaction is in both. *)
Lemma touches_other num hs n s s' : (∀ h h', h ∈ hs → h' ∈ hashes_of n → map lower h ≠ map lower h') →
  touches num hs s s' → Forall (tx_stored n s) (hashes_of n) → Forall (tx_stored n s') (hashes_of n).
Proof.
  intros Hdis T H. rewrite Forall_forall in H. apply Forall_forall. intros h Hh. destruct (H h Hh) as [(row & Hrow & Hn) Hl].
  assert (map lower h ∉ map (map lower) hs) as Hni.
  { intros (h' & E & Hh')%list_elem_of_fmap. by eapply Hdis. }
  split.
  - exists row. split; [|done]. by destruct (to_txs _ _ _ _ T (map lower h)) as [->|[]].
  - intros r Hr lg i Hlg Hi. destruct (Hl r Hr lg i Hlg Hi) as (row' & Hrow' & Hn').
    exists row'. split; [|done]. by destruct (to_transfers _ _ _ _ T (map lower h) i) as [->|[]].
Qed.

Lemma block_row_other num n s s' : n ≠ num → (∀ k, k ≠ num → st_blocks s' !! k = st_blocks s !! k) → block_row n s → block_row n s'.
Proof. intros Hne Hb (b & ts & gas & H). exists b, ts, gas. by rewrite Hb. Qed.

(** A block is indexed as a whole or not at all. *)
Lemma indexBlock_spec node num s s' r : truthful node → indexBlock topic0 node num s = (s', r) →
  (s' = s ∧ ∃ e, r = Err e) ∨
  (r = Ok tt ∧ num < 2 ^ 63 ∧ remembers s' num ∧ block_stored num s' ∧
   (one_block → ∀ n, n ≠ num → block_stored n s → block_stored n s')).
Proof.
  intros Ht. unfold indexBlock. destruct (rn_getBlock node num) as [[blk|]|e] eqn:Eb; cbn [rbind]; [|intros [= <- <-]; eauto..].
  pose proof (proj1 Ht _ _ Eb) as Hc.
  destruct (parseHexUint64 (rb_Timestamp blk)) as [ts|e] eqn:Ets; cbn [rbind]; [|intros [= <- <-]; eauto].
  destruct (parseHexUint64 (rb_GasUsed blk)) as [gas|e] eqn:Eg; cbn [rbind]; [|intros [= <- <-]; eauto].
  destruct (tx_hashes (rb_Transactions blk)) as [hs|e] eqn:Eh; cbn [rbind]; [|intros [= <- <-]; eauto].
  assert (hashes_of num = hs) as Hhs by (unfold hashes_of; by rewrite Hc, Eh).
  unfold insertBlock. destruct (_ && _) eqn:Esql; cbn [rbind]; [|intros [= <- <-]; eauto]. cbn [bw_Number].
  set (s1 := mkStore _ (<[num := _]> _) _ _ _). destruct (index_txs _ _ _ _ _ _ s1) as [s2|e] eqn:Ei; cbn [rbind]; [|intros [= <- <-]; eauto].
  intros [= <- <-]. right. apply index_txs_spec in Ei as [T X]; [|done]. set (s3 := setMetaTx _ _ s2).
  assert (st_blocks s3 = <[num := mkBlockRow num (map lower (rb_Hash blk)) ts (Z.of_nat (length hs)) gas]> (st_blocks s)) as Hblocks
    by exact (to_blocks _ _ _ _ T).
  apply andb_prop in Esql as [[Hnum _]%andb_prop _]. unfold sql_uint in Hnum. cbn in Hnum. apply Z.ltb_lt in Hnum.
  split_and!; [done|done|apply lookup_insert_eq| |].
  - split; [|by rewrite Hhs]. exists blk, ts, gas. by rewrite Hblocks, lookup_insert_eq, Hhs.
  - intros Hone n Hne [Hrow Htx]. split.
    + apply (block_row_other num n s); [done| |done]. intros k Hk. by rewrite Hblocks, lookup_insert_ne.
    + apply (touches_other num hs n s1 s2); [|done|exact Htx]. intros h h' Hh Hh' E. apply Hne. symmetry.
      apply (Hone num n h h'); [by rewrite Hhs|done|done].
Qed.

(** ** The invariant *)

(** Every block from the first up to [next] is stored, and [next] is where the
    indexer goes on, also after a restart. *)
Definition upto (next : Z) (ix : Indexer) : Prop :=
  let start := ic_StartBlock (ix_cfg ix) in
  (∀ num, start <= num < next → block_stored num (ix_store ix)) ∧
  ((st_meta (ix_store ix) !! lastIndexedKey = None ∧ next = start ∧ ix_indexed ix = 0) ∨
   (remembers (ix_store ix) (next - 1) ∧ (0 < next <= 2 ^ 63 ∧ start < next) ∧ ix_indexed ix = next - 1)).

Context (Hone : one_block).

Lemma upto_indexed next ix s : 0 <= next → upto next ix → remembers s next → block_stored next s → next < 2 ^ 63 →
  (∀ n, n ≠ next → block_stored n (ix_store ix) → block_stored n s) →
  upto (next + 1) (mkIndexer (ix_cfg ix) s (ix_tip ix) next).
Proof.
  intros H0 [Hst Hpos] Hr Hb Hlt Hother. split; cbn.
  - intros num Hnum. destruct (decide (num = next)) as [->|Hne]; [done|]. apply Hother; [done|]. apply Hst. lia.
  - right. replace (next + 1 - 1) with next by lia. split; [done|]. split; [|done]. destruct Hpos as [(_ & -> & _)|(_ & ? & _)]; lia.
Qed.

(** How far a tick gets. *)
Definition reach (n : nat) (next tip : Z) : Z := Z.max next (Z.min (next + Z.of_nat n) (tip + 1)).

Lemma index_range_spec n node next tip ix ix' r : truthful node → 0 <= next → upto next ix →
  index_range topic0 n node next tip ix = (ix', r) →
  ix_cfg ix' = ix_cfg ix ∧ ix_tip ix' = ix_tip ix ∧ ∃ next', next <= next' ∧ upto next' ix' ∧
    ((∃ e, r = Err e) ∨ (r = Ok tt ∧ next' = reach n next tip)).
Proof.
  intros Ht. revert next ix. unfold reach. induction n as [|n IH]; intros next ix H0 Hu; cbn [index_range].
  - intros [= <- <-]. split_and!; [done|done|]. exists next. split_and!; [lia|done|right; split; [done|lia]].
  - destruct (Z.ltb_spec tip next) as [Hlt|Hge].
    + intros [= <- <-]. split_and!; [done|done|]. exists next. split_and!; [lia|done|right; split; [done|lia]].
    + destruct (indexBlock topic0 node next (ix_store ix)) as [s1 r1] eqn:E1.
      apply indexBlock_spec in E1 as [[-> [e ->]]|(-> & Hlt & Hr & Hb & Hother)]; [|..|done].
      * intros [= <- <-]. split_and!; [done|done|]. exists next. split_and!; [lia|by destruct ix|eauto].
      * rewrite u64_id by (unfold is_u64; lia). intros H. apply IH in H as (Hc & Htip & next' & Hle & Hu' & Hr').
        -- split_and!; [done|done|]. exists next'. split_and!; [lia|done|]. destruct Hr' as [|[-> ->]]; [by left|right; split; [done|lia]].
        -- lia.
        -- apply upto_indexed; auto.
Qed.

Lemma catchUp_spec node next ix ix' r : truthful node → 0 <= next → upto next ix → catchUp topic0 node ix = (ix', r) →
  ix_cfg ix' = ix_cfg ix ∧ ∃ next', next <= next' ∧ upto next' ix' ∧
    ((∃ e, r = Err e) ∨ ∃ tip, rn_blockNumber node = Ok tip ∧ r = Ok tt ∧ ix_tip ix' = tip ∧
       next' = reach (Z.to_nat (ic_MaxBlocksPerTick (ix_cfg ix))) next tip).
Proof.
  intros Ht H0 Hu. unfold catchUp. destruct (rn_blockNumber node) as [tip|e].
  2: { intros [= <- <-]. split; [done|]. exists next. split_and!; [lia|done|eauto]. }
  set (ix1 := mkIndexer _ _ tip _). assert (upto next ix1) as Hu1 by exact Hu. cbn [ix_store]. intros H.
  assert (index_range topic0 (Z.to_nat (ic_MaxBlocksPerTick (ix_cfg ix))) node next tip ix1 = (ix', r)) as Hi.
  { revert H. destruct Hu1 as [_ [(Hm & -> & _)|(Hm & Hb & _)]]; cbn [ix1 ix_store ix_cfg] in *.
    - unfold LastIndexedBlock, getMeta. by rewrite Hm.
    - rewrite (LastIndexedBlock_remembers _ (next - 1)) by (done || (unfold is_u64; lia)). unfold getMeta. rewrite Hm.
      replace (next - 1 +₆₄ 1) with next by (rewrite u64_id; unfold is_u64; lia). done. }
  apply index_range_spec in Hi as (Hc & Htip & next' & Hle & Hu' & Hr); [|done..]. split; [done|]. exists next'. split_and!; [done|done|].
  destruct Hr as [|[-> ->]]; [by left|right]. eauto.
Qed.

Lemma New_upto next ix : 0 <= next → upto next ix → upto next (New (ix_cfg ix) (ix_store ix)).
Proof.
  intros H0 [Hst Hpos]. split; [exact Hst|]. unfold New. cbn [ix_store ix_indexed ix_cfg indexer_defaults ic_StartBlock].
  destruct Hpos as [(Hm & -> & _)|(Hm & Hb & _)]; [left|right].
  - split_and!; [done|done|]. unfold LastIndexedBlock, getMeta. by rewrite Hm.
  - split; [done|]. split; [lia|]. by rewrite (LastIndexedBlock_remembers _ (next - 1)) by (done || (unfold is_u64; lia)).
Qed.

(** ** Progress *)

(** What the node has to answer about a block. *)
Definition receipt_ok (r : rpcReceipt) : Prop :=
  (∀ g, parseHexUint64 (rr_GasUsed r) = Ok g → g < 2 ^ 63) ∧ Forall (λ lg, ∃ i, parseHexUint64 (rl_LogIndex lg) = Ok i) (rr_Logs r).

Definition ready (node : rpcNode) (num : Z) : Prop :=
  ∃ b ts gas hs, rn_getBlock node num = Ok (Some b) ∧ parseHexUint64 (rb_Timestamp b) = Ok ts ∧ ts < 2 ^ 63 ∧
    parseHexUint64 (rb_GasUsed b) = Ok gas ∧ gas < 2 ^ 63 ∧ tx_hashes (rb_Transactions b) = Ok hs ∧
    Forall (λ h, ∃ rc, rn_getReceipt node (map lower h) = Ok rc ∧ ∀ r, rc = Some r → receipt_ok r) hs.

Lemma index_logs_ready num h lgs s : num < 2 ^ 63 → Forall (λ lg, ∃ i, parseHexUint64 (rl_LogIndex lg) = Ok i) lgs →
  ∃ s', index_logs topic0 num h lgs s = Ok s'.
Proof.
  intros Hn Hl. revert s. induction Hl as [|lg lgs [i Hi] _ IH]; intros s; [by eexists|]. cbn [index_logs].
  assert (∃ s1, indexLog topic0 num h lg s = Ok s1) as [s1 ->]; [|cbn [rbind]; apply IH].
  unfold indexLog. destruct (rl_Topics lg) as [|t0 rest]; [by eexists|]. destruct (negb _); [by eexists|].
  destruct rest as [|from [|to rest]]; [by eexists|by eexists|]. rewrite Hi. cbn [rbind]. unfold insertTransfer, sql_uint.
  cbn [rw_BlockNumber]. rewrite (proj2 (Z.ltb_lt _ _)) by done. by eexists.
Qed.

Lemma index_txs_ready node m num hs i s : num < 2 ^ 63 →
  Forall (λ h, ∃ rc, rn_getReceipt node (map lower h) = Ok rc ∧ ∀ r, rc = Some r → receipt_ok r) hs →
  ∃ s', index_txs topic0 node m num i hs s = Ok s'.
Proof.
  intros Hn Hl. revert i s. induction Hl as [|h hs (rc & Hrc & Hok) _ IH]; intros i s; [by eexists|]. cbn [index_txs].
  assert (∃ s1, index_tx topic0 node m num i h s = Ok s1) as [s1 ->]; [|cbn [rbind]; apply IH].
  unfold index_tx. rewrite Hrc. cbn [rbind]. assert (∀ ft, tw_BlockNumber (base_row num i (map lower h) ft) = num ∧
    tw_GasUsed (base_row num i (map lower h) ft) = None) as Hb by (by intros [t|]).
  destruct (Hb (m !! map lower h)) as [Hb1 Hb2]. destruct rc as [r|].
  - destruct (Hok r eq_refl) as [Hg Hlogs]. destruct (index_logs_ready num (map lower h) (rr_Logs r) s Hn Hlogs) as [s1 ->]. cbn [rbind].
    unfold insertTx, sql_uint, fill_from, receipt_row. cbn [tw_BlockNumber tw_GasUsed]. rewrite Hb1, (proj2 (Z.ltb_lt _ _)) by done.
    destruct (parseHexUint64 (rr_GasUsed r)) as [g|e] eqn:Eg; [|by eexists].
    rewrite (proj2 (Z.ltb_lt g _)) by auto. by eexists.
  - unfold insertTx, sql_uint, fill_from. cbn [tw_BlockNumber tw_GasUsed]. rewrite Hb1, Hb2, (proj2 (Z.ltb_lt _ _)) by done. by eexists.
Qed.

Lemma indexBlock_ready node num s : num < 2 ^ 63 → ready node num → ∃ s', indexBlock topic0 node num s = (s', Ok tt).
Proof.
  intros Hn (b & ts & gas & hs & Hb & Hts & Hts' & Hg & Hg' & Hh & Hr). unfold indexBlock. rewrite Hb. cbn [rbind]. rewrite Hts. cbn [rbind].
  rewrite Hg. cbn [rbind]. rewrite Hh. cbn [rbind]. unfold insertBlock, sql_uint. cbn [bw_Number bw_Timestamp bw_GasUsed].
  rewrite !(proj2 (Z.ltb_lt _ _)) by done. cbn [rbind andb].
  edestruct (index_txs_ready node (tx_map (rb_Transactions b)) num hs 0) as [s2 ->]; [done|done|]. cbn [rbind]. by eexists.
Qed.

Lemma index_range_ready n node next tip ix : 0 <= next → tip < 2 ^ 63 → (∀ num, next <= num <= tip → ready node num) →
  ∃ ix', index_range topic0 n node next tip ix = (ix', Ok tt).
Proof.
  revert next ix. induction n as [|n IH]; intros next ix H0 Htip Hr; cbn [index_range]; [by eexists|].
  destruct (Z.ltb_spec tip next); [by eexists|]. destruct (indexBlock_ready node next (ix_store ix)) as [s1 ->]; [lia|apply Hr; lia|].
  rewrite u64_id by (unfold is_u64; lia). apply IH; [lia|done|]. intros num Hnum. apply Hr. lia.
Qed.

Lemma catchUp_ready node next tip ix : truthful node → 0 <= next → upto next ix → rn_blockNumber node = Ok tip → tip < 2 ^ 63 →
  (∀ num, next <= num <= tip → ready node num) → ∃ ix', catchUp topic0 node ix = (ix', Ok tt).
Proof.
  intros Ht H0 Hu Htip Hlt Hr. unfold catchUp. rewrite Htip. cbn [ix_store ix_cfg].
  destruct Hu as [_ [(Hm & -> & _)|(Hm & Hb & _)]].
  - unfold LastIndexedBlock, getMeta. rewrite Hm. by apply index_range_ready.
  - rewrite (LastIndexedBlock_remembers _ (next - 1)) by (done || (unfold is_u64; lia)). unfold getMeta. rewrite Hm.
    replace (next - 1 +₆₄ 1) with next by (rewrite u64_id; unfold is_u64; lia). by apply index_range_ready.
Qed.

(** Where the indexer goes on. *)
Definition next_block (ix : Indexer) : Z :=
  match getMeta lastIndexedKey (ix_store ix) with None => ic_StartBlock (ix_cfg ix) | Some _ => ix_indexed ix + 1 end.

Lemma upto_next_block next ix : upto next ix → next_block ix = next.
Proof. intros [_ [(Hm & -> & _)|(Hm & _ & Hi)]]; unfold next_block, getMeta; rewrite Hm; [done|lia]. Qed.

(** The outcome of the rounds left: the end of the range, or the error. *)
Definition rounds_result (tip last : Z) : res unit :=
  if tip <=? last then Ok tt else Err "indexer: catch-up exceeded rounds".

(** One round from [next] on. *)
Lemma round_ready node next tip ix : truthful node → upto next ix → rn_blockNumber node = Ok tip → tip < 2 ^ 63 →
  let start := ic_StartBlock (ix_cfg ix) in let per := ic_MaxBlocksPerTick (ix_cfg ix) in
  0 <= start <= tip → 1 <= per → next <= tip + 1 → (∀ num, next <= num <= tip → ready node num) →
  ∃ ix1, catchUp topic0 node ix = (ix1, Ok tt) ∧ ix_cfg ix1 = ix_cfg ix ∧ ix_tip ix1 = tip ∧
    upto (Z.min (tip + 1) (next + per)) ix1 ∧ ix_indexed ix1 = Z.min (tip + 1) (next + per) - 1.
Proof.
  intros Ht Hu Htip Hlt start per Hst Hper Hnext Hready.
  assert (start <= next) as Hsn by (destruct Hu as [_ [(_ & -> & _)|(_ & ? & _)]]; lia).
  destruct (catchUp_ready node next tip ix) as [ix1 E1]; [done|lia|done..|]. exists ix1. split; [done|].
  apply (catchUp_spec node next) in E1 as (Hc & next' & Hle & Hu' & [[e [=]]|(tip' & E & _ & Ht' & Hn')]); [|done|lia|done].
  rewrite Htip in E. injection E as <-. unfold reach in Hn'. fold per in Hn'. rewrite Z2Nat.id in Hn' by lia.
  assert (next' = Z.min (tip + 1) (next + per)) as <- by lia. split_and!; [done..|].
  destruct Hu' as [_ [(_ & Hs & _)|(_ & _ & Hs)]]; [|done]. rewrite Hc in Hs. fold start in Hs. lia.
Qed.

Lemma CatchUpOnce_spec rounds node next tip ix : truthful node → upto next ix → rn_blockNumber node = Ok tip → tip < 2 ^ 63 →
  let start := ic_StartBlock (ix_cfg ix) in let per := ic_MaxBlocksPerTick (ix_cfg ix) in
  0 <= start <= tip → 1 <= per → 1 < per ∨ 0 < next → next <= tip + 1 → (0 < rounds)%nat ∨ (next <= tip ∧ ix_tip ix = tip) →
  (∀ num, next <= num <= tip → ready node num) →
  let last := next + Z.of_nat rounds * per - 1 in
  ∃ ix', CatchUpOnce topic0 rounds node ix = (ix', rounds_result tip last) ∧ ix_cfg ix' = ix_cfg ix ∧ ix_tip ix' = tip ∧
    upto (Z.min tip last + 1) ix'.
Proof.
  intros Ht Hu Htip Hlt start per Hst Hper. revert next ix Hu start per Hst Hper.
  induction rounds as [|rounds IH]; intros next ix Hu start per Hst Hper Hmove Hnext Hr Hready last.
  { exists ix. cbn [CatchUpOnce]. destruct Hr as [?|[Hr Hix]]; [lia|]. unfold rounds_result. rewrite (proj2 (Z.leb_gt _ _)) by lia.
    split_and!; [done..|]. by replace (Z.min tip last + 1) with next by lia. }
  destruct (round_ready node next tip ix) as (ix1 & E1 & Hc & Ht' & Hu' & Hidx); [done..|].
  cbn [CatchUpOnce]. rewrite E1, Ht', Hidx. fold per in Hu', Hidx |- *.
  destruct (Z.leb_spec tip (Z.min (tip + 1) (next + per) - 1)) as [Hdone|Hmore].
  - exists ix1. unfold rounds_result. assert (tip <= last) as Hlast by (unfold last; nia). rewrite (proj2 (Z.leb_le _ _)) by done.
    split_and!; [done..|]. by replace (Z.min tip last + 1) with (Z.min (tip + 1) (next + per)) by lia.
  - rewrite (proj2 (Z.eqb_neq _ _)) by (destruct Hu as [_ [(_ & Hn & ->)|(_ & _ & ->)]]; lia).
    replace (Z.min (tip + 1) (next + per)) with (next + per) in * by lia.
    destruct (IH (next + per) ix1) as (ix' & E & Hc' & H'); rewrite ?Hc; try done; fold per; [lia|lia|right; split; [lia|done]|intros num Hnum; apply Hready; lia|].
    rewrite Hc in E, H'. fold per in E, H'. replace (next + per + Z.of_nat rounds * per - 1) with last in E, H' by (unfold last; nia).
    exists ix'. split; [done|]. split; [congruence|done].
Qed.

(** ** Ticks and restarts *)
Inductive indexer_op : Type := Tick (node : rpcNode) | Restart.

Definition indexer_step (ix : Indexer) (o : indexer_op) : Indexer :=
  match o with Tick node => fst (catchUp topic0 node ix) | Restart => New (ix_cfg ix) (ix_store ix) end.

Definition op_truthful (o : indexer_op) : Prop := match o with Tick node => truthful node | Restart => True end.

Lemma indexer_runs_upto next ix ops : 0 <= next → upto next ix → indexer_defaults (ix_cfg ix) = ix_cfg ix → Forall op_truthful ops →
  ∃ next', next <= next' ∧ upto next' (foldl indexer_step ix ops) ∧ ix_cfg (foldl indexer_step ix ops) = ix_cfg ix.
Proof.
  intros H0 Hu Hd Hops. revert next ix H0 Hu Hd. induction Hops as [|o ops Ho _ IH]; intros next ix H0 Hu Hd; [exists next; split_and!; [lia|done|done]|].
  cbn [foldl]. assert (∃ n1, next <= n1 ∧ upto n1 (indexer_step ix o) ∧ ix_cfg (indexer_step ix o) = ix_cfg ix) as (n1 & Hle1 & Hu1 & Hc1).
  { destruct o as [node|]; cbn [indexer_step].
    - destruct (catchUp topic0 node ix) as [ix1 r] eqn:E. apply (catchUp_spec node next) in E as (Hc & n1 & Hle & Hu1 & _); [|done..].
      exists n1. by split_and!.
    - exists next. split_and!; [lia|by apply New_upto|exact Hd]. }
  destruct (IH n1 (indexer_step ix o)) as (n2 & Hle2 & Hu2 & Hc2); [lia|done|congruence|]. exists n2. split_and!; [lia|done|congruence].
Qed.
End Complete.

Lemma indexer_defaults_twice c : indexer_defaults (indexer_defaults c) = indexer_defaults c.
Proof. unfold indexer_defaults. cbn. f_equal. destruct (Z.leb_spec (ic_MaxBlocksPerTick c) 0); [done|]. by rewrite (proj2 (Z.leb_gt _ _)). Qed.

(** What a fresh indexer has stored after any ticks and restarts. *)
Lemma fresh_upto topic0 chain receipts cfg ops : one_block chain → 0 <= ic_StartBlock cfg → Forall (op_truthful chain receipts) ops →
  let ix := foldl (indexer_step topic0) (New cfg OpenStore) ops in
  ix_cfg ix = indexer_defaults cfg ∧ ∃ next, ic_StartBlock cfg <= next ∧ upto topic0 chain receipts next ix.
Proof.
  intros Hone H0 Hops ix.
  destruct (indexer_runs_upto topic0 chain receipts Hone (ic_StartBlock cfg) (New cfg OpenStore) ops) as (next & Hle & Hu & Hc); [done| |apply indexer_defaults_twice|done|].
  - split; [cbn; lia|]. by left.
  - split; [exact Hc|]. by exists next.
Qed.

(** C24. The indexer never claims more than it has stored: after any sequence
    of ticks against nodes that may fail at any request, and of restarts, the
    remembered tip is the one it reports, and every block from the first up to
    that tip has its row, with the timestamp, gas and transaction count of the
    chain, and a row for each of its transactions and token transfers.  What a
    node does answer is true to the chain: a missing receipt, too, is reported
    only when there is none. *)
Theorem index_never_ahead topic0 chain receipts cfg ops :
  one_block chain → 0 <= ic_StartBlock cfg → Forall (op_truthful chain receipts) ops →
  let ix := foldl (indexer_step topic0) (New cfg OpenStore) ops in
  match getMeta lastIndexedKey (ix_store ix) with
  | None => ix_indexed ix = 0
  | Some _ => LastIndexedBlock (ix_store ix) = Ok (ix_indexed ix) ∧ ic_StartBlock cfg <= ix_indexed ix < 2 ^ 63 ∧
      ∀ num, ic_StartBlock cfg <= num <= ix_indexed ix → block_stored topic0 chain receipts num (ix_store ix)
  end.
Proof.
  intros Hone H0 Hops ix. destruct (fresh_upto topic0 chain receipts cfg ops) as (Hc & next & Hle & Hst & Hpos); [done..|]. fold ix in Hc, Hst, Hpos.
  rewrite Hc in Hst, Hpos. cbn [indexer_defaults ic_StartBlock] in Hst, Hpos. unfold getMeta. destruct Hpos as [(-> & _ & ->)|(Hm & Hb & ->)]; [done|].
  unfold remembers in Hm. rewrite Hm. split_and!; [|lia|lia|].
  - apply LastIndexedBlock_remembers; [unfold is_u64; lia|done].
  - intros num Hnum. apply Hst. lia.
Qed.

(** C25. The indexer catches up: from whatever earlier ticks and restarts left,
    a catch-up against a node that answers for the blocks up to its tip indexes
    ten thousand batches or up to the tip, whichever is less.  Every block up
    to there is stored and remembered; in the second case it ends without error
    and without lag, in the first with the error that tells so.  Excepted is an
    indexer of one block per tick that has yet to index block 0: it takes that
    round for no progress. *)
Theorem indexer_catches_up topic0 chain receipts cfg ops node tip :
  one_block chain → 0 <= ic_StartBlock cfg <= tip → tip < 2 ^ 63 → Forall (op_truthful chain receipts) ops →
  truthful chain receipts node → rn_blockNumber node = Ok tip → (∀ num, ic_StartBlock cfg <= num <= tip → ready node num) →
  let ix := foldl (indexer_step topic0) (New cfg OpenStore) ops in let per := ic_MaxBlocksPerTick (indexer_defaults cfg) in
  ix_indexed ix <= tip → 1 < per ∨ 0 < next_block ix →
  let last := next_block ix + 10000 * per - 1 in
  ∃ ix', CatchUpOnce topic0 catchUpRounds node ix =
      (ix', if tip <=? last then Ok tt else Err "indexer: catch-up exceeded rounds") ∧
    ix_indexed ix' = Z.min tip last ∧ lag ix' = tip - Z.min tip last ∧ LastIndexedBlock (ix_store ix') = Ok (Z.min tip last) ∧
    ∀ num, ic_StartBlock cfg <= num <= Z.min tip last → block_stored topic0 chain receipts num (ix_store ix').
Proof.
  intros Hone Hst Hlt Hops Ht Htip Hready ix per Hix Hmove last.
  destruct (fresh_upto topic0 chain receipts cfg ops) as (Hc & next & Hle & Hu); [done|lia|done|]. fold ix in Hc, Hu.
  unfold last in *. rewrite (upto_next_block _ _ _ _ _ Hu) in *. clear last.
  assert (1 <= per) as H1.
  { unfold per, indexer_defaults. cbn. destruct (Z.leb_spec (ic_MaxBlocksPerTick cfg) 0); lia. }
  assert (ic_StartBlock cfg <= next <= tip + 1) as Hn.
  { destruct Hu as [_ [(_ & -> & _)|(_ & Hb & E)]]; rewrite Hc in *; cbn [indexer_defaults ic_StartBlock] in *; lia. }
  destruct (CatchUpOnce_spec topic0 chain receipts Hone catchUpRounds node next tip ix) as (ix' & E & Hc' & Ht' & Hst' & Hpos');
    rewrite ?Hc; fold per; try done; try lia; [left; unfold catchUpRounds; lia|intros num Hnum; apply Hready; lia|].
  rewrite Hc in *. fold per in E, Hst', Hpos'. unfold catchUpRounds in Hst', Hpos', E at 2. rewrite Z2Nat.id in * by lia.
  set (m := Z.min tip (next + 10000 * per - 1)) in *. rewrite Hc' in Hst', Hpos'. cbn [indexer_defaults ic_StartBlock] in Hst', Hpos'.
  assert (remembers (ix_store ix') m ∧ ix_indexed ix' = m) as [Hm Hi].
  { destruct Hpos' as [(_ & ? & _)|(Hm & _ & ->)]; [lia|]. replace (m + 1 - 1) with m in * by lia. done. }
  exists ix'. split; [exact E|]. split; [exact Hi|]. split_and!.
  - unfold lag. rewrite Hi, Ht'. destruct (Z.ltb_spec m tip); lia.
  - apply LastIndexedBlock_remembers; [unfold is_u64; lia|done].
  - intros num Hnum. apply Hst'. lia.
Qed.

(** *** A chain of two blocks, one with a token transfer *)
Definition demo_topic : list Z := str_bytes "0xdd".
Definition demo_receipt : rpcReceipt :=
  mkRpcReceipt (str_bytes "0x1") (str_bytes "0x5208") (str_bytes "0x0")
    [mkRpcLog (str_bytes "0xee") [str_bytes "0xDD"; str_bytes "0x01"; str_bytes "0x02"] (str_bytes "0x05") (str_bytes "0x0")] (str_bytes "0xaa") None.
Definition demo_chain (num : Z) : option rpcBlock :=
  if num =? 0 then Some (mkRpcBlock (str_bytes "0xa0") (str_bytes "0x1") (str_bytes "0x0") (TxHashes [])) else
  if num =? 1 then Some (mkRpcBlock (str_bytes "0xa1") (str_bytes "0x2") (str_bytes "0x5208") (TxHashes [str_bytes "0xAB"])) else None.
Definition demo_receipts (h : list Z) : option rpcReceipt := if bool_decide (h = str_bytes "0xab") then Some demo_receipt else None.
Definition demo_node : rpcNode := mkRpcNode (Ok 1) (λ num, Ok (demo_chain num)) (λ h, Ok (demo_receipts h)).
(** Knows the tip and the blocks but fails for every receipt. *)
Definition broken_node : rpcNode := mkRpcNode (Ok 1) (λ num, Ok (demo_chain num)) (λ _, Err "timeout").
Definition demo_cfg : IndexerConfig := mkIndexerConfig 0 0.

Lemma demo_one_block : one_block demo_chain.
Proof.
  assert (∀ num h, h ∈ hashes_of demo_chain num → num = 1) as H; [|intros num num' h h' H1%H H2%H; congruence].
  intros num h. unfold hashes_of, demo_chain. destruct (Z.eqb_spec num 0); [by intros ?%not_elem_of_nil|].
  destruct (Z.eqb_spec num 1); [done|by intros ?%not_elem_of_nil].
Qed.

Lemma demo_truthful : truthful demo_chain demo_receipts demo_node.
Proof. split; [by intros num b [= ->]|by intros h r [= ->]]. Qed.

Lemma broken_truthful : truthful demo_chain demo_receipts broken_node.
Proof. split; [by intros num b [= ->]|done]. Qed.

Lemma index_never_ahead_witness :
  let ix := foldl (indexer_step demo_topic) (New demo_cfg OpenStore) [Tick broken_node; Restart] in
  ix_indexed ix = 0 ∧ block_stored demo_topic demo_chain demo_receipts 0 (ix_store ix).
Proof.
  assert (Forall (op_truthful demo_chain demo_receipts) [Tick broken_node; Restart]) as Hops.
  { constructor; [exact broken_truthful|]. by constructor. }
  pose proof (index_never_ahead demo_topic demo_chain demo_receipts demo_cfg _ demo_one_block (Z.le_refl 0) Hops) as H. revert H.
  cbv zeta. set (ix := foldl _ _ _). assert (getMeta lastIndexedKey (ix_store ix) = Some [48]) as -> by (vm_compute; reflexivity).
  assert (ix_indexed ix = 0) as -> by (vm_compute; reflexivity). intros (_ & _ & H). split; [done|]. apply H. cbn. lia.
Defined.

Lemma indexer_catches_up_witness :
  ∃ ix', CatchUpOnce demo_topic catchUpRounds demo_node (foldl (indexer_step demo_topic) (New demo_cfg OpenStore) [Tick broken_node; Restart]) = (ix', Ok tt) ∧
    ix_indexed ix' = 1 ∧ block_stored demo_topic demo_chain demo_receipts 1 (ix_store ix').
Proof.
  assert (Forall (op_truthful demo_chain demo_receipts) [Tick broken_node; Restart]) as Hops.
  { constructor; [exact broken_truthful|]. by constructor. }
  destruct (indexer_catches_up demo_topic demo_chain demo_receipts demo_cfg [Tick broken_node; Restart] demo_node 1) as (ix' & E & Hi & _ & _ & H).
  - exact demo_one_block.
  - cbn. lia.
  - lia.
  - exact Hops.
  - exact demo_truthful.
  - reflexivity.
  - intros num Hnum. cbn [demo_cfg ic_StartBlock] in Hnum. assert (num = 0 ∨ num = 1) as [-> | ->] by lia.
    + eexists _, 1, 0, []. split_and!; [reflexivity|reflexivity|lia|reflexivity|lia|reflexivity|by constructor].
    + eexists _, 2, 21000, _. split_and!; [reflexivity|reflexivity|lia|reflexivity|lia|reflexivity|]. constructor; [|by constructor].
      exists (Some demo_receipt). split; [vm_compute; reflexivity|]. intros r [= <-]. split.
      * intros g. assert (parseHexUint64 (rr_GasUsed demo_receipt) = Ok 21000) as -> by (vm_compute; reflexivity). intros [= <-]. lia.
      * constructor; [by exists 0|by constructor].
  - vm_compute. discriminate.
  - left. cbn. lia.
  - assert (next_block (foldl (indexer_step demo_topic) (New demo_cfg OpenStore) [Tick broken_node; Restart]) = 1) as Hn
      by (vm_compute; reflexivity).
    rewrite Hn in E, Hi, H. exists ix'. split; [exact E|]. split; [exact Hi|]. apply H. cbn. lia.
Defined.
