(* ===== verification/Faucet.v ===== *)
(** * The faucet

    Models [faucet/rate.go], [faucet/config.go], [faucet/address.go],
    [faucet/sender.go] and the drip handler of [faucet/server.go].  The clock,
    the captcha service and the node behind the faucet are what one request
    meets, given as an argument; go-ethereum's address and transaction code is
    a parameter.  Time is in nanoseconds; an amount in an error message is left
    out of its text. *)
From stdpp Require Import strings.
From S2P Require Import Prelude Types P2PHost Rpc RpcProps.

(** ** Rate limits ([Limiter]) *)
Record windowCount : Type := mkWindowCount { wc_start : Z; wc_count : Z }.

Record Limiter : Type := mkLimiter { lm_limit : Z; lm_window : Z; lm_entries : gmap (list Z) windowCount }.

Definition NewLimiter (limit window : Z) : Limiter := mkLimiter limit window ∅.

Definition set_entry (key : list Z) (e : windowCount) (l : Limiter) : Limiter :=
  mkLimiter (lm_limit l) (lm_window l) (<[key := e]> (lm_entries l)).

Definition Allow (now : Z) (key : list Z) (l : Limiter) : Limiter * bool :=
  match lm_entries l !! key with
  | None => (set_entry key (mkWindowCount now 1) l, true)
  | Some e =>
      if lm_window l <=? now - wc_start e then (set_entry key (mkWindowCount now 1) l, true) else
      if lm_limit l <=? wc_count e then (l, false)
      else (set_entry key (mkWindowCount (wc_start e) (wc_count e + 1)) l, true)
  end.

Definition Remaining (now : Z) (key : list Z) (l : Limiter) : Z :=
  match lm_entries l !! key with
  | None => lm_limit l
  | Some e =>
      if lm_window l <=? now - wc_start e then lm_limit l else
      let left := lm_limit l - wc_count e in if left <? 0 then 0 else left
  end.

(** ** Configuration *)
Inductive Mode : Type := ModeAllowlist | ModeCaptcha | ModeDev | ModeUnknown.
#[export] Instance Mode_eq_dec : EqDecision Mode.
Proof. solve_decision. Defined.

Inductive CaptchaProvider : Type := CaptchaNone | CaptchaTurnstile | CaptchaHCaptcha | CaptchaUnknown.
#[export] Instance CaptchaProvider_eq_dec : EqDecision CaptchaProvider.
Proof. solve_decision. Defined.

Definition AnvilAccount0PrivHex : list Z := str_bytes "ac0974bec39a17e36ba4a6b4d238ff944bacb478cbed5efcae784d7bf4f2ff80".

Definition DefaultMaxRequestBody : Z := 8 * 2 ^ 10.
Definition hour : Z := 3600 * second.

Record Config : Type := mkConfig {
  cf_ListenAddr : list Z;
  cf_RPCURL : list Z;
  cf_ChainID : Z;
  cf_PrivateKeyHex : list Z;
  cf_AmountWei : option Z;
  cf_Mode : Mode;
  cf_AllowlistPath : list Z;
  cf_CaptchaProvider : CaptchaProvider;
  cf_CaptchaSecret : list Z;
  cf_PerAddress : Z;
  cf_PerAddressWindow : Z;
  cf_PerIP : Z;
  cf_PerIPWindow : Z;
  cf_GasLimit : Z;
  cf_GasPriceWei : option Z;
  cf_AllowAnvilKey : bool;
  cf_MaxRequestBody : Z;
  cf_TrustedProxy : bool;
}.

Definition DefaultConfig : Config :=
  mkConfig (str_bytes "127.0.0.1:8080") (str_bytes "http://127.0.0.1:8545") 2205 [] (Some (10 ^ 18)) ModeAllowlist [] CaptchaNone []
    1 (24 * hour) 10 hour 21000 (Some (1 * 1000000000)) false DefaultMaxRequestBody false.

Definition normalizePrivHex (s : list Z) : list Z := map lower (TrimPrefix OX (TrimPrefix ox (TrimSpace s))).

Definition is_blank (s : list Z) : bool := match TrimSpace s with [] => true | _ => false end.
Definition not_positive (x : option Z) : bool := match x with Some x => x <=? 0 | None => true end.

(** [Validate], which also sets the default of the body limit. *)
Definition Validate (c : Config) : res Config :=
  if is_blank (cf_ListenAddr c) then Err "faucet: listen address required" else
  if is_blank (cf_RPCURL c) then Err "faucet: RPC URL required" else
  if cf_ChainID c =? 0 then Err "faucet: chain ID required" else
  if is_blank (cf_PrivateKeyHex c) then Err "faucet: private key required" else
  if not_positive (cf_AmountWei c) then Err "faucet: amount must be positive" else
  if cf_GasLimit c =? 0 then Err "faucet: gas limit required" else
  if not_positive (cf_GasPriceWei c) then Err "faucet: gas price must be positive" else
  if (cf_PerAddress c <=? 0) || (cf_PerAddressWindow c <=? 0) then Err "faucet: per-address rate limit must be positive" else
  if (cf_PerIP c <=? 0) || (cf_PerIPWindow c <=? 0) then Err "faucet: per-IP rate limit must be positive" else
  let body := if cf_MaxRequestBody c <=? 0 then DefaultMaxRequestBody else cf_MaxRequestBody c in
  let c := mkConfig (cf_ListenAddr c) (cf_RPCURL c) (cf_ChainID c) (cf_PrivateKeyHex c) (cf_AmountWei c) (cf_Mode c) (cf_AllowlistPath c)
    (cf_CaptchaProvider c) (cf_CaptchaSecret c) (cf_PerAddress c) (cf_PerAddressWindow c) (cf_PerIP c) (cf_PerIPWindow c) (cf_GasLimit c)
    (cf_GasPriceWei c) (cf_AllowAnvilKey c) body (cf_TrustedProxy c) in
  if negb (cf_AllowAnvilKey c) && bool_decide (normalizePrivHex (cf_PrivateKeyHex c) = AnvilAccount0PrivHex) then Err "faucet: Anvil #0 key refused" else
  match cf_Mode c with
  | ModeAllowlist => if is_blank (cf_AllowlistPath c) then Err "faucet: allowlist mode requires AllowlistPath" else Ok c
  | ModeCaptcha =>
      if negb (bool_decide (cf_CaptchaProvider c = CaptchaTurnstile)) && negb (bool_decide (cf_CaptchaProvider c = CaptchaHCaptcha))
      then Err "faucet: captcha mode requires provider turnstile or hcaptcha" else
      if is_blank (cf_CaptchaSecret c) then Err "faucet: captcha mode requires CaptchaSecret" else Ok c
  | ModeDev => Ok c
  | ModeUnknown => Err "faucet: unknown mode"
  end.

(** ** Addresses *)
Class EthAddress := {
  IsHexAddress : list Z → bool;
  HexToAddress : list Z → Address;
  Address_Hex : Address → list Z;
}.

(** An address printed in hexadecimal, in either case, has no space and reads
    back as itself. *)
Class EthAddressLaws `{EthAddress} : Prop := {
  hex_reads_back s : HexToAddress (map lower (Address_Hex (HexToAddress s))) = HexToAddress s;
  hex_no_space a : TrimSpace (map lower (Address_Hex a)) = map lower (Address_Hex a);
}.

Section Faucet.
Context `{EthAddress}.

Definition normalizeAddress (s : list Z) : res (list Z) :=
  let s := TrimSpace s in
  if negb (IsHexAddress s) then Err "invalid address" else Ok (map lower (Address_Hex (HexToAddress s))).

Definition ch_hash : Z := 35.
Definition ch_newline : Z := 10.

(** The text before the first [c]. *)
Fixpoint until (c : Z) (s : list Z) : list Z :=
  match s with [] => [] | x :: s => if x =? c then [] else x :: until c s end.

(** [strings.Split] at a character. *)
Fixpoint Split (c : Z) (s : list Z) : list (list Z) :=
  match s with
  | [] => [[]]
  | x :: s => if x =? c then [] :: Split c s else match Split c s with l :: r => (x :: l) :: r | [] => [[x]] end
  end.

Fixpoint allow_lines (lines : list (list Z)) (out : gset (list Z)) : res (gset (list Z)) :=
  match lines with
  | [] => Ok out
  | line :: lines =>
      let line := TrimSpace line in
      if bool_decide (line = []) || HasPrefix [ch_hash] line then allow_lines lines out else
      let line := if bool_decide (ch_hash ∈ line) then TrimSpace (until ch_hash line) else line in
      let? addr := normalizeAddress line in allow_lines lines ({[addr]} ∪ out)
  end.

(** [LoadAllowlistFile]; [raw] is the content of the file. *)
Definition LoadAllowlistFile (raw : res (list Z)) : res (gset (list Z)) :=
  let? raw := raw in allow_lines (Split ch_newline raw) ∅.

(** ** The sender *)
Record LegacyTx : Type := mkLegacyTx { lt_Nonce : Z; lt_GasPrice : Z; lt_Gas : Z; lt_To : Address; lt_Value : Z }.

Record Chain : Type := mkChain {
  ch_ChainID : res Z;
  ch_Nonce : list Z → res Z;
  ch_BalanceWei : list Z → res Z;
  ch_SendRaw : list Z → res (list Z);
}.

Context {PrivateKey SignedTx : Type}.
Context (SignTx : LegacyTx → Z → PrivateKey → res SignedTx) (MarshalBinary : SignedTx → res (list Z)).

Record Sender : Type := mkSender { sd_key : PrivateKey; sd_from : Address; sd_chainID : Z; sd_amount : Z; sd_gas : Z; sd_gasPrice : Z }.

Definition NewSender (HexToECDSA : list Z → res PrivateKey) (key_address : PrivateKey → Address)
    (privHex : list Z) (chainID amount gasPrice gas : Z) : res Sender :=
  let? key := HexToECDSA (normalizePrivHex privHex) in
  Ok (mkSender key (key_address key) chainID amount gas gasPrice).

Record DripResult : Type := mkDripResult { dr_TxHash : list Z; dr_From : list Z; dr_To : list Z; dr_Amount : Z }.

Definition wrap {A} (prefix : string) (r : res A) : res A := match r with Ok a => Ok a | Err e => Err (prefix ++ e)%string end.

(** The transfer a drip submits. *)
Definition drip_tx (s : Sender) (to : Address) (nonce : Z) : LegacyTx := mkLegacyTx nonce (sd_gasPrice s) (sd_gas s) to (sd_amount s).

(** Everything of [Drip] before the submission: the transaction and its bytes. *)
Definition prepare (chain : Chain) (s : Sender) (to : Address) : res (LegacyTx * list Z) :=
  let? gotID := wrap "chain id: " (ch_ChainID chain) in
  if negb (gotID =? sd_chainID s) then Err "wrong chain id" else
  let? bal := wrap "faucet balance: " (ch_BalanceWei chain (Address_Hex (sd_from s))) in
  let cost := sd_gasPrice s * sd_gas s in
  let need := sd_amount s + cost in
  if bal <? need then Err "faucet underfunded" else
  let? nonce := wrap "nonce: " (ch_Nonce chain (Address_Hex (sd_from s))) in
  let tx := drip_tx s to nonce in
  let? signed := wrap "sign: " (SignTx tx (sd_chainID s) (sd_key s)) in
  let? raw := MarshalBinary signed in
  Ok (tx, raw).

(** [Drip], with the transaction it submitted, if any. *)
Definition Drip (chain : Chain) (s : Sender) (toHex : list Z) : res DripResult * option LegacyTx :=
  match wrap "invalid recipient: " (normalizeAddress toHex) with
  | Err e => (Err e, None)
  | Ok toNorm =>
      let to := HexToAddress toNorm in
      match prepare chain s to with
      | Err e => (Err e, None)
      | Ok (tx, raw) =>
          (let? hash := wrap "send: " (ch_SendRaw chain raw) in
           Ok (mkDripResult hash (Address_Hex (sd_from s)) (Address_Hex to) (sd_amount s)), Some tx)
      end
  end.

(** ** The server *)
Record Server : Type := mkServer {
  sv_cfg : Config;
  sv_sender : Sender;
  sv_addrLim : Limiter;
  sv_ipLim : Limiter;
  sv_allow : gset (list Z);
  sv_captcha : bool;
}.

(** [captcha] tells whether a verifier was given. *)
Definition NewServer (cfg : Config) (sender : option Sender) (captcha : bool) (allowlist : gset (list Z)) : res Server :=
  let? cfg := Validate cfg in
  match sender with
  | None => Err "faucet: sender required"
  | Some sender =>
      if bool_decide (cf_Mode cfg = ModeCaptcha) && negb captcha then Err "faucet: captcha verifier required in captcha mode" else
      Ok (mkServer cfg sender (NewLimiter (cf_PerAddress cfg) (cf_PerAddressWindow cfg)) (NewLimiter (cf_PerIP cfg) (cf_PerIPWindow cfg)) allowlist captcha)
  end.

(** A request: its body if it is one the handler decodes, its headers (empty
    when absent) and its connection. *)
Record dripRequest : Type := mkDripRequest { dq_Address : list Z; dq_CaptchaToken : list Z }.
Record Request : Type := mkRequest { rq_body : option dripRequest; rq_forwardedFor : list Z; rq_realIP : list Z; rq_RemoteAddr : list Z }.

Definition ch_comma : Z := 44.

Definition clientIP (r : Request) (trustProxy : bool) : list Z :=
  let direct := match SplitHostPort (rq_RemoteAddr r) with Ok (host, _) => host | Err _ => rq_RemoteAddr r end in
  if trustProxy then
    match rq_forwardedFor r with
    | _ :: _ => TrimSpace (default [] (head (Split ch_comma (rq_forwardedFor r))))
    | [] => match rq_realIP r with _ :: _ => TrimSpace (rq_realIP r) | [] => direct end
    end
  else direct.

(** What a request meets: the two readings of the clock, the answers of the
    captcha service and of the node. *)
Record World : Type := mkWorld { wd_ipTime : Z; wd_addrTime : Z; wd_captcha : list Z → list Z → res unit; wd_chain : Chain }.

Inductive Response : Type := Paid (r : DripResult) | Refused (status : Z) (msg : string).

Definition Contains (s sub : string) : bool := match String.index 0 sub s with Some _ => true | None => false end.

Definition drip_refusal (e : string) : Response :=
  let msg := if Contains e "underfunded" then "faucet underfunded"
             else if Contains e "wrong chain" then "wrong chain id"
             else if Contains e "invalid recipient" then "invalid address" else "transfer failed" in
  Refused (if Contains msg "underfunded" then 503 else 502) msg.

(** The policy of the mode, before the limits. *)
Definition admission (s : Server) (w : World) (addr token ip : list Z) : option Response :=
  match cf_Mode (sv_cfg s) with
  | ModeAllowlist => if bool_decide (addr ∈ sv_allow s) then None else Some (Refused 403 "address not on allowlist")
  | ModeCaptcha =>
      if negb (sv_captcha s) then Some (Refused 500 "captcha not configured") else
      match wd_captcha w token ip with Ok _ => None | Err _ => Some (Refused 403 "captcha verification failed") end
  | ModeDev | ModeUnknown => None
  end.

Definition with_limits (addrLim ipLim : Limiter) (s : Server) : Server :=
  mkServer (sv_cfg s) (sv_sender s) addrLim ipLim (sv_allow s) (sv_captcha s).

(** [handleDrip]; the transaction submitted comes with the response. *)
Definition handleDrip (w : World) (r : Request) (s : Server) : Server * Response * option LegacyTx :=
  match rq_body r with
  | None => (s, Refused 400 "invalid json body", None)
  | Some req =>
      match normalizeAddress (dq_Address req) with
      | Err _ => (s, Refused 400 "invalid address", None)
      | Ok addr =>
          let ip := clientIP r (cf_TrustedProxy (sv_cfg s)) in
          match admission s w addr (dq_CaptchaToken req) ip with
          | Some refused => (s, refused, None)
          | None =>
              let (ipLim, ok) := Allow (wd_ipTime w) ip (sv_ipLim s) in
              let s := with_limits (sv_addrLim s) ipLim s in
              if negb ok then (s, Refused 429 "rate limit: IP", None) else
              let (addrLim, ok) := Allow (wd_addrTime w) addr (sv_addrLim s) in
              let s := with_limits addrLim (sv_ipLim s) s in
              if negb ok then (s, Refused 429 "rate limit: address", None) else
              match Drip (wd_chain w) (sv_sender s) addr with
              | (Err e, sent) => (s, drip_refusal e, sent)
              | (Ok res, sent) => (s, Paid res, sent)
              end
          end
      end
  end.

(** A transfer the faucet submitted, with the request it answers. *)
Record Transfer : Type := mkTransfer { tf_world : World; tf_request : Request; tf_tx : LegacyTx }.

Fixpoint serve (l : list (World * Request)) (s : Server) : Server * list Transfer :=
  match l with
  | [] => (s, [])
  | (w, r) :: l =>
      let '(s, _, sent) := handleDrip w r s in
      let (s, log) := serve l s in
      (s, match sent with Some tx => mkTransfer w r tx :: log | None => log end)
  end.

(** ** The limits hold *)

(** For one key and the window from [t]: [e] is the entry of the key, [cnt]
    what it got in the window and [last] the last reading of the clock.  The
    events of a key lie in windows at least one length apart, so at most two
    of them meet any window, and the earlier one starts outside it. *)
Definition limited (L W t : Z) (e : option windowCount) (cnt last : Z) : Prop :=
  0 <= cnt <= 2 * L - 1 ∧ (last < t → cnt = 0) ∧
  (last < t + W → match e with
    | None => cnt = 0
    | Some e => wc_start e <= last ∧ 1 <= wc_count e <= L ∧ (wc_start e < t → cnt <= wc_count e - 1) ∧
        (t <= wc_start e → cnt <= L - 1 + wc_count e)
    end).

Definition hit (t W now : Z) (b : bool) : Z := if b && (t <=? now) && (now <? t + W) then 1 else 0.

Lemma limited_event L W t e cnt last now : 1 <= L → 1 <= W → last <= now → limited L W t e cnt last →
  (match e with None => True | Some e => W <= now - wc_start e end → limited L W t (Some (mkWindowCount now 1)) (cnt + hit t W now true) now) ∧
  (∀ e0, e = Some e0 → now - wc_start e0 < W → wc_count e0 < L →
     limited L W t (Some (mkWindowCount (wc_start e0) (wc_count e0 + 1))) (cnt + hit t W now true) now) ∧
  limited L W t e cnt now.
Proof.
  intros HL HW Hn (H1 & H2 & H3). unfold limited, hit. cbn [andb wc_start wc_count].
  destruct (Z.leb_spec t now), (Z.ltb_spec now (t + W)); cbn [andb].
  all: split; [|split]; [destruct e as [[st c]|]; cbn [wc_start wc_count] in *; lia|..].
  all: try (destruct e as [[st c]|]; cbn [wc_start wc_count] in *; lia).
  all: intros [st c] -> Hw Hc; cbn [wc_start wc_count] in *; lia.
Qed.

Lemma limited_less L W t e cnt cnt' last : 0 <= cnt' <= cnt → limited L W t e cnt last → limited L W t e cnt' last.
Proof. intros Hc (H1 & H2 & H3). unfold limited. destruct e as [[st c]|]; cbn [wc_start wc_count] in *; lia. Qed.

(** One call of [Allow] and the count of one key. *)
Lemma Allow_limited L W t key k cnt last now l : 1 <= L → 1 <= W → last <= now → lm_limit l = L → lm_window l = W →
  limited L W t (lm_entries l !! key) cnt last →
  let '(l', ok) := Allow now k l in
  lm_limit l' = L ∧ lm_window l' = W ∧
  limited L W t (lm_entries l' !! key) (cnt + (if bool_decide (k = key) then hit t W now ok else 0)) now.
Proof.
  intros HL HW Hn El Ew Hlim. destruct (limited_event L W t _ cnt last now HL HW Hn Hlim) as (Hnew & Hmore & Hsame).
  unfold Allow. rewrite El, Ew. case_bool_decide as Hk.
  - subst k. destruct (lm_entries l !! key) as [e|] eqn:Ee.
    + destruct (Z.leb_spec W (now - wc_start e)) as [Hw|Hw].
      * cbn. rewrite lookup_insert_eq. auto.
      * destruct (Z.leb_spec L (wc_count e)).
        -- unfold hit. cbn [andb]. rewrite Ee, Z.add_0_r. auto.
        -- cbn. rewrite lookup_insert_eq. auto.
    + cbn. rewrite lookup_insert_eq. auto.
  - rewrite Z.add_0_r. destruct (lm_entries l !! k) as [e|]; [|cbn; rewrite lookup_insert_ne by done; auto].
    destruct (W <=? _); [cbn; rewrite lookup_insert_ne by done; auto|].
    destruct (L <=? _); [auto|cbn; rewrite lookup_insert_ne by done; auto].
Qed.

Lemma Allow_Remaining now k l : 1 <= lm_limit l → snd (Allow now k l) = bool_decide (0 < Remaining now k l).
Proof.
  intros HL. unfold Allow, Remaining. destruct (lm_entries l !! k) as [e|]; [|cbn; by rewrite bool_decide_eq_true_2 by lia].
  destruct (lm_window l <=? _); [cbn; by rewrite bool_decide_eq_true_2 by lia|].
  destruct (Z.leb_spec (lm_limit l) (wc_count e)), (Z.ltb_spec (lm_limit l - wc_count e) 0); cbn;
    by (rewrite bool_decide_eq_true_2 by lia) || (rewrite bool_decide_eq_false_2 by lia).
Qed.

(** *** What one request does *)
Context `{!EthAddressLaws}.

Definition address_key (a : Address) : list Z := map lower (Address_Hex a).

Lemma normalizeAddress_key s addr : normalizeAddress s = Ok addr → addr = address_key (HexToAddress addr) ∧ TrimSpace addr = addr.
Proof.
  unfold normalizeAddress, address_key. destruct (negb _); [done|]. intros [= <-]. by rewrite hex_reads_back, hex_no_space.
Qed.

Definition funded (s : Sender) (x : Transfer) : Prop :=
  tf_tx x = drip_tx s (lt_To (tf_tx x)) (lt_Nonce (tf_tx x)) ∧
  ch_ChainID (wd_chain (tf_world x)) = Ok (sd_chainID s) ∧
  ch_Nonce (wd_chain (tf_world x)) (Address_Hex (sd_from s)) = Ok (lt_Nonce (tf_tx x)) ∧
  ∃ bal, ch_BalanceWei (wd_chain (tf_world x)) (Address_Hex (sd_from s)) = Ok bal ∧ sd_amount s + sd_gasPrice s * sd_gas s <= bal.

Lemma wrap_Ok {A} p (r : res A) a : wrap p r = Ok a → r = Ok a.
Proof. by destruct r. Qed.

Lemma prepare_funded w r s to tx raw : prepare (wd_chain w) s to = Ok (tx, raw) → lt_To tx = to ∧ funded s (mkTransfer w r tx).
Proof.
  unfold prepare. destruct (wrap _ (ch_ChainID _)) as [id|] eqn:Ei; [|done]. apply wrap_Ok in Ei. cbn [rbind].
  destruct (Z.eqb_spec id (sd_chainID s)) as [->|]; [|done]. cbn [negb].
  destruct (wrap _ (ch_BalanceWei _ _)) as [bal|] eqn:Eb; [|done]. apply wrap_Ok in Eb. cbn [rbind].
  destruct (Z.ltb_spec bal (sd_amount s + sd_gasPrice s * sd_gas s)); [done|].
  destruct (wrap _ (ch_Nonce _ _)) as [nonce|] eqn:En; [|done]. apply wrap_Ok in En. cbn [rbind].
  destruct (wrap _ (SignTx _ _ _)) as [signed|]; [|done]. cbn [rbind]. destruct (MarshalBinary signed); [|done]. cbn [rbind]. intros [= <- <-].
  split; [done|]. split_and!; [done|done|done|]. eauto.
Qed.

Lemma Drip_sent w r s addr res tx : TrimSpace addr = addr → Drip (wd_chain w) s addr = (res, Some tx) →
  lt_To tx = HexToAddress addr ∧ funded s (mkTransfer w r tx).
Proof.
  intros Hsp. unfold Drip, normalizeAddress. rewrite Hsp. destruct (negb _); [done|]. cbn [wrap]. rewrite hex_reads_back.
  destruct (prepare _ _ _) as [[tx' raw]|e] eqn:E; [|done]. intros [= _ <-]. by eapply prepare_funded.
Qed.

(** The request of a transfer was admitted by the mode of the server. *)
Definition admitted (s : Server) (x : Transfer) : Prop :=
  ∃ req addr, rq_body (tf_request x) = Some req ∧ normalizeAddress (dq_Address req) = Ok addr ∧ lt_To (tf_tx x) = HexToAddress addr ∧
    (cf_Mode (sv_cfg s) = ModeAllowlist → addr ∈ sv_allow s) ∧
    (cf_Mode (sv_cfg s) = ModeCaptcha → wd_captcha (tf_world x) (dq_CaptchaToken req) (clientIP (tf_request x) (cf_TrustedProxy (sv_cfg s))) = Ok tt).

Record same_server (s s' : Server) : Prop := { ss_cfg : sv_cfg s' = sv_cfg s; ss_sender : sv_sender s' = sv_sender s; ss_allow : sv_allow s' = sv_allow s }.

Lemma admission_None s w addr token ip : admission s w addr token ip = None →
  (cf_Mode (sv_cfg s) = ModeAllowlist → addr ∈ sv_allow s) ∧ (cf_Mode (sv_cfg s) = ModeCaptcha → wd_captcha w token ip = Ok tt).
Proof.
  unfold admission. destruct (cf_Mode (sv_cfg s)); [case_bool_decide; [by split|done]| |by split|by split].
  destruct (negb _); [done|]. destruct (wd_captcha w token ip) as [[]|]; by split.
Qed.

(** What a request does to the limits, and what it sends. *)
Lemma handleDrip_spec w r s s' resp sent : handleDrip w r s = (s', resp, sent) →
  same_server s s' ∧ (∀ tx, sent = Some tx → admitted s (mkTransfer w r tx) ∧ funded (sv_sender s) (mkTransfer w r tx)) ∧
  ((sv_ipLim s' = sv_ipLim s ∧ sent = None) ∨
   ∃ ok, Allow (wd_ipTime w) (clientIP r (cf_TrustedProxy (sv_cfg s))) (sv_ipLim s) = (sv_ipLim s', ok) ∧ (∀ tx, sent = Some tx → ok = true)) ∧
  ((sv_addrLim s' = sv_addrLim s ∧ sent = None) ∨
   ∃ addr ok, Allow (wd_addrTime w) addr (sv_addrLim s) = (sv_addrLim s', ok) ∧
     (∀ tx, sent = Some tx → ok = true ∧ address_key (lt_To tx) = addr)).
Proof.
  unfold handleDrip. destruct (rq_body r) as [req|] eqn:Eb; [|intros [= <- <- <-]; split_and!; [done|done|by left|by left]].
  destruct (normalizeAddress (dq_Address req)) as [addr|e] eqn:En; [|intros [= <- <- <-]; split_and!; [done|done|by left|by left]].
  set (ip := clientIP r _). destruct (admission s w addr _ ip) as [refused|] eqn:Ead; [intros [= <- <- <-]; split_and!; [done|done|by left|by left]|].
  destruct (Allow (wd_ipTime w) ip (sv_ipLim s)) as [ipLim ok1] eqn:E1. destruct ok1; cbn [negb].
  2: { intros [= <- <- <-]. split_and!; [done|done|right; by exists false|by left]. }
  cbn [with_limits sv_addrLim]. destruct (Allow (wd_addrTime w) addr (sv_addrLim s)) as [addrLim ok2] eqn:E2. destruct ok2; cbn [negb].
  2: { intros [= <- <- <-]. split_and!; [done|done|right; by exists true|right; by exists addr, false]. }
  destruct (Drip _ _ addr) as [res sent'] eqn:Ed. intros Heq. assert (s' = with_limits addrLim ipLim s ∧ sent = sent') as [-> ->] by (by destruct res; simplify_eq).
  destruct (normalizeAddress_key _ _ En) as [Hk Hsp]. apply admission_None in Ead.
  assert (∀ tx, sent' = Some tx → lt_To tx = HexToAddress addr ∧ funded (sv_sender s) (mkTransfer w r tx)) as Hsent.
  { intros tx ->. by eapply Drip_sent. }
  split_and!; [done| |right; by exists true|right; exists addr, true; split; [done|]].
  - intros tx Htx. destruct (Hsent tx Htx) as [Hto Hf]. split; [|done]. exists req, addr. by destruct Ead.
  - intros tx Htx. destruct (Hsent tx Htx) as [-> _]. by rewrite <- Hk.
Qed.

(** A limiter of the server, the clock it reads and the key a transfer has in it. *)
Section OneLimiter.
Context (cfg : Config) (lim : Server → Limiter) (time : World → Z) (keyof : Transfer → list Z).
Context (step : ∀ w r s s' resp sent, sv_cfg s = cfg → handleDrip w r s = (s', resp, sent) →
  (lim s' = lim s ∧ sent = None) ∨
  ∃ k ok, Allow (time w) k (lim s) = (lim s', ok) ∧ ∀ tx, sent = Some tx → ok = true ∧ keyof (mkTransfer w r tx) = k).

(** The transfers of [key] in the window from [t]. *)
Definition got (key : list Z) (t W : Z) (log : list Transfer) : Z :=
  Z.of_nat (length (filter (λ x, keyof x = key ∧ t <= time (tf_world x) < t + W) log)).

Lemma got_cons key t W x log :
  got key t W (x :: log) = (if bool_decide (keyof x = key) then hit t W (time (tf_world x)) true else 0) + got key t W log.
Proof.
  unfold got, hit. rewrite filter_cons. cbn [andb]. case_bool_decide as Hk; destruct (decide _) as [Hd|Hd].
  - rewrite (proj2 (Z.leb_le _ _)), (proj2 (Z.ltb_lt _ _)) by lia. cbn. lia.
  - destruct (Z.leb_spec t (time (tf_world x))), (Z.ltb_spec (time (tf_world x)) (t + W)); cbn [andb]; try lia. by destruct Hd.
  - by destruct Hd.
  - lia.
Qed.

Lemma serve_limited L W key t l : 1 <= L → 1 <= W → ∀ s last cnt, sv_cfg s = cfg → lm_limit (lim s) = L → lm_window (lim s) = W →
  limited L W t (lm_entries (lim s) !! key) cnt last → Sorted Z.le (last :: map (λ x, time (fst x)) l) →
  let '(_, log) := serve l s in cnt + got key t W log <= 2 * L - 1.
Proof.
  intros HL HW. induction l as [|[w r] l IH]; intros s last cnt Hcfg El Ew Hlim Hs; cbn [serve].
  - destruct Hlim as [? _]. unfold got. cbn. lia.
  - cbn [map fst] in Hs. apply Sorted_inv in Hs as [Hs Hhd]. apply HdRel_inv in Hhd.
    destruct (handleDrip w r s) as [[s1 resp] sent] eqn:E. pose proof (ss_cfg _ _ (proj1 (handleDrip_spec _ _ _ _ _ _ E))) as Hcfg'. rewrite Hcfg in Hcfg'. apply step in E as [[Elim ->]|(k & ok & Ea & Hsent)]; [|..|done].
    + destruct (limited_event L W t _ cnt last (time w) HL HW Hhd Hlim) as (_ & _ & Hsame).
      specialize (IH s1 (time w) cnt Hcfg'). rewrite Elim in IH. specialize (IH El Ew Hsame Hs). by destruct (serve l s1).
    + pose proof (Allow_limited L W t key k cnt last (time w) (lim s) HL HW Hhd El Ew Hlim) as Ha. rewrite Ea in Ha.
      destruct Ha as (El' & Ew' & Hlim'). specialize (IH s1 (time w)). rewrite Hcfg' in IH. destruct (serve l s1) as [s2 log] eqn:Es. destruct sent as [tx|].
      * destruct (Hsent tx eq_refl) as [-> Hk]. rewrite got_cons. cbn [tf_world]. rewrite Hk. rewrite Z.add_assoc. by apply (IH _ eq_refl).
      * apply (IH _ eq_refl); [done|done| |done]. eapply limited_less; [|exact Hlim']. destruct Hlim as [? _].
        unfold hit. repeat case_match; lia.
Qed.
End OneLimiter.


Lemma serve_spec l s : let '(s', log) := serve l s in
  same_server s s' ∧ lm_limit (sv_ipLim s') = lm_limit (sv_ipLim s) ∧ lm_limit (sv_addrLim s') = lm_limit (sv_addrLim s) ∧
  Forall (λ x, admitted s x ∧ funded (sv_sender s) x) log.
Proof.
  assert (∀ now k l l' ok, Allow now k l = (l', ok) → lm_limit l' = lm_limit l) as Hal.
  { intros now k m m' ok. unfold Allow. repeat case_match; intros [= <- <-]; done. }
  revert s. induction l as [|[w r] l IH]; intros s; cbn [serve]; [by split_and!|].
  destruct (handleDrip w r s) as [[s1 resp] sent] eqn:E. apply handleDrip_spec in E as ([H1 H2 H3] & Hsent & Hip & Haddr).
  specialize (IH s1). destruct (serve l s1) as [s2 log]. destruct IH as ([H4 H5 H6] & Hi & Ha & Hlog). split_and!.
  - split; congruence.
  - rewrite Hi. destruct Hip as [[-> _]|(ok & Eip & _)]; [done|by eapply Hal].
  - rewrite Ha. destruct Haddr as [[-> _]|(addr & ok & Eaddr & _)]; [done|by eapply Hal].
  - assert (Forall (λ x, admitted s x ∧ funded (sv_sender s) x) log) as Hlog'.
    { eapply Forall_impl; [exact Hlog|]. intros x. unfold admitted. by rewrite H1, H2, H3. }
    destruct sent as [tx|]; [|done]. constructor; [by apply Hsent|done].
Qed.

(** A request within the limits that the mode admits and the node can carry out is paid. *)
Lemma handleDrip_paid w r s req addr tx raw hash : 1 <= lm_limit (sv_ipLim s) → 1 <= lm_limit (sv_addrLim s) →
  let ip := clientIP r (cf_TrustedProxy (sv_cfg s)) in
  rq_body r = Some req → normalizeAddress (dq_Address req) = Ok addr → admission s w addr (dq_CaptchaToken req) ip = None →
  0 < Remaining (wd_ipTime w) ip (sv_ipLim s) → 0 < Remaining (wd_addrTime w) addr (sv_addrLim s) →
  IsHexAddress addr = true → prepare (wd_chain w) (sv_sender s) (HexToAddress addr) = Ok (tx, raw) → ch_SendRaw (wd_chain w) raw = Ok hash →
  ∃ s' d, handleDrip w r s = (s', Paid d, Some tx) ∧ dr_TxHash d = hash ∧ dr_Amount d = sd_amount (sv_sender s).
Proof.
  intros Hip Had ip Eb En Ead Hr1 Hr2 Hhex Ep Es. unfold handleDrip. rewrite Eb, En. fold ip. rewrite Ead.
  pose proof (Allow_Remaining (wd_ipTime w) ip _ Hip) as A1. rewrite bool_decide_eq_true_2 in A1 by done.
  pose proof (Allow_Remaining (wd_addrTime w) addr _ Had) as A2. rewrite bool_decide_eq_true_2 in A2 by done.
  destruct (Allow _ ip _) as [l1 ok1]. cbn in A1. subst ok1. cbn [negb with_limits sv_addrLim].
  destruct (Allow _ addr _) as [l2 ok2]. cbn in A2. subst ok2. cbn [negb with_limits sv_sender].
  destruct (normalizeAddress_key _ _ En) as [Hk Hsp]. unfold Drip. unfold normalizeAddress at 1. rewrite Hsp, Hhex. cbn [negb wrap].
  rewrite hex_reads_back, Ep, Es. cbn [wrap rbind]. eexists _, _. split; [done|done].
Qed.

(** The transfers to [a], and those for the client [ip], in the window from [t]. *)
Definition got_address (a : Address) : Z → Z → list Transfer → Z := got wd_addrTime (λ x, address_key (lt_To (tf_tx x))) (address_key a).
Definition got_ip (cfg : Config) (ip : list Z) : Z → Z → list Transfer → Z :=
  got wd_ipTime (λ x, clientIP (tf_request x) (cf_TrustedProxy cfg)) ip.

Lemma limited_none L W t last : 1 <= L → 1 <= W → limited L W t None 0 last.
Proof. unfold limited. lia. Qed.

Lemma sorted_from times : Sorted Z.le times → ∃ last, Sorted Z.le (last :: times).
Proof. destruct times as [|x times]; intros Hs; [exists 0|exists x]; constructor; auto. constructor. lia. Qed.

Lemma serve_address a t l s : 1 <= lm_limit (sv_addrLim s) → 1 <= lm_window (sv_addrLim s) → lm_entries (sv_addrLim s) = ∅ →
  Sorted Z.le (map (λ x, wd_addrTime (fst x)) l) →
  got_address a t (lm_window (sv_addrLim s)) (snd (serve l s)) <= 2 * lm_limit (sv_addrLim s) - 1.
Proof.
  intros HL HW He [last Hs]%sorted_from.
  pose proof (serve_limited (sv_cfg s) sv_addrLim wd_addrTime (λ x, address_key (lt_To (tf_tx x)))) as G.
  refine (_ (G _ _ _ (address_key a) t l HL HW s last 0 eq_refl eq_refl eq_refl _ Hs)); [by destruct (serve l s)|..].
  - intros w r s1 s1' resp sent _ E. apply handleDrip_spec in E as (_ & _ & _ & [?|(k & ok & Ea & Ht)]); [by left|right].
    exists k, ok. split; [exact Ea|exact Ht].
  - rewrite He, lookup_empty. by apply limited_none.
Qed.

Lemma serve_ip ip t l s : 1 <= lm_limit (sv_ipLim s) → 1 <= lm_window (sv_ipLim s) → lm_entries (sv_ipLim s) = ∅ →
  Sorted Z.le (map (λ x, wd_ipTime (fst x)) l) →
  got_ip (sv_cfg s) ip t (lm_window (sv_ipLim s)) (snd (serve l s)) <= 2 * lm_limit (sv_ipLim s) - 1.
Proof.
  intros HL HW He [last Hs]%sorted_from.
  pose proof (serve_limited (sv_cfg s) sv_ipLim wd_ipTime (λ x, clientIP (tf_request x) (cf_TrustedProxy (sv_cfg s)))) as G.
  refine (_ (G _ _ _ ip t l HL HW s last 0 eq_refl eq_refl eq_refl _ Hs)); [by destruct (serve l s)|..].
  - intros w r s1 s1' resp sent Hc E. apply handleDrip_spec in E as (_ & _ & [?|(ok & Ea & Ht)] & _); [by left|right].
    rewrite Hc in Ea. eexists _, ok. split; [exact Ea|]. intros tx Htx. split; [by eapply Ht|done].
  - rewrite He, lookup_empty. by apply limited_none.
Qed.

Lemma Validate_positive c c' : Validate c = Ok c' →
  1 <= cf_PerAddress c' ∧ 1 <= cf_PerAddressWindow c' ∧ 1 <= cf_PerIP c' ∧ 1 <= cf_PerIPWindow c' ∧
  cf_PerAddress c' = cf_PerAddress c ∧ cf_PerAddressWindow c' = cf_PerAddressWindow c ∧ cf_PerIP c' = cf_PerIP c ∧ cf_PerIPWindow c' = cf_PerIPWindow c.
Proof.
  unfold Validate. do 7 (destruct (_ : bool); [done|]).
  destruct (Z.leb_spec (cf_PerAddress c) 0), (Z.leb_spec (cf_PerAddressWindow c) 0); cbn [orb]; try done.
  destruct (Z.leb_spec (cf_PerIP c) 0), (Z.leb_spec (cf_PerIPWindow c) 0); cbn [orb]; try done.
  set (c1 := mkConfig _ _ _ _ _ _ _ _ _ _ _ _ _ _ _ _ _ _). cbv zeta. destruct (negb _ && _); [done|]. intros Hm.
  assert (c' = c1) as ->. { destruct (cf_Mode c1); repeat match type of Hm with (if ?b then _ else _) = _ => destruct b end; congruence. }
  cbn. lia.
Qed.

(** C27. What the faucet can lose: over any sequence of requests, whatever the
    captcha service and the node answer, every transfer it submits is of the
    configured amount, on the configured chain and covered by its balance, and
    its recipient was admitted by the mode; no address and no client gets more
    than twice its limit less one in any window.  And the limits do not bite early: a
    request for which a limiter reports a remaining allowance, that the mode
    admits and the node can carry out, is paid. *)
Theorem faucet_pays_limited cfg sender captcha allow s0 l :
  NewServer cfg (Some sender) captcha allow = Ok s0 →
  Sorted Z.le (map (λ x, wd_ipTime (fst x)) l) → Sorted Z.le (map (λ x, wd_addrTime (fst x)) l) →
  let '(s, log) := serve l s0 in
  Forall (λ x, admitted s0 x ∧ funded sender x) log ∧
  (∀ a t, got_address a t (cf_PerAddressWindow cfg) log <= 2 * cf_PerAddress cfg - 1) ∧
  (∀ ip t, got_ip (sv_cfg s0) ip t (cf_PerIPWindow cfg) log <= 2 * cf_PerIP cfg - 1) ∧
  (∀ w r req addr tx raw hash, let ip := clientIP r (cf_TrustedProxy (sv_cfg s)) in
     rq_body r = Some req → normalizeAddress (dq_Address req) = Ok addr → admission s w addr (dq_CaptchaToken req) ip = None →
     0 < Remaining (wd_ipTime w) ip (sv_ipLim s) → 0 < Remaining (wd_addrTime w) addr (sv_addrLim s) → IsHexAddress addr = true →
     prepare (wd_chain w) sender (HexToAddress addr) = Ok (tx, raw) → ch_SendRaw (wd_chain w) raw = Ok hash →
     ∃ s' d, handleDrip w r s = (s', Paid d, Some tx) ∧ dr_TxHash d = hash ∧ dr_Amount d = sd_amount sender).
Proof.
  unfold NewServer. destruct (Validate cfg) as [cfg'|] eqn:Ev; [|done]. cbn [rbind]. apply Validate_positive in Ev as (V1 & V2 & V3 & V4 & <- & <- & <- & <-).
  destruct (_ && _); [done|]. intros [= <-] Hip Haddr. set (s0 := mkServer _ _ _ _ _ _).
  pose proof (serve_spec l s0) as Hspec. pose proof (λ a t, serve_address a t l s0 V1 V2 eq_refl Haddr) as Ga.
  pose proof (λ ip t, serve_ip ip t l s0 V3 V4 eq_refl Hip) as Gi.
  destruct (serve l s0) as [s log]. destruct Hspec as ([Hc Hsd _] & Hl1 & Hl2 & Hlog). split_and!; [exact Hlog|exact Ga|exact Gi|].
  intros w r req addr tx raw hash H1 H2 H3 H4 H5 H6 H7 H8. change sender with (sv_sender s0) in H7 |- *. rewrite <- Hsd in H7 |- *.
  eapply handleDrip_paid; eauto; [by rewrite Hl1|by rewrite Hl2].
Qed.
End Faucet.

(** *** Addresses of forty digits and a node with funds *)
#[local] Instance plain_address : EthAddress := {|
  IsHexAddress := λ s, bool_decide (length s = 42%nat);
  HexToAddress := λ s, match hex_DecodeString (drop 2 s) with Ok b => of_be b mod 256 ^ 20 | Err _ => 0 end;
  Address_Hex := λ a, ox ++ hex_EncodeToString (be_bytes 20 a);
|}.

Lemma lower_hex s : hex_text s → map lower s = s.
Proof.
  induction 1 as [|c s Hc _ IH]; [done|]. cbn [map]. rewrite IH. f_equal. unfold lower.
  destruct (Z.leb_spec 65 c), (Z.leb_spec c 90); cbn [andb]; lia.
Qed.

#[local] Instance plain_address_laws : EthAddressLaws.
Proof.
  assert (∀ a, map lower (Address_Hex a) = ox ++ hex_EncodeToString (be_bytes 20 a)) as Hl.
  { intros a. destruct (hex_encode_text (be_bytes 20 a) (be_bytes_ok _ _)) as (H1 & _). cbn [Address_Hex plain_address].
    change (map lower (ox ++ ?x)) with (ox ++ map lower x). by rewrite lower_hex. }
  split.
  - intros s. rewrite Hl. destruct (hex_encode_text (be_bytes 20 (HexToAddress s)) (be_bytes_ok _ _)) as (_ & H2 & _).
    set (a := HexToAddress s) in *. cbn [HexToAddress plain_address]. change (drop 2 (ox ++ ?x)) with x. rewrite H2.
    assert (0 <= a < 256 ^ 20) as Ha. { unfold a. cbn [HexToAddress plain_address]. destruct (hex_DecodeString (drop 2 s)); [apply Z.mod_pos_bound|]; lia. }
    rewrite (of_be_be_bytes_id 20 a) by exact Ha. apply Z.mod_small, Ha.
  - intros a. rewrite Hl. apply TrimSpace_ox. by apply hex_encode_text, be_bytes_ok.
Qed.

Definition demo_chain : Chain := mkChain (Ok 2205) (λ _, Ok 7) (λ _, Ok (2 * 10 ^ 18)) (λ _, Ok (str_bytes "0x01")).
Definition demo_sender : Sender (PrivateKey := unit) := mkSender tt 1 2205 (10 ^ 18) 21000 1000000000.
Definition demo_config : Config :=
  mkConfig (str_bytes ":80") (str_bytes "http") 2205 (str_bytes "0x01") (Some (10 ^ 18)) ModeDev [] CaptchaNone [] 1 (24 * hour) 10 hour 21000
    (Some 1000000000) false 0 false.
Definition demo_world (now : Z) : World := mkWorld now now (λ _ _, Err "unused") demo_chain.
Definition demo_request : Request := mkRequest (Some (mkDripRequest (Address_Hex 5) [])) [] [] (str_bytes "10.0.0.1:99").
Definition demo_requests : list (World * Request) := [(demo_world 0, demo_request); (demo_world 1, demo_request); (demo_world (24 * hour), demo_request)].
Definition demo_sign (tx : LegacyTx) (chainID : Z) (key : unit) : res LegacyTx := Ok tx.
Definition demo_marshal (tx : LegacyTx) : res (list Z) := Ok [lt_Nonce tx].

(** Of three requests the second comes too early. *)
Lemma faucet_pays_limited_witness : ∃ s0 s log,
  NewServer demo_config (Some demo_sender) false ∅ = Ok s0 ∧ serve demo_sign demo_marshal demo_requests s0 = (s, log) ∧ length log = 2%nat ∧
  ∀ a t, got_address a t (24 * hour) log <= 1.
Proof.
  destruct (NewServer demo_config (Some demo_sender) false ∅) as [s0|e] eqn:E0; [|discriminate E0].
  exists s0. assert (length (snd (serve demo_sign demo_marshal demo_requests s0)) = 2%nat) as Hlen.
  { injection E0 as <-. vm_compute. reflexivity. }
  pose proof (faucet_pays_limited demo_sign demo_marshal demo_config demo_sender false ∅ s0 demo_requests E0) as H.
  destruct (serve demo_sign demo_marshal demo_requests s0) as [s log]. exists s, log.
  destruct H as (_ & H & _).
  - change (Sorted Z.le [0; 1; 24 * hour]). repeat (constructor; [|by constructor]). by constructor.
  - change (Sorted Z.le [0; 1; 24 * hour]). repeat (constructor; [|by constructor]). by constructor.
  - split; [reflexivity|]. split; [reflexivity|]. split; [exact Hlen|]. exact H.
Defined.
